(* ===== verification/_CoqProject ===== *)
-Q . S2P
Prelude.v
Locker.v
BlockQueue.v
LstTimer.v
CStr.v
HttpConn.v
HttpRequest.v
HttpParse.v
HttpHandler.v
HttpResponse.v
SqlPool.v
HttpServe.v
HttpTerm.v
HttpResume.v
HttpPieces.v
ThreadPool.v
Log.v
Config.v
WebServer.v
ServerTable.v
EndToEnd.v
Service.v
Delivery.v
Clients.v
ConsistentHash.v
NetLog.v
Dbproxy.v
Logic.v
