(* ===== verification/Prelude.v ===== *)
(** * Verification of the CPP_Server repository

    The repository holds three C++ programs: a web server (src/ocean_http), the
    beginnings of an instant-messaging server (src/ocean_im) and of a network
    library (src/ocean_net).  Each component is translated statement by
    statement into executable definitions, and the theorems are about those
    definitions.

    ** The web server (src/ocean_http)

    [main] (main.cpp) reads the options ([config]), opens the log, connects to
    MySQL ([sql_connection_pool]), starts the workers ([threadpool]) and runs
    the event loop ([webserver]).  The loop owns two tables indexed by socket
    descriptor, one of connections ([http_conn]) and one of timers, and the
    list of timers sorted by expiry ([sort_timer_lst]).  It hands a readable
    connection to the workers through the request queue, in the proactor model
    after having read the data itself, in the reactor model before.  A worker
    borrows a MySQL connection, parses the request, and leaves the answer in
    the buffers of the connection.

    - Locker.v: [sem], [locker], [cond] of lock/locker.{h,cpp}.
    - BlockQueue.v: [block_queue] of log/block_queue.h; the class [BoundedFifo]
      is what the log needs of a queue, and [block_queue] an instance of it.
    - LstTimer.v: [sort_timer_lst] of timer/lst_timer.{h,cpp}, as pointers
      into a heap of [util_timer] objects.
    - CStr.v: the string functions of libc that the code calls.
    - HttpConn.v, HttpRequest.v, HttpResponse.v, HttpServe.v: [http_conn] of
      http/http_conn.{h,cpp}: its data with the line scanner and the parsers;
      [do_request] and [process_read]; [add_response] to [process_write];
      [init], [read_once], [process], [close_conn], [initmysql_result].
      HttpParse.v, HttpHandler.v, HttpTerm.v, HttpResume.v and HttpPieces.v
      hold their theorems.
    - SqlPool.v: [sql_connection_pool] and [connectionRAII] of cgimysql/.
    - ThreadPool.v: [threadpool<T>] of threadpool/threadpool.h; the class
      [Request] is what the template needs of its [T].
    - Log.v: [Log] of log/log.{h,cpp}, against [BoundedFifo].
    - Config.v: [config] of config.{h,cpp}.
    - WebServer.v: [webserver] of webserver.{h,cpp}, class [utils] of
      timer/lst_timer.cpp, and main.cpp; the connections are an instance of
      [Request].  ServerTable.v, EndToEnd.v, Delivery.v and Clients.v hold
      its theorems, Service.v the specification that they refine.

    ** The messaging server and the network library

    - ConsistentHash.v: the ring of oceanim/util/consistent_hash.h.
    - Dbproxy.v: [DbproxyServiceImpl] of oceanim/server/dbproxy, against the
      classes [Redis] (brpc) and [Soci] (SQL).
    - Logic.v: [LogicServiceImpl] of oceanim/server/logic, and dbproxy.cpp.
    - NetLog.v: levels, events, pattern parser, appenders and loggers of
      src/ocean_net/src/log.{h,cpp}.

    ** How the code is modelled

    A function that may fail returns a [res]: a value, or the reason for which
    C++ gives none ([halt]: an index outside its array, a null or deleted
    pointer, an uninitialised value, a missing return, a thread that sleeps).
    A method is a state-passing function [ST S A] over the record of its
    object; [zoom] runs it inside a larger object.  Members that no constructor
    sets are [option]s.  Integers are [Z] with [to_int], [to_u32], [to_u64] and
    [to_long] where the code converts; [char] arrays are lists of [ascii], read
    and written through [rd] and [wr], and pointers into them are offsets.

    A call that other threads can interrupt is cut where it acquires or
    releases something: BlockQueue.v, SqlPool.v and ThreadPool.v each have the
    program points of a thread, the atomic [part] between two of them, and a
    step relation over any number of threads; their invariants are proved by
    induction on the steps.  The semaphore and the mutex block; there is no
    fairness.  The class [Refines] says that such steps, seen through an
    abstraction, are atomic steps of a specification; the two pools are
    instances of it.

    Loops that are not structural take fuel, and [Diverges] is running out of
    it.  The fuel is the length of the timer list plus one for its loops, the
    number of unread characters plus one for [parse_line] and plus two for
    [process_read], the room in the buffer plus one for [read_once]; that it is
    enough is proved ([timer_list_reachable], [parse_line_correct],
    [process_read_terminates], [connection_typed]).

    Parameters stand for code that is not in src/: [mysql_query] and the other
    calls of the MySQL library, [stat] and [mmap], [fopen], the clock, what a
    socket delivers and [accept] returns, [crc32c], brpc, soci and yaml-cpp.
    System calls that return nothing of interest are a list of records in the
    order in which they are made.

    ** What the theorems show

    - Data structures: the timer list stays a sorted, well-linked, leak-free
      list and its operations are those of a sorted list ([LstTimer]); the
      circular queue is a bounded FIFO under every interleaving ([BlockQueue]);
      the ring finds the owner of a hash, and changes move only the hashes they
      should ([ConsistentHash]).
    - Threads: connections of the pool are neither lost nor duplicated
      ([SqlPool]); requests are taken in order, nobody sleeps with the mutex,
      and every request is taken in the end ([ThreadPool.pool_drains]); both
      pools refine specifications without mutex and semaphore
      ([pool_implements_queue], [pool_implements_counter]).
    - HTTP: a printed request is parsed back ([HttpParse]); the handler answers
      files, login and registration as it should on every branch
      ([HttpHandler]); the answer is exact and stays in its buffer
      ([HttpResponse]); arrays keep their sizes, indices stay ordered and the
      loops end ([HttpTerm]); a request may arrive in any pieces, whatever the
      event loop and the workers do to the connection in between
      ([HttpResume]), and is answered when its last byte is there, not before
      ([HttpPieces]).
    - The server: tables, timers and counters stay consistent under every
      sequence of events ([ServerTable]); a request for a file goes from the
      socket to its answer in both models, a login and a registration to the
      right page ([EndToEnd]).  The requests of any number of connections,
      files, logins and registrations, may come in pieces, mixed in any order,
      each piece one round of the event loop, the queue and a worker: the server
      then implements the atomic service of [Service], which executes a request
      when its last piece comes; the theorem is proved against the class
      [EventModel], whose instances are the proactor and the reactor
      ([Delivery]), and for the clients that the event loop has just accepted it
      goes from the connection to the answer ([Clients]).
    - Logs, options and messages: lines are delivered ([Log]), options are read
      back ([Config]), sessions and messages are stored and found ([Dbproxy]),
      the pattern parser is its structural description ([NetLog]).
    - The other theorems state what the code does where it does not do what it
      means to: [ctor_indeterminate], [deal_timer_twice], [item_scan_diverges],
      [queries_without_from], [first_file_name] and others.
      [ctor_indeterminate] bounds the theorems about requests: they assume that
      the queue's bound, the actor model and the connection pool hold values,
      which the pool's constructor does not store.

    ** Not modelled

    The text of the web server's log lines (only whether printing them is
    defined); [sigaction] masks and errors of the system calls that the code
    ignores; weak memory: a thread sees the last value written.  The programs
    access, idgen, logic and client of src/ocean_im are empty, error.{h,cpp}
    and initialize.{h,cpp} call glog and gflags only, the .proto files are
    input of a generator; fiber, mutex and noncopyable of src/ocean_net have no
    code, and [LoggerManager] no definition.  src/ocean_im/thirds is vendored. *)

From Stdlib Require Import ZArith Lia Ascii String.
From stdpp Require Export base numbers list list_numbers option gmap strings.

#[global] Set Default Goal Selector "!".
#[global] Open Scope Z_scope.

(** ** Calls that do not return

    A definition that models C++ code which may fail returns a [res]: the
    value, or the reason for which the call does not return a value. *)

Inductive halt : Set :=
| OutOfBounds      (* an index outside the array object *)
| NullDeref        (* a null pointer dereferenced or passed to a libc function *)
| Dangling         (* a pointer to an object that was deleted *)
| Indeterminate    (* the value of an object that was never initialised *)
| FlowOffEnd       (* the end of a non-void function reached without a return *)
| EmptyContainer   (* front()/begin() dereferenced on an empty container *)
| DivByZero        (* a division or remainder by zero *)
| SignedOverflow   (* a signed sum that its type cannot hold *)
| AssertFail       (* an assert that does not hold *)
| ExitCall         (* a call of exit() *)
| Thrown           (* an exception that leaves the function *)
| InUse            (* an object destroyed while a thread uses it *)
| Blocks           (* the calling thread sleeps until another thread acts *)
| Diverges.        (* a loop that does not end within its fuel *)

#[export] Instance halt_eq_dec : EqDecision halt.
Proof. solve_decision. Defined.

Inductive res (A : Type) : Type :=
| Ok (a : A)
| Halt (h : halt).
Arguments Ok {A} a.
Arguments Halt {A} h.

#[export] Instance res_ret : MRet res := fun A a => Ok a.
#[export] Instance res_bind : MBind res := fun A B f m =>
  match m with Ok a => f a | Halt u => Halt u end.

Definition of_option {A} (u : halt) (o : option A) : res A :=
  match o with Some a => Ok a | None => Halt u end.

Definition is_ok {A} (m : res A) : bool :=
  match m with Ok _ => true | Halt _ => false end.

(** ** State passing over [res] *)

Definition ST (S A : Type) : Type := S -> res (A * S).

#[export] Instance ST_ret S : MRet (ST S) := fun A a s => Ok (a, s).
#[export] Instance ST_bind S : MBind (ST S) := fun A B f m s =>
  match m s with Ok (a, s') => f a s' | Halt u => Halt u end.

Definition get {S} : ST S S := fun s => Ok (s, s).
Definition gets {S A} (f : S -> A) : ST S A := fun s => Ok (f s, s).
Definition put {S} (s : S) : ST S unit := fun _ => Ok (tt, s).
Definition modify {S} (f : S -> S) : ST S unit := fun s => Ok (tt, f s).
Definition lift {S A} (m : res A) : ST S A := fun s =>
  match m with Ok a => Ok (a, s) | Halt u => Halt u end.
Definition throw {S A} (u : halt) : ST S A := fun _ => Halt u.

(** Run a computation on the part of a larger state that [view] reads and
    [upd] writes back. *)
Definition zoom {S T A} (view : S -> T) (upd : T -> S -> S) (m : ST T A) : ST S A := fun s =>
  match m (view s) with
  | Ok (a, t) => Ok (a, upd t s)
  | Halt u => Halt u
  end.

(** ** Record update

    [r <| f := v |>] is the C++ assignment [r.f = v]; a record type is made
    updatable by an instance of [Settable] that eta-expands it. *)

Class Settable (R : Type) := eta_of : R -> R.
Class Setter {R T} (proj : R -> T) := set : (T -> T) -> R -> R.
Arguments set {R T} proj {_} f r.

Ltac build_setter :=
  match goal with
  | |- @Setter ?R ?T ?proj =>
    let e := constr:(_ : Settable R) in
    let mk := eval hnf in e in
    let f := fresh "f" in let r := fresh "r" in
    unfold Setter; intros f r;
    let t := eval cbv beta in (mk r) in
    let t' := eval pattern (proj r) in t in
    match t' with
    | ?g _ => let b := eval cbv beta in (g (f (proj r))) in exact b
    end
  end.
#[export] Hint Extern 1 (Setter _) => build_setter : typeclass_instances.

Declare Scope cpp_scope.
Delimit Scope cpp_scope with cpp.
Notation "r <| f := v |>" := (set f (fun _ => v) r)
  (at level 1, left associativity, f at level 1) : cpp_scope.
Notation "r <| f ::= g |>" := (set f g r)
  (at level 1, left associativity, f at level 1) : cpp_scope.
#[global] Open Scope cpp_scope.

(** ** Machine integers

    [int], [long], [int64_t] are two's complement; the unsigned types wrap. *)

Definition wrap_u (w : Z) (z : Z) : Z := z `mod` 2 ^ w.
Definition wrap_s (w : Z) (z : Z) : Z := (z + 2 ^ (w - 1)) `mod` 2 ^ w - 2 ^ (w - 1).
Definition to_int (z : Z) : Z := wrap_s 32 z.
Definition to_long (z : Z) : Z := wrap_s 64 z.
Definition to_u32 (z : Z) : Z := wrap_u 32 z.
Definition to_u64 (z : Z) : Z := wrap_u 64 z.

Definition INT_MAX : Z := 2147483647.
Definition LONG_MAX : Z := 9223372036854775807.
Definition UINT32_MAX : Z := 4294967295.

(** ** Arrays

    [rd] and [wr] are [a[i]] and [a[i] = v] with the bounds of the array
    object written out. *)

Definition rd {A} (a : list A) (i : Z) : res A :=
  if bool_decide (0 <= i) then of_option OutOfBounds (a !! Z.to_nat i) else Halt OutOfBounds.

Definition wr {A} (a : list A) (i : Z) (v : A) : res (list A) :=
  if bool_decide (0 <= i < Z.of_nat (length a)) then Ok (<[Z.to_nat i := v]> a)
  else Halt OutOfBounds.

(** ** Tactics *)

(** Invert an equation between [res]/pair/option constructors, evaluating the
    binds in front of it. *)
Ltac inv_res :=
  repeat match goal with
  | H : Ok _ = Ok _ |- _ => injection H as H; subst
  | H : Ok _ = Halt _ |- _ => discriminate H
  | H : Halt _ = Ok _ |- _ => discriminate H
  | H : Halt _ = Halt _ |- _ => injection H as H; subst
  | H : (_, _) = (_, _) |- _ => injection H as H; subst
  | H : Some _ = Some _ |- _ => injection H as H; subst
  | H : Some _ = None |- _ => discriminate H
  | H : None = Some _ |- _ => discriminate H
  end.

(** Execute the monadic operations in front of the goal. *)
Ltac exec_unfold :=
  cbv [mbind mret ST_bind ST_ret res_bind res_ret get gets put modify lift throw zoom].
Ltac exec := exec_unfold; cbn -[Z.eqb Z.leb Z.ltb].

(** Split the [if]/[match] scrutinees of the goal or of a hypothesis. *)
Ltac split_ifs :=
  repeat (case_match; simplify_eq/=; try done).

(** Reflect the boolean tests the code uses. *)
Ltac reflect_bools :=
  repeat match goal with
  | H : bool_decide _ = true |- _ => apply bool_decide_eq_true_1 in H
  | H : bool_decide _ = false |- _ => apply bool_decide_eq_false_1 in H
  | H : (_ =? _) = true |- _ => apply Z.eqb_eq in H
  | H : (_ =? _) = false |- _ => apply Z.eqb_neq in H
  | H : (_ <? _) = true |- _ => apply Z.ltb_lt in H
  | H : (_ <? _) = false |- _ => apply Z.ltb_ge in H
  | H : (_ <=? _) = true |- _ => apply Z.leb_le in H
  | H : (_ <=? _) = false |- _ => apply Z.leb_gt in H
  | H : (_ && _)%bool = true |- _ => apply andb_prop in H as [? ?]
  | H : (_ || _)%bool = false |- _ => apply orb_false_elim in H as [? ?]
  end.

(** ** Lemmas on the monads and on arrays *)

Lemma res_bind_ok {A B} (m : res A) (f : A -> res B) b :
  m ≫= f = Ok b <-> exists a, m = Ok a /\ f a = Ok b.
Proof. destruct m; unfold mbind; simpl; naive_solver. Qed.

Lemma ST_bind_ok {S A B} (m : ST S A) (f : A -> ST S B) s b s' :
  (m ≫= f) s = Ok (b, s') <-> exists a s1, m s = Ok (a, s1) /\ f a s1 = Ok (b, s').
Proof.
  unfold mbind, ST_bind. destruct (m s) as [[a s1]|u]; [|naive_solver].
  split; [by eauto|]. intros (a' & s1' & Heq & H). by simplify_eq.
Qed.

Lemma ST_bind_step {S A B} (m : ST S A) (f : A -> ST S B) s a s' :
  m s = Ok (a, s') -> (m ≫= f) s = f a s'.
Proof. intros H. unfold mbind, ST_bind. by rewrite H. Qed.

Lemma ST_bind_halt {S A B} (m : ST S A) (f : A -> ST S B) s h :
  m s = Halt h -> (m ≫= f) s = Halt h.
Proof. intros H. unfold mbind, ST_bind. by rewrite H. Qed.

Lemma lift_ok {S A} (m : res A) (s : S) a : m = Ok a -> lift m s = Ok (a, s).
Proof. by intros ->. Qed.

Lemma lift_inv {S A} (m : res A) (s s' : S) a : lift m s = Ok (a, s') -> m = Ok a /\ s' = s.
Proof. unfold lift. destruct m; naive_solver. Qed.

Lemma zoom_ok {S T A} (view : S -> T) upd (m : ST T A) s a t :
  m (view s) = Ok (a, t) -> zoom view upd m s = Ok (a, upd t s).
Proof. intros H. unfold zoom. by rewrite H. Qed.

(** Run the first operation of a sequence, [tac] proving what it returns. *)
Tactic Notation "st_step" tactic3(tac) :=
  etransitivity; [eapply ST_bind_step; tac|]; cbv beta.
Tactic Notation "st_modify" := st_step reflexivity.

Lemma rd_lookup {A} (a : list A) i v :
  rd a i = Ok v <-> 0 <= i /\ a !! Z.to_nat i = Some v.
Proof.
  unfold rd, of_option. case_bool_decide as Hi; [|naive_solver].
  destruct (a !! Z.to_nat i); naive_solver.
Qed.

Lemma rd_ok {A} (a : list A) i :
  0 <= i < Z.of_nat (length a) -> exists v, rd a i = Ok v.
Proof.
  intros Hi. destruct (lookup_lt_is_Some_2 a (Z.to_nat i)) as [v Hv]; [lia|].
  exists v. apply rd_lookup. split; [lia|done].
Qed.

Lemma rd_oob {A} (a : list A) i :
  ~ (0 <= i < Z.of_nat (length a)) -> rd a i = Halt OutOfBounds.
Proof.
  intros Hi. unfold rd. case_bool_decide; [|done].
  by rewrite lookup_ge_None_2 by lia.
Qed.

Lemma wr_ok {A} (a : list A) i v :
  0 <= i < Z.of_nat (length a) -> wr a i v = Ok (<[Z.to_nat i := v]> a).
Proof. intros Hi. unfold wr. by rewrite bool_decide_eq_true_2. Qed.

Lemma wr_inv {A} (a : list A) i v a' :
  wr a i v = Ok a' ->
  0 <= i < Z.of_nat (length a) /\ a' = <[Z.to_nat i := v]> a /\ length a' = length a.
Proof.
  unfold wr. case_bool_decide; [|done]. intros [= <-]. by rewrite length_insert.
Qed.

Lemma wr_oob {A} (a : list A) i v :
  ~ (0 <= i < Z.of_nat (length a)) -> wr a i v = Halt OutOfBounds.
Proof. intros Hi. unfold wr. by rewrite bool_decide_eq_false_2. Qed.

Lemma app_snoc {A} (l : list A) x k : l ++ x :: k = (l ++ [x]) ++ k.
Proof. by rewrite <- app_assoc. Qed.

Lemma rd_app {A} (pre : list A) x post i :
  i = Z.of_nat (length pre) -> rd (pre ++ x :: post) i = Ok x.
Proof.
  intros ->. apply rd_lookup. split; [lia|]. rewrite Nat2Z.id. by apply list_lookup_middle.
Qed.

Lemma wr_app {A} (pre : list A) x y post i :
  i = Z.of_nat (length pre) -> wr (pre ++ x :: post) i y = Ok (pre ++ y :: post).
Proof.
  intros ->. rewrite wr_ok by (rewrite length_app; simpl; lia). f_equal.
  rewrite Nat2Z.id, <- (Nat.add_0_r (length pre)). by rewrite insert_app_r.
Qed.

Section filters.
Context {A : Type} (P : A -> Prop) `{forall x, Decision (P x)}.

Lemma filter_keeps_all (l : list A) : Forall P l -> filter P l = l.
Proof. induction 1; [done|]. rewrite filter_cons_True by done. by f_equal. Qed.

Lemma filter_keeps_none (l : list A) : Forall (fun x => ~ P x) l -> filter P l = [].
Proof. induction 1; [done|]. by rewrite filter_cons_False. Qed.

Lemma Forall_filter_of (Q : A -> Prop) (l : list A) : Forall Q l -> Forall Q (filter P l).
Proof. rewrite !Forall_forall. intros HQ x [_ Hx]%list_elem_of_filter. eauto. Qed.
End filters.

(** ** Threads

    A set of threads is the list of their program points; a step replaces one
    of them. *)
Section threads.
Context {P : Type} (weight : P -> nat) (locked : P -> bool).

Lemma threads_split (l : list P) (t : nat) a : l !! t = Some a ->
  exists l1 l2, l = l1 ++ a :: l2 /\ forall a', <[t := a']> l = l1 ++ a' :: l2.
Proof.
  intros Ht. exists (take t l), (drop (S t) l). split; [by rewrite take_drop_middle|].
  intros a'. apply insert_take_drop. by eapply lookup_lt_Some.
Qed.

Lemma sum_weight_mid l1 a l2 :
  sum_list_with weight (l1 ++ a :: l2) =
    (sum_list_with weight l1 + (weight a + sum_list_with weight l2))%nat.
Proof. by rewrite sum_list_with_app. Qed.

Lemma sum_weight_replicate n a : weight a = 0%nat -> sum_list_with weight (replicate n a) = 0%nat.
Proof. intros H. induction n as [|n IH]; [done|]. simpl. by rewrite H, IH. Qed.

(** Mutual exclusion is kept when a thread moves: the mutex is unchanged, or
    was free, or was its own. *)
Lemma lock_step (l : list P) (t : nat) a a' (m m' : option nat) :
  l !! t = Some a ->
  (forall t' b, l !! t' = Some b -> locked b = true -> m = Some t') ->
  (locked a' = true -> m' = Some t) -> (m' = m \/ m = None \/ locked a = true) ->
  forall t' b, <[t := a']> l !! t' = Some b -> locked b = true -> m' = Some t'.
Proof.
  intros Ht Hold Hnew Hm t' b Hb Hlk. destruct (decide (t' = t)) as [->|Hne].
  - rewrite list_lookup_insert_eq in Hb by (by eapply lookup_lt_Some). simplify_eq. auto.
  - rewrite list_lookup_insert_ne in Hb by done. specialize (Hold t' b Hb Hlk) as Hm'.
    destruct Hm as [->|[->|Ha]]; [done|done|]. assert (m = Some t) by eauto. congruence.
Qed.

(** The mutex is held only by a thread that is in a critical section. *)
Lemma owner_step (l : list P) (t : nat) a a' (m m' : option nat) :
  l !! t = Some a ->
  (forall t', m = Some t' -> exists b, l !! t' = Some b /\ locked b = true) ->
  (locked a = true -> m' <> None -> locked a' = true) ->
  (m' = m \/ m' = None \/ (m' = Some t /\ locked a' = true)) ->
  forall t', m' = Some t' -> exists b, <[t := a']> l !! t' = Some b /\ locked b = true.
Proof.
  intros Ht Hold Hkeep Hm t' E.
  assert (<[t := a']> l !! t = Some a') as Hnew by (apply list_lookup_insert_eq; by eapply lookup_lt_Some).
  destruct Hm as [->|[->|[-> Ha']]]; [|done|by simplify_eq; eauto].
  destruct (Hold t' E) as (b & Hb & Hlk). destruct (decide (t' = t)) as [->|Hne].
  - simplify_eq. exists a'. split; [done|]. by apply Hkeep.
  - exists b. by rewrite list_lookup_insert_ne.
Qed.
End threads.

(** ** Lemmas on machine integers *)

Lemma wrap_u_id w z : 0 <= z < 2 ^ w -> wrap_u w z = z.
Proof. apply Z.mod_small. Qed.

Lemma wrap_u_range w z : 0 <= w -> 0 <= wrap_u w z < 2 ^ w.
Proof. intros. apply Z.mod_pos_bound. by apply Z.pow_pos_nonneg. Qed.

Lemma wrap_s_id w z : 0 < w -> - 2 ^ (w - 1) <= z < 2 ^ (w - 1) -> wrap_s w z = z.
Proof.
  intros Hw Hz. unfold wrap_s.
  assert (2 ^ w = 2 * 2 ^ (w - 1)) as E.
  { rewrite <- Z.pow_succ_r by lia. f_equal. lia. }
  rewrite Z.mod_small by lia. lia.
Qed.

Lemma to_int_id z : -2147483648 <= z <= INT_MAX -> to_int z = z.
Proof. intros. apply wrap_s_id; [lia|]. unfold INT_MAX in *. simpl. lia. Qed.

Lemma to_u32_id z : 0 <= z <= UINT32_MAX -> to_u32 z = z.
Proof. intros. apply wrap_u_id. unfold UINT32_MAX in *. lia. Qed.

(** Two offsets of a window shorter than the modulus hit different slots. *)
Lemma mod_window_inj a i j m :
  0 < m -> 0 <= i < m -> 0 <= j < m -> (a + i) `mod` m = (a + j) `mod` m -> i = j.
Proof.
  intros Hm Hi Hj E.
  pose proof (Z.div_mod (a + i) m ltac:(lia)). pose proof (Z.div_mod (a + j) m ltac:(lia)).
  set (k := (a + i) / m - (a + j) / m).
  assert (i - j = m * k) by (unfold k; lia).
  destruct (Z.lt_trichotomy k 0) as [?|[?|?]]; nia.
Qed.

(** ** Refinement

    The steps of an implementation, seen through [abs], are nothing or single
    steps of a specification, as long as [inv] holds, which they keep. *)

Class Refines {C A : Type} (cstep : relation C) (astep : relation A) (inv : C -> Prop) (abs : C -> A) : Prop := {
  refines_inv c c' : inv c -> cstep c c' -> inv c';
  refines_step c c' : inv c -> cstep c c' -> abs c' = abs c \/ astep (abs c) (abs c')
}.

Section refines.
Context {C A : Type} {cstep : relation C} {astep : relation A} {inv : C -> Prop} {abs : C -> A}.
Context `{!Refines cstep astep inv abs}.

Lemma refines_reach c c' : inv c -> rtc cstep c c' -> inv c' /\ rtc astep (abs c) (abs c').
Proof.
  intros Hi Hr. induction Hr as [c|c c1 c' Hstep _ IH]; [done|].
  destruct (IH (refines_inv c c1 Hi Hstep)) as [Hi' Hr']. split; [done|].
  destruct (refines_step c c1 Hi Hstep) as [<-|?]; [done|by eapply rtc_l].
Qed.
End refines.

Create HintDb cpp discriminated.
#[export] Hint Resolve rd_oob wr_ok wr_oob : cpp.
