(* ===== verification/Locker.v ===== *)
(** * Locker: the pthread wrappers of ocean_http/lock/locker.{h,cpp}

    A semaphore is its counter, a mutex its owner, a condition variable the
    set of the threads asleep in it.  A call that would put the calling
    thread to sleep is [Halt Blocks]; the wrappers translate the return code
    of the pthread call into a [bool], as the class methods do. *)

From S2P Require Import Prelude.

(** A thread of the process. *)
Notation tid := nat (only parsing).

Definition SEM_VALUE_MAX : Z := 2147483647.

Module sem.

Record sem := { m_sem : Z }.
#[export] Instance sem_settable : Settable sem := fun s => {| m_sem := m_sem s |}.

(** [sem_init] takes the value as an [unsigned int] and fails above
    [SEM_VALUE_MAX]; the constructor then throws. *)
Definition ctor_num (num : Z) : res sem :=
  if SEM_VALUE_MAX <? to_u32 num then Halt Thrown else Ok {| m_sem := to_u32 num |}.

Definition ctor : res sem := ctor_num 0.

(** [interrupted] says that a signal handler ran while the thread was in
    [sem_wait], which then returns -1 and leaves the counter alone. *)
Definition wait (interrupted : bool) : ST sem bool := fun s =>
  if interrupted then Ok (false, s)
  else if 0 <? m_sem s then Ok (true, s <| m_sem := m_sem s - 1 |>)
  else Halt Blocks.

Definition post : ST sem bool := fun s =>
  if SEM_VALUE_MAX <=? m_sem s then Ok (false, s)
  else Ok (true, s <| m_sem := m_sem s + 1 |>).

(** [sem_destroy]; the counter does not tell who sleeps in [sem_wait]. *)
Definition dtor (s : sem) : res unit := Ok tt.

Definition wf (s : sem) : Prop := 0 <= m_sem s <= SEM_VALUE_MAX.

Lemma ctor_num_wf num s : ctor_num num = Ok s -> wf s.
Proof.
  unfold ctor_num, wf. case_match; [done|]. intros [= <-]. reflect_bools. simpl.
  pose proof (wrap_u_range 32 num ltac:(lia)). unfold to_u32 in *. lia.
Qed.

Lemma wait_wf i s b s' : wf s -> wait i s = Ok (b, s') -> wf s'.
Proof.
  unfold wait, wf. intros ? H. repeat case_match; inv_res; try done. reflect_bools. simpl. lia.
Qed.

Lemma post_wf s b s' : wf s -> post s = Ok (b, s') -> wf s'.
Proof.
  unfold post, wf. intros ? H. repeat case_match; inv_res; try done. reflect_bools. simpl. lia.
Qed.

End sem.

Module locker.

Record locker := { m_mutex : option tid }.

Definition ctor : locker := {| m_mutex := None |}.

(** A default mutex blocks its own holder too. *)
Definition lock (t : tid) : ST locker bool := fun l =>
  match m_mutex l with
  | None => Ok (true, {| m_mutex := Some t |})
  | Some _ => Halt Blocks
  end.

Definition unlock : ST locker bool := fun _ => Ok (true, {| m_mutex := None |}).

(** [pthread_mutex_destroy] of a mutex that is held is undefined. *)
Definition dtor (l : locker) : res unit :=
  match m_mutex l with None => Ok tt | Some _ => Halt InUse end.

(** The code only hands [get()] to [cond::wait]; the mutex itself. *)
Definition get (l : locker) : option tid := m_mutex l.

End locker.

Module cond.

(** The threads asleep in [pthread_cond_wait] that no wake-up has reached. *)
Record cond := { m_cond : gset tid }.

Definition ctor : cond := {| m_cond := ∅ |}.

(** [pthread_cond_destroy] with threads asleep in it is undefined. *)
Definition dtor (c : cond) : res unit :=
  if bool_decide (m_cond c = ∅) then Ok tt else Halt InUse.

(** [wait(mutex)] releases the mutex and falls asleep in one step; its second
    half, the re-acquisition, is the waker's caller running [locker.lock]. *)
Definition wait (t : tid) (c : cond) (l : locker.locker) : cond * locker.locker :=
  ({| m_cond := {[ t ]} ∪ m_cond c |}, {| locker.m_mutex := None |}).

Definition timewait := wait.

Definition signal (woken : option tid) : ST cond bool := fun c =>
  Ok (true, match woken with
            | Some t => {| m_cond := m_cond c ∖ {[ t ]} |}
            | None => c
            end).

Definition broadcast : ST cond bool := fun _ => Ok (true, {| m_cond := ∅ |}).

End cond.
