(* ===== verification/BlockQueue.v ===== *)
(** * BlockQueue: the bounded blocking queue of ocean_http/log/block_queue.h

    The circular array with its two indices, every method of the class with
    its locking, and the interleavings of the producers and consumers that
    share one queue. *)

From S2P Require Import Prelude Locker.

Module block_queue.

Section queue.
Context {T : Type} (default : T).

Record block_queue := mk {
  m_mutex : locker.locker;
  m_cond : cond.cond;
  m_array : list T;
  m_size : Z;
  m_max_size : Z;
  m_front : Z;
  m_back : Z
}.

#[export] Instance block_queue_settable : Settable block_queue := fun q =>
  mk (m_mutex q) (m_cond q) (m_array q) (m_size q) (m_max_size q) (m_front q) (m_back q).

(** [new T[max_size]] initialises the elements with [T()] for a class with a
    default constructor, as the [std::string] of the log is; [default] is that
    value. *)
Definition ctor (max_size : Z) : res block_queue :=
  if max_size <=? 0 then Halt ExitCall
  else Ok (mk locker.ctor cond.ctor (replicate (Z.to_nat max_size) default) 0 max_size (-1) (-1)).

Definition lock_ (t : tid) : ST block_queue unit :=
  zoom m_mutex (fun l q => q <| m_mutex := l |>) (_ ← locker.lock t; mret tt).
Definition unlock_ : ST block_queue unit :=
  zoom m_mutex (fun l q => q <| m_mutex := l |>) (_ ← locker.unlock; mret tt).
Definition broadcast_ : ST block_queue unit :=
  zoom m_cond (fun c q => q <| m_cond := c |>) (_ ← cond.broadcast; mret tt).

(** The body of the destructor, then the members from the last to the first. *)
Definition dtor (t : tid) : ST block_queue unit :=
  _ ← lock_ t;
  _ ← modify (fun q => q <| m_array := [] |>);
  _ ← unlock_;
  q ← get;
  _ ← lift (cond.dtor (m_cond q));
  lift (locker.dtor (m_mutex q)).

Definition clear (t : tid) : ST block_queue unit :=
  _ ← lock_ t;
  _ ← modify (fun q => q <| m_size := 0 |> <| m_front := -1 |> <| m_back := -1 |>);
  unlock_.

Definition full (t : tid) : ST block_queue bool :=
  _ ← lock_ t;
  q ← get;
  if m_max_size q <=? m_size q then (_ ← unlock_; mret true) else (_ ← unlock_; mret false).

Definition empty (t : tid) : ST block_queue bool :=
  _ ← lock_ t;
  q ← get;
  if 0 =? m_size q then (_ ← unlock_; mret true) else (_ ← unlock_; mret false).

(** [front(T &value)] and [back(T &value)]: the result is [None] where the
    code returns false, the value stored through the reference otherwise. *)
Definition front (t : tid) : ST block_queue (option T) :=
  _ ← lock_ t;
  q ← get;
  if 0 =? m_size q then (_ ← unlock_; mret None)
  else
    v ← lift (rd (m_array q) (m_front q));
    _ ← unlock_;
    mret (Some v).

Definition back (t : tid) : ST block_queue (option T) :=
  _ ← lock_ t;
  q ← get;
  if 0 =? m_size q then (_ ← unlock_; mret None)
  else
    v ← lift (rd (m_array q) (m_back q));
    _ ← unlock_;
    mret (Some v).

Definition size (t : tid) : ST block_queue Z :=
  _ ← lock_ t;
  tmp ← gets m_size;
  _ ← unlock_;
  mret tmp.

Definition max_size (t : tid) : ST block_queue Z :=
  _ ← lock_ t;
  tmp ← gets m_max_size;
  _ ← unlock_;
  mret tmp.

Definition push (t : tid) (item : T) : ST block_queue bool :=
  _ ← lock_ t;
  q ← get;
  if m_max_size q <=? m_size q then
    _ ← broadcast_;
    _ ← unlock_;
    mret false
  else
    _ ← modify (fun q => q <| m_back := Z.rem (m_back q + 1) (m_max_size q) |>);
    q ← get;
    a ← lift (wr (m_array q) (m_back q) item);
    _ ← modify (fun q => q <| m_array := a |> <| m_size := m_size q + 1 |>);
    _ ← broadcast_;
    _ ← unlock_;
    mret true.

(** What a call of [pop] has done when it stops: returned, with the item
    stored through the reference when it returns true, or fallen asleep. *)
Inductive pop_result :=
| PopTrue (item : T)
| PopFalse
| PopSleeps.

(** The end of both [pop]s: take the front element and leave. *)
Definition take_front : ST block_queue pop_result :=
  _ ← modify (fun q => q <| m_front := Z.rem (m_front q + 1) (m_max_size q) |>);
  q ← get;
  item ← lift (rd (m_array q) (m_front q));
  _ ← modify (fun q => q <| m_size := m_size q - 1 |>);
  _ ← unlock_;
  mret (PopTrue item).

Definition sleep_ (t : tid) : ST block_queue unit :=
  modify (fun q =>
    let '(c, l) := cond.wait t (m_cond q) (m_mutex q) in
    q <| m_cond := c |> <| m_mutex := l |>).

(** [pop(T &item)] from the loop test on, with the mutex held. *)
Definition pop_loop (t : tid) : ST block_queue pop_result :=
  q ← get;
  if m_size q <=? 0 then (_ ← sleep_ t; mret PopSleeps) else take_front.

Definition pop (t : tid) : ST block_queue pop_result :=
  _ ← lock_ t;
  pop_loop t.

(** The sleeper is woken and has the mutex again; [wait_ok] is the result of
    [m_cond.wait]. *)
Definition pop_resume (t : tid) (wait_ok : bool) : ST block_queue pop_result :=
  _ ← lock_ t;
  if wait_ok then pop_loop t else (_ ← unlock_; mret PopFalse).

(** The absolute time [pop(item, ms_timeout)] hands to [timewait], from the
    seconds that [gettimeofday] returned: (tv_sec, tv_nsec). *)
Definition deadline (now_sec ms_timeout : Z) : Z * Z :=
  (now_sec + Z.quot ms_timeout 1000, Z.rem ms_timeout 100 * 1000).

Definition pop_timeout (t : tid) (now_sec ms_timeout : Z) : ST block_queue (pop_result * (Z * Z)) :=
  _ ← lock_ t;
  q ← get;
  if m_size q <=? 0 then
    _ ← sleep_ t;
    mret (PopSleeps, deadline now_sec ms_timeout)
  else
    r ← take_front;
    mret (r, (0, 0)).

Definition pop_timeout_resume (t : tid) (wait_ok : bool) : ST block_queue pop_result :=
  _ ← lock_ t;
  if wait_ok then
    q ← get;
    if m_size q <=? 0 then (_ ← unlock_; mret PopFalse) else take_front
  else (_ ← unlock_; mret PopFalse).

(** ** Specification: a bounded FIFO queue *)

Definition slot (q : block_queue) (i : nat) : Z :=
  (m_front q + 1 + Z.of_nat i) `mod` m_max_size q.

(** The elements in the order in which [pop] will return them. *)
Definition contents (q : block_queue) : list T :=
  (fun i => nth (Z.to_nat (slot q i)) (m_array q) default) <$> seq 0 (Z.to_nat (m_size q)).

(** The representation invariant, between two calls (the mutex is free). *)
Definition wf (q : block_queue) : Prop :=
  m_mutex q = locker.ctor /\
  0 < m_max_size q /\
  length (m_array q) = Z.to_nat (m_max_size q) /\
  0 <= m_size q <= m_max_size q /\
  -1 <= m_front q < m_max_size q /\
  -1 <= m_back q < m_max_size q /\
  (m_back q = -1 -> m_size q = 0) /\
  (m_front q + m_size q) `mod` m_max_size q = m_back q `mod` m_max_size q.

(** ** Interleavings

    One step is one critical section of one thread.  [accepted] and
    [delivered] are the items that [push] took and that [pop] returned since
    the last [clear]. *)

Record system := { queue : block_queue; accepted : list T; delivered : list T }.

Definition items (r : pop_result) : list T :=
  match r with PopTrue x => [x] | _ => [] end.

Inductive step : system -> system -> Prop :=
| step_push t x b q q' i o :
    push t x q = Ok (b, q') ->
    step {| queue := q; accepted := i; delivered := o |}
         {| queue := q'; accepted := if b : bool then i ++ [x] else i; delivered := o |}
| step_pop t r q q' i o :
    pop t q = Ok (r, q') ->
    step {| queue := q; accepted := i; delivered := o |}
         {| queue := q'; accepted := i; delivered := o ++ items r |}
| step_resume t ok r q q' i o :
    t ∉ cond.m_cond (m_cond q) ->
    pop_resume t ok q = Ok (r, q') ->
    step {| queue := q; accepted := i; delivered := o |}
         {| queue := q'; accepted := i; delivered := o ++ items r |}
| step_pop_timeout t now ms r d q q' i o :
    pop_timeout t now ms q = Ok (r, d, q') ->
    step {| queue := q; accepted := i; delivered := o |}
         {| queue := q'; accepted := i; delivered := o ++ items r |}
| step_timeout_resume t ok r q q' i o :
    t ∉ cond.m_cond (m_cond q) ->
    pop_timeout_resume t ok q = Ok (r, q') ->
    step {| queue := q; accepted := i; delivered := o |}
         {| queue := q'; accepted := i; delivered := o ++ items r |}
| step_wake t q i o :
    (* a timeout or a spurious wake-up *)
    step {| queue := q; accepted := i; delivered := o |}
         {| queue := q <| m_cond := {| cond.m_cond := cond.m_cond (m_cond q) ∖ {[ t ]} |} |>;
            accepted := i; delivered := o |}
| step_clear t q q' i o :
    clear t q = Ok (tt, q') ->
    step {| queue := q; accepted := i; delivered := o |}
         {| queue := q'; accepted := []; delivered := [] |}.

Definition initial (max : Z) (s : system) : Prop :=
  exists q, ctor max = Ok q /\ s = {| queue := q; accepted := []; delivered := [] |}.

(** What every reachable state satisfies: the queue is well formed, FIFO order
    is kept with no loss or duplication, and no thread sleeps while there is
    an item to take. *)
Definition sys_inv (s : system) : Prop :=
  wf (queue s) /\
  accepted s = delivered s ++ contents (queue s) /\
  (cond.m_cond (m_cond (queue s)) <> ∅ -> m_size (queue s) = 0).

End queue.
Arguments block_queue : clear implicits.
Arguments pop_result : clear implicits.
#[export] Existing Instance block_queue_settable.

(** ** Lemmas *)

Section proofs.
Context {T : Type} (default : T).
Implicit Types q : block_queue T.

Ltac open_wf H :=
  let H1 := fresh "Hmu" in
  destruct H as (H1 & ? & ? & ? & ? & ? & ? & ?); simpl in *; subst.

Lemma length_contents q : length (contents default q) = Z.to_nat (m_size q).
Proof. unfold contents. by rewrite length_fmap, length_seq. Qed.

Lemma contents_nil q : wf q -> (contents default q = [] <-> m_size q = 0).
Proof.
  intros H. rewrite <- length_zero_iff_nil, length_contents. unfold wf in H. lia.
Qed.

Lemma contents_cons_pos q x xs : contents default q = x :: xs -> 0 < m_size q.
Proof. intros E. pose proof (length_contents q) as L. rewrite E in L. simpl in L. lia. Qed.

Lemma slot_range q i : wf q -> 0 <= slot q i < m_max_size q.
Proof. intros H. apply Z.mod_pos_bound. unfold wf in H. lia. Qed.

Lemma contents_lookup q (i : nat) :
  wf q -> Z.of_nat i < m_size q ->
  contents default q !! i = m_array q !! Z.to_nat (slot q i).
Proof.
  intros Hwf Hi. unfold contents. rewrite list_lookup_fmap, lookup_seq_lt by lia. simpl.
  pose proof (slot_range q i Hwf). unfold wf in Hwf.
  destruct (lookup_lt_is_Some_2 (m_array q) (Z.to_nat (slot q i))) as [v Hv]; [lia|].
  by rewrite (nth_lookup_Some _ _ _ _ Hv).
Qed.

Lemma ctor_wf max q : ctor default max = Ok q -> wf q.
Proof.
  unfold ctor, wf. case_match; [done|]. intros [= <-]. reflect_bools. simpl.
  rewrite length_replicate. repeat split; try done; try lia.
Qed.

(** The state in which a call of [push] that is accepted leaves the queue. *)
Definition pushed q (x : T) : block_queue T :=
  let b := (m_back q + 1) `mod` m_max_size q in
  q <| m_back := b |> <| m_array := <[Z.to_nat b := x]> (m_array q) |>
    <| m_size := m_size q + 1 |> <| m_cond := cond.ctor |>.

Definition popped q : block_queue T :=
  q <| m_front := (m_front q + 1) `mod` m_max_size q |> <| m_size := m_size q - 1 |>.

Definition asleep t q : block_queue T :=
  q <| m_cond := {| cond.m_cond := {[ t ]} ∪ cond.m_cond (m_cond q) |} |>.

Lemma push_not_full t x q :
  wf q -> m_size q < m_max_size q -> push t x q = Ok (true, pushed q x).
Proof.
  destruct q as [mu co ar sz mx fr bk]. intros Hwf Hlt. open_wf Hwf. unfold push, lock_, unlock_, broadcast_. exec.
  rewrite (proj2 (Z.leb_gt _ _)) by lia. cbn.
  rewrite Z.rem_mod_nonneg by lia.
  pose proof (Z.mod_pos_bound (bk + 1) mx ltac:(lia)).
  rewrite wr_ok by lia. done.
Qed.

Lemma push_full t x q :
  wf q -> m_max_size q <= m_size q ->
  push t x q = Ok (false, q <| m_cond := cond.ctor |>).
Proof.
  destruct q as [mu co ar sz mx fr bk]. intros Hwf Hge. open_wf Hwf. unfold push, lock_, unlock_, broadcast_. exec.
  by rewrite (proj2 (Z.leb_le _ _)) by lia.
Qed.

Lemma take_front_ok t q x xs :
  wf q -> contents default q = x :: xs ->
  take_front (q <| m_mutex := {| locker.m_mutex := Some t |} |>) = Ok (PopTrue x, popped q).
Proof.
  intros Hwf E.
  pose proof (contents_cons_pos q x xs E) as Hpos.
  assert (m_array q !! Z.to_nat (slot q 0) = Some x) as Hx.
  { rewrite <- contents_lookup by (simpl; lia || done). by rewrite E. }
  unfold slot in Hx. replace (m_front q + 1 + Z.of_nat 0) with (m_front q + 1) in Hx by lia.
  destruct q as [mu co ar sz mx fr bk]. open_wf Hwf. unfold take_front, unlock_. exec.
  rewrite Z.rem_mod_nonneg by lia.
  pose proof (Z.mod_pos_bound (fr + 1) mx ltac:(lia)).
  rewrite (proj2 (rd_lookup ar ((fr + 1) `mod` mx) x)) by (split; [lia|done]).
  done.
Qed.

Lemma pop_loop_nonempty t q x xs :
  wf q -> contents default q = x :: xs ->
  pop_loop t (q <| m_mutex := {| locker.m_mutex := Some t |} |>) = Ok (PopTrue x, popped q).
Proof.
  intros Hwf E. unfold pop_loop. exec_unfold. cbn -[take_front].
  rewrite (proj2 (Z.leb_gt _ _)) by eauto using contents_cons_pos.
  apply (take_front_ok t q x xs Hwf E).
Qed.

Lemma lock_free t q : wf q ->
  lock_ t q = Ok (tt, q <| m_mutex := {| locker.m_mutex := Some t |} |>).
Proof. intros Hwf. unfold wf in Hwf. destruct q. simpl in *. by destruct Hwf as [-> _]. Qed.

Lemma pushed_wf q x : wf q -> m_size q < m_max_size q -> wf (pushed q x).
Proof.
  destruct q as [mu co ar sz mx fr bk]. intros Hwf Hlt. open_wf Hwf. unfold wf, pushed. cbn.
  rewrite length_insert. pose proof (Z.mod_pos_bound (bk + 1) mx ltac:(lia)).
  repeat split; try done; try lia.
  rewrite Z.mod_mod by lia.
  replace (fr + (sz + 1)) with ((fr + sz) + 1) by lia.
  rewrite <- Z.add_mod_idemp_l by lia. rewrite H5. by rewrite Z.add_mod_idemp_l by lia.
Qed.

Lemma back_slot q : wf q ->
  (m_back q + 1) `mod` m_max_size q = slot q (Z.to_nat (m_size q)).
Proof.
  intros (? & ? & ? & ? & ? & ? & ? & Hb). unfold slot. rewrite Z2Nat.id by lia.
  replace (m_front q + 1 + m_size q) with ((m_front q + m_size q) + 1) by lia.
  rewrite <- Z.add_mod_idemp_l by lia. rewrite <- Hb. by rewrite Z.add_mod_idemp_l by lia.
Qed.

Lemma pushed_contents q x : wf q -> m_size q < m_max_size q ->
  contents default (pushed q x) = contents default q ++ [x].
Proof.
  intros Hwf Hlt. pose proof (pushed_wf q x Hwf Hlt) as Hwf'.
  pose proof (back_slot q Hwf) as Hb. pose proof (slot_range q) as Hsl.
  destruct Hwf as (? & ? & Hlen & ? & ? & ? & ? & ?) eqn:Hq.
  apply list_eq_same_length with (n := Z.to_nat (m_size q + 1)).
  - rewrite length_app, length_contents. simpl. lia.
  - by rewrite length_contents.
  - intros i y z Hi Hy Hz. rewrite contents_lookup in Hy by (done || (cbn; lia)).
    unfold pushed in Hy. cbn -[slot] in Hy. rewrite Hb in Hy.
    change (slot _ i) with (slot q i) in Hy.
    destruct (decide (i = Z.to_nat (m_size q))) as [->|Hne].
    + rewrite list_lookup_insert_eq in Hy by (specialize (Hsl (Z.to_nat (m_size q)) Hwf); lia).
      rewrite lookup_app_r in Hz by (rewrite length_contents; lia).
      rewrite length_contents, Nat.sub_diag in Hz. by simplify_eq/=.
    + rewrite list_lookup_insert_ne in Hy.
      * rewrite lookup_app_l in Hz by (rewrite length_contents; lia).
        rewrite contents_lookup in Hz by (done || lia). congruence.
      * intros E. apply Hne. pose proof (Hsl i Hwf). pose proof (Hsl (Z.to_nat (m_size q)) Hwf).
        assert (slot q (Z.to_nat (m_size q)) = slot q i) as E' by lia. unfold slot in E'.
        apply mod_window_inj in E'; lia.
Qed.

Lemma popped_wf q : wf q -> 0 < m_size q -> wf (popped q).
Proof.
  destruct q as [mu co ar sz mx fr bk]. intros Hwf Hlt. open_wf Hwf. unfold wf, popped. cbn.
  pose proof (Z.mod_pos_bound (fr + 1) mx ltac:(lia)).
  repeat split; try done; try lia.
  rewrite Z.add_mod_idemp_l by lia. rewrite <- H5. f_equal. lia.
Qed.

Lemma popped_slot q i : wf q -> slot (popped q) i = slot q (S i).
Proof.
  intros (? & ? & ?). unfold slot, popped. cbn -[Z.of_nat].
  rewrite <- Z.add_assoc, Z.add_mod_idemp_l by lia. f_equal. lia.
Qed.

Lemma popped_contents q x xs : wf q -> contents default q = x :: xs ->
  contents default (popped q) = xs.
Proof.
  intros Hwf E. pose proof (contents_cons_pos q x xs E) as Hpos.
  assert (xs = tail (contents default q)) as -> by (by rewrite E).
  unfold contents. change (m_size (popped q)) with (m_size q - 1).
  replace (Z.to_nat (m_size q)) with (S (Z.to_nat (m_size q - 1))) by lia.
  simpl. rewrite <- fmap_S_seq, <- list_fmap_compose. apply list_fmap_ext.
  intros i j _. simpl. by rewrite popped_slot.
Qed.

Lemma pop_nonempty t q x xs : wf q -> contents default q = x :: xs ->
  pop t q = Ok (PopTrue x, popped q).
Proof.
  intros Hwf E. unfold pop. cbv [mbind ST_bind]. rewrite lock_free by done.
  by apply (pop_loop_nonempty t q x xs).
Qed.

Lemma pop_loop_empty t q : wf q -> m_size q = 0 ->
  pop_loop t (q <| m_mutex := {| locker.m_mutex := Some t |} |>) = Ok (PopSleeps, asleep t q).
Proof.
  destruct q as [mu co ar sz mx fr bk]. intros Hwf Hz. open_wf Hwf.
  unfold pop_loop, sleep_. exec. done.
Qed.

Lemma pop_empty t q : wf q -> m_size q = 0 -> pop t q = Ok (PopSleeps, asleep t q).
Proof.
  intros Hwf Hz. unfold pop. cbv [mbind ST_bind]. rewrite lock_free by done.
  by apply pop_loop_empty.
Qed.

(** Every way out of the four [pop] entry points. *)
Inductive pop_outcome t q : pop_result T -> block_queue T -> Prop :=
| out_item x xs : contents default q = x :: xs -> pop_outcome t q (PopTrue x) (popped q)
| out_sleep : m_size q = 0 -> pop_outcome t q PopSleeps (asleep t q)
| out_false : pop_outcome t q PopFalse q.

Lemma empty_or_cons q : wf q ->
  m_size q = 0 \/ exists x xs, contents default q = x :: xs.
Proof.
  intros Hwf. destruct (contents default q) as [|x xs] eqn:E; [left|eauto].
  by apply contents_nil.
Qed.

Lemma pop_total t q : wf q -> exists r q', pop t q = Ok (r, q') /\ pop_outcome t q r q'.
Proof.
  intros Hwf. destruct (empty_or_cons q Hwf) as [Hz|(x & xs & E)].
  - rewrite pop_empty by done. eauto using pop_outcome.
  - rewrite (pop_nonempty t q x xs) by done. eauto using pop_outcome.
Qed.

Lemma pop_resume_total t ok q : wf q ->
  exists r q', pop_resume t ok q = Ok (r, q') /\ pop_outcome t q r q'.
Proof.
  intros Hwf. destruct ok.
  - apply (pop_total t q Hwf).
  - exists PopFalse, q. split; [|constructor]. unfold pop_resume. cbv [mbind ST_bind].
    rewrite lock_free by done. unfold wf in Hwf. destruct q. simpl in *.
    by destruct Hwf as [-> _].
Qed.

Lemma pop_timeout_total t now ms q : wf q ->
  exists r d q', pop_timeout t now ms q = Ok (r, d, q') /\ pop_outcome t q r q'.
Proof.
  intros Hwf. unfold pop_timeout. cbv [mbind ST_bind]. rewrite lock_free by done. exec_unfold.
  cbn -[take_front sleep_].
  destruct (empty_or_cons q Hwf) as [Hz|(x & xs & E)].
  - rewrite Hz. simpl. eexists _, _, _. split; [done|].
    replace (_ <| m_mutex := _ |>) with (asleep t q); [by constructor|].
    unfold wf in Hwf. destruct q. simpl in *. by destruct Hwf as [-> _].
  - rewrite (proj2 (Z.leb_gt _ _)) by eauto using contents_cons_pos.
    rewrite (take_front_ok t q x xs) by done. eauto 10 using pop_outcome.
Qed.

Lemma pop_timeout_resume_total t ok q : wf q ->
  exists r q', pop_timeout_resume t ok q = Ok (r, q') /\ pop_outcome t q r q'.
Proof.
  intros Hwf.
  assert (unlock_ (q <| m_mutex := {| locker.m_mutex := Some t |} |>) = Ok (tt, q)) as Hun.
  { unfold wf in Hwf. destruct q. simpl in *. by destruct Hwf as [-> _]. }
  unfold pop_timeout_resume. cbv [mbind ST_bind]. rewrite lock_free by done.
  destruct ok; cbn -[take_front unlock_]; [|rewrite Hun; eauto using pop_outcome].
  destruct (empty_or_cons q Hwf) as [Hz|(x & xs & E)].
  - rewrite Hz. cbn -[unlock_]. rewrite Hun. eauto using pop_outcome.
  - rewrite (proj2 (Z.leb_gt _ _)) by eauto using contents_cons_pos.
    rewrite (take_front_ok t q x xs) by done. eauto using pop_outcome.
Qed.

Lemma pop_outcome_inv t q r q' i o :
  sys_inv default {| queue := q; accepted := i; delivered := o |} ->
  pop_outcome t q r q' ->
  sys_inv default {| queue := q'; accepted := i; delivered := o ++ items r |}.
Proof.
  intros (Hwf & Hio & Hsleep) Hout. simpl in *. inversion Hout as [x xs E|Hz|]; subst; simpl.
  - pose proof (contents_cons_pos q x xs E).
    split_and!; simpl; [by apply popped_wf| |].
    + by rewrite (popped_contents q x xs), <- app_assoc, E.
    + intros Hne. specialize (Hsleep Hne). lia.
  - rewrite app_nil_r. done.
  - rewrite app_nil_r. done.
Qed.

Lemma clear_ok t q : wf q ->
  exists q', clear t q = Ok (tt, q') /\ wf q' /\ m_size q' = 0 /\ m_cond q' = m_cond q.
Proof.
  destruct q as [mu co ar sz mx fr bk]. intros Hwf. open_wf Hwf.
  unfold clear, lock_, unlock_. exec. eexists. split; [done|]. unfold wf. simpl.
  repeat split; try done; lia.
Qed.

Lemma queue_step_inv s s' : sys_inv default s -> step s s' -> sys_inv default s'.
Proof.
  intros Hinv Hstep. pose proof (proj1 Hinv) as Hwf. destruct Hstep as
    [t x b q q' i o H|t r q q' i o H|t ok r q q' i o _ H|t now ms r d q q' i o H
    |t ok r q q' i o _ H|t q i o|t q q' i o H]; simpl in Hwf.
  - destruct Hinv as (_ & Hio & Hsleep). simpl in *.
    destruct (decide (m_size q < m_max_size q)).
    + rewrite push_not_full in H by done. simplify_eq. split_and!; simpl.
      * by apply pushed_wf.
      * by rewrite pushed_contents, app_assoc by done.
      * done.
    + rewrite push_full in H by (done || lia). simplify_eq. split_and!; simpl; done.
  - destruct (pop_total t q Hwf) as (r' & q'' & E & Hout). rewrite E in H. simplify_eq.
    by eapply pop_outcome_inv.
  - destruct (pop_resume_total t ok q Hwf) as (r' & q'' & E & Hout). rewrite E in H. simplify_eq.
    by eapply pop_outcome_inv.
  - destruct (pop_timeout_total t now ms q Hwf) as (r' & d' & q'' & E & Hout).
    rewrite E in H. simplify_eq. by eapply pop_outcome_inv.
  - destruct (pop_timeout_resume_total t ok q Hwf) as (r' & q'' & E & Hout).
    rewrite E in H. simplify_eq. by eapply pop_outcome_inv.
  - destruct Hinv as (_ & Hio & Hsleep). split_and!; simpl in *; [done..|]. set_solver.
  - destruct (clear_ok t q Hwf) as (q'' & E & Hwf' & Hz & Hc). rewrite E in H. simplify_eq.
    split_and!; simpl; [done| |done]. symmetry. by apply contents_nil.
Qed.

Lemma full_ok t q : wf q ->
  full t q = Ok (bool_decide (m_max_size q <= m_size q), q).
Proof.
  destruct q as [mu co ar sz mx fr bk]. intros Hwf. open_wf Hwf. unfold full, lock_, unlock_. exec.
  destruct (Z.leb_spec mx sz); exec.
  - by rewrite bool_decide_eq_true_2.
  - by rewrite bool_decide_eq_false_2 by lia.
Qed.

Lemma front_reads t q : wf q -> m_size q <> 0 ->
  front t q = match rd (m_array q) (m_front q) with
              | Ok v => Ok (Some v, q) | Halt h => Halt h end.
Proof.
  destruct q as [mu co ar sz mx fr bk]. intros Hwf Hz. open_wf Hwf. unfold front, lock_, unlock_. exec.
  rewrite (proj2 (Z.eqb_neq 0 sz)) by lia. exec. by destruct (rd ar fr).
Qed.

Lemma back_reads t q : wf q -> m_size q <> 0 ->
  back t q = match rd (m_array q) (m_back q) with
             | Ok v => Ok (Some v, q) | Halt h => Halt h end.
Proof.
  destruct q as [mu co ar sz mx fr bk]. intros Hwf Hz. open_wf Hwf. unfold back, lock_, unlock_. exec.
  rewrite (proj2 (Z.eqb_neq 0 sz)) by lia. exec. by destruct (rd ar bk).
Qed.

Lemma queue_reachable_inv max s0 s :
  initial default max s0 -> rtc step s0 s -> sys_inv default s.
Proof.
  intros (q & Hq & ->) Hrtc. pose proof (ctor_wf max q Hq) as Hwf.
  revert Hrtc. apply (rtc_ind_r (fun s => sys_inv default s)); [|eauto using queue_step_inv].
  unfold ctor in Hq. case_match; [done|]. simplify_eq. split_and!; simpl; done.
Qed.

Lemma push_refines t x q :
  wf q ->
  exists q', push t x q = Ok (bool_decide (length (contents default q) < Z.to_nat (m_max_size q))%nat, q') /\
     wf q' /\ Z.to_nat (m_max_size q') = Z.to_nat (m_max_size q) /\
     contents default q' = contents default q ++
       (if bool_decide (length (contents default q) < Z.to_nat (m_max_size q))%nat then [x] else []).
Proof.
  intros Hwf. pose proof Hwf as Hwf'. unfold wf in Hwf'. rewrite length_contents.
  destruct (decide (m_size q < m_max_size q)).
  - rewrite bool_decide_eq_true_2 by lia. exists (pushed q x).
    split_and!; eauto using push_not_full, pushed_wf, pushed_contents.
  - rewrite bool_decide_eq_false_2 by lia. rewrite push_full by (done || lia).
    eexists. split_and!; [done|done|done|]. by rewrite app_nil_r.
Qed.

(** ** Properties *)

(** C9: in every state that any interleaving of producers, consumers (with and
    without timeout), spurious wake-ups and [clear] reaches from the
    constructor, the circular array is well formed, the items pushed since
    the last [clear] are exactly the items popped followed by the contents in
    the same order (FIFO: no loss, no duplication, no overtaking), and no
    thread sleeps in the condition variable while the queue holds an item. *)
Theorem queue_reachable_fifo max s0 s :
  initial default max s0 -> rtc step s0 s ->
  wf (queue s) /\
  accepted s = delivered s ++ contents default (queue s) /\
  (cond.m_cond (m_cond (queue s)) <> ∅ -> m_size (queue s) = 0).
Proof. intros Hi Hr. by apply (queue_reachable_inv max s0 s). Qed.


(** [push] and [pop] refine the abstract FIFO queue of capacity
    [m_max_size]: a push that is accepted appends its item and is refused,
    with nothing changed, exactly when the queue is full; a pop of a
    non-empty queue returns the oldest item and removes it; both keep the
    representation well formed. *)
Theorem queue_refines_fifo t x q :
  wf q ->
  (exists q', push t x q = Ok (bool_decide (length (contents default q) < Z.to_nat (m_max_size q))%nat, q') /\
     wf q' /\ Z.to_nat (m_max_size q') = Z.to_nat (m_max_size q) /\
     contents default q' = contents default q ++
       (if bool_decide (length (contents default q) < Z.to_nat (m_max_size q))%nat then [x] else [])) /\
  (forall y ys, contents default q = y :: ys ->
     exists q', pop t q = Ok (PopTrue y, q') /\ wf q' /\ m_max_size q' = m_max_size q /\
       contents default q' = ys).
Proof.
  intros Hwf. split; [by apply push_refines|].
  intros y ys E. exists (popped q).
  split_and!; eauto using pop_nonempty, popped_wf, popped_contents, contents_cons_pos.
Qed.

(** [back] returns the item pushed last, the end of the queue. *)
Theorem back_is_newest t q xs x :
  wf q -> contents default q = xs ++ [x] -> back t q = Ok (Some x, q).
Proof.
  intros Hwf E. pose proof (length_contents q) as Hl. rewrite E, length_app in Hl. simpl in Hl.
  rewrite back_reads by (done || lia).
  assert (contents default q !! length xs = Some x) as Hx by (by rewrite E, list_lookup_middle).
  rewrite contents_lookup in Hx by (done || lia).
  destruct (id Hwf) as (? & ? & ? & ? & ? & ? & ? & Hb).
  assert (m_back q <> -1) by lia.
  assert (slot q (length xs) = m_back q) as Es.
  { unfold slot. rewrite <- (Z.mod_small (m_back q) (m_max_size q)), <- Hb by lia. f_equal. lia. }
  rewrite Es in Hx. by rewrite (proj2 (rd_lookup _ _ x)) by (split; [lia|done]).
Qed.

(** [front] does not return the head of the queue: on a non-empty queue it
    reads the slot of the last item that [pop] removed, so right after a pop
    it returns that very item again. *)
Theorem front_returns_last_popped t t' q q' x :
  wf q -> pop t q = Ok (PopTrue x, q') -> m_size q' <> 0 ->
  front t' q' = Ok (Some x, q').
Proof.
  intros Hwf Hpop Hne. destruct (empty_or_cons q Hwf) as [Hz|(y & ys & E)].
  { rewrite pop_empty in Hpop by done. done. }
  pose proof (contents_cons_pos q y ys E) as Hpos.
  rewrite (pop_nonempty t q y ys) in Hpop by done. simplify_eq.
  rewrite front_reads by (done || by apply popped_wf).
  assert (contents default q !! 0%nat = Some x) as Hx by (by rewrite E).
  rewrite contents_lookup in Hx by (done || lia).
  pose proof (slot_range q 0 Hwf) as Hr. unfold slot in Hx, Hr.
  replace (m_front q + 1 + Z.of_nat 0) with (m_front q + 1) in Hx, Hr by lia.
  unfold popped at 1 2. cbn. by rewrite (proj2 (rd_lookup _ _ x)) by (split; [lia|done]).
Qed.

(** The destructor of a queue that nobody uses frees the array; with a consumer
    still asleep in [pop] it destroys the condition variable under it. *)
Theorem dtor_outcome t q : wf q ->
  dtor t q = if bool_decide (cond.m_cond (m_cond q) = ∅) then Ok (tt, q <| m_array := [] |>) else Halt InUse.
Proof.
  destruct q as [mu [co] ar sz mx fr bk]. intros (Hmu & _). cbn in Hmu. subst mu.
  unfold dtor, lock_, unlock_, cond.dtor, locker.dtor. exec. by case_bool_decide.
Qed.

(** before the first [pop] the index that [front] reads is -1: a call on a
    non-empty queue reads in front of the array. *)
Theorem front_before_first_pop t q :
  wf q -> m_size q <> 0 -> m_front q = -1 -> front t q = Halt OutOfBounds.
Proof. intros Hwf Hne Hf. rewrite front_reads by done. by rewrite rd_oob by lia. Qed.

(** the deadline that [pop(item, ms_timeout)] computes lies before the
    requested point in time whenever the timeout is not a whole number of
    seconds: the fraction is taken modulo 100 instead of 1000 and scaled to
    microseconds instead of nanoseconds. *)
Theorem deadline_too_early now_sec ms_timeout :
  0 <= ms_timeout -> ms_timeout `mod` 1000 <> 0 ->
  let '(tv_sec, tv_nsec) := deadline now_sec ms_timeout in
  tv_sec * 1000000000 + tv_nsec < now_sec * 1000000000 + ms_timeout * 1000000.
Proof.
  intros Hms Hne. unfold deadline. rewrite Z.quot_div_nonneg, Z.rem_mod_nonneg by lia.
  pose proof (Z.mod_pos_bound ms_timeout 100). pose proof (Z.mod_pos_bound ms_timeout 1000).
  pose proof (Z.div_mod ms_timeout 1000). lia.
Qed.

End proofs.

(** ** A concrete run: capacity 2, two items pushed, one popped *)

Definition ex_q0 : block_queue Z := mk locker.ctor cond.ctor [0; 0] 0 2 (-1) (-1).
Definition ex_q1 : block_queue Z := mk locker.ctor cond.ctor [7; 8] 2 2 (-1) 1.
Definition ex_q2 : block_queue Z := mk locker.ctor cond.ctor [7; 8] 1 2 0 1.
Definition ex_s0 : system := {| queue := ex_q0; accepted := []; delivered := [] |}.
Definition ex_s2 : system := {| queue := ex_q2; accepted := [7; 8]; delivered := [7] |}.

Lemma ex_initial : initial 0 2 ex_s0.
Proof. exists ex_q0. done. Qed.

Definition ex_qa : block_queue Z := mk locker.ctor cond.ctor [7; 0] 1 2 (-1) 0.

Lemma ex_run : rtc step ex_s0 ex_s2.
Proof.
  eapply rtc_l; [apply (step_push 1%nat 7 true ex_q0 ex_qa [] []); vm_compute; reflexivity|].
  eapply rtc_l; [apply (step_push 2%nat 8 true ex_qa ex_q1 [7] []); vm_compute; reflexivity|].
  eapply rtc_l; [apply (step_pop 3%nat (PopTrue 7) ex_q1 ex_q2 [7; 8] []); vm_compute; reflexivity|].
  apply rtc_refl.
Qed.

Lemma ex_wf1 : wf ex_q1.
Proof. unfold wf. simpl. repeat split; lia. Qed.

Lemma ex_wf2 : wf ex_q2.
Proof. unfold wf. simpl. repeat split; lia. Qed.

Lemma queue_reachable_fifo_witness :
  initial 0 2 ex_s0 /\ rtc step ex_s0 ex_s2 /\
  accepted ex_s2 = delivered ex_s2 ++ contents 0 (queue ex_s2).
Proof.
  split; [exact ex_initial|]. split; [exact ex_run|].
  apply (queue_reachable_fifo 0 2 ex_s0 ex_s2 ex_initial ex_run).
Defined.


Lemma queue_refines_fifo_witness :
  exists q', push 4%nat 9 ex_q1 = Ok (false, q') /\ contents 0 q' = [7; 8].
Proof.
  destruct (queue_refines_fifo 0 4%nat 9 ex_q1 ex_wf1) as [(q' & H1 & _ & _ & H2) _].
  exists q'. split; [exact H1|exact H2].
Defined.

Lemma back_is_newest_witness : back 4%nat ex_q1 = Ok (Some 8, ex_q1).
Proof. apply (back_is_newest 0 4%nat ex_q1 [7] 8 ex_wf1). reflexivity. Defined.

Lemma front_returns_last_popped_witness : front 4%nat ex_q2 = Ok (Some 7, ex_q2).
Proof.
  apply (front_returns_last_popped 0 3%nat 4%nat ex_q1 ex_q2 7 ex_wf1); [reflexivity|].
  simpl. lia.
Defined.

Lemma front_before_first_pop_witness : front 4%nat ex_q1 = Halt OutOfBounds.
Proof. apply (front_before_first_pop 4%nat ex_q1 ex_wf1); simpl; lia. Defined.

Lemma deadline_too_early_witness :
  let '(tv_sec, tv_nsec) := deadline 1700000000 500 in
  tv_sec * 1000000000 + tv_nsec < 1700000000 * 1000000000 + 500 * 1000000.
Proof. apply (deadline_too_early 1700000000 500); [lia|]. vm_compute. discriminate. Defined.

End block_queue.

(** ** The interface the log writes against

    What a client may assume of the queue it hands its items to: a bounded
    FIFO whose calls return. *)

Class BoundedFifo (Q T : Type) := {
  fifo_wf : Q -> Prop;
  fifo_contents : Q -> list T;
  fifo_capacity : Q -> nat;
  fifo_full : tid -> ST Q bool;
  fifo_push : tid -> T -> ST Q bool;
  fifo_pop : tid -> ST Q (option T);
  fifo_make : Z -> res Q;
  fifo_full_spec t q : fifo_wf q ->
    fifo_full t q = Ok (bool_decide (fifo_capacity q <= length (fifo_contents q))%nat, q);
  fifo_push_spec t x q : fifo_wf q ->
    exists q', fifo_push t x q =
        Ok (bool_decide (length (fifo_contents q) < fifo_capacity q)%nat, q') /\
      fifo_wf q' /\ fifo_capacity q' = fifo_capacity q /\
      fifo_contents q' = fifo_contents q ++
        (if bool_decide (length (fifo_contents q) < fifo_capacity q)%nat then [x] else []);
  fifo_pop_spec t q x xs : fifo_wf q -> fifo_contents q = x :: xs ->
    exists q', fifo_pop t q = Ok (Some x, q') /\ fifo_wf q' /\
      fifo_capacity q' = fifo_capacity q /\ fifo_contents q' = xs;
  fifo_make_spec n : 1 <= n ->
    exists q, fifo_make n = Ok q /\ fifo_wf q /\ fifo_contents q = [] /\ fifo_capacity q = Z.to_nat n
}.

(** [pop] returned an item, or left its thread asleep. *)
Definition popped_item {T} (r : block_queue.pop_result T) : option T :=
  match r with block_queue.PopTrue x => Some x | _ => None end.

#[export] Program Instance block_queue_fifo {T} `{Inhabited T} :
  BoundedFifo (block_queue.block_queue T) T := {|
  fifo_wf := block_queue.wf;
  fifo_contents := block_queue.contents inhabitant;
  fifo_capacity q := Z.to_nat (block_queue.m_max_size q);
  fifo_full := block_queue.full;
  fifo_push := block_queue.push;
  fifo_pop t := (r ← block_queue.pop t; mret (popped_item r));
  fifo_make n := block_queue.ctor inhabitant n
|}.
Next Obligation.
  intros T ? t q Hwf. simpl. rewrite block_queue.full_ok by done.
  pose proof Hwf as Hwf'. unfold block_queue.wf in Hwf'.
  rewrite block_queue.length_contents. do 2 f_equal. apply bool_decide_ext. lia.
Qed.
Next Obligation.
  intros T ? t x q Hwf. simpl. apply block_queue.push_refines. done.
Qed.
Next Obligation.
  intros T ? t q x xs Hwf E. simpl in *. eexists. split.
  - st_step (by apply (block_queue.pop_nonempty inhabitant t q x xs)). done.
  - split_and!; [|done|by apply (block_queue.popped_contents inhabitant q x xs)].
    eapply block_queue.popped_wf; [done|]. by eapply block_queue.contents_cons_pos.
Qed.
Next Obligation.
  intros T ? n Hn. simpl. destruct (block_queue.ctor inhabitant n) as [q|] eqn:E.
  - exists q. split_and!; [done|by eapply block_queue.ctor_wf|..];
      unfold block_queue.ctor in E; case_match; simplify_eq; done.
  - unfold block_queue.ctor in E. rewrite (proj2 (Z.leb_gt _ _)) in E by lia. done.
Qed.
