(* ===== verification/LstTimer.v ===== *)
(** * LstTimer: the sorted timer list of ocean_http/timer/lst_timer.{h,cpp}

    The doubly linked list of [util_timer] objects is modelled at the level of
    its pointers: a heap of timers, the two end pointers of the list, and
    every load, store, [new] and [delete] of the code.  The specification is a
    list of entries sorted by expiry time. *)

From stdpp Require Import sorting.
From S2P Require Import Prelude.

(** The address of a [util_timer]; [None] is the null pointer. *)
Definition loc : Set := positive.

(** [user_data] is the index of the connection in [users_timer]; the code
    installs one callback only, [cb_func], which is an argument of [tick]. *)
Record util_timer := {
  expire : Z;
  user_data : Z;
  prev : option loc;
  next : option loc
}.
#[export] Instance util_timer_settable : Settable util_timer := fun o =>
  {| expire := expire o; user_data := user_data o; prev := prev o; next := next o |}.

Module sort_timer_lst.

(** The two members of the list and the heap its nodes live in. *)
Record sort_timer_lst := {
  heap : gmap loc util_timer;
  head : option loc;
  tail : option loc
}.
#[global] Instance sort_timer_lst_settable : Settable sort_timer_lst := fun s =>
  {| heap := heap s; head := head s; tail := tail s |}.

Definition ctor (h : gmap loc util_timer) : sort_timer_lst :=
  {| heap := h; head := None; tail := None |}.

(** [*p] for reading and [p->f = v]. *)
Definition load (p : option loc) : ST sort_timer_lst util_timer := fun s =>
  match p with
  | None => Halt NullDeref
  | Some l => match heap s !! l with
              | None => Halt Dangling
              | Some o => Ok (o, s)
              end
  end.

Definition store (p : option loc) (f : util_timer -> util_timer) : ST sort_timer_lst unit := fun s =>
  match p with
  | None => Halt NullDeref
  | Some l => match heap s !! l with
              | None => Halt Dangling
              | Some o => Ok (tt, s <| heap := <[l := f o]> (heap s) |>)
              end
  end.

(** [delete p]. *)
Definition free (p : option loc) : ST sort_timer_lst unit := fun s =>
  match p with
  | None => Ok (tt, s)
  | Some l => match heap s !! l with
              | None => Halt Dangling
              | Some _ => Ok (tt, s <| heap := delete l (heap s) |>)
              end
  end.

#[global] Arguments load : simpl never.
#[global] Arguments store : simpl never.
#[global] Arguments free : simpl never.

(** The [while (tmp)] of the two-argument [add_timer]; the value is the pair
    ([prev], [tmp]) when the loop ends, by [break] or by the test. *)
Fixpoint add_loop (fuel : nat) (timer prv tmp : option loc)
    : ST sort_timer_lst (option loc * option loc) :=
  match fuel with
  | O => throw Diverges
  | S fuel' =>
    match tmp with
    | None => mret (prv, tmp)
    | Some _ =>
      o ← load timer;
      ot ← load tmp;
      if expire o <? expire ot then
        _ ← store prv (fun n => n <| next := timer |>);
        _ ← store timer (fun n => n <| next := tmp |>);
        _ ← store tmp (fun n => n <| prev := timer |>);
        _ ← store timer (fun n => n <| prev := prv |>);
        mret (prv, tmp)
      else
        ot' ← load tmp;
        add_loop fuel' timer tmp (next ot')
    end
  end.

(** [add_timer(timer, lst_head)].  The list is at most as long as the heap is
    large, which bounds the loop. *)
Definition add_timer_after (timer lst_head : option loc) : ST sort_timer_lst unit :=
  op ← load lst_head;
  s ← get;
  '(prv, tmp) ← add_loop (S (size (heap s))) timer lst_head (next op);
  match tmp with
  | Some _ => mret tt
  | None =>
    _ ← store prv (fun n => n <| next := timer |>);
    _ ← store timer (fun n => n <| prev := prv |>);
    _ ← store timer (fun n => n <| next := None |>);
    modify (fun s => s <| tail := timer |>)
  end.

Definition add_timer (timer : option loc) : ST sort_timer_lst unit :=
  match timer with
  | None => mret tt
  | Some _ =>
    s ← get;
    match head s with
    | None => modify (fun s => s <| head := timer |> <| tail := timer |>)
    | Some _ =>
      o ← load timer;
      oh ← load (head s);
      if expire o <? expire oh then
        _ ← store timer (fun n => n <| next := head s |>);
        _ ← store (head s) (fun n => n <| prev := timer |>);
        modify (fun s => s <| head := timer |>)
      else add_timer_after timer (head s)
    end
  end.

Definition adjust_timer (timer : option loc) : ST sort_timer_lst unit :=
  match timer with
  | None => mret tt
  | Some _ =>
    o ← load timer;
    let tmp := next o in
    stay ← match tmp with
           | None => mret true
           | Some _ => ot ← load tmp; mret (expire o <? expire ot)
           end;
    if stay : bool then mret tt
    else
      s ← get;
      if bool_decide (timer = head s) then
        oh ← load (head s);
        _ ← modify (fun s => s <| head := next oh |>);
        _ ← store (next oh) (fun n => n <| prev := None |>);
        _ ← store timer (fun n => n <| next := None |>);
        add_timer_after timer (next oh)
      else
        o ← load timer;
        _ ← store (prev o) (fun n => n <| next := next o |>);
        o ← load timer;
        _ ← store (next o) (fun n => n <| prev := prev o |>);
        o ← load timer;
        add_timer_after timer (next o)
  end.

Definition del_timer (timer : option loc) : ST sort_timer_lst unit :=
  match timer with
  | None => mret tt
  | Some _ =>
    s ← get;
    if bool_decide (timer = head s) && bool_decide (timer = tail s) then
      _ ← free timer;
      modify (fun s => s <| head := None |> <| tail := None |>)
    else if bool_decide (timer = head s) then
      oh ← load (head s);
      _ ← modify (fun s => s <| head := next oh |>);
      _ ← store (next oh) (fun n => n <| prev := None |>);
      free timer
    else if bool_decide (timer = tail s) then
      ot ← load (tail s);
      _ ← modify (fun s => s <| tail := prev ot |>);
      _ ← store (prev ot) (fun n => n <| next := None |>);
      free timer
    else
      o ← load timer;
      _ ← store (prev o) (fun n => n <| next := next o |>);
      o ← load timer;
      _ ← store (next o) (fun n => n <| prev := prev o |>);
      free timer
  end.

(** [tick] calls back into the server, so it runs on the list and on the state
    [W] of the server together. *)
Section tick.
Context {W : Type} (cb_func : Z -> ST W unit).

Definition on_list {A} (m : ST sort_timer_lst A) : ST (sort_timer_lst * W) A :=
  zoom fst (fun l s => (l, snd s)) m.
Definition on_world {A} (m : ST W A) : ST (sort_timer_lst * W) A :=
  zoom snd (fun w s => (fst s, w)) m.

Fixpoint tick_loop (fuel : nat) (cur : Z) (tmp : option loc) : ST (sort_timer_lst * W) unit :=
  match fuel with
  | O => throw Diverges
  | S fuel' =>
    match tmp with
    | None => mret tt
    | Some _ =>
      o ← on_list (load tmp);
      if cur <? expire o then mret tt
      else
        _ ← on_world (cb_func (user_data o));
        o ← on_list (load tmp);
        _ ← on_list (modify (fun s => s <| head := next o |>));
        _ ← match next o with
            | None => mret tt
            | Some _ => on_list (store (next o) (fun n => n <| prev := None |>))
            end;
        _ ← on_list (free tmp);
        tick_loop fuel' cur (next o)
    end
  end.

(** [cur] is the result of [time(NULL)]. *)
Definition tick (cur : Z) : ST (sort_timer_lst * W) unit :=
  s ← get;
  match head (fst s) with
  | None => mret tt
  | Some _ => tick_loop (S (size (heap (fst s)))) cur (head (fst s))
  end.

End tick.

(** The destructor's loop. *)
Fixpoint dtor_loop (fuel : nat) (tmp : option loc) : ST sort_timer_lst unit :=
  match fuel with
  | O => throw Diverges
  | S fuel' =>
    match tmp with
    | None => mret tt
    | Some _ =>
      o ← load tmp;
      _ ← modify (fun s => s <| head := next o |>);
      _ ← free tmp;
      dtor_loop fuel' (next o)
    end
  end.

Definition dtor : ST sort_timer_lst unit :=
  s ← get;
  dtor_loop (S (size (heap s))) (head s).

(** ** Specification: a list of entries in order of expiry *)

Record entry := { e_loc : loc; e_expire : Z; e_data : Z }.

Definition first (es : list entry) (n : option loc) : option loc :=
  match es with [] => n | e :: _ => Some (e_loc e) end.
Definition final (p : option loc) (es : list entry) : option loc :=
  match list.last es with None => p | Some e => Some (e_loc e) end.

(** The segment [es] is laid out in [h], between the nodes [p] and [n]. *)
Fixpoint dseg (h : gmap loc util_timer) (p : option loc) (es : list entry) (n : option loc) : Prop :=
  match es with
  | [] => True
  | e :: es' =>
    h !! e_loc e = Some {| expire := e_expire e; user_data := e_data e;
                           prev := p; next := first es' n |} /\
    dseg h (Some (e_loc e)) es' n
  end.

(** After [tick] has emptied the list, [tail] is left dangling; the code never
    reads it before the next [add_timer] sets it. *)
Definition repr (s : sort_timer_lst) (es : list entry) : Prop :=
  NoDup (e_loc <$> es) /\
  dseg (heap s) None es None /\
  head s = first es None /\
  (es <> [] -> tail s = final None es).

Definition sorted (es : list entry) : Prop := StronglySorted (fun a b => e_expire a <= e_expire b) es.

(** Insertion behind every entry that does not expire later. *)
Fixpoint insert_entry (e : entry) (es : list entry) : list entry :=
  match es with
  | [] => [e]
  | x :: es' => if e_expire e <? e_expire x then e :: x :: es' else x :: insert_entry e es'
  end.

Fixpoint expired (cur : Z) (es : list entry) : list entry :=
  match es with
  | [] => []
  | e :: es' => if cur <? e_expire e then [] else e :: expired cur es'
  end.

Fixpoint unexpired (cur : Z) (es : list entry) : list entry :=
  match es with
  | [] => []
  | e :: es' => if cur <? e_expire e then es else unexpired cur es'
  end.

(** The callbacks of [es] one after the other. *)
Fixpoint run_callbacks {W} (cb : Z -> ST W unit) (es : list entry) : ST W unit :=
  match es with
  | [] => mret tt
  | e :: es' => _ ← cb (e_data e); run_callbacks cb es'
  end.

(** ** The life of a list

    What the server does with it: a timer is allocated and added, given a
    later expiry time and adjusted, deleted, and the list is ticked.  The
    callback here only records the connection it was called for. *)

Definition record_cb (d : Z) : ST (list Z) unit := fun w => Ok (tt, w ++ [d]).

Definition new_timer (l : loc) (exp data : Z) : ST sort_timer_lst unit :=
  _ ← modify (fun s => s <| heap := <[l := {| expire := exp; user_data := data;
                                              prev := None; next := None |}]> (heap s) |>);
  add_timer (Some l).

Definition delay_timer (l : loc) (exp : Z) : ST sort_timer_lst unit :=
  _ ← store (Some l) (fun n => n <| expire := exp |>);
  adjust_timer (Some l).

Inductive step : sort_timer_lst -> sort_timer_lst -> Prop :=
| step_new s s' l exp data :
    heap s !! l = None -> new_timer l exp data s = Ok (tt, s') -> step s s'
| step_delay s s' l o exp :
    heap s !! l = Some o -> expire o <= exp -> delay_timer l exp s = Ok (tt, s') -> step s s'
| step_del s s' l o :
    heap s !! l = Some o -> del_timer (Some l) s = Ok (tt, s') -> step s s'
| step_tick s s' cur w w' :
    tick record_cb cur (s, w) = Ok (tt, (s', w')) -> step s s'.

(** The list is laid out, in order, and owns every live timer. *)
Definition inv (s : sort_timer_lst) (es : list entry) : Prop :=
  repr s es /\ sorted es /\ dom (heap s) = list_to_set (e_loc <$> es).

(** ** Lemmas on the layout *)

Lemma first_app xs ys n : first (xs ++ ys) n = first xs (first ys n).
Proof. by destruct xs. Qed.

Lemma final_cons p e es : final p (e :: es) = final (Some (e_loc e)) es.
Proof. unfold final. rewrite last_cons. by destruct (list.last es). Qed.

Lemma final_snoc p es e : final p (es ++ [e]) = Some (e_loc e).
Proof. unfold final. by rewrite last_snoc. Qed.

Lemma final_app p xs ys : final p (xs ++ ys) = final (final p xs) ys.
Proof.
  unfold final. rewrite last_app. by destruct (list.last ys).
Qed.

Lemma dseg_app h p xs ys n :
  dseg h p (xs ++ ys) n <-> dseg h p xs (first ys n) /\ dseg h (final p xs) ys n.
Proof.
  revert p. induction xs as [|x xs IH]; intros p; simpl; [tauto|].
  rewrite IH, first_app, final_cons. tauto.
Qed.

Lemma dseg_insert h l o p es n :
  l ∉ e_loc <$> es -> dseg h p es n -> dseg (<[l := o]> h) p es n.
Proof.
  revert p. induction es as [|e es IH]; intros p Hl; simpl; [done|].
  rewrite fmap_cons, not_elem_of_cons in Hl. destruct Hl.
  rewrite lookup_insert_ne by done. intros [? ?]. eauto.
Qed.

Lemma dseg_delete h l p es n :
  l ∉ e_loc <$> es -> dseg h p es n -> dseg (delete l h) p es n.
Proof.
  revert p. induction es as [|e es IH]; intros p Hl; simpl; [done|].
  rewrite fmap_cons, not_elem_of_cons in Hl. destruct Hl.
  rewrite lookup_delete_ne by done. intros [? ?]. eauto.
Qed.

Lemma dseg_dom h p es n e : dseg h p es n -> e ∈ es -> is_Some (h !! e_loc e).
Proof.
  revert p. induction es as [|x es IH]; intros p; simpl; [by intros _ ?%not_elem_of_nil|].
  intros [Hx Hs] [->|Hin]%elem_of_cons; eauto.
Qed.

(** The list is no longer than its heap: the bound on the loops. *)
Lemma dseg_size h p es n :
  NoDup (e_loc <$> es) -> dseg h p es n -> (length es <= size h)%nat.
Proof.
  intros Hnd Hs.
  assert (list_to_set (e_loc <$> es) ⊆ dom h) as Hsub.
  { intros l Hl. apply elem_of_list_to_set, list_elem_of_fmap in Hl as (e & -> & He).
    apply elem_of_dom. eauto using dseg_dom. }
  apply subseteq_size in Hsub. rewrite size_list_to_set, length_fmap, size_dom in Hsub by done.
  done.
Qed.

(** Facts about the addresses of a list with no repetition. *)
Lemma nodup_mid pre x post :
  NoDup (e_loc <$> pre ++ x :: post) ->
  e_loc x ∉ e_loc <$> pre ++ post /\ NoDup (e_loc <$> pre ++ post).
Proof.
  intros H. rewrite fmap_app, fmap_cons in H. rewrite fmap_app.
  rewrite <- (Permutation_middle (e_loc <$> pre) (e_loc <$> post)) in H.
  by apply NoDup_cons in H.
Qed.

Ltac locs :=
  repeat match goal with
  | H : NoDup (e_loc <$> _ ++ _ :: _) |- _ => apply nodup_mid in H as [? ?]
  end;
  repeat match goal with
  | H : _ ∉ _ |- _ =>
    progress rewrite ?fmap_app, ?fmap_cons, ?not_elem_of_app, ?not_elem_of_cons in H
  end;
  rewrite ?fmap_app, ?fmap_cons, ?not_elem_of_app, ?not_elem_of_cons;
  destruct_and?; split_and?; try done; try congruence.

Lemma load_ok l o s : heap s !! l = Some o -> load (Some l) s = Ok (o, s).
Proof. intros H. unfold load. by rewrite H. Qed.

Lemma store_ok l o f s : heap s !! l = Some o ->
  store (Some l) f s = Ok (tt, s <| heap := <[l := f o]> (heap s) |>).
Proof. intros H. unfold store. by rewrite H. Qed.

Lemma free_ok l o s : heap s !! l = Some o ->
  free (Some l) s = Ok (tt, s <| heap := delete l (heap s) |>).
Proof. intros H. unfold free. by rewrite H. Qed.

(** The node that an entry stands for, between its neighbours. *)
Definition node (e : entry) (p n : option loc) : util_timer :=
  {| expire := e_expire e; user_data := e_data e; prev := p; next := n |}.

(** Link the timer of [e] behind [x], at the end of the list. *)
Lemma dseg_link_last h pre x e :
  NoDup (e_loc <$> pre ++ [x]) -> e_loc e ∉ e_loc <$> pre ++ [x] ->
  dseg h None (pre ++ [x]) None ->
  dseg (<[e_loc e := node e (Some (e_loc x)) None]>
         (<[e_loc x := node x (final None pre) (Some (e_loc e))]> h))
       None (pre ++ [x; e]) None.
Proof.
  intros Hnd Hl [Hpre Hx]%dseg_app. simpl in Hx. apply dseg_app. simpl.
  split; [apply dseg_insert, dseg_insert; [locs..|done]|].
  by rewrite lookup_insert_ne, !lookup_insert_eq by locs.
Qed.

(** Link it between [x] and [y]. *)
Lemma dseg_link_mid h pre x y post e :
  NoDup (e_loc <$> pre ++ x :: y :: post) -> e_loc e ∉ e_loc <$> pre ++ x :: y :: post ->
  dseg h None (pre ++ x :: y :: post) None ->
  dseg (<[e_loc e := node e (Some (e_loc x)) (Some (e_loc y))]>
         (<[e_loc y := node y (Some (e_loc e)) (first post None)]>
           (<[e_loc x := node x (final None pre) (Some (e_loc e))]> h)))
       None (pre ++ x :: e :: y :: post) None.
Proof.
  intros Hnd Hl [Hpre (Hx & Hy & Hpost)]%dseg_app. apply dseg_app.
  split; [do 3 (apply dseg_insert; [locs|]); done|]. simpl.
  split; [by rewrite !lookup_insert_ne, lookup_insert_eq by locs|].
  split; [by rewrite lookup_insert_eq|].
  split; [by rewrite lookup_insert_ne, lookup_insert_eq by locs|].
  do 3 (apply dseg_insert; [locs|]). done.
Qed.

(** The timer [l] holds the data of [e] and is not in the list. *)
Definition detached (h : gmap loc util_timer) (e : entry) : Prop :=
  exists p n, h !! e_loc e = Some (node e p n).

Lemma dom_insert_same (h : gmap loc util_timer) l o o' :
  h !! l = Some o -> dom (<[l := o']> h) = dom h.
Proof. intros H. apply dom_insert_lookup_L. eauto. Qed.

Ltac look := cbn; by simplify_map_eq.

Ltac dom_same :=
  repeat (erewrite dom_insert_same; [|by simplify_map_eq]); try done.

(** What follows the loop in the two-argument [add_timer]. *)
Definition add_finish (timer : option loc) (r : option loc * option loc) : ST sort_timer_lst unit :=
  let '(prv, tmp) := r in
  match tmp with
  | Some _ => mret tt
  | None =>
    _ ← store prv (fun n => n <| next := timer |>);
    _ ← store timer (fun n => n <| prev := prv |>);
    _ ← store timer (fun n => n <| next := None |>);
    modify (fun s => s <| tail := timer |>)
  end.

Lemma add_loop_spec post : forall pre x e s fuel,
  NoDup (e_loc <$> pre ++ x :: post) -> e_loc e ∉ e_loc <$> pre ++ x :: post ->
  detached (heap s) e -> dseg (heap s) None (pre ++ x :: post) None ->
  tail s = final None (pre ++ x :: post) ->
  (length post < fuel)%nat ->
  exists s',
    (add_loop fuel (Some (e_loc e)) (Some (e_loc x)) (first post None)
       ≫= add_finish (Some (e_loc e))) s = Ok (tt, s') /\
    dseg (heap s') None (pre ++ x :: insert_entry e post) None /\
    head s' = head s /\ tail s' = final None (pre ++ x :: insert_entry e post) /\
    dom (heap s') = dom (heap s).
Proof.
  induction post as [|y post IH]; intros pre x e s fuel Hnd Hl (op & on & Ho) Hs Ht Hf;
    (destruct fuel as [|fuel]; [simpl in Hf; lia|]); simpl.
  - (* the end of the list *)
    pose proof (proj1 (dseg_app _ _ _ _ _) Hs) as [_ [Hx _]].
    assert (e_loc e <> e_loc x) by locs.
    unfold add_finish. exec_unfold. cbn. rewrite (store_ok _ _ _ _ Hx). cbn.
    rewrite (store_ok _ (node e op on)) by look. cbn.
    erewrite store_ok by look. cbn. rewrite !insert_insert_eq. eexists. split; [done|]. cbn.
    split_and!; [|done| |].
    + exact (dseg_link_last _ pre x e Hnd Hl Hs).
    + by rewrite final_app, !final_cons.
    + dom_same.
  - pose proof (proj1 (dseg_app _ _ _ _ _) Hs) as [_ (Hx & Hy & _)]. simpl in Hx, Hy.
    assert (e_loc e <> e_loc x) by locs. assert (e_loc e <> e_loc y) by locs.
    assert (e_loc x <> e_loc y) by locs.
    exec_unfold. cbn -[store load add_loop add_finish].
    rewrite (load_ok _ _ _ Ho), (load_ok _ _ _ Hy). cbn -[add_loop add_finish Z.ltb].
    destruct (Z.ltb_spec (e_expire e) (e_expire y)) as [Hlt|Hge].
    + rewrite (store_ok _ _ _ _ Hx). cbn.
      rewrite (store_ok _ (node e op on)) by look. cbn.
      erewrite store_ok by look. cbn.
      erewrite store_ok by look. cbn. eexists. split; [done|]. cbn.
      split_and!; [|done| |].
      * rewrite (insert_insert_ne _ (e_loc y) (e_loc e)) by locs. rewrite insert_insert_eq.
        exact (dseg_link_mid _ pre x y post e Hnd Hl Hs).
      * rewrite Ht, !final_app, !final_cons. done.
      * dom_same.
    + rewrite (load_ok _ _ _ Hy). cbn -[store load add_loop add_finish].
      specialize (IH (pre ++ [x]) y e s fuel). rewrite <- !app_assoc in IH. simpl in IH.
      apply IH; try done; [by exists op, on|simpl in Hf; lia].
Qed.

Lemma add_timer_after_spec pre x post e s :
  NoDup (e_loc <$> pre ++ x :: post) -> e_loc e ∉ e_loc <$> pre ++ x :: post ->
  detached (heap s) e -> dseg (heap s) None (pre ++ x :: post) None ->
  tail s = final None (pre ++ x :: post) ->
  exists s',
    add_timer_after (Some (e_loc e)) (Some (e_loc x)) s = Ok (tt, s') /\
    dseg (heap s') None (pre ++ x :: insert_entry e post) None /\
    head s' = head s /\ tail s' = final None (pre ++ x :: insert_entry e post) /\
    dom (heap s') = dom (heap s).
Proof.
  intros Hnd Hl Hdet Hs Ht.
  pose proof (proj1 (dseg_app _ _ _ _ _) Hs) as [_ (Hx & _)].
  pose proof (dseg_size _ _ _ _ Hnd Hs) as Hsz. rewrite length_app in Hsz. simpl in Hsz.
  destruct (add_loop_spec post pre x e s (S (size (heap s))) Hnd Hl Hdet Hs Ht ltac:(lia))
    as (s' & Hrun & Hrest).
  exists s'. split; [|done]. unfold add_timer_after. cbv [mbind ST_bind].
  rewrite (load_ok _ _ _ Hx). exact Hrun.
Qed.

Lemma insert_entry_locs e es : e_loc <$> insert_entry e es ≡ₚ e_loc e :: (e_loc <$> es).
Proof.
  induction es as [|x es IH]; simpl; [done|]. case_match; csimpl; [done|].
  rewrite IH. apply Permutation_swap.
Qed.

Lemma insert_entry_not_nil e es : insert_entry e es <> [].
Proof. destruct es; simpl; [done|]. by case_match. Qed.

Lemma nodup_insert_entry e pre es :
  NoDup (e_loc <$> pre ++ es) -> e_loc e ∉ e_loc <$> pre ++ es ->
  NoDup (e_loc <$> pre ++ insert_entry e es).
Proof.
  intros Hnd Hl. rewrite fmap_app, insert_entry_locs, <- Permutation_middle, <- fmap_app.
  by apply NoDup_cons.
Qed.

(** [add_timer] of a new timer is [insert_entry]. *)
Lemma add_timer_spec s es e :
  repr s es -> e_loc e ∉ e_loc <$> es ->
  heap s !! e_loc e = Some (node e None None) ->
  exists s', add_timer (Some (e_loc e)) s = Ok (tt, s') /\
    repr s' (insert_entry e es) /\ dom (heap s') = dom (heap s).
Proof.
  intros (Hnd & Hs & Hh & Ht) Hl He. unfold add_timer.
  destruct es as [|x es]; simpl in Hh; exec_unfold; rewrite Hh.
  - eexists. split; [done|]. split; [|done]. split_and!; cbn; try done.
    apply NoDup_singleton.
  - specialize (Ht ltac:(done)). pose proof Hs as [Hx _].
    assert (e_loc e <> e_loc x) by locs.
    rewrite (load_ok _ _ _ He), (load_ok _ _ _ Hx). cbn -[store add_timer_after Z.ltb].
    destruct (Z.ltb_spec (e_expire e) (e_expire x)) as [Hlt|Hge].
    + rewrite (store_ok _ _ _ _ He). cbn. erewrite store_ok by look. cbn.
      eexists. split; [done|]. destruct Hs as [_ Hs]. split.
      * unfold repr. cbn. split_and!; try done.
        -- by apply NoDup_cons.
        -- by rewrite lookup_insert_ne, lookup_insert_eq by locs.
        -- by rewrite lookup_insert_eq.
        -- apply NoDup_cons in Hnd as [??]. do 2 (apply dseg_insert; [locs|]). done.
      * cbn. dom_same.
    + destruct (add_timer_after_spec [] x es e s) as (s' & Hrun & Hs' & Hh' & Ht' & Hdom);
        [done|done|by exists None, None|done|done|].
      exists s'. split; [exact Hrun|]. split; [|done]. unfold repr.
      split_and!; [|done|by rewrite Hh', Hh|done].
      change (x :: insert_entry e es) with ([x] ++ insert_entry e es).
      by apply nodup_insert_entry.
Qed.

(** Unlink [e] from between its neighbours. *)
Lemma dseg_unlink_mid h pre x e y post :
  NoDup (e_loc <$> pre ++ x :: e :: y :: post) ->
  dseg h None (pre ++ x :: e :: y :: post) None ->
  dseg (<[e_loc y := node y (Some (e_loc x)) (first post None)]>
         (<[e_loc x := node x (final None pre) (Some (e_loc y))]> h))
       None (pre ++ x :: y :: post) None.
Proof.
  intros Hnd [Hpre (Hx & He & Hy & Hpost)]%dseg_app. apply dseg_app.
  split; [do 2 (apply dseg_insert; [locs|]); done|]. simpl.
  split; [by rewrite lookup_insert_ne, lookup_insert_eq by locs|].
  split; [by rewrite lookup_insert_eq|].
  do 2 (apply dseg_insert; [locs|]). done.
Qed.

Lemma dseg_unlink_head h e y post :
  NoDup (e_loc <$> e :: y :: post) -> dseg h None (e :: y :: post) None ->
  dseg (<[e_loc y := node y None (first post None)]> h) None (y :: post) None.
Proof.
  intros Hnd (He & Hy & Hpost). rewrite !fmap_cons, !NoDup_cons in Hnd. destruct Hnd as (? & ? & ?).
  split; [by rewrite lookup_insert_eq|]. by apply dseg_insert.
Qed.

Lemma dseg_unlink_last h pre x e :
  NoDup (e_loc <$> pre ++ [x; e]) -> dseg h None (pre ++ [x; e]) None ->
  dseg (<[e_loc x := node x (final None pre) None]> h) None (pre ++ [x]) None.
Proof.
  intros Hnd [Hpre (Hx & He & _)]%dseg_app. apply dseg_app.
  split; [apply dseg_insert; [locs|done]|]. simpl. by rewrite lookup_insert_eq.
Qed.

Lemma first_not_mid pre e post :
  NoDup (e_loc <$> pre ++ e :: post) -> pre <> [] ->
  first (pre ++ e :: post) None <> Some (e_loc e).
Proof. intros Hnd Hne. destruct pre as [|x pre]; [done|]. simpl. intros [= E]. locs. Qed.

Lemma final_not_mid pre e post :
  NoDup (e_loc <$> pre ++ e :: post) -> post <> [] ->
  final None (pre ++ e :: post) <> Some (e_loc e).
Proof.
  intros Hnd Hne. destruct post as [|y post _] using rev_ind; [done|].
  rewrite app_comm_cons, app_assoc, final_snoc. intros [= E]. locs.
Qed.

Lemma insert_entry_head e y post :
  e_expire e < e_expire y -> insert_entry e (y :: post) = e :: y :: post.
Proof. intros H. simpl. by rewrite (proj2 (Z.ltb_lt _ _)). Qed.

Lemma repr_ne_nil s pre e post : repr s (pre ++ e :: post) ->
  tail s = final None (pre ++ e :: post).
Proof. intros (_ & _ & _ & Ht). apply Ht. by destruct pre. Qed.

(** Moving an entry behind the later ones: the two places where
    [adjust_timer] unlinks the timer and re-inserts it. *)
Lemma adjust_head_spec s e y post :
  repr s (e :: y :: post) -> e_expire y <= e_expire e ->
  exists s', adjust_timer (Some (e_loc e)) s = Ok (tt, s') /\
    repr s' (insert_entry e (y :: post)) /\ dom (heap s') = dom (heap s).
Proof.
  intros Hr Hge. pose proof (repr_ne_nil s [] e (y :: post) Hr) as Ht.
  destruct Hr as (Hnd & Hs & Hh & _). pose proof Hs as (He & Hy & _). simpl in Hh.
  assert (e_loc e <> e_loc y) by (rewrite !fmap_cons, !NoDup_cons in Hnd; locs).
  pose proof (dseg_unlink_head _ _ _ _ Hnd Hs) as Hs1.
  rewrite fmap_cons, NoDup_cons in Hnd. destruct Hnd as [Hl Hnd].
  set (s1 := s <| head := Some (e_loc y) |>
    <| heap := <[e_loc e := node e None None]>
                 (<[e_loc y := node y None (first post None)]> (heap s)) |>).
  destruct (add_timer_after_spec [] y post e s1) as (s' & Hrun & Hs' & Hh' & Ht' & Hdom).
  { done. } { done. } { exists None, None. cbn. by simplify_map_eq. }
  { cbn. apply (dseg_insert _ _ _ None (y :: post)); done. }
  { cbn. rewrite Ht. by rewrite !app_nil_l, !final_cons. }
  exists s'. split_and!.
  - unfold adjust_timer. exec_unfold. rewrite (load_ok _ _ _ He). cbn -[add_timer_after Z.ltb].
    rewrite (load_ok _ _ _ Hy). cbn -[add_timer_after Z.ltb].
    rewrite (proj2 (Z.ltb_ge _ _)) by lia. rewrite Hh, bool_decide_eq_true_2 by done.
    rewrite (load_ok _ _ _ He). cbn -[add_timer_after].
    erewrite store_ok by done. cbn -[add_timer_after].
    erewrite store_ok by look. exact Hrun.
  - simpl. rewrite (proj2 (Z.ltb_ge _ _)) by lia. split_and!; [|done|done|done].
    change (y :: insert_entry e post) with ([y] ++ insert_entry e post).
    by apply nodup_insert_entry.
  - rewrite Hdom. cbn. dom_same.
Qed.

Lemma adjust_mid_spec s pre x e y post :
  repr s (pre ++ x :: e :: y :: post) -> e_expire y <= e_expire e ->
  exists s', adjust_timer (Some (e_loc e)) s = Ok (tt, s') /\
    repr s' (pre ++ x :: insert_entry e (y :: post)) /\ dom (heap s') = dom (heap s).
Proof.
  intros Hr Hge.
  pose proof (repr_ne_nil s (pre ++ [x]) e (y :: post)) as Ht. rewrite <- app_assoc in Ht.
  specialize (Ht Hr). destruct Hr as (Hnd & Hs & Hh & _).
  pose proof (proj1 (dseg_app _ _ _ _ _) Hs) as [_ (Hx & He & Hy & _)]. simpl in Hx, He.
  assert (e_loc e <> e_loc y) by locs. assert (e_loc e <> e_loc x) by locs.
  assert (e_loc x <> e_loc y) by locs.
  pose proof (dseg_unlink_mid _ _ _ _ _ _ Hnd Hs) as Hs1.
  assert (Some (e_loc e) <> head s) as Hne.
  { rewrite Hh. intros E. apply (first_not_mid (pre ++ [x]) e (y :: post)).
    - by rewrite <- app_assoc.
    - by destruct pre.
    - by rewrite <- app_assoc. }
  assert (NoDup (e_loc <$> (pre ++ [x]) ++ y :: post) /\
          e_loc e ∉ e_loc <$> (pre ++ [x]) ++ y :: post) as [Hnd' Hl].
  { rewrite app_snoc in Hnd. apply nodup_mid in Hnd. tauto. }
  set (s1 := s <| heap := <[e_loc y := node y (Some (e_loc x)) (first post None)]>
                 (<[e_loc x := node x (final None pre) (Some (e_loc y))]> (heap s)) |>).
  destruct (add_timer_after_spec (pre ++ [x]) y post e s1) as (s' & Hrun & Hs' & Hh' & Ht' & Hdom).
  { done. } { done. } { eexists _, _. cbn. rewrite !lookup_insert_ne by done. exact He. }
  { cbn. by rewrite <- app_assoc. }
  { cbn. rewrite Ht. by rewrite <- app_assoc, !final_app, !final_cons. }
  exists s'. split_and!.
  - unfold adjust_timer. exec_unfold. rewrite (load_ok _ _ _ He). cbn -[add_timer_after Z.ltb].
    rewrite (load_ok _ _ _ Hy). cbn -[add_timer_after Z.ltb].
    rewrite (proj2 (Z.ltb_ge _ _)) by lia. rewrite bool_decide_eq_false_2 by done.
    rewrite (load_ok _ _ _ He). cbn -[add_timer_after].
    rewrite (store_ok _ _ _ _ Hx). cbn -[add_timer_after].
    erewrite load_ok by look. cbn -[add_timer_after].
    erewrite store_ok by look. cbn -[add_timer_after].
    erewrite load_ok by look. exact Hrun.
  - simpl. rewrite (proj2 (Z.ltb_ge _ _)) by lia.
    rewrite (app_snoc pre).
    split_and!; [|done| |done].
    + rewrite app_snoc. apply nodup_insert_entry; by rewrite <- app_snoc.
    + rewrite Hh'. cbn. rewrite Hh. by destruct pre.
  - rewrite Hdom. cbn. dom_same.
Qed.

Lemma adjust_stay_spec s pre e post :
  repr s (pre ++ e :: post) ->
  match post with [] => True | y :: _ => e_expire e < e_expire y end ->
  adjust_timer (Some (e_loc e)) s = Ok (tt, s).
Proof.
  intros (Hnd & Hs & Hh & _) Hlt. pose proof (proj1 (dseg_app _ _ _ _ _) Hs) as [_ (He & Hpost)].
  unfold adjust_timer. exec_unfold. rewrite (load_ok _ _ _ He). destruct post as [|y post]; cbn; [done|].
  destruct Hpost as [Hy _]. rewrite (load_ok _ _ _ Hy). cbn -[Z.ltb].
  by rewrite (proj2 (Z.ltb_lt _ _)).
Qed.

Lemma adjust_timer_spec s pre e post :
  repr s (pre ++ e :: post) ->
  exists s', adjust_timer (Some (e_loc e)) s = Ok (tt, s') /\
    repr s' (pre ++ insert_entry e post) /\ dom (heap s') = dom (heap s).
Proof.
  intros Hr. destruct post as [|y post].
  { exists s. split_and!; [|done|done]. by apply (adjust_stay_spec s pre e []). }
  destruct (Z.lt_ge_cases (e_expire e) (e_expire y)) as [Hlt|Hge].
  { exists s. rewrite insert_entry_head by done. split_and!; [|done|done].
    by apply (adjust_stay_spec s pre e (y :: post)). }
  destruct pre as [|x pre _] using rev_ind; [by apply adjust_head_spec|].
  rewrite <- app_assoc in Hr |- *. by apply adjust_mid_spec.
Qed.

(** ** [del_timer] *)

Lemma dom_delete_after (h : gmap loc util_timer) l : dom (delete l h) = dom h ∖ {[ l ]}.
Proof. apply dom_delete_L. Qed.

Lemma first_not_next pre x e post :
  NoDup (e_loc <$> pre ++ x :: e :: post) ->
  Some (e_loc e) <> first (pre ++ x :: e :: post) None.
Proof.
  intros Hnd E. rewrite app_snoc in Hnd, E. revert E. apply not_eq_sym, first_not_mid; [done|].
  by destruct pre.
Qed.

Lemma del_only_spec s e :
  repr s [e] ->
  exists s', del_timer (Some (e_loc e)) s = Ok (tt, s') /\
    repr s' [] /\ dom (heap s') = dom (heap s) ∖ {[ e_loc e ]}.
Proof.
  intros Hr. pose proof (repr_ne_nil s [] e [] Hr) as Ht. destruct Hr as (Hnd & [He _] & Hh & _).
  unfold del_timer. exec_unfold. rewrite Hh, Ht, !bool_decide_eq_true_2 by done. simpl.
  rewrite (free_ok _ _ _ He). eexists. split; [done|]. cbn.
  split; [by repeat split; constructor|apply dom_delete_L].
Qed.

Lemma del_head_spec s e y post :
  repr s (e :: y :: post) ->
  exists s', del_timer (Some (e_loc e)) s = Ok (tt, s') /\
    repr s' (y :: post) /\ dom (heap s') = dom (heap s) ∖ {[ e_loc e ]}.
Proof.
  intros Hr. pose proof (repr_ne_nil s [] e (y :: post) Hr) as Ht.
  destruct Hr as (Hnd & Hs & Hh & _). pose proof Hs as (He & Hy & _).
  pose proof (final_not_mid [] e (y :: post) Hnd ltac:(done)) as Hfin.
  pose proof (proj1 (NoDup_cons _ _) Hnd) as [Hl Hnd'].
  unfold del_timer. exec_unfold. rewrite Hh, Ht.
  rewrite bool_decide_eq_true_2 by done. rewrite bool_decide_eq_false_2 by done. simpl.
  rewrite (load_ok _ _ _ He). cbn. erewrite store_ok by done. cbn.
  assert (e_loc e <> e_loc y) by locs.
  erewrite free_ok by look. eexists. split; [done|]. cbn. split.
  - split_and!; cbn; [done| |done|].
    + apply (dseg_delete _ _ None (y :: post)); [done|]. by apply (dseg_unlink_head _ e).
    + intros _. by rewrite Ht, app_nil_l, !final_cons.
  - rewrite dom_delete_L. f_equal. dom_same.
Qed.

Lemma del_last_spec s pre x e :
  repr s (pre ++ [x; e]) ->
  exists s', del_timer (Some (e_loc e)) s = Ok (tt, s') /\
    repr s' (pre ++ [x]) /\ dom (heap s') = dom (heap s) ∖ {[ e_loc e ]}.
Proof.
  intros Hr. pose proof (repr_ne_nil s pre x [e] Hr) as Ht. destruct Hr as (Hnd & Hs & Hh & _).
  pose proof (proj1 (dseg_app _ _ _ _ _) Hs) as [_ (Hx & He & _)]. simpl in Hx, He.
  assert (e_loc e <> e_loc x) by locs.
  assert (e_loc e ∉ e_loc <$> pre ++ [x] /\ NoDup (e_loc <$> pre ++ [x])) as [Hl Hnd'].
  { pose proof Hnd as H'. rewrite app_snoc in H'. apply nodup_mid in H'. by rewrite app_nil_r in H'. }
  assert (final None (pre ++ [x; e]) = Some (e_loc e)) as Hfin by (by rewrite app_snoc, final_snoc).
  unfold del_timer. exec_unfold. rewrite Hh, Ht, Hfin.
  rewrite bool_decide_eq_false_2 by (by apply first_not_next). simpl.
  rewrite bool_decide_eq_true_2 by done. rewrite (load_ok _ _ _ He). cbn.
  erewrite store_ok by done. cbn. erewrite free_ok by look. eexists. split; [done|]. cbn. split.
  - split_and!; cbn; [done| | |].
    + apply dseg_delete; [done|]. by apply (dseg_unlink_last _ pre x e).
    + by rewrite Hh; destruct pre.
    + intros _. by rewrite final_snoc.
  - rewrite dom_delete_L. f_equal. dom_same.
Qed.

Lemma del_mid_spec s pre x e y post :
  repr s (pre ++ x :: e :: y :: post) ->
  exists s', del_timer (Some (e_loc e)) s = Ok (tt, s') /\
    repr s' (pre ++ x :: y :: post) /\ dom (heap s') = dom (heap s) ∖ {[ e_loc e ]}.
Proof.
  intros Hr. pose proof (repr_ne_nil s pre x (e :: y :: post) Hr) as Ht.
  destruct Hr as (Hnd & Hs & Hh & _).
  pose proof (proj1 (dseg_app _ _ _ _ _) Hs) as [_ (Hx & He & Hy & _)]. simpl in Hx, He, Hy.
  assert (e_loc e <> e_loc y) by locs. assert (e_loc e <> e_loc x) by locs.
  assert (e_loc x <> e_loc y) by locs.
  assert (e_loc e ∉ e_loc <$> pre ++ x :: y :: post /\ NoDup (e_loc <$> pre ++ x :: y :: post))
    as [Hl Hnd'].
  { pose proof Hnd as H'. rewrite app_snoc in H'. apply nodup_mid in H'. by rewrite <- app_assoc in H'. }
  assert (Some (e_loc e) <> final None (pre ++ x :: e :: y :: post)) as Hfin.
  { rewrite app_snoc. apply not_eq_sym, final_not_mid; [by rewrite <- app_snoc|done]. }
  unfold del_timer. exec_unfold. rewrite Hh, Ht.
  rewrite bool_decide_eq_false_2 by (by apply first_not_next). simpl.
  rewrite bool_decide_eq_false_2 by done. rewrite (load_ok _ _ _ He). cbn.
  rewrite (store_ok _ _ _ _ Hx). cbn. erewrite load_ok by look. cbn.
  erewrite store_ok by look. cbn. erewrite free_ok by look. eexists. split; [done|]. cbn. split.
  - split_and!; cbn; [done| | |].
    + apply dseg_delete; [done|]. by apply (dseg_unlink_mid _ pre x e y post).
    + by rewrite Hh; destruct pre.
    + intros _. by rewrite Ht, !final_app, !final_cons.
  - rewrite dom_delete_L. f_equal. dom_same.
Qed.

Lemma del_timer_spec s pre e post :
  repr s (pre ++ e :: post) ->
  exists s', del_timer (Some (e_loc e)) s = Ok (tt, s') /\
    repr s' (pre ++ post) /\ dom (heap s') = dom (heap s) ∖ {[ e_loc e ]}.
Proof.
  intros Hr. destruct pre as [|x pre _] using rev_ind; destruct post as [|y post].
  - by apply del_only_spec.
  - by apply del_head_spec.
  - rewrite app_nil_r. rewrite <- app_assoc in Hr. by apply del_last_spec.
  - rewrite <- app_assoc in Hr |- *. by apply del_mid_spec.
Qed.

(** ** [tick] and the destructor *)

Section tick_proofs.
Context {W : Type} (cb : Z -> ST W unit).

Lemma tick_step s e es cur w w1 :
  repr s (e :: es) -> e_expire e <= cur -> cb (e_data e) w = Ok (tt, w1) ->
  exists s1, repr s1 es /\ dom (heap s1) = dom (heap s) ∖ {[ e_loc e ]} /\
    forall fuel, tick_loop cb (S fuel) cur (Some (e_loc e)) (s, w) =
                 tick_loop cb fuel cur (first es None) (s1, w1).
Proof.
  intros Hr Hle Hcb. pose proof (repr_ne_nil s [] e es Hr) as Ht.
  destruct Hr as (Hnd & Hs & Hh & _). pose proof Hs as (He & Hes).
  pose proof (proj1 (NoDup_cons _ _) Hnd) as [Hl Hnd'].
  exists (match es with
     | [] => s <| head := None |> <| heap := delete (e_loc e) (heap s) |>
     | y :: es' => s <| head := Some (e_loc y) |>
         <| heap := delete (e_loc e) (<[e_loc y := node y None (first es' None)]> (heap s)) |>
     end).
  split_and!.
  - destruct es as [|y es]; cbn; [done|].
    split_and!; cbn; [done| |done|].
    + apply (dseg_delete _ _ None (y :: es)); [done|]. by apply (dseg_unlink_head _ e).
    + intros _. by rewrite Ht, app_nil_l, !final_cons.
  - destruct es as [|y es]; cbn; rewrite dom_delete_L; [done|].
    destruct Hes as [Hy _]. f_equal. dom_same.
  - intros fuel. cbn [tick_loop]. unfold on_list, on_world. exec_unfold. cbn -[tick_loop Z.ltb].
    rewrite (load_ok _ _ _ He). cbn -[tick_loop Z.ltb].
    rewrite (proj2 (Z.ltb_ge _ _)) by lia. cbn -[tick_loop]. rewrite Hcb. cbn -[tick_loop].
    rewrite (load_ok _ _ _ He). cbn -[tick_loop]. destruct es as [|y es]; cbn -[tick_loop].
    + erewrite free_ok by done. done.
    + destruct Hes as [Hy _]. erewrite store_ok by done. cbn -[tick_loop].
      assert (e_loc e <> e_loc y) by locs. erewrite free_ok by look. done.
Qed.

Lemma tick_loop_spec es : forall s cur w w' fuel,
  repr s es -> (length es < fuel)%nat ->
  run_callbacks cb (expired cur es) w = Ok (tt, w') ->
  exists s', tick_loop cb fuel cur (first es None) (s, w) = Ok (tt, (s', w')) /\
    repr s' (unexpired cur es) /\
    dom (heap s') = dom (heap s) ∖ list_to_set (e_loc <$> expired cur es).
Proof.
  induction es as [|e es IH]; intros s cur w w' fuel Hr Hf Hcb; (destruct fuel as [|fuel]; [simpl in Hf; lia|]).
  - simpl in Hcb. exec_unfold. cbv [mret ST_ret] in Hcb. simplify_eq. exists s.
    split_and!; [done|done|]. simpl. set_solver.
  - simpl in Hcb |- *. destruct (Z.ltb_spec cur (e_expire e)) as [Hlt|Hge].
    + cbv [run_callbacks mret ST_ret] in Hcb. simplify_eq. exists s.
      pose proof (proj1 (proj2 Hr)) as (He & _).
      split_and!; [|done|simpl; set_solver].
      unfold on_list. exec_unfold. cbn -[Z.ltb]. rewrite (load_ok _ _ _ He). cbn -[Z.ltb].
      by rewrite (proj2 (Z.ltb_lt _ _)).
    + simpl in Hcb. apply ST_bind_ok in Hcb as ([] & w1 & Hcb1 & Hcb2).
      destruct (tick_step s e es cur w w1 Hr ltac:(lia) Hcb1) as (s1 & Hr1 & Hdom1 & Hstep).
      destruct (IH s1 cur w1 w' fuel Hr1 ltac:(simpl in Hf; lia) Hcb2) as (s' & Hrun & Hr' & Hdom).
      exists s'. split_and!; [|done|].
      * rewrite <- Hrun. exact (Hstep fuel).
      * rewrite Hdom, Hdom1. csimpl. set_solver.
Qed.

Lemma tick_spec s es cur w w' :
  repr s es -> run_callbacks cb (expired cur es) w = Ok (tt, w') ->
  exists s', tick cb cur (s, w) = Ok (tt, (s', w')) /\ repr s' (unexpired cur es) /\
    dom (heap s') = dom (heap s) ∖ list_to_set (e_loc <$> expired cur es).
Proof.
  intros Hr Hcb. pose proof Hr as (Hnd & Hs & Hh & _).
  pose proof (dseg_size _ _ _ _ Hnd Hs) as Hsz.
  destruct (tick_loop_spec es s cur w w' (S (size (heap s))) Hr ltac:(lia) Hcb) as (s' & Hrun & Hrest).
  exists s'. split; [|done]. unfold tick. exec_unfold. simpl. rewrite Hh.
  by destruct es.
Qed.

End tick_proofs.

Lemma dtor_loop_spec es : forall s p fuel,
  NoDup (e_loc <$> es) -> dseg (heap s) p es None -> (length es < fuel)%nat ->
  exists s', dtor_loop fuel (first es None) s = Ok (tt, s') /\
    dom (heap s') = dom (heap s) ∖ list_to_set (e_loc <$> es).
Proof.
  induction es as [|e es IH]; intros s p fuel Hnd Hs Hf; (destruct fuel as [|fuel]; [simpl in Hf; lia|]).
  - exists s. split; [done|]. simpl. set_solver.
  - destruct Hs as [He Hs]. apply NoDup_cons in Hnd as [Hl Hnd]. simpl.
    exec_unfold. rewrite (load_ok _ _ _ He). cbn -[dtor_loop]. erewrite free_ok by done.
    cbn -[dtor_loop].
    edestruct (IH (s <| head := first es None |> <| heap := delete (e_loc e) (heap s) |>)
      (Some (e_loc e)) fuel Hnd) as (s' & Hrun & Hdom);
      [by apply dseg_delete|simpl in Hf; lia|].
    exists s'. split; [exact Hrun|]. rewrite Hdom. cbn. rewrite dom_delete_L. set_solver.
Qed.

(** ** Order *)

Lemma insert_entry_perm e es : insert_entry e es ≡ₚ e :: es.
Proof.
  induction es as [|x es IH]; simpl; [done|]. case_match; [done|].
  rewrite IH. apply Permutation_swap.
Qed.

Lemma insert_entry_sorted e es : sorted es -> sorted (insert_entry e es).
Proof.
  unfold sorted. induction 1 as [|x es Hs IH Hx]; simpl; [by repeat constructor|].
  destruct (Z.ltb_spec (e_expire e) (e_expire x)) as [Hlt|Hge].
  - constructor; [by constructor|]. constructor; [lia|].
    eapply Forall_impl; [exact Hx|]. simpl. lia.
  - constructor; [done|]. rewrite insert_entry_perm. by constructor.
Qed.

Lemma sorted_reinsert pre e post :
  sorted (pre ++ post) -> Forall (fun x => e_expire x <= e_expire e) pre ->
  sorted (pre ++ insert_entry e post).
Proof.
  unfold sorted. rewrite !StronglySorted_app. intros (Hc & Hpre & Hpost) Hle.
  split_and!; [|done|by apply insert_entry_sorted].
  intros x y Hx. rewrite insert_entry_perm. intros [->|Hy]%elem_of_cons; [|eauto].
  by apply (proj1 (Forall_forall _ _) Hle).
Qed.

Lemma sorted_remove pre e post : sorted (pre ++ e :: post) -> sorted (pre ++ post).
Proof.
  unfold sorted. rewrite !StronglySorted_app, StronglySorted_cons. intros (Hc & Hpre & _ & Hpost).
  split_and!; [|done|done]. intros x y Hx Hy. apply Hc; [done|by right].
Qed.

Lemma sorted_before pre e post :
  sorted (pre ++ e :: post) -> Forall (fun x => e_expire x <= e_expire e) pre.
Proof.
  unfold sorted. rewrite StronglySorted_app. intros (Hc & _). apply Forall_forall.
  intros x Hx. apply (Hc x e Hx). by left.
Qed.

Lemma expired_filter cur es : sorted es ->
  expired cur es = filter (fun e => e_expire e <= cur) es.
Proof.
  unfold sorted. induction 1 as [|e es Hs IH He]; simpl; [done|].
  destruct (Z.ltb_spec cur (e_expire e)) as [Hlt|Hge].
  - rewrite filter_cons_False by lia. symmetry. apply filter_keeps_none.
    eapply Forall_impl; [exact He|]. simpl. lia.
  - by rewrite filter_cons_True, IH by lia.
Qed.

Lemma unexpired_filter cur es : sorted es ->
  unexpired cur es = filter (fun e => cur < e_expire e) es.
Proof.
  unfold sorted. induction 1 as [|e es Hs IH He]; simpl; [done|].
  destruct (Z.ltb_spec cur (e_expire e)) as [Hlt|Hge].
  - rewrite filter_cons_True by lia. f_equal. symmetry. apply filter_keeps_all.
    eapply Forall_impl; [exact He|]. simpl. lia.
  - by rewrite filter_cons_False, IH by lia.
Qed.

Lemma sorted_filter (P : entry -> Prop) `{forall e, Decision (P e)} es :
  sorted es -> sorted (filter P es).
Proof.
  unfold sorted. induction 1 as [|e es Hs IH He]; [constructor|].
  destruct (decide (P e)); [rewrite filter_cons_True by done|by rewrite filter_cons_False].
  constructor; [done|]. by apply Forall_filter_of.
Qed.

(** Every live timer is an entry of the list. *)
Lemma inv_entry s es l o : inv s es -> heap s !! l = Some o ->
  exists pre e post, es = pre ++ e :: post /\ e_loc e = l /\ expire o = e_expire e.
Proof.
  intros ((Hnd & Hs & _) & _ & Hdom) Hl.
  assert (l ∈ dom (heap s)) as Hin by (apply elem_of_dom; eauto).
  rewrite Hdom, elem_of_list_to_set, list_elem_of_fmap in Hin.
  destruct Hin as (e & -> & (pre & post & ->)%list_elem_of_split).
  exists pre, e, post. split_and!; [done..|].
  apply dseg_app in Hs as [_ [He _]]. rewrite He in Hl. by simplify_eq.
Qed.

Definition with_expire (e : entry) (exp : Z) : entry :=
  {| e_loc := e_loc e; e_expire := exp; e_data := e_data e |}.

(** Writing the expiry time of a timer keeps the layout. *)
Lemma repr_set_expire s pre e post exp :
  repr s (pre ++ e :: post) ->
  exists s', store (Some (e_loc e)) (fun n => n <| expire := exp |>) s = Ok (tt, s') /\
    repr s' (pre ++ with_expire e exp :: post) /\ dom (heap s') = dom (heap s).
Proof.
  intros Hr. pose proof (repr_ne_nil _ _ _ _ Hr) as Ht. destruct Hr as (Hnd & Hs & Hh & _).
  pose proof (proj1 (dseg_app _ _ _ _ _) Hs) as [Hpre [He Hpost]].
  erewrite store_ok by done. eexists. split; [done|]. cbn. split; [|dom_same].
  pose proof (nodup_mid _ _ _ Hnd) as [Hl _]. split_and!; cbn.
  - by rewrite fmap_app, fmap_cons in Hnd |- *.
  - apply dseg_app. simpl. rewrite lookup_insert_eq.
    split_and!; [apply dseg_insert; [locs|done]|done|apply dseg_insert; [locs|done]].
  - rewrite Hh. by destruct pre.
  - intros _. by rewrite Ht, !final_app, !final_cons.
Qed.

Lemma new_timer_inv s es l exp data :
  inv s es -> heap s !! l = None ->
  exists s', new_timer l exp data s = Ok (tt, s') /\
    inv s' (insert_entry {| e_loc := l; e_expire := exp; e_data := data |} es).
Proof.
  intros ((Hnd & Hs & Hh & Ht) & Hsort & Hdom) Hl.
  set (e := {| e_loc := l; e_expire := exp; e_data := data |}).
  assert (l ∉ e_loc <$> es) as Hnew.
  { intros Hin. apply not_elem_of_dom in Hl. rewrite Hdom in Hl. by apply Hl, elem_of_list_to_set. }
  destruct (add_timer_spec (s <| heap := <[l := node e None None]> (heap s) |>) es e)
    as (s' & Hrun & Hr & Hd).
  { split_and!; cbn; [done|by apply dseg_insert|done|done]. } { done. } { cbn. by simplify_map_eq. }
  exists s'. split; [exact Hrun|]. split_and!; [done|by apply insert_entry_sorted|].
  rewrite Hd. cbn. rewrite dom_insert_L, Hdom.
  assert (list_to_set (e_loc <$> insert_entry e es) =@{gset loc} list_to_set (l :: (e_loc <$> es))) as ->.
  { apply list_to_set_perm_L. apply insert_entry_locs. }
  done.
Qed.

Lemma delay_timer_inv s pre e post exp :
  inv s (pre ++ e :: post) -> e_expire e <= exp ->
  exists s', delay_timer (e_loc e) exp s = Ok (tt, s') /\
    inv s' (pre ++ insert_entry (with_expire e exp) post).
Proof.
  intros (Hr & Hsort & Hdom) Hle.
  destruct (repr_set_expire s pre e post exp Hr) as (s1 & Hst & Hr1 & Hd1).
  destruct (adjust_timer_spec s1 pre (with_expire e exp) post Hr1) as (s' & Hrun & Hr' & Hd').
  exists s'. split.
  { unfold delay_timer. cbv [mbind ST_bind]. rewrite Hst. exact Hrun. }
  split_and!; [done| |].
  - apply sorted_reinsert; [by eapply sorted_remove|].
    eapply Forall_impl; [by eapply sorted_before|]. simpl. lia.
  - rewrite Hd', Hd1, Hdom. apply list_to_set_perm_L.
    rewrite !fmap_app, insert_entry_locs. done.
Qed.

Lemma del_timer_inv s pre e post :
  inv s (pre ++ e :: post) ->
  exists s', del_timer (Some (e_loc e)) s = Ok (tt, s') /\ inv s' (pre ++ post).
Proof.
  intros (Hr & Hsort & Hdom). pose proof (proj1 Hr) as Hnd.
  destruct (del_timer_spec s pre e post Hr) as (s' & Hrun & Hr' & Hd).
  exists s'. split; [done|]. split_and!; [done|by eapply sorted_remove|].
  rewrite Hd, Hdom. apply nodup_mid in Hnd as [Hl _].
  rewrite !fmap_app, fmap_cons, !list_to_set_app_L, list_to_set_cons. rewrite fmap_app in Hl.
  apply set_eq. intros x. rewrite not_elem_of_app in Hl. set_solver.
Qed.

Lemma tick_inv {W} (cb : Z -> ST W unit) s es cur w w' :
  inv s es -> run_callbacks cb (expired cur es) w = Ok (tt, w') ->
  exists s', tick cb cur (s, w) = Ok (tt, (s', w')) /\ inv s' (unexpired cur es).
Proof.
  intros (Hr & Hsort & Hdom) Hcb. destruct (tick_spec cb s es cur w w' Hr Hcb) as (s' & Hrun & Hr' & Hd).
  exists s'. split; [done|]. split_and!; [done| |].
  - rewrite unexpired_filter by done. by apply sorted_filter.
  - rewrite Hd, Hdom.
    assert (es = expired cur es ++ unexpired cur es) as Hsplit.
    { clear. induction es as [|e es IH]; simpl; [done|]. case_match; simpl; congruence. }
    pose proof (proj1 Hr) as Hnd. rewrite Hsplit, fmap_app in Hnd. apply NoDup_app in Hnd as (_ & Hdis & _).
    rewrite Hsplit at 1. rewrite fmap_app, list_to_set_app_L. set_solver.
Qed.

Lemma run_record es w : run_callbacks record_cb es w = Ok (tt, w ++ (e_data <$> es)).
Proof.
  revert w. induction es as [|e es IH]; intros w; simpl.
  - by rewrite app_nil_r.
  - cbv [mbind ST_bind record_cb]. by rewrite IH, <- app_assoc.
Qed.

Lemma timer_step_inv s s' es : inv s es -> step s s' -> exists es', inv s' es'.
Proof.
  intros Hinv. destruct 1 as [s s' l exp data Hl H|s s' l o exp Hl Hle H|s s' l o Hl H|s s' cur w w' H].
  - destruct (new_timer_inv s es l exp data Hinv Hl) as (s1 & E & Hs1).
    rewrite E in H. simplify_eq. eauto.
  - destruct (inv_entry s es l o Hinv Hl) as (pre & e & post & -> & <- & He).
    destruct (delay_timer_inv s pre e post exp Hinv) as (s1 & E & Hs1); [lia|].
    rewrite E in H. simplify_eq. eauto.
  - destruct (inv_entry s es l o Hinv Hl) as (pre & e & post & -> & <- & He).
    destruct (del_timer_inv s pre e post Hinv) as (s1 & E & Hs1). rewrite E in H. simplify_eq. eauto.
  - destruct (tick_inv record_cb s es cur w _ Hinv (run_record _ w)) as (s1 & E & Hs1).
    rewrite E in H. simplify_eq. eauto.
Qed.

Lemma inv_ctor : inv (ctor ∅) [].
Proof. split_and!; [|constructor|done]. split_and!; [constructor|done..]. Qed.

Lemma timer_reachable_inv s : rtc step (ctor ∅) s -> exists es, inv s es.
Proof.
  apply (rtc_ind_r (fun s => exists es, inv s es)); [exists []; apply inv_ctor|].
  intros y z _ Hstep [es Hes]. eauto using timer_step_inv.
Qed.

(** ** Properties *)

(** [add_timer] of a freshly constructed timer inserts it into the doubly
    linked list exactly where the sorted-list specification puts it, behind
    every timer that does not expire later, with all [prev]/[next]/[head]/
    [tail] pointers right; the loop ends, no pointer is dereferenced out of
    turn, and a sorted list stays sorted. *)
Theorem add_timer_refines s es e :
  repr s es -> e_loc e ∉ e_loc <$> es -> heap s !! e_loc e = Some (node e None None) ->
  exists s', add_timer (Some (e_loc e)) s = Ok (tt, s') /\
    repr s' (insert_entry e es) /\ dom (heap s') = dom (heap s) /\
    insert_entry e es ≡ₚ e :: es /\ (sorted es -> sorted (insert_entry e es)).
Proof.
  intros Hr Hl He. destruct (add_timer_spec s es e Hr Hl He) as (s' & Hrun & Hr' & Hd).
  exists s'. split_and!; auto using insert_entry_perm, insert_entry_sorted.
Qed.

(** C26: [adjust_timer] of a timer whose expiry time has been moved later takes
    it out of its place and re-inserts it further down; no other timer moves,
    none is lost, and the list is sorted again. *)
Theorem adjust_timer_refines s pre e post :
  repr s (pre ++ e :: post) ->
  exists s', adjust_timer (Some (e_loc e)) s = Ok (tt, s') /\
    repr s' (pre ++ insert_entry e post) /\ dom (heap s') = dom (heap s) /\
    (sorted (pre ++ post) -> Forall (fun x => e_expire x <= e_expire e) pre ->
     sorted (pre ++ insert_entry e post)).
Proof.
  intros Hr. destruct (adjust_timer_spec s pre e post Hr) as (s' & Hrun & Hr' & Hd).
  exists s'. split_and!; auto using sorted_reinsert.
Qed.

(** [del_timer] of a timer of the list (the only one, the head, the tail or
    one in the middle) unlinks it, frees it and nothing else, and leaves the
    other timers in their order. *)
Theorem del_timer_refines s pre e post :
  repr s (pre ++ e :: post) ->
  exists s', del_timer (Some (e_loc e)) s = Ok (tt, s') /\
    repr s' (pre ++ post) /\ dom (heap s') = dom (heap s) ∖ {[ e_loc e ]} /\
    (sorted (pre ++ e :: post) -> sorted (pre ++ post)).
Proof.
  intros Hr. destruct (del_timer_spec s pre e post Hr) as (s' & Hrun & Hr' & Hd).
  exists s'. split_and!; eauto using sorted_remove.
Qed.

(** C25: on a sorted list, [tick] at time [cur] runs the callback of exactly the
    timers with [expire <= cur], in order of expiry, frees them, and keeps
    exactly the others; the loop ends. *)
Theorem tick_refines {W} (cb : Z -> ST W unit) s es cur w w' :
  repr s es -> sorted es ->
  run_callbacks cb (filter (fun e => e_expire e <= cur) es) w = Ok (tt, w') ->
  exists s', tick cb cur (s, w) = Ok (tt, (s', w')) /\
    repr s' (filter (fun e => cur < e_expire e) es) /\
    dom (heap s') = dom (heap s) ∖ list_to_set (e_loc <$> filter (fun e => e_expire e <= cur) es).
Proof.
  intros Hr Hs Hcb. rewrite <- expired_filter in Hcb |- * by done. rewrite <- unexpired_filter by done.
  by apply tick_spec.
Qed.

(** C1: in every state that a sequence of additions, delays, deletions and ticks
    reaches from the empty list, the list is well linked, sorted and owns
    every live timer (nothing leaks), and the next addition of a new timer,
    deletion or delay of a live one, and tick succeed: no null or dangling
    pointer is followed and no loop diverges. *)
Theorem timer_list_reachable s :
  rtc step (ctor ∅) s ->
  (exists es, repr s es /\ sorted es /\ dom (heap s) = list_to_set (e_loc <$> es)) /\
  (forall l exp data, heap s !! l = None -> exists s', new_timer l exp data s = Ok (tt, s')) /\
  (forall l o exp, heap s !! l = Some o -> expire o <= exp ->
     exists s', delay_timer l exp s = Ok (tt, s')) /\
  (forall l o, heap s !! l = Some o -> exists s', del_timer (Some l) s = Ok (tt, s')) /\
  (forall cur w, exists s' w', tick record_cb cur (s, w) = Ok (tt, (s', w'))).
Proof.
  intros Hrtc. destruct (timer_reachable_inv s Hrtc) as [es Hinv]. split_and!.
  - exists es. exact Hinv.
  - intros l exp data Hl. destruct (new_timer_inv s es l exp data Hinv Hl) as (s' & E & _). eauto.
  - intros l o exp Hl Hle. destruct (inv_entry s es l o Hinv Hl) as (pre & e & post & -> & <- & He).
    destruct (delay_timer_inv s pre e post exp Hinv) as (s' & E & _); [lia|]. eauto.
  - intros l o Hl. destruct (inv_entry s es l o Hinv Hl) as (pre & e & post & -> & <- & He).
    destruct (del_timer_inv s pre e post Hinv) as (s' & E & _). eauto.
  - intros cur w. destruct (tick_inv record_cb s es cur w _ Hinv (run_record _ w)) as (s' & E & _). eauto.
Qed.

(** the destructor walks the whole list and frees every timer of it. *)
Theorem dtor_frees_all s es :
  repr s es -> exists s', dtor s = Ok (tt, s') /\
    dom (heap s') = dom (heap s) ∖ list_to_set (e_loc <$> es).
Proof.
  intros (Hnd & Hs & Hh & _). unfold dtor. exec_unfold. rewrite Hh.
  apply (dtor_loop_spec es s None); [done|done|].
  pose proof (dseg_size _ _ _ _ Hnd Hs). lia.
Qed.

(** ** A concrete list: two timers, expiring at 10 and at 20 *)

Definition ex_e1 : entry := {| e_loc := 1%positive; e_expire := 10; e_data := 5 |}.
Definition ex_e2 : entry := {| e_loc := 2%positive; e_expire := 20; e_data := 6 |}.
Definition ex_e3 : entry := {| e_loc := 3%positive; e_expire := 15; e_data := 7 |}.
Definition ex_s : sort_timer_lst :=
  {| heap := {[ 1%positive := node ex_e1 None (Some 2%positive);
                2%positive := node ex_e2 (Some 1%positive) None;
                3%positive := node ex_e3 None None ]};
     head := Some 1%positive; tail := Some 2%positive |}.

Lemma ex_repr : repr ex_s [ex_e1; ex_e2].
Proof. split_and!; [|repeat split|done|done]. apply (bool_decide_unpack _). vm_compute. done. Qed.

Lemma ex_sorted : sorted [ex_e1; ex_e2].
Proof. unfold sorted. repeat constructor. simpl. lia. Qed.

Lemma add_timer_refines_witness :
  exists s', add_timer (Some 3%positive) ex_s = Ok (tt, s') /\ repr s' [ex_e1; ex_e3; ex_e2].
Proof.
  destruct (add_timer_refines ex_s [ex_e1; ex_e2] ex_e3 ex_repr) as (s' & H1 & H2 & _).
  - apply (bool_decide_unpack _). vm_compute. done.
  - reflexivity.
  - exists s'. split; [exact H1|exact H2].
Defined.

Lemma adjust_timer_refines_witness :
  exists s', adjust_timer (Some 1%positive) ex_s = Ok (tt, s') /\ repr s' [ex_e1; ex_e2].
Proof.
  destruct (adjust_timer_refines ex_s [] ex_e1 [ex_e2] ex_repr) as (s' & H1 & H2 & _).
  exists s'. split; [exact H1|exact H2].
Defined.

Lemma del_timer_refines_witness :
  exists s', del_timer (Some 1%positive) ex_s = Ok (tt, s') /\ repr s' [ex_e2].
Proof.
  destruct (del_timer_refines ex_s [] ex_e1 [ex_e2] ex_repr) as (s' & H1 & H2 & _).
  exists s'. split; [exact H1|exact H2].
Defined.

Lemma tick_refines_witness :
  exists s', tick record_cb 12 (ex_s, []) = Ok (tt, (s', [5])) /\ repr s' [ex_e2].
Proof.
  destruct (tick_refines record_cb ex_s [ex_e1; ex_e2] 12 [] [5] ex_repr ex_sorted) as (s' & H1 & H2 & _).
  - vm_compute. reflexivity.
  - exists s'. split; [exact H1|exact H2].
Defined.

Lemma timer_list_reachable_witness :
  exists s', new_timer 1%positive 10 5 (ctor ∅) = Ok (tt, s').
Proof.
  destruct (timer_list_reachable (ctor ∅) (rtc_refl step (ctor ∅))) as (_ & H & _).
  apply H. reflexivity.
Defined.

Lemma dtor_frees_all_witness :
  exists s', dtor ex_s = Ok (tt, s') /\ dom (heap s') = dom (heap ex_s) ∖ {[ 1; 2 ]}%positive.
Proof.
  destruct (dtor_frees_all ex_s [ex_e1; ex_e2] ex_repr) as (s' & H1 & H2).
  exists s'. split; [exact H1|]. rewrite H2. vm_compute. reflexivity.
Defined.

End sort_timer_lst.
