(* ===== verification/CStr.v ===== *)
(** * CStr: the C string and number functions that the code calls

    A string is read where the code reads it: in a [char] array, from an
    offset, character by character up to the terminator.  Each function below
    gets the rest of the array from that offset on; running off its end is
    [Halt OutOfBounds], exactly when the C function would read there. *)

From Stdlib Require Import Ascii String.
From S2P Require Import Prelude.

Definition NUL : ascii := Ascii.zero.
Definition CR : ascii := "013"%char.
Definition LF : ascii := "010"%char.
Definition SP : ascii := " "%char.
Definition TAB : ascii := "009"%char.

(** A string literal. *)
Definition lit (s : string) : list ascii := list_ascii_of_string s.

(** The characters of the string that starts at the head of [l]. *)
Fixpoint cstr (l : list ascii) : res (list ascii) :=
  match l with
  | [] => Halt OutOfBounds
  | c :: l' => if bool_decide (c = NUL) then Ok [] else s ← cstr l'; Ok (c :: s)
  end.

(** At most [n] characters of it, as [strncpy] reads its source. *)
Fixpoint cstrn (n : nat) (l : list ascii) : res (list ascii) :=
  match n, l with
  | O, _ => Ok []
  | S _, [] => Halt OutOfBounds
  | S n', c :: l' => if bool_decide (c = NUL) then Ok [] else s ← cstrn n' l'; Ok (c :: s)
  end.

(** The string held by a local [char] array whose stored characters are [s]. *)
Fixpoint until_nul (s : list ascii) : list ascii :=
  match s with
  | [] => []
  | c :: s' => if bool_decide (c = NUL) then [] else c :: until_nul s'
  end.

Definition strlen (l : list ascii) : res Z := s ← cstr l; Ok (Z.of_nat (length s)).

(** [strpbrk(s, accept)]: the offset of the first character of [accept], or
    [None] for NULL. *)
Fixpoint strpbrk (accept l : list ascii) : res (option Z) :=
  match l with
  | [] => Halt OutOfBounds
  | c :: l' =>
    if bool_decide (c = NUL) then Ok None
    else if bool_decide (c ∈ accept) then Ok (Some 0)
    else r ← strpbrk accept l'; Ok (option_map Z.succ r)
  end.

Definition strchr (c : ascii) (l : list ascii) : res (option Z) := strpbrk [c] l.

Fixpoint strspn (accept l : list ascii) : res Z :=
  match l with
  | [] => Halt OutOfBounds
  | c :: l' =>
    if bool_decide (c <> NUL /\ c ∈ accept) then r ← strspn accept l'; Ok (Z.succ r)
    else Ok 0
  end.

(** [strrchr(s, c)] for [c] not the terminator: the last match so far. *)
Fixpoint last_index_from (c : ascii) (i : Z) (acc : option Z) (s : list ascii) : option Z :=
  match s with
  | [] => acc
  | d :: s' => last_index_from c (i + 1) (if bool_decide (d = c) then Some i else acc) s'
  end.
Definition last_index (c : ascii) (s : list ascii) : option Z := last_index_from c 0 None s.

Definition strrchr (c : ascii) (l : list ascii) : res (option Z) :=
  s ← cstr l; Ok (last_index c s).

Definition tolower (c : ascii) : ascii :=
  let n := N_of_ascii c in
  if ((65 <=? n) && (n <=? 90))%N then ascii_of_N (n + 32) else c.

(** [strcasecmp(l, s) == 0] for a literal [s]. *)
Fixpoint strcasecmp_eq (l s : list ascii) : res bool :=
  match s, l with
  | _, [] => Halt OutOfBounds
  | [], c :: _ => Ok (bool_decide (c = NUL))
  | a :: s', c :: l' =>
    if bool_decide (tolower c = tolower a) then strcasecmp_eq l' s' else Ok false
  end.

(** [strncasecmp(l, s, n) == 0] for a literal [s]. *)
Fixpoint strncasecmp_eq (n : nat) (l s : list ascii) : res bool :=
  match n with
  | O => Ok true
  | S n' =>
    match s, l with
    | _, [] => Halt OutOfBounds
    | [], c :: _ => Ok (bool_decide (c = NUL))
    | a :: s', c :: l' =>
      if bool_decide (tolower c = tolower a) then strncasecmp_eq n' l' s' else Ok false
    end
  end.

(** The rest of a char array from an offset on; one past the end is a valid
    pointer that cannot be read. *)
Definition from (buf : list ascii) (p : Z) : res (list ascii) :=
  if bool_decide (0 <= p <= Z.of_nat (length buf)) then Ok (drop (Z.to_nat p) buf)
  else Halt OutOfBounds.

(** Store the characters [s] at [buf + p]. *)
Definition blit (buf : list ascii) (p : Z) (s : list ascii) : res (list ascii) :=
  if bool_decide (0 <= p /\ p + Z.of_nat (length s) <= Z.of_nat (length buf)) then
    Ok (take (Z.to_nat p) buf ++ s ++ drop (Z.to_nat p + length s) buf)
  else Halt OutOfBounds.

(** [strcpy(buf + p, s)], [strcat(buf + p, s)] for a string [s] outside [buf]. *)
Definition strcpy (buf : list ascii) (p : Z) (s : list ascii) : res (list ascii) :=
  blit buf p (s ++ [NUL]).

Definition strcat (buf : list ascii) (p : Z) (s : list ascii) : res (list ascii) :=
  l ← from buf p;
  n ← strlen l;
  strcpy buf (p + n) s.

(** [strncpy(buf + p, s, n)]: exactly [n] characters are written, the string
    cut off or padded with terminators. *)
Definition strncpy (buf : list ascii) (p : Z) (s : list ascii) (n : Z) : res (list ascii) :=
  blit buf p (take (Z.to_nat n) s ++ replicate (Z.to_nat n - length s) NUL).

(** [vsnprintf(buf + p, n, ...)] when the formatted text is [s]: at most [n - 1]
    characters of it and a terminator; the value returned is the length of [s]. *)
Definition vsnprintf (buf : list ascii) (p n : Z) (s : list ascii) : res (list ascii) :=
  if n <=? 0 then Ok buf else blit buf p (take (Z.to_nat (Z.min (n - 1) (Z.of_nat (length s)))) s ++ [NUL]).

(** ** Numbers *)

Definition isspace (c : ascii) : bool :=
  let n := N_of_ascii c in ((n =? 32) || ((9 <=? n) && (n <=? 13)))%N.

Definition isdigit (c : ascii) : bool :=
  let n := N_of_ascii c in ((48 <=? n) && (n <=? 57))%N.

Definition digit_val (c : ascii) : Z := Z.of_N (N_of_ascii c) - 48.

Fixpoint digits_val (acc : Z) (s : list ascii) : Z :=
  match s with
  | c :: s' => if isdigit c then digits_val (10 * acc + digit_val c) s' else acc
  | [] => acc
  end.

Fixpoint skip_space (s : list ascii) : list ascii :=
  match s with
  | c :: s' => if isspace c then skip_space s' else s
  | [] => []
  end.

(** [strtol(s, NULL, 10)] on the characters of the string: optional white
    space, an optional sign, digits; out of range saturates. *)
Definition strtol (s : list ascii) : Z :=
  let v := match skip_space s with
           | c :: s' =>
             if bool_decide (c = "-"%char) then - digits_val 0 s'
             else if bool_decide (c = "+"%char) then digits_val 0 s'
             else digits_val 0 (c :: s')
           | [] => 0
           end in
  Z.max (- LONG_MAX - 1) (Z.min LONG_MAX v).

(** [atol] is [strtol]; [atoi] is its conversion to [int]. *)
Definition atol (l : list ascii) : res Z := s ← cstr l; Ok (strtol s).
Definition atoi (s : list ascii) : Z := to_int (strtol s).

(** [%d]: the decimal digits of an integer. *)
Definition digit_char (d : Z) : ascii := ascii_of_N (Z.to_N (48 + d)).

Fixpoint dec_digits (fuel : nat) (n : Z) (acc : list ascii) : list ascii :=
  match fuel with
  | O => acc
  | S fuel' =>
    let acc' := digit_char (n `mod` 10) :: acc in
    if n <? 10 then acc' else dec_digits fuel' (n / 10) acc'
  end.

Definition dec_nonneg (n : Z) : list ascii := dec_digits (S (Z.to_nat (Z.log2 n))) n [].

Definition dec (n : Z) : list ascii :=
  if n <? 0 then "-"%char :: dec_nonneg (- n) else dec_nonneg n.

(** [%02d], [%06ld]: zero padding to a width, for non-negative numbers. *)
Definition dec_pad (width : nat) (n : Z) : list ascii :=
  let s := dec n in replicate (width - length s) "0"%char ++ s.

(** A string with no terminator inside. *)
Definition plain (s : list ascii) : Prop := NUL ∉ s.
#[export] Instance plain_dec s : Decision (plain s) := _.

(** ** Lemmas: the functions on a terminated string *)

Lemma plain_nil : plain [].
Proof. apply not_elem_of_nil. Qed.

Lemma plain_cons c s : plain (c :: s) <-> c <> NUL /\ plain s.
Proof. unfold plain. rewrite not_elem_of_cons. naive_solver. Qed.

Lemma plain_app s1 s2 : plain (s1 ++ s2) <-> plain s1 /\ plain s2.
Proof. unfold plain. rewrite not_elem_of_app. naive_solver. Qed.

Lemma plain_lookup s : (forall i c, s !! i = Some c -> c <> NUL) -> plain s.
Proof. intros H [i Hi]%list_elem_of_lookup. by apply (H i NUL). Qed.

Lemma cstr_plain s rest : plain s -> cstr (s ++ NUL :: rest) = Ok s.
Proof.
  induction s as [|c s IH]; [done|]. intros [Hc Hs]%plain_cons. simpl.
  rewrite bool_decide_eq_false_2 by done. by rewrite IH.
Qed.

Lemma cstr_inv l s : cstr l = Ok s -> plain s /\ exists rest, l = s ++ NUL :: rest.
Proof.
  revert s. induction l as [|c l IH]; intros s; simpl; [done|].
  case_bool_decide as Hc.
  - intros [= <-]. split; [apply plain_nil|]. subst. by eexists.
  - unfold mbind, res_bind. destruct (cstr l) as [s'|] eqn:E; [|done]. intros [= <-].
    destruct (IH s' eq_refl) as [Hp [rest ->]]. split; [by apply plain_cons|by eexists].
Qed.

Lemma cstrn_plain n s rest : plain s -> cstrn n (s ++ NUL :: rest) = Ok (take n s).
Proof.
  revert s. induction n as [|n IH]; intros [|c s] Hs; try done.
  apply plain_cons in Hs as [Hc Hs]. simpl. rewrite bool_decide_eq_false_2 by done.
  by rewrite (IH s Hs).
Qed.

Lemma last_index_app c a i acc b :
  last_index_from c i acc (a ++ b) = last_index_from c (i + Z.of_nat (length a)) (last_index_from c i acc a) b.
Proof.
  revert i acc. induction a as [|x a IH]; intros i acc; simpl; [f_equal; lia|].
  rewrite IH. f_equal. lia.
Qed.

Lemma last_index_none c i acc s : c ∉ s -> last_index_from c i acc s = acc.
Proof.
  revert i acc. induction s as [|x s IH]; intros i acc Hc; [done|]. simpl.
  apply not_elem_of_cons in Hc as [Hx Hc]. rewrite bool_decide_eq_false_2 by done. by apply IH.
Qed.

Lemma strrchr_found c a b rest : plain (a ++ c :: b) -> c ∉ b ->
  strrchr c ((a ++ c :: b) ++ NUL :: rest) = Ok (Some (Z.of_nat (length a))).
Proof.
  intros Hp Hb. unfold strrchr. rewrite cstr_plain by done. unfold mbind, res_bind, last_index.
  rewrite last_index_app. simpl. rewrite bool_decide_eq_true_2 by done. by rewrite last_index_none.
Qed.

Lemma until_nul_plain s : plain s -> until_nul s = s.
Proof.
  induction s as [|c s IH]; [done|]. intros [Hc Hs]%plain_cons. simpl.
  rewrite bool_decide_eq_false_2 by done. by rewrite IH.
Qed.

Lemma strlen_plain s rest : plain s -> strlen (s ++ NUL :: rest) = Ok (Z.of_nat (length s)).
Proof. intros H. unfold strlen. by rewrite cstr_plain. Qed.

Lemma strpbrk_found accept s c rest :
  plain s -> (forall d, d ∈ s -> d ∉ accept) -> c <> NUL -> c ∈ accept ->
  strpbrk accept (s ++ c :: rest) = Ok (Some (Z.of_nat (length s))).
Proof.
  induction s as [|d s IH]; intros Hp Hno Hc Hin; simpl.
  - by rewrite bool_decide_eq_false_2, bool_decide_eq_true_2.
  - apply plain_cons in Hp as [Hd Hs].
    rewrite bool_decide_eq_false_2, bool_decide_eq_false_2; [|apply Hno; by left|done].
    rewrite IH; [|done|intros; apply Hno; by right|done|done].
    unfold mbind, res_bind. simpl. do 2 f_equal. lia.
Qed.

Lemma strpbrk_none accept s rest :
  plain s -> (forall d, d ∈ s -> d ∉ accept) ->
  strpbrk accept (s ++ NUL :: rest) = Ok None.
Proof.
  induction s as [|d s IH]; intros Hp Hno; simpl; [done|].
  apply plain_cons in Hp as [Hd Hs].
  rewrite bool_decide_eq_false_2, bool_decide_eq_false_2; [|apply Hno; by left|done].
  rewrite IH; [done|done|]. intros; apply Hno; by right.
Qed.

Lemma strspn_span accept s c rest :
  plain s -> (forall d, d ∈ s -> d ∈ accept) -> (c = NUL \/ c ∉ accept) ->
  strspn accept (s ++ c :: rest) = Ok (Z.of_nat (length s)).
Proof.
  induction s as [|d s IH]; intros Hp Hin Hc; simpl.
  - rewrite bool_decide_eq_false_2; [done|]. naive_solver.
  - apply plain_cons in Hp as [Hd Hs].
    rewrite bool_decide_eq_true_2 by (split; [done|apply Hin; by left]).
    rewrite IH; [|done|intros; apply Hin; by right|done].
    unfold mbind, res_bind. f_equal. lia.
Qed.

Lemma strspn_none accept c rest :
  (c = NUL \/ c ∉ accept) -> strspn accept (c :: rest) = Ok 0.
Proof. intros H. apply (strspn_span accept [] c rest plain_nil); [|done]. intros d Hd. set_solver. Qed.

Lemma strcasecmp_eq_ok s rest :
  strcasecmp_eq (s ++ NUL :: rest) s = Ok true.
Proof.
  induction s as [|c s IH]; simpl; [done|]. by rewrite bool_decide_eq_true_2.
Qed.

Lemma strncasecmp_eq_ok n l s :
  (n <= length s)%nat -> (n <= length l)%nat -> take n l = take n s ->
  strncasecmp_eq n l s = Ok true.
Proof.
  revert l s. induction n as [|n IH]; intros l s Hs Hl E; simpl; [done|].
  destruct s as [|a s]; [simpl in Hs; lia|]. destruct l as [|c l]; [simpl in Hl; lia|].
  simpl in E. injection E as -> E. rewrite bool_decide_eq_true_2 by done.
  apply IH; [simpl in *; lia..|done].
Qed.

(** A string that differs from the literal within the first [n] characters. *)
Lemma strncasecmp_eq_diff n l s c a pre :
  (length pre < n)%nat -> take (length pre) s = pre -> take (length pre) l = pre ->
  l !! length pre = Some c -> s !! length pre = Some a -> tolower c <> tolower a ->
  strncasecmp_eq n l s = Ok false.
Proof.
  revert n l s. induction pre as [|d pre IH]; intros [|n] l s Hn Es El Hc Ha Hne;
    try (simpl in Hn; lia); destruct s as [|a' s], l as [|c' l]; try done; simpl in *; simplify_eq.
  - by rewrite bool_decide_eq_false_2.
  - rewrite bool_decide_eq_true_2 by done. eapply IH; eauto with lia.
Qed.

Lemma from_ok buf p : 0 <= p <= Z.of_nat (length buf) -> from buf p = Ok (drop (Z.to_nat p) buf).
Proof. intros H. unfold from. by rewrite bool_decide_eq_true_2. Qed.

Lemma from_app pre l p : p = Z.of_nat (length pre) -> from (pre ++ l) p = Ok l.
Proof.
  intros ->. rewrite from_ok by (rewrite length_app; lia). by rewrite Nat2Z.id, drop_app_length.
Qed.

Lemma blit_ok buf p s : 0 <= p -> p + Z.of_nat (length s) <= Z.of_nat (length buf) ->
  blit buf p s = Ok (take (Z.to_nat p) buf ++ s ++ drop (Z.to_nat p + length s) buf).
Proof. intros. unfold blit. by rewrite bool_decide_eq_true_2. Qed.

Lemma blit_length buf p s buf' : blit buf p s = Ok buf' -> length buf' = length buf.
Proof.
  unfold blit. case_bool_decide as H; [|done]. intros [= <-].
  rewrite !length_app, length_take, length_drop. lia.
Qed.

Lemma blit_oob buf p s : p + Z.of_nat (length s) > Z.of_nat (length buf) ->
  blit buf p s = Halt OutOfBounds.
Proof. intros. unfold blit. rewrite bool_decide_eq_false_2; [done|lia]. Qed.

(** A text that fits is written with its terminator. *)
Lemma vsnprintf_fits buf p n s : Z.of_nat (length s) < n -> vsnprintf buf p n s = blit buf p (s ++ [NUL]).
Proof.
  intros H. unfold vsnprintf. rewrite (proj2 (Z.leb_gt _ _)) by lia. by rewrite take_ge by lia.
Qed.

(** Stores split a buffer known by its parts. *)
Lemma blit_app pre old post s p :
  p = Z.of_nat (length pre) -> length s = length old ->
  blit (pre ++ old ++ post) p s = Ok (pre ++ s ++ post).
Proof.
  intros -> Hl. rewrite blit_ok by (rewrite ?length_app; lia).
  rewrite Nat2Z.id, take_app_length. do 3 f_equal.
  rewrite drop_app_ge, drop_app_ge by lia.
  replace (length pre + length s - length pre - length old)%nat with 0%nat by lia. done.
Qed.

(** ** Lemmas on numbers *)

Lemma digit_char_val d : 0 <= d <= 9 -> isdigit (digit_char d) = true /\ digit_val (digit_char d) = d.
Proof.
  intros Hd. unfold isdigit, digit_val, digit_char.
  rewrite N_ascii_embedding by lia. split; [|lia].
  apply andb_true_intro. split; apply N.leb_le; lia.
Qed.

Lemma digits_val_app acc s t :
  Forall (fun c => isdigit c = true) s ->
  digits_val acc (s ++ t) = digits_val (digits_val acc s) t.
Proof.
  intros H. revert acc. induction H as [|c s Hc _ IH]; intros acc; simpl; [done|]. by rewrite Hc, IH.
Qed.

Lemma dec_digits_app fuel n acc : dec_digits fuel n acc = dec_digits fuel n [] ++ acc.
Proof.
  revert n acc. induction fuel as [|fuel IH]; intros n acc; simpl; [done|].
  case_match; [done|]. rewrite IH, (IH _ [_]), <- app_assoc. done.
Qed.

Lemma dec_digits_spec fuel n :
  0 <= n < 10 ^ Z.of_nat fuel -> (0 < fuel)%nat ->
  Forall (fun c => isdigit c = true) (dec_digits fuel n []) /\
  digits_val 0 (dec_digits fuel n []) = n /\ dec_digits fuel n [] <> [].
Proof.
  revert n. induction fuel as [|fuel IH]; intros n Hn Hf; [lia|]. simpl.
  pose proof (Z.mod_pos_bound n 10). pose proof (Z.div_mod n 10).
  destruct (digit_char_val (n `mod` 10)) as [Hd Hv]; [lia|].
  destruct (Z.ltb_spec n 10) as [Hlt|Hge].
  - split_and!; [by constructor| |done]. simpl. rewrite Hd, Hv. lia.
  - rewrite Nat2Z.inj_succ, Z.pow_succ_r in Hn by lia.
    destruct fuel as [|fuel']; [simpl in Hn; lia|].
    destruct (IH (n / 10)) as (HF & Hval & Hne); [split; [lia|apply Z.div_lt_upper_bound; lia]|lia|].
    rewrite dec_digits_app. split_and!.
    + apply Forall_app; split; [done|by constructor].
    + rewrite digits_val_app by done. rewrite Hval. cbn [digits_val]. rewrite Hd, Hv. lia.
    + by destruct (dec_digits (S fuel') (n / 10) []).
Qed.

Lemma dec_nonneg_spec n : 0 <= n ->
  Forall (fun c => isdigit c = true) (dec_nonneg n) /\
  digits_val 0 (dec_nonneg n) = n /\ dec_nonneg n <> [].
Proof.
  intros Hn. apply dec_digits_spec; [|lia]. split; [done|].
  destruct (decide (n = 0)) as [->|Hne]; [simpl; lia|].
  pose proof (Z.log2_spec n ltac:(lia)) as [_ Hlt]. pose proof (Z.log2_nonneg n).
  rewrite Nat2Z.inj_succ, Z2Nat.id by done.
  eapply Z.lt_le_trans; [exact Hlt|]. apply Z.pow_le_mono_l. lia.
Qed.

Lemma digit_not_special c : isdigit c = true ->
  isspace c = false /\ c <> "-"%char /\ c <> "+"%char /\ c <> NUL.
Proof.
  unfold isdigit, isspace. intros [H1 H2]%andb_prop. apply N.leb_le in H1, H2.
  split.
  - apply orb_false_intro; [apply N.eqb_neq; lia|]. apply andb_false_intro2, N.leb_gt. lia.
  - split_and!; intros ->; compute in H1, H2; congruence.
Qed.

Lemma dec_plain n : plain (dec n).
Proof.
  assert (forall m, 0 <= m -> plain (dec_nonneg m)) as Hp.
  { intros m Hm. destruct (dec_nonneg_spec m Hm) as (HF & _). intros Hin.
    apply (proj1 (Forall_forall _ _) HF) in Hin. by apply digit_not_special in Hin as (_ & _ & _ & ?). }
  unfold dec. destruct (Z.ltb_spec n 0); [|auto]. apply plain_cons. split; [done|auto with lia].
Qed.

Lemma strtol_dec_lemma n : - LONG_MAX - 1 <= n <= LONG_MAX -> strtol (dec n) = n.
Proof.
  intros Hn. unfold strtol, dec. destruct (Z.ltb_spec n 0) as [Hneg|Hpos].
  - destruct (dec_nonneg_spec (- n)) as (_ & Hv & _); [lia|]. simpl. rewrite Hv. lia.
  - destruct (dec_nonneg_spec n Hpos) as (HF & Hv & Hne).
    destruct (dec_nonneg n) as [|c s] eqn:E; [done|]. apply Forall_cons in HF as [Hc _].
    destruct (digit_not_special c Hc) as (Hsp & Hm & Hp & _). cbn [skip_space]. rewrite Hsp.
    rewrite bool_decide_eq_false_2, bool_decide_eq_false_2 by done. rewrite Hv. lia.
Qed.
