(* ===== verification/HttpConn.v ===== *)
(** * HttpConn: the connection object of ocean_http/http/http_conn.{h,cpp}

    The class as a record, with the read buffer as a [char] array and every
    pointer into it as an offset; the line scanner, the request-line, header
    and body parsers, written with the loads and stores of the code. *)

From Stdlib Require Import Ascii String.
From S2P Require Import Prelude CStr.

(** ** Data *)

Definition FILENAME_LEN : Z := 200.
Definition READ_BUFFER_SIZE : Z := 2048.
Definition WRITE_BUFFER_SIZE : Z := 1024.

Inductive METHOD : Set := GET | POST | HEAD | PUT | DELETE | TRACE | OPTIONS | CONNECT | PATH.

Inductive CHECK_STATE : Set :=
| CHECK_STATE_REQUESTLINE | CHECK_STATE_HEADER | CHECK_STATE_CONTENT.

Inductive HTTP_CODE : Set :=
| NO_REQUEST | GET_REQUEST | BAD_REQUEST | NO_RESOURCE
| FORBIDDEN_REQUEST | FILE_REQUEST | INTERNAL_ERROR | CLOSED_CONNECTION.

Inductive LINE_STATUS : Set := LINE_OK | LINE_BAD | LINE_OPEN.

#[export] Instance METHOD_eq_dec : EqDecision METHOD.
Proof. solve_decision. Defined.
#[export] Instance CHECK_STATE_eq_dec : EqDecision CHECK_STATE.
Proof. solve_decision. Defined.
#[export] Instance HTTP_CODE_eq_dec : EqDecision HTTP_CODE.
Proof. solve_decision. Defined.
#[export] Instance LINE_STATUS_eq_dec : EqDecision LINE_STATUS.
Proof. solve_decision. Defined.

(** A [char *] member: never assigned, null, or an offset in [m_read_buf]. *)
Inductive cptr : Set := PIndet | PNull | PBuf (off : Z).

(** The mapped file: [m_file_address] is set by [mmap] and cleared by [unmap]. *)
Inductive faddr : Set := FIndet | FNull | FFailed | FMapped (path : list ascii).

Record file_stat := { st_mode : Z; st_size : Z }.

(** An [iovec]: its base is the write buffer or the mapped file. *)
Inductive iov_base_t : Set := IovWriteBuf | IovFile (a : faddr).
Record iovec := { iov_base : iov_base_t; iov_len : Z }.

(** The data members; [m_epollfd] and [m_user_count] are static and kept with the
    server, [m_users] is never used. *)
Record http_conn := {
  timer_flag : Z;
  improv : Z;
  mysql : option Z;
  m_state : Z;
  m_sokcfd : Z;
  m_address : Z;
  m_read_buf : list ascii;
  m_read_idx : Z;
  m_checked_idx : Z;
  m_start_line : Z;
  m_write_buf : list ascii;
  m_write_idx : Z;
  m_check_state : CHECK_STATE;
  m_method : METHOD;
  m_real_file : list ascii;
  m_url : cptr;
  m_version : cptr;
  m_host : cptr;
  m_content_length : Z;
  m_linger : bool;
  m_file_address : faddr;
  m_file_stat : file_stat;
  m_iv : list iovec;
  m_iv_count : Z;
  cgi : Z;
  m_string : cptr;
  bytes_to_send : Z;
  bytes_have_send : Z;
  doc_root : list ascii;
  m_TRIGMode : Z;
  m_close_log : Z;
  sql_user : list ascii;
  sql_passwd : list ascii;
  sql_name : list ascii
}.
#[export] Instance http_conn_settable : Settable http_conn := fun c => {|
  timer_flag := timer_flag c; improv := improv c; mysql := mysql c; m_state := m_state c;
  m_sokcfd := m_sokcfd c; m_address := m_address c; m_read_buf := m_read_buf c;
  m_read_idx := m_read_idx c; m_checked_idx := m_checked_idx c; m_start_line := m_start_line c;
  m_write_buf := m_write_buf c; m_write_idx := m_write_idx c; m_check_state := m_check_state c;
  m_method := m_method c; m_real_file := m_real_file c; m_url := m_url c;
  m_version := m_version c; m_host := m_host c; m_content_length := m_content_length c;
  m_linger := m_linger c; m_file_address := m_file_address c; m_file_stat := m_file_stat c;
  m_iv := m_iv c; m_iv_count := m_iv_count c; cgi := cgi c; m_string := m_string c;
  bytes_to_send := bytes_to_send c; bytes_have_send := bytes_have_send c; doc_root := doc_root c;
  m_TRIGMode := m_TRIGMode c; m_close_log := m_close_log c; sql_user := sql_user c;
  sql_passwd := sql_passwd c; sql_name := sql_name c |}.

(** ** Access to the read buffer *)

Definition ptr_off (p : cptr) : res Z :=
  match p with
  | PIndet => Halt Indeterminate
  | PNull => Halt NullDeref
  | PBuf o => Ok o
  end.

Definition of_off (o : option Z) : cptr :=
  match o with Some z => PBuf z | None => PNull end.

(** The characters from [m_read_buf + off] on. *)
Definition text_at (off : Z) : ST http_conn (list ascii) := fun c =>
  match from (m_read_buf c) off with Ok l => Ok (l, c) | Halt h => Halt h end.

Definition read_char (off : Z) : ST http_conn ascii := fun c =>
  match rd (m_read_buf c) off with Ok x => Ok (x, c) | Halt h => Halt h end.

Definition write_char (off : Z) (x : ascii) : ST http_conn unit := fun c =>
  match wr (m_read_buf c) off x with
  | Ok b => Ok (tt, c <| m_read_buf := b |>) | Halt h => Halt h end.

(** Printing [%s] of the text at [off] reads it up to its terminator. *)
Definition print_text (off : Z) : ST http_conn unit :=
  l ← text_at off; _ ← lift (cstr l); mret tt.

(** [LOG_INFO("%s", ...)] prints only while the log is open. *)
Definition log_text (off : Z) : ST http_conn unit :=
  c ← get; if m_close_log c =? 0 then print_text off else mret tt.

(** ** [init()]: the state of a connection before its first byte *)

Definition init0 (c : http_conn) : http_conn := {|
  timer_flag := 0; improv := 0; mysql := None; m_state := 0;
  m_sokcfd := m_sokcfd c; m_address := m_address c;
  m_read_buf := replicate (Z.to_nat READ_BUFFER_SIZE) NUL;
  m_read_idx := 0; m_checked_idx := 0; m_start_line := 0;
  m_write_buf := replicate (Z.to_nat WRITE_BUFFER_SIZE) NUL;
  m_write_idx := 0; m_check_state := CHECK_STATE_REQUESTLINE; m_method := GET;
  m_real_file := replicate (Z.to_nat FILENAME_LEN) NUL;
  m_url := PNull; m_version := PNull; m_host := PNull;
  m_content_length := 0; m_linger := false;
  m_file_address := m_file_address c; m_file_stat := m_file_stat c;
  m_iv := m_iv c; m_iv_count := m_iv_count c; cgi := 0; m_string := m_string c;
  bytes_to_send := 0; bytes_have_send := 0; doc_root := doc_root c;
  m_TRIGMode := m_TRIGMode c; m_close_log := m_close_log c;
  sql_user := sql_user c; sql_passwd := sql_passwd c; sql_name := sql_name c |}.

(** ** The line scanner *)

(** The [for] of [parse_line]: each round that does not return advances
    [m_checked_idx] by one, so [m_read_idx - m_checked_idx] rounds are enough. *)
Fixpoint parse_line_loop (fuel : nat) : ST http_conn LINE_STATUS :=
  match fuel with
  | O => throw Diverges
  | S fuel' =>
    c ← get;
    let i := m_checked_idx c in
    if i <? m_read_idx c then
      temp ← read_char i;
      if bool_decide (temp = CR) then
        if i + 1 =? m_read_idx c then mret LINE_OPEN
        else
          nxt ← read_char (i + 1);
          if bool_decide (nxt = LF) then
            _ ← write_char i NUL;
            _ ← modify (fun c => c <| m_checked_idx := i + 1 |>);
            _ ← write_char (i + 1) NUL;
            _ ← modify (fun c => c <| m_checked_idx := i + 2 |>);
            mret LINE_OK
          else mret LINE_BAD
      else if bool_decide (temp = LF) then
        if 1 <? i then
          prv ← read_char (i - 1);
          if bool_decide (prv = CR) then
            _ ← write_char (i - 1) NUL;
            _ ← write_char i NUL;
            _ ← modify (fun c => c <| m_checked_idx := i + 1 |>);
            mret LINE_OK
          else mret LINE_BAD
        else mret LINE_BAD
      else
        _ ← modify (fun c => c <| m_checked_idx := i + 1 |>);
        parse_line_loop fuel'
    else mret LINE_OPEN
  end.

Definition parse_line : ST http_conn LINE_STATUS :=
  c ← get;
  parse_line_loop (S (Z.to_nat (m_read_idx c - m_checked_idx c))).

Definition get_line (c : http_conn) : Z := m_start_line c.

(** ** The request line *)

Definition blanks : list ascii := [SP; TAB].

Definition skip_scheme (scheme : string) (n : nat) (url : cptr) : ST http_conn cptr :=
  u ← lift (ptr_off url);
  l ← text_at u;
  eq ← lift (strncasecmp_eq n l (lit scheme));
  if eq : bool then
    l' ← text_at (u + Z.of_nat n);
    r ← lift (strchr "/"%char l');
    mret (of_off (option_map (Z.add (u + Z.of_nat n)) r))
  else mret url.

(** From the target on: strip the scheme and host of an absolute URL, insist on
    a path, and complete the bare [/]. *)
Definition parse_target (u : Z) : ST http_conn HTTP_CODE :=
  url ← skip_scheme "http://" 7 (PBuf u);
  _ ← modify (fun c => c <| m_url := url |>);
  url ← skip_scheme "https://" 8 url;
  _ ← modify (fun c => c <| m_url := url |>);
  match url with
  | PBuf w =>
    x ← read_char w;
    if bool_decide (x <> "/"%char) then mret BAD_REQUEST
    else
      l ← text_at w;
      len ← lift (strlen l);
      _ ← (if len =? 1 then
             c ← get;
             b ← lift (strcat (m_read_buf c) w (lit "judge.html"));
             modify (fun c => c <| m_read_buf := b |>)
           else mret tt);
      _ ← modify (fun c => c <| m_check_state := CHECK_STATE_HEADER |>);
      mret NO_REQUEST
  | _ => mret BAD_REQUEST
  end.

Definition parse_request_line (text : Z) : ST http_conn HTTP_CODE :=
  _ ← print_text text;
  l ← text_at text;
  r ← lift (strpbrk blanks l);
  _ ← modify (fun c => c <| m_url := of_off (option_map (Z.add text) r) |>);
  match r with
  | None => mret BAD_REQUEST
  | Some k =>
    _ ← write_char (text + k) NUL;
    _ ← modify (fun c => c <| m_url := PBuf (text + k + 1) |>);
    m ← text_at text;
    is_get ← lift (strcasecmp_eq m (lit "GET"));
    is_post ← (if is_get : bool then mret false else lift (strcasecmp_eq m (lit "POST")));
    if is_get || is_post then
      _ ← modify (fun c => if is_get : bool then c <| m_method := GET |>
                           else c <| m_method := POST |> <| cgi := 1 |>);
      l ← text_at (text + k + 1);
      n ← lift (strspn blanks l);
      let u := text + k + 1 + n in
      _ ← modify (fun c => c <| m_url := PBuf u |>);
      l ← text_at u;
      r ← lift (strpbrk blanks l);
      _ ← modify (fun c => c <| m_version := of_off (option_map (Z.add u) r) |>);
      match r with
      | None => mret BAD_REQUEST
      | Some j =>
        _ ← write_char (u + j) NUL;
        l ← text_at (u + j + 1);
        n ← lift (strspn blanks l);
        let v := u + j + 1 + n in
        _ ← modify (fun c => c <| m_version := PBuf v |>);
        l ← text_at v;
        ok ← lift (strcasecmp_eq l (lit "HTTP/1.1"));
        if negb ok then mret BAD_REQUEST
        else
          parse_target u
      end
    else mret BAD_REQUEST
  end.

(** ** The headers *)

Definition parse_headers (text : Z) : ST http_conn HTTP_CODE :=
  _ ← print_text text;
  x ← read_char text;
  if bool_decide (x = NUL) then
    c ← get;
    if negb (m_content_length c =? 0) then
      _ ← modify (fun c => c <| m_check_state := CHECK_STATE_CONTENT |>);
      mret NO_REQUEST
    else mret GET_REQUEST
  else
    l ← text_at text;
    is_conn ← lift (strncasecmp_eq 11 l (lit "Connection:"));
    if is_conn : bool then
      l ← text_at (text + 11);
      n ← lift (strspn blanks l);
      l ← text_at (text + 11 + n);
      ka ← lift (strcasecmp_eq l (lit "keep-alive"));
      _ ← (if ka : bool then modify (fun c => c <| m_linger := true |>) else mret tt);
      mret NO_REQUEST
    else
      is_len ← lift (strncasecmp_eq 15 l (lit "Content-length:"));
      if is_len : bool then
        l ← text_at (text + 15);
        n ← lift (strspn blanks l);
        l ← text_at (text + 15 + n);
        v ← lift (atol l);
        _ ← modify (fun c => c <| m_content_length := v |>);
        mret NO_REQUEST
      else
        is_host ← lift (strncasecmp_eq 5 l (lit "Host"));
        if is_host : bool then
          l ← text_at (text + 5);
          n ← lift (strspn blanks l);
          _ ← modify (fun c => c <| m_host := PBuf (text + 5 + n) |>);
          mret NO_REQUEST
        else
          _ ← log_text text;
          mret NO_REQUEST.

(** ** The body *)

Definition parse_content (text : Z) : ST http_conn HTTP_CODE :=
  _ ← print_text text;
  c ← get;
  let need := m_content_length c + m_checked_idx c in
  if LONG_MAX <? need then throw SignedOverflow
  else if need <=? m_read_idx c then
    _ ← write_char (text + m_content_length c) NUL;
    _ ← modify (fun c => c <| m_string := PBuf text |>);
    mret GET_REQUEST
  else throw FlowOffEnd.

#[global] Arguments text_at : simpl never.
#[global] Arguments read_char : simpl never.
#[global] Arguments write_char : simpl never.
#[global] Arguments print_text : simpl never.
#[global] Arguments log_text : simpl never.

(** ** Specification of the line scanner *)

(** Between two calls: the indices are ordered and inside the buffer. *)
Definition buf_wf (c : http_conn) : Prop :=
  Z.of_nat (length (m_read_buf c)) = READ_BUFFER_SIZE /\
  0 <= m_checked_idx c <= m_read_idx c /\ m_read_idx c <= READ_BUFFER_SIZE.

Definition char_at (c : http_conn) (i : Z) (x : ascii) : Prop := rd (m_read_buf c) i = Ok x.

(** No line end between two positions. *)
Definition no_eol (c : http_conn) (a b : Z) : Prop :=
  forall i, a <= i < b -> exists x, char_at c i x /\ x <> CR /\ x <> LF.

Definition advance (c : http_conn) (j : Z) : http_conn := c <| m_checked_idx := j |>.

(** Both characters of the line end at [j] replaced by terminators. *)
Definition cut_line (c : http_conn) (j : Z) : http_conn :=
  c <| m_read_buf := <[Z.to_nat (j + 1) := NUL]> (<[Z.to_nat j := NUL]> (m_read_buf c)) |>
    <| m_checked_idx := j + 2 |>.

Inductive line_result (c : http_conn) : LINE_STATUS -> http_conn -> Prop :=
| line_no_end :
    (* everything received so far belongs to an unfinished line *)
    no_eol c (m_checked_idx c) (m_read_idx c) ->
    line_result c LINE_OPEN (advance c (m_read_idx c))
| line_half_end j :
    (* the data ends between the two characters of the line end *)
    m_checked_idx c <= j -> j + 1 = m_read_idx c ->
    no_eol c (m_checked_idx c) j -> char_at c j CR ->
    line_result c LINE_OPEN (advance c j)
| line_complete j :
    (* a complete line [m_checked_idx, j) and its CR LF *)
    m_checked_idx c - 1 <= j -> 0 <= j -> j + 2 <= m_read_idx c ->
    no_eol c (m_checked_idx c) j -> char_at c j CR -> char_at c (j + 1) LF ->
    line_result c LINE_OK (cut_line c j)
| line_broken j x :
    (* a CR or LF that is not part of a CR LF *)
    m_checked_idx c <= j < m_read_idx c ->
    no_eol c (m_checked_idx c) j -> char_at c j x -> (x = CR \/ x = LF) ->
    line_result c LINE_BAD (advance c j).

(** ** Lemmas on the line scanner *)

Lemma advance_self c : advance c (m_checked_idx c) = c.
Proof. by destruct c. Qed.

Lemma buf_wf_advance c j : buf_wf c -> 0 <= j <= m_read_idx c -> buf_wf (advance c j).
Proof. unfold buf_wf. simpl. lia. Qed.

Lemma read_char_ok c i x : char_at c i x -> read_char i c = Ok (x, c).
Proof. unfold char_at, read_char. by intros ->. Qed.

Lemma write_char_ok c i x : 0 <= i < Z.of_nat (length (m_read_buf c)) ->
  write_char i x c = Ok (tt, c <| m_read_buf := <[Z.to_nat i := x]> (m_read_buf c) |>).
Proof. intros H. unfold write_char. by rewrite wr_ok. Qed.

Lemma char_at_ex c i : buf_wf c -> 0 <= i < READ_BUFFER_SIZE -> exists x, char_at c i x.
Proof. intros (Hl & _) Hi. apply rd_ok. lia. Qed.

Lemma parse_line_skip k : forall fuel c,
  no_eol c (m_checked_idx c) (m_checked_idx c + Z.of_nat k) ->
  m_checked_idx c + Z.of_nat k <= m_read_idx c ->
  parse_line_loop (k + fuel) c = parse_line_loop fuel (advance c (m_checked_idx c + Z.of_nat k)).
Proof.
  induction k as [|k IH]; intros fuel c Hno Hle.
  - by rewrite Z.add_0_r, advance_self.
  - destruct (Hno (m_checked_idx c)) as (x & Hx & Hcr & Hlf); [lia|].
    simpl. exec_unfold. rewrite (proj2 (Z.ltb_lt _ _)) by lia.
    rewrite (read_char_ok _ _ _ Hx). rewrite bool_decide_eq_false_2, bool_decide_eq_false_2 by done.
    etrans; [apply (IH fuel (advance c (m_checked_idx c + 1)))|].
    + intros i Hi. apply Hno. simpl in Hi. lia.
    + simpl. lia.
    + by replace (m_checked_idx c + Z.of_nat (S k)) with (m_checked_idx c + 1 + Z.of_nat k) by lia.
Qed.

(** One round of the loop, at a line end or at the end of the data. *)
Lemma parse_line_stop fuel c :
  buf_wf c ->
  (m_checked_idx c = m_read_idx c \/
   exists x, char_at c (m_checked_idx c) x /\ (x = CR \/ x = LF)) ->
  exists st c', parse_line_loop (S fuel) c = Ok (st, c') /\ line_result c st c'.
Proof.
  intros Hwf Hstop. pose proof Hwf as (Hlen & Hidx & Hmax). simpl. exec_unfold.
  destruct (Z.ltb_spec (m_checked_idx c) (m_read_idx c)) as [Hlt|Hge].
  2: { eexists _, _. split; [done|].
       assert (m_read_idx c = m_checked_idx c) as E by lia.
       replace c with (advance c (m_read_idx c)) at 2 by (by rewrite E, advance_self).
       constructor. intros i Hi. lia. }
  destruct Hstop as [?|(x & Hx & Hor)]; [lia|]. rewrite (read_char_ok _ _ _ Hx).
  assert (no_eol c (m_checked_idx c) (m_checked_idx c)) as Hno by (intros i; lia).
  destruct Hor as [->| ->].
  - (* CR *)
    rewrite bool_decide_eq_true_2 by done.
    destruct (Z.eqb_spec (m_checked_idx c + 1) (m_read_idx c)) as [E|Hne].
    { eexists _, _. split; [done|]. rewrite <- (advance_self c) at 2. by constructor. }
    destruct (char_at_ex c (m_checked_idx c + 1) Hwf) as [y Hy]; [lia|].
    rewrite (read_char_ok _ _ _ Hy). case_bool_decide as Hlf.
    + subst y. rewrite write_char_ok by lia. cbn -[write_char].
      rewrite write_char_ok by (cbn; rewrite length_insert; lia).
      eexists _, _. split; [done|]. by apply (line_complete c (m_checked_idx c)); try lia.
    + eexists _, _. split; [done|]. rewrite <- (advance_self c) at 2.
      eapply line_broken; eauto with lia.
  - (* LF *)
    rewrite bool_decide_eq_false_2, bool_decide_eq_true_2 by done.
    destruct (Z.ltb_spec 1 (m_checked_idx c)) as [H1|H1].
    2: { eexists _, _. split; [done|]. rewrite <- (advance_self c) at 2.
         eapply line_broken; eauto with lia. }
    destruct (char_at_ex c (m_checked_idx c - 1) Hwf) as [y Hy]; [lia|].
    rewrite (read_char_ok _ _ _ Hy). case_bool_decide as Hcr.
    + subst y. rewrite write_char_ok by lia. cbn -[write_char].
      rewrite write_char_ok by (cbn; rewrite length_insert; lia).
      eexists _, _. split; [done|].
      pose proof (line_complete c (m_checked_idx c - 1)) as Hres. unfold cut_line in Hres.
      replace (m_checked_idx c - 1 + 1) with (m_checked_idx c) in Hres by lia.
      replace (m_checked_idx c - 1 + 2) with (m_checked_idx c + 1) in Hres by lia.
      apply Hres; try lia; [intros i; lia|done|done].
    + eexists _, _. split; [done|]. rewrite <- (advance_self c) at 2.
      eapply line_broken; eauto with lia.
Qed.

Lemma first_eol c : buf_wf c ->
  exists k, no_eol c (m_checked_idx c) (m_checked_idx c + Z.of_nat k) /\
    m_checked_idx c + Z.of_nat k <= m_read_idx c /\
    (m_checked_idx c + Z.of_nat k = m_read_idx c \/
     exists x, char_at c (m_checked_idx c + Z.of_nat k) x /\ (x = CR \/ x = LF)).
Proof.
  intros Hwf. pose proof Hwf as (Hlen & Hidx & Hmax).
  remember (Z.to_nat (m_read_idx c - m_checked_idx c)) as n eqn:Hn.
  assert (forall m k, (k + m = n)%nat -> no_eol c (m_checked_idx c) (m_checked_idx c + Z.of_nat k) ->
    exists k', no_eol c (m_checked_idx c) (m_checked_idx c + Z.of_nat k') /\
      m_checked_idx c + Z.of_nat k' <= m_read_idx c /\
      (m_checked_idx c + Z.of_nat k' = m_read_idx c \/
       exists x, char_at c (m_checked_idx c + Z.of_nat k') x /\ (x = CR \/ x = LF))) as Hgo.
  { induction m as [|m IH]; intros k Hk Hno.
    - exists k. split_and!; [done|lia|left; lia].
    - destruct (char_at_ex c (m_checked_idx c + Z.of_nat k) Hwf) as [x Hx]; [lia|].
      destruct (decide (x = CR \/ x = LF)) as [Heol|Hne].
      + exists k. split_and!; [done|lia|eauto].
      + apply (IH (S k)); [lia|]. intros i Hi.
        destruct (decide (i = m_checked_idx c + Z.of_nat k)) as [->|]; [|apply Hno; lia].
        exists x. split_and!; [done|tauto|tauto]. }
  apply (Hgo n 0%nat); [lia|]. intros i; lia.
Qed.

Lemma no_eol_split c a b d : no_eol c a b -> no_eol c b d -> no_eol c a d.
Proof. intros H1 H2 i Hi. destruct (Z.lt_ge_cases i b); [apply H1|apply H2]; lia. Qed.

Lemma line_result_skip c j st c' :
  m_checked_idx c <= j -> no_eol c (m_checked_idx c) j ->
  line_result (advance c j) st c' -> line_result c st c'.
Proof.
  intros Hj Hno. inversion 1 as [Hn|i ? ? Hn Hc|i H1 H2 H3 Hn Hc Hl|i x ? Hn Hc ?]; subst; simpl in *.
  - apply (line_no_end c). eapply no_eol_split; [exact Hno|exact Hn].
  - apply (line_half_end c i); [lia|done| |done]. eapply no_eol_split; [exact Hno|exact Hn].
  - apply (line_complete c i); try done.
    + lia.
    + destruct (Z.lt_ge_cases i j) as [Hlt|Hge].
      * intros k Hk. apply Hno. lia.
      * eapply no_eol_split; [exact Hno|exact Hn].
  - eapply (line_broken c i x); try done; [lia|]. eapply no_eol_split; [exact Hno|exact Hn].
Qed.

Lemma parse_line_skip_to c j :
  buf_wf c -> m_checked_idx c <= j <= m_read_idx c -> no_eol c (m_checked_idx c) j ->
  parse_line c = parse_line (advance c j).
Proof.
  intros Hwf Hj Hno. unfold parse_line. exec_unfold.
  change (m_checked_idx (advance c j)) with j. change (m_read_idx (advance c j)) with (m_read_idx c).
  set (k := Z.to_nat (j - m_checked_idx c)).
  replace (S (Z.to_nat (m_read_idx c - m_checked_idx c)))
    with (k + S (Z.to_nat (m_read_idx c - j)))%nat by (unfold k; lia).
  rewrite parse_line_skip; unfold k; rewrite ?Z2Nat.id by lia.
  - by replace (m_checked_idx c + (j - m_checked_idx c)) with j by lia.
  - by replace (m_checked_idx c + (j - m_checked_idx c)) with j by lia.
  - lia.
Qed.

Lemma parse_line_spec c : buf_wf c ->
  exists st c', parse_line c = Ok (st, c') /\ line_result c st c'.
Proof.
  intros Hwf. destruct (first_eol c Hwf) as (k & Hno & Hle & Hstop).
  pose proof Hwf as (_ & Hidx & _).
  rewrite (parse_line_skip_to c (m_checked_idx c + Z.of_nat k)) by (done || lia).
  destruct (parse_line_stop (Z.to_nat (m_read_idx c - (m_checked_idx c + Z.of_nat k)))
    (advance c (m_checked_idx c + Z.of_nat k))) as (st & c' & Hrun & Hres).
  { apply buf_wf_advance; [done|lia]. }
  { exact Hstop. }
  exists st, c'. split; [exact Hrun|]. eapply line_result_skip; [|done|done]. lia.
Qed.

Lemma cut_line_length c j : length (m_read_buf (cut_line c j)) = length (m_read_buf c).
Proof. unfold cut_line. cbn. by rewrite !length_insert. Qed.

Lemma line_result_wf c st c' : buf_wf c -> line_result c st c' ->
  buf_wf c' /\ m_read_idx c' = m_read_idx c /\ m_checked_idx c <= m_checked_idx c' /\
  m_check_state c' = m_check_state c /\ (st = LINE_OK -> m_checked_idx c < m_checked_idx c').
Proof.
  intros (Hl & Hi & Hm) Hres. unfold buf_wf.
  inversion Hres; subst; try rewrite cut_line_length; simpl; split_and!; try done; try lia.
Qed.

(** ** Properties of the line scanner *)


(** the scanner does not depend on how the bytes were delivered: when it
    returned [LINE_OPEN] on the data received so far, resuming it after more
    data has arrived gives the same result, in the same state, as one scan of
    all the data. *)
Theorem parse_line_resumes c c1 c2 :
  buf_wf c -> parse_line c = Ok (LINE_OPEN, c1) ->
  buf_wf c2 -> m_checked_idx c2 = m_checked_idx c -> m_read_idx c <= m_read_idx c2 ->
  (forall i x, i < m_read_idx c -> char_at c i x -> char_at c2 i x) ->
  parse_line (advance c2 (m_checked_idx c1)) = parse_line c2.
Proof.
  intros Hwf Hrun Hwf2 Hck Hrd Hsame.
  destruct (parse_line_spec c Hwf) as (st & c' & Hrun' & Hres).
  rewrite Hrun in Hrun'. simplify_eq. pose proof Hwf as (_ & Hi & _).
  assert (m_checked_idx c <= m_checked_idx c' <= m_read_idx c /\
          no_eol c (m_checked_idx c) (m_checked_idx c')) as [Hj Hno].
  { inversion Hres; subst; simpl; split; done || lia. }
  symmetry. apply parse_line_skip_to; [done|lia|]. intros i Hi'.
  destruct (Hno i) as (x & Hx & ?); [lia|]. exists x. split; [|done]. apply Hsame; [lia|done].
Qed.

(** ** Lemmas: the parsers on a buffer known by its parts *)

Lemma text_at_parts c p pre l :
  m_read_buf c = pre ++ l -> p = Z.of_nat (length pre) -> text_at p c = Ok (l, c).
Proof. intros E ->. unfold text_at. by rewrite E, from_app. Qed.

Lemma read_char_parts c p pre x post :
  m_read_buf c = pre ++ x :: post -> p = Z.of_nat (length pre) -> read_char p c = Ok (x, c).
Proof. intros E ->. unfold read_char. by rewrite E, rd_app. Qed.

Lemma write_char_parts c p pre x y post :
  m_read_buf c = pre ++ x :: post -> p = Z.of_nat (length pre) ->
  write_char p y c = Ok (tt, c <| m_read_buf := pre ++ y :: post |>).
Proof. intros E ->. unfold write_char. by rewrite E, wr_app. Qed.

Lemma print_text_parts c p pre s rest :
  m_read_buf c = pre ++ s ++ NUL :: rest -> p = Z.of_nat (length pre) -> plain s ->
  print_text p c = Ok (tt, c).
Proof.
  intros E -> Hs. unfold print_text. st_step (by eapply text_at_parts).
  st_step (by apply lift_ok, cstr_plain). done.
Qed.

(** Side conditions: where a part lies, and that the parts make the buffer. *)
Ltac parts_len :=
  repeat (rewrite length_app || rewrite length_cons || rewrite length_nil);
  cbn [length lit list_ascii_of_string]; lia.
Ltac parts_eq :=
  cbn [m_read_buf set];
  repeat (rewrite <- app_assoc || rewrite <- app_comm_cons || rewrite app_nil_l);
  reflexivity.

(** A request line: the method, blanks, the target, blanks, the version; with
    the two terminators that the scanner has put behind it. *)
Definition request_line (meth bs1 url bs2 version : list ascii) : list ascii :=
  meth ++ bs1 ++ url ++ bs2 ++ version ++ [NUL; NUL].

Definition is_blank (x : ascii) : Prop := x = SP \/ x = TAB.
#[export] Instance is_blank_dec x : Decision (is_blank x) := _.

Lemma is_blank_elem x : is_blank x <-> x ∈ blanks.
Proof. unfold is_blank, blanks. set_solver. Qed.

Lemma blank_not_nul x : is_blank x -> x <> NUL.
Proof. by intros [-> | ->]. Qed.

Lemma blanks_plain bs : Forall is_blank bs -> plain bs.
Proof. intros H Hin. apply (proj1 (Forall_forall _ _) H) in Hin. by apply blank_not_nul in Hin. Qed.

(** A word: non-empty, without blanks or terminators. *)
Definition word (s : list ascii) : Prop := s <> [] /\ plain s /\ Forall (fun x => ~ is_blank x) s.
#[export] Instance word_dec s : Decision (word s) := _.

Lemma word_no_blank s d : word s -> d ∈ s -> d ∉ blanks.
Proof.
  intros (_ & _ & H) Hin. rewrite <- is_blank_elem. by apply (proj1 (Forall_forall _ _) H).
Qed.

Lemma strpbrk_word s x rest : word s -> is_blank x ->
  strpbrk blanks (s ++ x :: rest) = Ok (Some (Z.of_nat (length s))).
Proof.
  intros Hs Hx. apply strpbrk_found; [apply Hs| |by apply blank_not_nul|by apply is_blank_elem].
  intros d Hd. by eapply word_no_blank.
Qed.

Lemma strspn_blanks bs s rest : Forall is_blank bs -> word s ->
  strspn blanks (bs ++ s ++ rest) = Ok (Z.of_nat (length bs)).
Proof.
  intros Hb Hs. pose proof Hs as (Hne & _ & _). destruct s as [|y s]; [done|].
  simpl. apply strspn_span; [by apply blanks_plain| |].
  - intros d Hd. apply is_blank_elem. by apply (proj1 (Forall_forall _ _) Hb).
  - right. eapply word_no_blank; [exact Hs|by left].
Qed.

Definition HTTP11 : list ascii := lit "HTTP/1.1".

Lemma word_HTTP11 : word HTTP11.
Proof. apply (bool_decide_unpack _). vm_compute. done. Qed.

Definition method_text (post : bool) : list ascii := if post then lit "POST" else lit "GET".

Lemma word_method post : word (method_text post).
Proof. destruct post; apply (bool_decide_unpack _); vm_compute; done. Qed.

(** The state in front of the target: the method and the version are set, the
    words of the line are terminated. *)
Definition line_split (c : http_conn) (pre : list ascii) (post : bool) (bs1 url bs2 rest : list ascii)
    : http_conn :=
  let u := Z.of_nat (length pre + length (method_text post) + 1 + length bs1) in
  (if post then c <| m_method := POST |> <| cgi := 1 |> else c <| m_method := GET |>)
    <| m_read_buf := pre ++ method_text post ++ NUL :: bs1 ++ url ++ NUL :: bs2 ++ HTTP11 ++ NUL :: rest |>
    <| m_url := PBuf u |>
    <| m_version := PBuf (u + Z.of_nat (length url) + 1 + Z.of_nat (length bs2)) |>.

Lemma parse_request_line_split c pre post x1 bs1 url x2 bs2 rest :
  m_read_buf c = pre ++ method_text post ++ x1 :: bs1 ++ url ++ x2 :: bs2 ++ HTTP11 ++ NUL :: rest ->
  Forall is_blank (x1 :: bs1) -> Forall is_blank (x2 :: bs2) -> word url ->
  parse_request_line (Z.of_nat (length pre)) c =
    parse_target (Z.of_nat (length pre + length (method_text post) + 1 + length bs1))
      (line_split c pre post bs1 url bs2 rest).
Proof.
  intros E [Hx1 Hbs1]%Forall_cons [Hx2 Hbs2]%Forall_cons Hurl.
  pose proof (word_method post) as Hm. pose proof word_HTTP11 as Hv.
  set (p := Z.of_nat (length pre)). set (n := Z.of_nat (length (method_text post))).
  unfold parse_request_line.
  st_step (apply (print_text_parts c p pre
    (method_text post ++ x1 :: bs1 ++ url ++ x2 :: bs2 ++ HTTP11) rest); [rewrite E; parts_eq|done|]).
  { rewrite !plain_app, !plain_cons, !plain_app, !plain_cons, !plain_app.
    split_and!; eauto using blank_not_nul, blanks_plain; [apply Hm|apply Hurl|apply Hv]. }
  st_step (by eapply text_at_parts). st_step (by apply lift_ok, strpbrk_word). st_modify.
  st_step (eapply (write_char_parts _ _ (pre ++ method_text post)); [cbn; rewrite E; parts_eq|unfold p; parts_len]).
  st_modify.
  st_step (eapply (text_at_parts _ _ pre); [parts_eq|done]).
  st_step (apply (lift_ok _ _ (negb post)); destruct post; reflexivity).
  rewrite (ST_bind_step _ _ _ post _) by (destruct post; reflexivity).
  replace (negb post || post) with true by (by destruct post). st_modify.
  st_step (eapply (text_at_parts _ _ (pre ++ method_text post ++ [NUL])); [destruct post; parts_eq|unfold p; parts_len]).
  st_step (by apply lift_ok, strspn_blanks). st_modify.
  st_step (eapply (text_at_parts _ _ (pre ++ method_text post ++ NUL :: bs1)); [destruct post; parts_eq|unfold p; parts_len]).
  st_step (by apply lift_ok, strpbrk_word). st_modify.
  st_step (eapply (write_char_parts _ _ (pre ++ method_text post ++ NUL :: bs1 ++ url));
    [destruct post; parts_eq|unfold p; parts_len]).
  st_step (eapply (text_at_parts _ _ (pre ++ method_text post ++ NUL :: bs1 ++ url ++ [NUL]));
    [parts_eq|unfold p; parts_len]).
  st_step (by apply lift_ok, strspn_blanks). st_modify.
  st_step (eapply (text_at_parts _ _ (pre ++ method_text post ++ NUL :: bs1 ++ url ++ NUL :: bs2));
    [parts_eq|unfold p; parts_len]).
  st_step (apply lift_ok, strcasecmp_eq_ok). cbn [negb].
  unfold line_split. f_equal; [unfold p; lia|].
  replace (Z.of_nat (length pre + length (method_text post) + 1 + length bs1))
    with (p + n + 1 + Z.of_nat (length bs1)) by (unfold p, n; lia).
  destruct post; cbn; rewrite <- ?app_assoc; simpl; rewrite <- ?app_assoc; reflexivity.
Qed.
