(* ===== verification/HttpRequest.v ===== *)
(** * HttpRequest: [do_request] and [process_read] of ocean_http/http/http_conn.cpp

    What is done with a complete request: the login and registration forms,
    the choice of the file, and the main state machine that drives the
    parsers.  The file system and the MySQL client library are parameters. *)

From Stdlib Require Import Ascii String.
From S2P Require Import Prelude Locker CStr HttpConn.

Definition S_IROTH : Z := 4.
Definition S_IFMT : Z := 61440.
Definition S_IFDIR : Z := 16384.
Definition S_ISDIR (mode : Z) : bool := Z.land mode S_IFMT =? S_IFDIR.

(** The buffers of [do_request]: [malloc(200)] and [char name[100]]. *)
Definition URL_REAL_SIZE : Z := 200.
Definition SQL_INSERT_SIZE : Z := 200.
Definition NAME_SIZE : nat := 100.

(** The copy loops that take the user name and the password out of the body:
    characters up to [stop], each stored in a local array with [room] places
    left, then the terminator. *)
Fixpoint copy_until (stop : ascii) (room : nat) (l : list ascii) : res (list ascii) :=
  match l, room with
  | [], _ => Halt OutOfBounds
  | _ :: _, O => Halt OutOfBounds
  | c :: l', S room' =>
    if bool_decide (c = stop) then Ok []
    else s ← copy_until stop room' l'; Ok (c :: s)
  end.

(** The pages that a digit behind the last slash selects. *)
Definition page_of (x : ascii) : option (list ascii) :=
  if bool_decide (x = "0"%char) then Some (lit "/register.html")
  else if bool_decide (x = "1"%char) then Some (lit "/log.html")
  else if bool_decide (x = "5"%char) then Some (lit "/picture.html")
  else if bool_decide (x = "6"%char) then Some (lit "/video.html")
  else if bool_decide (x = "7"%char) then Some (lit "/fans.html")
  else None.

(** The text of the INSERT statement, put together with [strcat]. *)
Definition sql_insert_text (name password : list ascii) : list ascii :=
  lit "INSERT INTO user(username,passwd) VALUES(" ++ lit "'" ++ name ++ lit "', '" ++
  password ++ lit "')".

Section request.
Context {DB : Type}
  (mysql_query : option Z -> list ascii -> DB -> Z * DB)
  (stat : list ascii -> option file_stat)
  (mmap : list ascii -> Z -> faddr).

(** The globals of http_conn.cpp and the database behind the connections. *)
Record globals := {
  users : gmap (list ascii) (list ascii);
  m_lock : locker.locker;
  db : DB
}.
#[export] Instance globals_settable : Settable globals := fun g =>
  {| users := users g; m_lock := m_lock g; db := db g |}.

Record hstate := { conn : http_conn; glob : globals }.
#[export] Instance hstate_settable : Settable hstate := fun s =>
  {| conn := conn s; glob := glob s |}.

Definition on_conn {A} (m : ST http_conn A) : ST hstate A :=
  zoom conn (fun c s => s <| conn := c |>) m.
Definition on_glob {A} (m : ST globals A) : ST hstate A :=
  zoom glob (fun g s => s <| glob := g |>) m.
Definition on_lock {A} (m : ST locker.locker A) : ST hstate A :=
  on_glob (zoom m_lock (fun l g => g <| m_lock := l |>) m).

(** [strcpy(m_url, page)]: the page name is stored over the request. *)
Definition set_url (u : Z) (page : string) : ST hstate unit :=
  on_conn (c ← get;
           b ← lift (strcpy (m_read_buf c) u (lit page));
           modify (fun c => c <| m_read_buf := b |>)).

Definition set_real_file (rf : list ascii) : ST hstate unit :=
  on_conn (modify (fun c => c <| m_real_file := rf |>)).

(** Registration: [*(p + 1) == '3']. *)
Definition do_register (t : tid) (u : Z) (name password : list ascii) : ST hstate unit :=
  let sql_insert := sql_insert_text name password in
  if SQL_INSERT_SIZE <=? Z.of_nat (length sql_insert) then throw OutOfBounds
  else
    s ← get;
    match users (glob s) !! name with
    | None =>
      _ ← on_lock (locker.lock t);
      s ← get;
      let '(r, db') := mysql_query (mysql (conn s)) sql_insert (db (glob s)) in
      _ ← on_glob (modify (fun g => g <| db := db' |>));
      (* map::insert leaves an existing entry alone *)
      _ ← on_glob (modify (fun g =>
            match users g !! name with
            | None => g <| users := <[name := password]> (users g) |>
            | Some _ => g
            end));
      _ ← on_lock locker.unlock;
      if r =? 0 then set_url u "/log.html" else set_url u "/registerError.html"
    | Some _ => set_url u "/registerError.html"
    end.

(** Login: [*(p + 1) == '2']. *)
Definition do_login (u : Z) (name password : list ascii) : ST hstate unit :=
  s ← get;
  if bool_decide (users (glob s) !! name = Some password)
  then set_url u "/welcome.html" else set_url u "/logError.html".

(** The name and the password are taken out of the body and handled by the
    digit behind the last slash, whose address is [p]. *)
Definition take_form (t : tid) (u p : Z) : ST hstate unit :=
  s ← get;
  str ← lift (ptr_off (m_string (conn s)));
  l ← on_conn (text_at (str + 5));
  name ← lift (copy_until "&"%char NAME_SIZE l);
  l ← on_conn (text_at (str + 5 + Z.of_nat (length name) + 10));
  password ← lift (copy_until NUL NAME_SIZE l);
  x ← on_conn (read_char (p + 1));
  if bool_decide (x = "3"%char) then do_register t u (until_nul name) password
  else if bool_decide (x = "2"%char) then do_login u (until_nul name) password
  else mret tt.

(** The [cgi] branch. *)
Definition do_cgi (t : tid) (u p len : Z) : ST hstate unit :=
  _ ← on_conn (read_char (u + 1));
  l ← on_conn (text_at (u + 2));
  rest ← lift (cstr l);
  let m_url_real := lit "/" ++ rest in
  if URL_REAL_SIZE <=? Z.of_nat (length m_url_real) then throw OutOfBounds
  else
    s ← get;
    rf ← lift (strncpy (m_real_file (conn s)) len m_url_real (FILENAME_LEN - len - 1));
    _ ← set_real_file rf;
    take_form t u p.

(** The choice of the file: a page selected by a digit, or the URL itself. *)
Definition choose_file (u p len : Z) : ST hstate unit :=
  x ← on_conn (read_char (p + 1));
  s ← get;
  match page_of x with
  | Some page =>
    rf ← lift (strncpy (m_real_file (conn s)) len page (Z.of_nat (length page)));
    set_real_file rf
  | None =>
    l ← on_conn (text_at u);
    url ← lift (cstrn (Z.to_nat (FILENAME_LEN - len - 1)) l);
    rf ← lift (strncpy (m_real_file (conn s)) len url (FILENAME_LEN - len - 1));
    set_real_file rf
  end.

(** [stat], the permission checks and the mapping of the file. *)
Definition open_file : ST hstate HTTP_CODE :=
  s ← get;
  path ← lift (cstr (m_real_file (conn s)));
  match stat path with
  | None => mret NO_RESOURCE
  | Some st =>
    _ ← on_conn (modify (fun c => c <| m_file_stat := st |>));
    if Z.land (st_mode st) S_IROTH =? 0 then mret FORBIDDEN_REQUEST
    else if S_ISDIR (st_mode st) then mret BAD_REQUEST
    else
      _ ← on_conn (modify (fun c => c <| m_file_address := mmap path (st_size st) |>));
      mret FILE_REQUEST
  end.

Definition do_request (t : tid) : ST hstate HTTP_CODE :=
  s ← get;
  rf ← lift (strcpy (m_real_file (conn s)) 0 (doc_root (conn s)));
  _ ← set_real_file rf;
  let len := Z.of_nat (length (doc_root (conn s))) in
  u ← lift (ptr_off (m_url (conn s)));
  _ ← on_conn (print_text u);
  l ← on_conn (text_at u);
  r ← lift (strrchr "/"%char l);
  match r with
  | None => throw NullDeref
  | Some k =>
    let p := u + k in
    form ← (if cgi (conn s) =? 1 then
              x ← on_conn (read_char (p + 1));
              mret (bool_decide (x = "2"%char) || bool_decide (x = "3"%char))
            else mret false);
    _ ← (if form : bool then do_cgi t u p len else mret tt);
    _ ← choose_file u p len;
    open_file
  end.

(** ** [process_read]: the main state machine *)

Fixpoint process_read_loop (fuel : nat) (t : tid) (line_status : LINE_STATUS) : ST hstate HTTP_CODE :=
  match fuel with
  | O => throw Diverges
  | S fuel' =>
    s ← get;
    line_status ←
      (if bool_decide (m_check_state (conn s) = CHECK_STATE_CONTENT) &&
          bool_decide (line_status = LINE_OK)
       then mret line_status else on_conn parse_line);
    if bool_decide (line_status <> LINE_OK) then mret NO_REQUEST
    else
      s ← get;
      let text := get_line (conn s) in
      _ ← on_conn (modify (fun c => c <| m_start_line := m_checked_idx c |>));
      _ ← on_conn (log_text text);
      match m_check_state (conn s) with
      | CHECK_STATE_REQUESTLINE =>
        ret ← on_conn (parse_request_line text);
        if bool_decide (ret = BAD_REQUEST) then mret BAD_REQUEST
        else process_read_loop fuel' t line_status
      | CHECK_STATE_HEADER =>
        ret ← on_conn (parse_headers text);
        if bool_decide (ret = BAD_REQUEST) then mret BAD_REQUEST
        else if bool_decide (ret = GET_REQUEST) then do_request t
        else process_read_loop fuel' t line_status
      | CHECK_STATE_CONTENT =>
        ret ← on_conn (parse_content text);
        if bool_decide (ret = GET_REQUEST) then do_request t
        else process_read_loop fuel' t LINE_OPEN
      end
  end.

(** Every round but the last scans at least one character. *)
Definition process_read (t : tid) : ST hstate HTTP_CODE :=
  s ← get;
  process_read_loop (S (S (Z.to_nat (m_read_idx (conn s) - m_checked_idx (conn s))))) t LINE_OK.

End request.
Arguments globals : clear implicits.
Arguments hstate : clear implicits.
#[export] Existing Instance globals_settable.
#[export] Existing Instance hstate_settable.
