(* ===== verification/HttpParse.v ===== *)
(** * HttpParse: what the HTTP parsers do on whole requests

    The functional behaviour of the request line, header and body parsers and
    of the main loop that drives them, on text given by its parts; the
    requests the code turns down, and those for which it has no defined
    behaviour. *)

From Stdlib Require Import Ascii String.
From S2P Require Import Prelude Locker CStr HttpConn HttpRequest.

(** ** The target *)

Lemma skip_scheme_path scheme n c pre l :
  (0 < n)%nat -> hd NUL (lit scheme) = "h"%char ->
  m_read_buf c = pre ++ "/"%char :: l ->
  skip_scheme scheme n (PBuf (Z.of_nat (length pre))) c = Ok (PBuf (Z.of_nat (length pre)), c).
Proof.
  intros Hn Hh E. unfold skip_scheme. st_step reflexivity.
  st_step (by eapply text_at_parts). destruct (lit scheme) as [|a s] eqn:Es; [done|].
  simpl in Hh. subst a.
  st_step (apply (lift_ok _ _ false); eapply (strncasecmp_eq_diff n _ _ "/"%char "h"%char []); done).
  done.
Qed.

Definition on_target (c : http_conn) (pre : list ascii) : http_conn :=
  c <| m_url := PBuf (Z.of_nat (length pre)) |> <| m_check_state := CHECK_STATE_HEADER |>.

Lemma parse_target_path c pre path rest :
  m_read_buf c = pre ++ "/"%char :: path ++ NUL :: rest -> plain path -> path <> [] ->
  parse_target (Z.of_nat (length pre)) c = Ok (NO_REQUEST, on_target c pre).
Proof.
  intros E Hp Hne. unfold parse_target.
  st_step (by eapply skip_scheme_path; eauto with lia). st_modify.
  st_step (by eapply skip_scheme_path; eauto with lia). st_modify.
  st_step (by eapply read_char_parts). rewrite bool_decide_eq_false_2 by naive_solver.
  st_step (by eapply text_at_parts).
  st_step (apply lift_ok, (strlen_plain ("/"%char :: path)); by apply plain_cons).
  rewrite (proj2 (Z.eqb_neq _ _)) by (destruct path; [done|simpl; lia]). st_modify. st_modify. done.
Qed.

(** The bare [/] is completed in place to [/judge.html]: ten characters and a
    terminator from the end of the target on. *)
Lemma parse_target_root c pre old rest :
  m_read_buf c = pre ++ "/"%char :: NUL :: old ++ rest -> length old = 10%nat ->
  parse_target (Z.of_nat (length pre)) c =
    Ok (NO_REQUEST, (on_target c pre) <| m_read_buf := pre ++ lit "/judge.html" ++ NUL :: rest |>).
Proof.
  intros E Hold. unfold parse_target.
  st_step (by eapply skip_scheme_path; eauto with lia). st_modify.
  st_step (by eapply skip_scheme_path; eauto with lia). st_modify.
  st_step (by eapply read_char_parts). rewrite bool_decide_eq_false_2 by naive_solver.
  st_step (by eapply text_at_parts).
  st_step (apply lift_ok, (strlen_plain ["/"%char]); by apply plain_cons, conj, plain_nil).
  rewrite Z.eqb_refl. rewrite (ST_bind_step _ _ _ tt (c <| m_url := PBuf (Z.of_nat (length pre)) |>
    <| m_read_buf := pre ++ lit "/judge.html" ++ NUL :: rest |>)).
  { st_modify. done. }
  st_step reflexivity.
  assert (strcat (m_read_buf c) (Z.of_nat (length pre)) (lit "judge.html") =
          Ok (pre ++ lit "/judge.html" ++ NUL :: rest)) as Hcat.
  { unfold strcat, strcpy. rewrite E. rewrite from_app by done.
    cbn -[blit Z.add]. rewrite bool_decide_eq_false_2 by done. cbn -[blit Z.add].
    rewrite app_snoc. etransitivity; [apply (blit_app _ (NUL :: old))|].
    - rewrite length_app. simpl. lia.
    - simpl. lia.
    - by rewrite <- app_assoc. }
  st_step (by apply lift_ok). done.
Qed.

(** The scheme and host of an absolute URL. *)
Inductive origin : Set := NoOrigin | Http (host : list ascii) | Https (host : list ascii).

Definition origin_text (o : origin) : list ascii :=
  match o with NoOrigin => [] | Http h => lit "http://" ++ h | Https h => lit "https://" ++ h end.

Definition host_of (o : origin) : list ascii :=
  match o with NoOrigin => [] | Http h | Https h => h end.

(** A host has no blanks, terminators or slashes. *)
Definition host_ok (h : list ascii) : Prop :=
  plain h /\ Forall (fun x => ~ is_blank x /\ x <> "/"%char) h.
#[export] Instance host_ok_dec h : Decision (host_ok h) := _.

Lemma strchr_slash h l : host_ok h ->
  strchr "/"%char (h ++ "/"%char :: l) = Ok (Some (Z.of_nat (length h))).
Proof.
  intros [Hp Hh]. apply strpbrk_found; [done| |done|by left].
  intros d Hd. apply (proj1 (Forall_forall _ _) Hh) in Hd. set_solver.
Qed.

Lemma skip_scheme_strip scheme n c pre h l :
  length (lit scheme) = n -> host_ok h ->
  m_read_buf c = pre ++ lit scheme ++ h ++ "/"%char :: l ->
  skip_scheme scheme n (PBuf (Z.of_nat (length pre))) c =
    Ok (PBuf (Z.of_nat (length (pre ++ lit scheme ++ h))), c).
Proof.
  intros Hn Hh E. unfold skip_scheme. st_step reflexivity.
  st_step (by eapply text_at_parts).
  st_step (apply (lift_ok _ _ true), strncasecmp_eq_ok;
    [lia|rewrite length_app; lia|by rewrite take_app_le by lia]).
  st_step (eapply (text_at_parts _ _ (pre ++ lit scheme)); [rewrite E; parts_eq|parts_len]).
  st_step (by apply lift_ok, strchr_slash). unfold mret, ST_ret. simpl. do 3 f_equal. parts_len.
Qed.

Lemma skip_scheme_https c pre l :
  m_read_buf c = pre ++ lit "https://" ++ l ->
  skip_scheme "http://" 7 (PBuf (Z.of_nat (length pre))) c = Ok (PBuf (Z.of_nat (length pre)), c).
Proof.
  intros E. unfold skip_scheme. st_step reflexivity. st_step (by eapply text_at_parts).
  st_step (apply (lift_ok _ _ false);
    eapply (strncasecmp_eq_diff 7 _ _ "s"%char ":"%char (lit "http")); (simpl; lia) || done).
  done.
Qed.

(** An absolute URL is parsed as its path. *)
Lemma parse_target_origin o c pre l :
  host_ok (host_of o) ->
  m_read_buf c = pre ++ origin_text o ++ "/"%char :: l ->
  parse_target (Z.of_nat (length pre)) c = parse_target (Z.of_nat (length (pre ++ origin_text o))) c.
Proof.
  intros Hh E. destruct o as [|h|h]; cbn [origin_text host_of] in *.
  - by rewrite app_nil_r.
  - rewrite <- app_assoc in E. unfold parse_target.
    st_step (by apply (skip_scheme_strip _ _ _ _ h l)).
    symmetry. st_step (eapply skip_scheme_path; [lia|done|rewrite E; parts_eq]). done.
  - rewrite <- app_assoc in E. unfold parse_target.
    st_step (by eapply skip_scheme_https). st_modify.
    st_step (by apply (skip_scheme_strip _ _ _ _ h l)). st_modify.
    symmetry. st_step (eapply skip_scheme_path; [lia|done|rewrite E; parts_eq]). st_modify.
    st_step (eapply skip_scheme_path; [lia|done|cbn [m_read_buf set]; rewrite E; parts_eq]).
    st_modify. done.
Qed.

(** ** Whole request lines *)

(** What the server looks up for a target: the bare [/] stands for the
    judgement page. *)
Definition target_of (path : list ascii) : list ascii :=
  if bool_decide (path = []) then lit "/judge.html" else "/"%char :: path.

Record line_parts := {
  lp_post : bool; lp_blank1 : list ascii; lp_origin : origin; lp_path : list ascii;
  lp_blank2 : list ascii
}.

Definition line_ok (p : line_parts) : Prop :=
  Forall is_blank (lp_blank1 p) /\ lp_blank1 p <> [] /\
  Forall is_blank (lp_blank2 p) /\ lp_blank2 p <> [] /\
  host_ok (host_of (lp_origin p)) /\ word ("/"%char :: lp_path p).
#[export] Instance line_ok_dec p : Decision (line_ok p) := _.

(** The text of the line, without its CR LF. *)
Definition line_text (p : line_parts) : list ascii :=
  method_text (lp_post p) ++ lp_blank1 p ++ (origin_text (lp_origin p) ++ "/"%char :: lp_path p) ++
  lp_blank2 p ++ HTTP11.

Lemma word_url o path :
  host_ok (host_of o) -> word ("/"%char :: path) -> word (origin_text o ++ "/"%char :: path).
Proof.
  intros [Hp Hh] (_ & Hw & Hb).
  assert (plain (origin_text o) /\ Forall (fun x => ~ is_blank x) (origin_text o)) as [H1 H2].
  { assert (plain (lit "http://") /\ plain (lit "https://")) as [??].
    { split; apply (bool_decide_unpack _); vm_compute; done. }
    assert (Forall (fun x => ~ is_blank x) (lit "http://") /\
    Forall (fun x => ~ is_blank x) (lit "https://")) as [??].
    { split; apply (bool_decide_unpack _); vm_compute; done. }
    destruct o as [|h|h]; cbn [origin_text host_of] in *; [split; [apply plain_nil|constructor]|..];
      rewrite plain_app, Forall_app; split_and!; try done;
      (eapply Forall_impl; [exact Hh|]; simpl; tauto). }
  split_and!; [by destruct (origin_text o)|by apply plain_app|by apply Forall_app].
Qed.

(** What the parser leaves: the fields it sets, and where the target is. *)
Record line_parsed (c : http_conn) (p : line_parts) (rest : list ascii) (c' : http_conn) : Prop := {
  lpd_method : m_method c' = if lp_post p then POST else GET;
  lpd_cgi : cgi c' = if lp_post p then 1 else cgi c;
  lpd_state : m_check_state c' = CHECK_STATE_HEADER;
  lpd_url : exists u pre post, m_url c' = PBuf u /\ u = Z.of_nat (length pre) /\
    m_read_buf c' = pre ++ target_of (lp_path p) ++ NUL :: post ++ rest /\
    (lp_path p <> [] -> (10 <= length post)%nat);
  lpd_length : length (m_read_buf c') = length (m_read_buf c);
  lpd_frame : c' = c <| m_read_buf := m_read_buf c' |> <| m_method := m_method c' |>
    <| cgi := cgi c' |> <| m_check_state := CHECK_STATE_HEADER |>
    <| m_url := m_url c' |> <| m_version := m_version c' |>
}.

(** The completion of [/] fits between the target and the end of the line. *)
Lemma judge_fits b2 rest :
  exists old post, length old = 10%nat /\
    NUL :: b2 ++ HTTP11 ++ NUL :: NUL :: rest = NUL :: old ++ post ++ rest.
Proof.
  exists (take 10 (b2 ++ HTTP11 ++ [NUL; NUL])), (drop 10 (b2 ++ HTTP11 ++ [NUL; NUL])). split.
  - rewrite length_take, !length_app. change (length HTTP11) with 8%nat. cbn [length]. lia.
  - rewrite (app_assoc (take _ _)), take_drop. by rewrite <- !app_assoc.
Qed.

Lemma parse_request_line_parts c pre p rest :
  line_ok p -> m_read_buf c = pre ++ line_text p ++ NUL :: NUL :: rest ->
  exists c', parse_request_line (Z.of_nat (length pre)) c = Ok (NO_REQUEST, c') /\
    line_parsed c p rest c'.
Proof.
  destruct p as [post b1 o path b2]. unfold line_ok, line_text.
  cbn [lp_post lp_blank1 lp_origin lp_path lp_blank2].
  intros (Hb1 & Hne1 & Hb2 & Hne2 & Hh & Hw) E.
  destruct b1 as [|x1 b1]; [done|]. destruct b2 as [|x2 b2]; [done|].
  pose proof (word_url o path Hh Hw) as Hurl.
  rewrite (parse_request_line_split c pre post x1 b1 (origin_text o ++ "/"%char :: path) x2 b2 (NUL :: rest))
    by (done || rewrite E; parts_eq).
  set (c1 := line_split _ _ _ _ _ _ _).
  set (pre1 := pre ++ method_text post ++ NUL :: b1).
  assert (m_read_buf c1 = pre1 ++ origin_text o ++ "/"%char :: path ++ NUL :: b2 ++ HTTP11 ++ NUL :: NUL :: rest)
    as E1.
  { unfold c1, line_split, pre1. parts_eq. }
  replace (Z.of_nat (length pre + _ + 1 + _)) with (Z.of_nat (length pre1)) by (unfold pre1; parts_len).
  rewrite (parse_target_origin o c1 pre1 _ Hh E1). rewrite app_assoc in E1.
  assert (length (m_read_buf c1) = length (m_read_buf c)) as Hlen.
  { rewrite E1, E. unfold pre1. parts_len. }
  destruct (decide (path = [])) as [->|Hpath].
  - destruct (judge_fits b2 rest) as (old & post2 & Hold & Etail). rewrite Etail in E1.
    eexists. split; [by apply (parse_target_root c1 (pre1 ++ origin_text o) old)|].
    split; try (destruct post; reflexivity).
    + eexists _, (pre1 ++ origin_text o), post2. split_and!; done.
    + rewrite <- Hlen, E1. cbn [m_read_buf set]. parts_len.
  - eexists. split; [eapply (parse_target_path c1 (pre1 ++ origin_text o) path); [done|by destruct Hw as (_ & [_ ?]%plain_cons & _)|done]|].
    split; try (destruct post; reflexivity).
    + eexists _, (pre1 ++ origin_text o), (b2 ++ HTTP11 ++ [NUL; NUL]). split_and!; [done..| |intros _; rewrite !length_app; simpl; lia].
      unfold target_of. rewrite bool_decide_eq_false_2 by done. etransitivity; [exact E1|parts_eq].
    + exact Hlen.
Qed.

(** a request line [GET /path HTTP/1.1] or [POST ...], with any blanks
    between its words and with or without [http://host] or [https://host] in
    front of the path, is accepted: the method is recorded (and [cgi] set for a
    POST), the state becomes [CHECK_STATE_HEADER], [m_url] points to the path
    (to [/judge.html] when the path is the bare [/]), and no byte behind the
    line's CR LF is touched, although the completion of [/] is written over
    the version. *)
Theorem request_line_accepted c pre p rest :
  line_ok p -> m_read_buf c = pre ++ line_text p ++ NUL :: NUL :: rest ->
  exists c', parse_request_line (Z.of_nat (length pre)) c = Ok (NO_REQUEST, c') /\
    line_parsed c p rest c'.
Proof. apply parse_request_line_parts. Qed.

(** ** Header lines *)

(** Equality up to the case of letters. *)
Definition same_ci (a b : list ascii) : Prop := map tolower a = map tolower b.
#[export] Instance same_ci_dec a b : Decision (same_ci a b) :=
  decide (map tolower a = map tolower b).

Inductive header : Set :=
| KeepAlive (name bs value : list ascii)
| ContentLength (name bs : list ascii) (n : Z)
| Other (text : list ascii).

Definition header_text (h : header) : list ascii :=
  match h with
  | KeepAlive name bs value => name ++ bs ++ value
  | ContentLength name bs n => name ++ bs ++ dec n
  | Other t => t
  end.

(** A line that none of the three tests of [parse_headers] recognises. *)
Definition unknown_header (t : list ascii) : Prop :=
  plain t /\ t <> [] /\
  strncasecmp_eq 11 (t ++ [NUL]) (lit "Connection:") = Ok false /\
  strncasecmp_eq 15 (t ++ [NUL]) (lit "Content-length:") = Ok false /\
  strncasecmp_eq 5 (t ++ [NUL]) (lit "Host") = Ok false.

Definition header_ok (h : header) : Prop :=
  match h with
  | KeepAlive name bs value =>
    plain name /\ same_ci name (lit "Connection:") /\ Forall is_blank bs /\
    word value /\ same_ci value (lit "keep-alive")
  | ContentLength name bs n =>
    plain name /\ same_ci name (lit "Content-length:") /\ Forall is_blank bs /\
    - LONG_MAX - 1 <= n <= LONG_MAX
  | Other t => unknown_header t
  end.

Definition apply_header (h : header) (c : http_conn) : http_conn :=
  match h with
  | KeepAlive _ _ _ => c <| m_linger := true |>
  | ContentLength _ _ n => c <| m_content_length := n |>
  | Other _ => c
  end.

Lemma same_ci_length a b : same_ci a b -> length a = length b.
Proof. intros H%(f_equal length). by rewrite !length_map in H. Qed.

Lemma strcasecmp_eq_ci s t rest : same_ci t s -> strcasecmp_eq (t ++ NUL :: rest) s = Ok true.
Proof.
  revert t. induction s as [|a s IH]; intros [|x t] H; try done.
  injection H as Hx H. simpl. rewrite bool_decide_eq_true_2 by done. by apply IH.
Qed.

Lemma tolower_nul a : tolower a = NUL -> a = NUL.
Proof.
  destruct a as [[] [] [] [] [] [] [] []]; vm_compute; congruence.
Qed.

(** A comparison does not depend on the case of the text. *)
Lemma strncasecmp_eq_ci n t t0 s rest : same_ci t t0 ->
  strncasecmp_eq n (t ++ rest) s = strncasecmp_eq n (t0 ++ rest) s.
Proof.
  revert t t0 s. induction n as [|n IH]; intros [|x t] [|x0 t0] s H; try done.
  injection H as Hx H. destruct s as [|a s]; simpl.
  - f_equal. apply bool_decide_ext. split; intros ->; apply tolower_nul; by rewrite ?Hx, <- ?Hx.
  - rewrite Hx. case_bool_decide; [by apply IH|done].
Qed.

(** A comparison with a literal stops at the terminator of the text. *)
Lemma strncasecmp_eq_terminated n t s rest : plain s ->
  strncasecmp_eq n (t ++ NUL :: rest) s = strncasecmp_eq n (t ++ [NUL]) s.
Proof.
  revert t s. induction n as [|n IH]; intros t s Hs; [done|].
  destruct t as [|x t], s as [|a s]; simpl; try done; apply plain_cons in Hs as [Ha Hs].
  - rewrite bool_decide_eq_false_2; [done|]. intros E. by apply Ha, tolower_nul.
  - case_bool_decide; [by apply IH|done].
Qed.

Lemma word_dec_text n : word (dec n).
Proof.
  assert (forall m, 0 <= m -> Forall (fun x => ~ is_blank x) (dec_nonneg m) /\ dec_nonneg m <> []) as Hp.
  { intros m Hm. destruct (dec_nonneg_spec m Hm) as (HF & _ & Hne). split; [|done].
    eapply Forall_impl; [exact HF|]. intros x Hx%digit_not_special Hb.
    destruct Hx as (Hsp & _), Hb as [-> | ->]; done. }
  split; [|split; [apply dec_plain|]]; unfold dec; destruct (Z.ltb_spec n 0); try done.
  - by apply Hp.
  - constructor; [by intros [?|?]|apply Hp; lia].
  - by apply Hp.
Qed.

Lemma header_plain h : header_ok h -> plain (header_text h).
Proof.
  destruct h as [name bs v|name bs n|t]; simpl.
  - intros (? & _ & ? & Hv & _). rewrite !plain_app. split_and!; [done|by apply blanks_plain|apply Hv].
  - intros (? & _ & ? & _). rewrite !plain_app. split_and!; [done|by apply blanks_plain|apply dec_plain].
  - by intros (? & _).
Qed.

Lemma header_nonempty h : header_ok h -> exists x t, header_text h = x :: t /\ x <> NUL.
Proof.
  intros Hok. pose proof (header_plain h Hok) as Hp.
  assert (header_text h <> []) as Hne.
  { destruct h as [name bs v|name bs n|t]; simpl in *;
      [destruct Hok as (_ & H%same_ci_length & _).. | by destruct Hok as (_ & ? & _)];
      by destruct name. }
  destruct (header_text h) as [|x t]; [done|]. apply plain_cons in Hp as [? _]. eauto.
Qed.

Lemma parse_headers_nonempty c pre h rest :
  header_ok h -> m_read_buf c = pre ++ header_text h ++ NUL :: rest ->
  print_text (Z.of_nat (length pre)) c = Ok (tt, c) /\
  exists x, read_char (Z.of_nat (length pre)) c = Ok (x, c) /\ x <> NUL.
Proof.
  intros Hok E. split.
  - eapply print_text_parts; [done..|by apply header_plain].
  - destruct (header_nonempty h Hok) as (x & t & Et & Hx). rewrite Et in E.
    exists x. split; [by eapply read_char_parts|done].
Qed.

Lemma plain_names : plain (lit "Connection:") /\ plain (lit "Content-length:") /\ plain (lit "Host").
Proof. split_and!; apply (bool_decide_unpack _); vm_compute; done. Qed.

Lemma parse_headers_step c pre h rest :
  header_ok h -> m_read_buf c = pre ++ header_text h ++ NUL :: rest ->
  parse_headers (Z.of_nat (length pre)) c = Ok (NO_REQUEST, apply_header h c).
Proof.
  intros Hok E. destruct (parse_headers_nonempty c pre h rest Hok E) as (Hprint & x & Hread & Hx).
  destruct plain_names as (Pc & Pl & Ph).
  unfold parse_headers. st_step (exact Hprint). st_step (exact Hread).
  rewrite bool_decide_eq_false_2 by done. st_step (by eapply text_at_parts).
  destruct h as [name bs v|name bs n|t]; cbn [header_text header_ok apply_header] in *.
  - destruct Hok as (Hn & Hci & Hbs & Hv & Hval). pose proof (same_ci_length _ _ Hci) as Hlen.
    st_step (apply (lift_ok _ _ true); rewrite <- !app_assoc; by rewrite (strncasecmp_eq_ci _ _ _ _ _ Hci)).
    st_step (eapply (text_at_parts _ _ (pre ++ name)); [rewrite E; parts_eq|rewrite length_app, Hlen; simpl; lia]).
    st_step (by apply lift_ok, strspn_blanks).
    st_step (eapply (text_at_parts _ _ (pre ++ name ++ bs));
      [rewrite E; parts_eq|rewrite !length_app, Hlen; simpl; lia]).
    st_step (by apply (lift_ok _ _ true), strcasecmp_eq_ci). st_modify. done.
  - destruct Hok as (Hn & Hci & Hbs & Hv). pose proof (same_ci_length _ _ Hci) as Hlen.
    st_step (apply (lift_ok _ _ false); rewrite <- !app_assoc; by rewrite (strncasecmp_eq_ci _ _ _ _ _ Hci)).
    st_step (apply (lift_ok _ _ true); rewrite <- !app_assoc; by rewrite (strncasecmp_eq_ci _ _ _ _ _ Hci)).
    st_step (eapply (text_at_parts _ _ (pre ++ name)); [rewrite E; parts_eq|rewrite length_app, Hlen; simpl; lia]).
    st_step (by apply lift_ok, strspn_blanks, word_dec_text).
    st_step (eapply (text_at_parts _ _ (pre ++ name ++ bs));
      [rewrite E; parts_eq|rewrite !length_app, Hlen; simpl; lia]).
    st_step (apply (lift_ok _ _ n); unfold atol; rewrite cstr_plain by apply dec_plain;
             exec_unfold; by rewrite strtol_dec_lemma). st_modify. done.
  - destruct Hok as (Hp & Hne & H1 & H2 & H3).
    st_step (apply (lift_ok _ _ false); by rewrite strncasecmp_eq_terminated).
    st_step (apply (lift_ok _ _ false); by rewrite strncasecmp_eq_terminated).
    st_step (apply (lift_ok _ _ false); by rewrite strncasecmp_eq_terminated).
    etransitivity; [apply (ST_bind_step _ _ _ tt c)|done].
    unfold log_text. st_step reflexivity. by case_match.
Qed.

(** a [Connection: keep-alive] line, a [Content-length:] line and any line
    the parser does not know (in any case of letters, with any blanks behind
    the colon) have exactly these effects: [m_linger] becomes true;
    [m_content_length] becomes the number that was printed, for every value of
    a [long]; nothing changes.  The buffer is only read, and only inside the
    line. *)
Theorem header_line_effect c pre h rest :
  header_ok h -> m_read_buf c = pre ++ header_text h ++ NUL :: rest ->
  parse_headers (Z.of_nat (length pre)) c = Ok (NO_REQUEST, apply_header h c).
Proof. apply parse_headers_step. Qed.

(** The empty line: the request is complete, or its body comes next. *)
Lemma parse_headers_blank c pre rest :
  m_read_buf c = pre ++ NUL :: rest ->
  parse_headers (Z.of_nat (length pre)) c =
    Ok (if m_content_length c =? 0 then GET_REQUEST else NO_REQUEST,
        if m_content_length c =? 0 then c else c <| m_check_state := CHECK_STATE_CONTENT |>).
Proof.
  intros E. unfold parse_headers.
  st_step (by eapply (print_text_parts _ _ _ []); [..|apply plain_nil]).
  st_step (by eapply read_char_parts). rewrite bool_decide_eq_true_2 by done.
  st_step reflexivity. by destruct (m_content_length c =? 0).
Qed.

(** ** The body *)

Lemma cstr_total l : NUL ∈ l -> exists s, cstr l = Ok s.
Proof.
  induction l as [|x l IH]; intros Hin; [by apply not_elem_of_nil in Hin|]. simpl.
  case_bool_decide as Hx; [eauto|]. apply elem_of_cons in Hin as [?|Hin]; [congruence|].
  destruct (IH Hin) as [s ->]. eexists. reflexivity.
Qed.

Lemma print_text_total c pre l :
  m_read_buf c = pre ++ l -> NUL ∈ l -> print_text (Z.of_nat (length pre)) c = Ok (tt, c).
Proof.
  intros E [s Hs]%cstr_total. unfold print_text.
  st_step (by eapply text_at_parts). st_step (by apply lift_ok). done.
Qed.

Lemma parse_content_parts c pre body x rest :
  m_read_buf c = pre ++ body ++ x :: rest -> NUL ∈ body ++ x :: rest ->
  m_content_length c = Z.of_nat (length body) ->
  m_checked_idx c = Z.of_nat (length pre) ->
  m_checked_idx c + m_content_length c <= m_read_idx c <= READ_BUFFER_SIZE ->
  parse_content (Z.of_nat (length pre)) c =
    Ok (GET_REQUEST, c <| m_read_buf := pre ++ body ++ NUL :: rest |>
                       <| m_string := PBuf (Z.of_nat (length pre)) |>).
Proof.
  intros E Hnul Hn Hck Hrd. unfold READ_BUFFER_SIZE in Hrd. unfold parse_content.
  st_step (by eapply print_text_total). st_step reflexivity.
  rewrite (proj2 (Z.ltb_ge _ _)) by (unfold LONG_MAX; lia). rewrite (proj2 (Z.leb_le _ _)) by lia.
  rewrite app_assoc in E.
  st_step (eapply write_char_parts; [exact E|rewrite length_app; lia]). st_modify.
  by rewrite <- app_assoc.
Qed.

(** ** The lines of a request *)

Definition eol_free (s : list ascii) : Prop := Forall (fun x => x <> CR /\ x <> LF) s.
#[export] Instance eol_free_dec s : Decision (eol_free s) := _.

Lemma insert_middle {A} (pre : list A) x y post i :
  i = Z.of_nat (length pre) -> <[Z.to_nat i := y]> (pre ++ x :: post) = pre ++ y :: post.
Proof.
  intros ->. rewrite Nat2Z.id, <- (Nat.add_0_r (length pre)). by rewrite insert_app_r.
Qed.

Lemma cut_line_parts c pre x y rest :
  m_read_buf c = pre ++ x :: y :: rest ->
  cut_line c (Z.of_nat (length pre)) =
    c <| m_read_buf := pre ++ NUL :: NUL :: rest |> <| m_checked_idx := Z.of_nat (length pre) + 2 |>.
Proof.
  intros E. unfold cut_line. rewrite E, insert_middle by done.
  rewrite (app_snoc pre), insert_middle by (rewrite length_app; simpl; lia). by rewrite <- app_assoc.
Qed.

Lemma char_at_inj c i x y : char_at c i x -> char_at c i y -> x = y.
Proof. unfold char_at. congruence. Qed.

Lemma no_eol_parts c pre line rest :
  m_read_buf c = pre ++ line ++ rest -> eol_free line ->
  no_eol c (Z.of_nat (length pre)) (Z.of_nat (length (pre ++ line))).
Proof.
  intros E Hfree i Hi. rewrite length_app in Hi.
  destruct (lookup_lt_is_Some_2 line (Z.to_nat i - length pre)) as [x Hx]; [lia|].
  exists x. split; [|by apply (proj1 (Forall_lookup _ _) Hfree _ _ Hx)].
  unfold char_at. rewrite E. apply rd_lookup. split; [lia|].
  rewrite lookup_app_r by lia. by rewrite lookup_app_l by (apply lookup_lt_Some in Hx; lia).
Qed.

(** The scanner in front of a CR LF. *)
Lemma parse_line_at_eol c e :
  buf_wf c -> m_checked_idx c = e -> e + 2 <= m_read_idx c ->
  char_at c e CR -> char_at c (e + 1) LF -> parse_line c = Ok (LINE_OK, cut_line c e).
Proof.
  intros Hwf <- Hrd Hcr Hlf. pose proof Hwf as (Hl & Hi & Hm).
  unfold parse_line. exec_unfold. cbn [parse_line_loop]. exec_unfold.
  rewrite (proj2 (Z.ltb_lt _ _)) by lia. rewrite (read_char_ok c _ CR Hcr).
  rewrite bool_decide_eq_true_2 by done. rewrite (proj2 (Z.eqb_neq _ _)) by lia.
  rewrite (read_char_ok c _ LF Hlf). rewrite bool_decide_eq_true_2 by done.
  rewrite write_char_ok by lia.
  rewrite write_char_ok by (cbn [m_read_buf set]; rewrite length_insert; lia). reflexivity.
Qed.

Lemma parse_line_parts c pre line rest :
  buf_wf c -> m_read_buf c = pre ++ line ++ CR :: LF :: rest -> eol_free line ->
  m_checked_idx c = Z.of_nat (length pre) ->
  Z.of_nat (length (pre ++ line)) + 2 <= m_read_idx c ->
  parse_line c = Ok (LINE_OK, c <| m_read_buf := (pre ++ line) ++ NUL :: NUL :: rest |>
                                <| m_checked_idx := Z.of_nat (length (pre ++ line)) + 2 |>).
Proof.
  intros Hwf E Hfree Hck Hrd. pose proof (no_eol_parts c pre line _ E Hfree) as Hno.
  rewrite app_assoc in E. rewrite <- (cut_line_parts c (pre ++ line) CR LF rest E).
  set (e := Z.of_nat (length (pre ++ line))) in *.
  assert (m_checked_idx c <= e) by (unfold e; rewrite length_app; lia).
  rewrite (parse_line_skip_to c e) by (done || lia || by rewrite Hck).
  etransitivity; [apply (parse_line_at_eol _ e)|done]; try done.
  - apply buf_wf_advance; [done|lia].
  - unfold char_at. cbn [m_read_buf set advance]. rewrite E. by apply rd_app.
  - unfold char_at. cbn [m_read_buf set advance]. rewrite E, app_snoc. apply rd_app.
    rewrite length_app. simpl. lia.
Qed.

(** ** The main loop over the lines of a request *)

Lemma log_text_total c pre l :
  m_read_buf c = pre ++ l -> NUL ∈ l -> log_text (Z.of_nat (length pre)) c = Ok (tt, c).
Proof.
  intros E Hin. unfold log_text. st_step reflexivity.
  case_match; [by eapply print_text_total|done].
Qed.

(** Only the fields that belong to the parsers differ. *)
Definition only_parse (c c' : http_conn) : Prop :=
  c' = c <| m_read_buf := m_read_buf c' |> <| m_checked_idx := m_checked_idx c' |>
         <| m_start_line := m_start_line c' |> <| m_check_state := m_check_state c' |>
         <| m_method := m_method c' |> <| cgi := cgi c' |> <| m_url := m_url c' |>
         <| m_version := m_version c' |> <| m_linger := m_linger c' |>
         <| m_content_length := m_content_length c' |> <| m_string := m_string c' |>.

#[export] Instance only_parse_refl : Reflexive only_parse.
Proof. by intros []. Qed.
#[export] Instance only_parse_trans : Transitive only_parse.
Proof. intros [] [] [] H1 H2. cbv in H1, H2 |- *. injection H1 as ->. injection H2 as ->. subst. done. Qed.

(** The state in which a line is handed to its parser. *)
Definition next_line (c : http_conn) (pre line rest : list ascii) : http_conn :=
  c <| m_read_buf := (pre ++ line) ++ NUL :: NUL :: rest |>
    <| m_checked_idx := Z.of_nat (length (pre ++ line)) + 2 |>
    <| m_start_line := Z.of_nat (length (pre ++ line)) + 2 |>.

Definition CRLF : list ascii := [CR; LF].

(** The header block as it is sent, and with its line ends cut. *)
Definition header_lines (hs : list header) : list ascii :=
  mjoin (map (fun h => header_text h ++ CRLF) hs).
Definition header_cuts (hs : list header) : list ascii :=
  mjoin (map (fun h => header_text h ++ [NUL; NUL]) hs).

(** The effect of the headers: [keep-alive] anywhere, the last length. *)
Definition linger_of (b : bool) (hs : list header) : bool :=
  foldl (fun b h => match h with KeepAlive _ _ _ => true | _ => b end) b hs.
Definition length_of (n : Z) (hs : list header) : Z :=
  foldl (fun n h => match h with ContentLength _ _ m => m | _ => n end) n hs.

Definition headers_done (c : http_conn) (pre : list ascii) (hs : list header) (rest : list ascii)
    : http_conn :=
  c <| m_read_buf := (pre ++ header_cuts hs) ++ rest |>
    <| m_checked_idx := Z.of_nat (length (pre ++ header_cuts hs)) |>
    <| m_start_line := Z.of_nat (length (pre ++ header_cuts hs)) |>
    <| m_linger := linger_of (m_linger c) hs |>
    <| m_content_length := length_of (m_content_length c) hs |>.

Lemma header_cuts_length hs : length (header_cuts hs) = length (header_lines hs).
Proof.
  induction hs as [|h hs IH]; [done|]. unfold header_cuts, header_lines in *. simpl.
  rewrite !length_app, IH. done.
Qed.

Lemma headers_done_cons c pre h hs x rest :
  headers_done (apply_header h (next_line c pre (header_text h) x))
    (pre ++ header_text h ++ [NUL; NUL]) hs rest = headers_done c pre (h :: hs) rest.
Proof.
  unfold headers_done.
  replace ((pre ++ header_text h ++ [NUL; NUL]) ++ header_cuts hs) with (pre ++ header_cuts (h :: hs)).
  - by destruct h.
  - unfold header_cuts. cbn [map mjoin list_join]. by rewrite <- !app_assoc.
Qed.

(** A line taken from the buffer leaves it well formed. *)
Lemma next_line_wf c pre line rest :
  buf_wf c -> m_read_buf c = pre ++ line ++ CR :: LF :: rest ->
  Z.of_nat (length (pre ++ line)) + 2 <= m_read_idx c -> buf_wf (next_line c pre line rest).
Proof.
  intros (Hl & Hi & Hm) E Hrd. rewrite E in Hl. unfold buf_wf, next_line.
  cbn [m_read_buf m_checked_idx m_read_idx set]. split_and!; [|lia..].
  rewrite <- Hl. parts_len.
Qed.

Definition request_text (p : line_parts) (hs : list header) : list ascii :=
  line_text p ++ CRLF ++ header_lines hs ++ CRLF.

Lemma header_lines_count hs : (2 * length hs <= length (header_lines hs))%nat.
Proof.
  induction hs as [|h hs IH]; [done|]. unfold header_lines in *. simpl.
  rewrite !length_app. simpl. lia.
Qed.

(** A request that announces a body has the line that does it. *)
Lemma header_lines_long hs : Forall header_ok hs -> length_of 0 hs <> 0 -> (15 <= length (header_lines hs))%nat.
Proof.
  assert (forall n, Forall header_ok hs -> length_of n hs <> n -> (15 <= length (header_lines hs))%nat) as H; [|by apply H].
  induction hs as [|h hs IH]; intros n Hok Hn; [done|]. apply Forall_cons in Hok as [Hh Hok].
  change (header_lines (h :: hs)) with ((header_text h ++ CRLF) ++ header_lines hs). rewrite !length_app.
  destruct h as [name bs value|name bs m|text].
  - specialize (IH n Hok Hn). lia.
  - destruct Hh as (_ & Hname%same_ci_length & _). cbn [header_text]. rewrite !length_app, Hname. simpl. lia.
  - specialize (IH n Hok Hn). lia.
Qed.

Definition header_line_ok (h : header) : Prop := header_ok h /\ eol_free (header_text h).

Section main_loop.
Context {DB : Type}
  (mysql_query : option Z -> list ascii -> DB -> Z * DB)
  (stat : list ascii -> option file_stat)
  (mmap : list ascii -> Z -> faddr) (t : tid).

Notation loop := (process_read_loop mysql_query stat mmap).
Notation do_req := (do_request mysql_query stat mmap t).

Lemma round_line fuel (s : hstate DB) pre line rest :
  m_check_state (conn s) <> CHECK_STATE_CONTENT -> buf_wf (conn s) ->
  m_read_buf (conn s) = pre ++ line ++ CR :: LF :: rest -> eol_free line ->
  m_checked_idx (conn s) = Z.of_nat (length pre) -> m_start_line (conn s) = Z.of_nat (length pre) ->
  Z.of_nat (length (pre ++ line)) + 2 <= m_read_idx (conn s) ->
  let text := Z.of_nat (length pre) in
  let s1 := s <| conn := next_line (conn s) pre line rest |> in
  loop (S fuel) t LINE_OK s =
    match m_check_state (conn s) with
    | CHECK_STATE_REQUESTLINE =>
      (ret ← on_conn (parse_request_line text);
       if bool_decide (ret = BAD_REQUEST) then mret BAD_REQUEST else loop fuel t LINE_OK) s1
    | CHECK_STATE_HEADER =>
      (ret ← on_conn (parse_headers text);
       if bool_decide (ret = BAD_REQUEST) then mret BAD_REQUEST
       else if bool_decide (ret = GET_REQUEST) then do_req else loop fuel t LINE_OK) s1
    | CHECK_STATE_CONTENT => Halt Diverges
    end.
Proof.
  intros Hst Hwf E Hfree Hck Hsl Hrd text s1. cbn [process_read_loop].
  st_step reflexivity. rewrite (bool_decide_eq_false_2 (_ = CHECK_STATE_CONTENT)) by done.
  cbn [andb]. st_step (eapply zoom_ok; by eapply parse_line_parts).
  rewrite bool_decide_eq_false_2 by naive_solver.
  st_step reflexivity. st_step reflexivity.
  unfold get_line. cbn [conn set m_start_line m_check_state]. rewrite Hsl.
  st_step (eapply zoom_ok; eapply (log_text_total _ pre (line ++ NUL :: NUL :: rest));
    [cbn [conn set m_read_buf]; parts_eq|set_solver]).
  by destruct (m_check_state (conn s)).
Qed.

Lemma loop_header fuel (s : hstate DB) pre h rest :
  m_check_state (conn s) = CHECK_STATE_HEADER -> buf_wf (conn s) ->
  m_read_buf (conn s) = pre ++ header_text h ++ CR :: LF :: rest -> header_line_ok h ->
  m_checked_idx (conn s) = Z.of_nat (length pre) -> m_start_line (conn s) = Z.of_nat (length pre) ->
  Z.of_nat (length (pre ++ header_text h)) + 2 <= m_read_idx (conn s) ->
  loop (S fuel) t LINE_OK s =
    loop fuel t LINE_OK (s <| conn := apply_header h (next_line (conn s) pre (header_text h) rest) |>).
Proof.
  intros Hst Hwf E [Hok Hfree] Hck Hsl Hrd.
  rewrite (round_line fuel s pre (header_text h) rest) by (done || by rewrite Hst). rewrite Hst.
  st_step (eapply zoom_ok, (parse_headers_step _ pre h (NUL :: rest)); [done|];
           cbn [conn set next_line m_read_buf]; parts_eq).
  done.
Qed.

Lemma loop_headers hs : forall fuel (s : hstate DB) pre rest,
  m_check_state (conn s) = CHECK_STATE_HEADER -> buf_wf (conn s) ->
  m_read_buf (conn s) = pre ++ header_lines hs ++ rest -> Forall header_line_ok hs ->
  m_checked_idx (conn s) = Z.of_nat (length pre) -> m_start_line (conn s) = Z.of_nat (length pre) ->
  Z.of_nat (length (pre ++ header_lines hs)) <= m_read_idx (conn s) ->
  loop (length hs + fuel) t LINE_OK s =
    loop fuel t LINE_OK (s <| conn := headers_done (conn s) pre hs rest |>).
Proof.
  induction hs as [|h hs IH]; intros fuel s pre rest Hst Hwf E Hok Hck Hsl Hrd.
  { cbn [length Nat.add]. f_equal. unfold headers_done. change (header_cuts []) with (@nil ascii).
    destruct s as [[] ?]; cbn in *. subst. by rewrite app_nil_r. }
  apply Forall_cons in Hok as [Hh Hok].
  change (header_lines (h :: hs)) with ((header_text h ++ CRLF) ++ header_lines hs) in *.
  rewrite <- !app_assoc in E. rewrite !length_app in Hrd. simpl in Hrd.
  cbn [length Nat.add].
  rewrite (loop_header _ s pre h (header_lines hs ++ rest)) by (done || rewrite length_app; lia).
  pose proof (next_line_wf (conn s) pre (header_text h) (header_lines hs ++ rest) Hwf E) as Hwf1.
  rewrite length_app in Hwf1. specialize (Hwf1 ltac:(lia)).
  rewrite (IH fuel _ (pre ++ header_text h ++ [NUL; NUL]) rest).
  - f_equal. rewrite <- (headers_done_cons (conn s) pre h hs (header_lines hs ++ rest) rest). done.
  - by destruct h.
  - by destruct h.
  - transitivity ((pre ++ header_text h) ++ NUL :: NUL :: header_lines hs ++ rest);
      [by destruct h|parts_eq].
  - done.
  - transitivity (Z.of_nat (length (pre ++ header_text h)) + 2); [by destruct h|parts_len].
  - transitivity (Z.of_nat (length (pre ++ header_text h)) + 2); [by destruct h|parts_len].
  - transitivity (m_read_idx (conn s)); [parts_len|by destruct h].
Qed.

Lemma loop_blank fuel (s : hstate DB) pre rest :
  m_check_state (conn s) = CHECK_STATE_HEADER -> buf_wf (conn s) ->
  m_read_buf (conn s) = pre ++ CR :: LF :: rest ->
  m_checked_idx (conn s) = Z.of_nat (length pre) -> m_start_line (conn s) = Z.of_nat (length pre) ->
  Z.of_nat (length pre) + 2 <= m_read_idx (conn s) ->
  let c1 := next_line (conn s) pre [] rest in
  loop (S fuel) t LINE_OK s =
    if m_content_length (conn s) =? 0 then do_req (s <| conn := c1 |>)
    else loop fuel t LINE_OK (s <| conn := c1 <| m_check_state := CHECK_STATE_CONTENT |> |>).
Proof.
  intros Hst Hwf E Hck Hsl Hrd c1.
  rewrite (round_line fuel s pre [] rest) by (done || constructor || by rewrite ?Hst, ?app_nil_r). rewrite Hst.
  st_step (eapply zoom_ok, (parse_headers_blank _ pre (NUL :: rest));
           cbn [conn set next_line m_read_buf]; by rewrite app_nil_r).
  cbn [conn set m_content_length next_line].
  by destruct (m_content_length (conn s) =? 0).
Qed.

Lemma loop_content fuel (s : hstate DB) pre body x rest :
  m_check_state (conn s) = CHECK_STATE_CONTENT ->
  m_read_buf (conn s) = pre ++ body ++ x :: rest -> NUL ∈ body ++ x :: rest ->
  m_content_length (conn s) = Z.of_nat (length body) ->
  m_checked_idx (conn s) = Z.of_nat (length pre) -> m_start_line (conn s) = Z.of_nat (length pre) ->
  Z.of_nat (length (pre ++ body)) <= m_read_idx (conn s) <= READ_BUFFER_SIZE ->
  loop (S fuel) t LINE_OK s =
    do_req (s <| conn := (conn s) <| m_read_buf := pre ++ body ++ NUL :: rest |>
                                  <| m_string := PBuf (Z.of_nat (length pre)) |> |>).
Proof.
  intros Hst E Hnul Hn Hck Hsl Hrd. rewrite length_app in Hrd. cbn [process_read_loop].
  st_step reflexivity. rewrite (bool_decide_eq_true_2 (_ = CHECK_STATE_CONTENT)) by done.
  rewrite (bool_decide_eq_true_2 (LINE_OK = LINE_OK)) by done. cbn [andb]. st_step reflexivity.
  rewrite bool_decide_eq_false_2 by naive_solver. st_step reflexivity. st_step reflexivity.
  unfold get_line. rewrite Hsl.
  st_step (by eapply zoom_ok, (log_text_total _ pre (body ++ x :: rest))).
  rewrite Hst.
  st_step (by eapply zoom_ok, (parse_content_parts _ pre body x rest); try done; cbn; lia).
  rewrite bool_decide_eq_true_2 by done. cbn [conn set m_start_line m_checked_idx].
  f_equal. rewrite Hck, <- Hsl. by destruct s as [[] ?].
Qed.

(** A connection that waits for a request, as [init()] leaves it. *)
Record fresh (c : http_conn) (data rest : list ascii) : Prop := {
  fr_wf : buf_wf c;
  fr_state : m_check_state c = CHECK_STATE_REQUESTLINE;
  fr_checked : m_checked_idx c = 0;
  fr_start : m_start_line c = 0;
  fr_length : m_content_length c = 0;
  fr_data : m_read_buf c = data ++ rest;
  fr_read : Z.of_nat (length data) <= m_read_idx c
}.

(** What [do_request] gets: the request as it was sent. *)
Record parsed (c : http_conn) (p : line_parts) (hs : list header) (c' : http_conn) : Prop := {
  pd_method : m_method c' = if lp_post p then POST else GET;
  pd_cgi : cgi c' = if lp_post p then 1 else cgi c;
  pd_linger : m_linger c' = linger_of (m_linger c) hs;
  pd_length : m_content_length c' = length_of 0 hs;
  pd_url : exists u pre post, m_url c' = PBuf u /\ u = Z.of_nat (length pre) /\
    m_read_buf c' = pre ++ target_of (lp_path p) ++ NUL :: post;
  pd_frame : only_parse c c'
}.

Lemma loop_request_line fuel (s : hstate DB) p rest :
  m_check_state (conn s) = CHECK_STATE_REQUESTLINE -> buf_wf (conn s) ->
  m_read_buf (conn s) = line_text p ++ CR :: LF :: rest -> line_ok p -> eol_free (line_text p) ->
  m_checked_idx (conn s) = 0 -> m_start_line (conn s) = 0 ->
  Z.of_nat (length (line_text p)) + 2 <= m_read_idx (conn s) ->
  exists c1, loop (S fuel) t LINE_OK s = loop fuel t LINE_OK (s <| conn := c1 |>) /\
    line_parsed (next_line (conn s) [] (line_text p) rest) p rest c1.
Proof.
  intros Hst Hwf E Hok Hfree Hck Hsl Hrd.
  rewrite (round_line fuel s [] (line_text p) rest) by (done || by rewrite Hst). rewrite Hst.
  destruct (parse_request_line_parts (next_line (conn s) [] (line_text p) rest) [] p rest)
    as (c1 & Hrun & Hc1); [done|done|].
  exists c1. split; [|exact Hc1]. st_step (by eapply zoom_ok). done.
Qed.

Lemma line_parsed_at c p rest c1 :
  buf_wf c -> m_read_buf c = line_text p ++ CR :: LF :: rest ->
  Z.of_nat (length (line_text p)) + 2 <= m_read_idx c ->
  line_parsed (next_line c [] (line_text p) rest) p rest c1 ->
  let n := (length (line_text p) + 2)%nat in
  buf_wf c1 /\ m_checked_idx c1 = Z.of_nat n /\ m_start_line c1 = Z.of_nat n /\
  m_read_idx c1 = m_read_idx c /\ m_linger c1 = m_linger c /\
  m_content_length c1 = m_content_length c /\
  exists pre post, m_url c1 = PBuf (Z.of_nat (length pre)) /\
    m_read_buf c1 = (pre ++ target_of (lp_path p) ++ NUL :: post) ++ rest /\
    length (pre ++ target_of (lp_path p) ++ NUL :: post) = n /\ (lp_path p <> [] -> (10 <= length post)%nat).
Proof.
  intros Hwf E Hrd [_ _ _ (u & pre & post & Hu & -> & Ebuf & Hpost) Hlen Hframe] n.
  pose proof (next_line_wf c [] (line_text p) rest Hwf E Hrd) as (Hl & Hi & Hm).
  assert (length (m_read_buf c1) = (n + length rest)%nat) as Hlen1.
  { rewrite Hlen. cbn [next_line m_read_buf set]. unfold n. parts_len. }
  assert (m_checked_idx c1 = Z.of_nat n /\ m_start_line c1 = Z.of_nat n /\
    m_read_idx c1 = m_read_idx c /\ m_linger c1 = m_linger c /\
    m_content_length c1 = m_content_length c) as (F1 & F2 & F3 & F4 & F5).
  { rewrite Hframe. cbn [next_line m_checked_idx m_start_line m_read_idx m_linger m_content_length set].
    rewrite app_nil_l. unfold n. split_and!; lia || done. }
  split_and!; try done.
  - split_and!; [by rewrite Hlen|rewrite F1; lia|rewrite F1, F3; unfold n; lia|by rewrite F3].
  - exists pre, post. split_and!; [done|rewrite Ebuf; parts_eq| |exact Hpost].
    apply (f_equal length) in Ebuf. rewrite Hlen1 in Ebuf.
    revert Ebuf. rewrite !length_app, !length_cons, length_app. lia.
Qed.

(** The state in front of the empty line that ends the headers. *)
Record before_blank (c : http_conn) (p : line_parts) (hs : list header) (pre rest : list ascii)
    (c1 : http_conn) : Prop := {
  bb_method : m_method c1 = if lp_post p then POST else GET;
  bb_cgi : cgi c1 = if lp_post p then 1 else cgi c;
  bb_linger : m_linger c1 = linger_of (m_linger c) hs;
  bb_length : m_content_length c1 = length_of 0 hs;
  bb_wf : buf_wf c1;
  bb_state : m_check_state c1 = CHECK_STATE_HEADER;
  bb_buf : m_read_buf c1 = pre ++ CR :: LF :: rest;
  bb_url : exists pre0 post0, m_url c1 = PBuf (Z.of_nat (length pre0)) /\
    pre = pre0 ++ target_of (lp_path p) ++ NUL :: post0 /\
    (lp_path p <> [] -> (10 + length (header_lines hs) <= length post0)%nat);
  bb_checked : m_checked_idx c1 = Z.of_nat (length pre);
  bb_start : m_start_line c1 = Z.of_nat (length pre);
  bb_pos : (length pre + 2 = length (request_text p hs))%nat;
  bb_read : m_read_idx c1 = m_read_idx c;
  bb_frame : only_parse c c1
}.

(** The loop up to the empty line. *)
Lemma loop_to_blank (s : hstate DB) p hs rest :
  fresh (conn s) (request_text p hs) rest ->
  line_ok p -> eol_free (line_text p) -> Forall header_line_ok hs ->
  exists fuel c1 pre,
    process_read mysql_query stat mmap t s = loop (S (S fuel)) t LINE_OK (s <| conn := c1 |>) /\
    before_blank (conn s) p hs pre rest c1.
Proof.
  intros [Hwf Hst Hck Hsl Hcl E Hrd] Hok Hfree Hhs. unfold request_text in E, Hrd.
  rewrite <- !app_assoc in E. pose proof (header_lines_count hs) as Hcount.
  rewrite !length_app in Hrd. simpl in Hrd.
  unfold process_read. unfold mbind, ST_bind, get at 1. cbv beta iota.
  rewrite Hck. set (fuel := (Z.to_nat (m_read_idx (conn s) - 0) - length hs - 1)%nat).
  replace (S (S (Z.to_nat (m_read_idx (conn s) - 0)))) with (S (length hs + S (S fuel)))%nat
    by (unfold fuel; lia).
  destruct (loop_request_line (length hs + S (S fuel)) s p (header_lines hs ++ CRLF ++ rest))
    as (c1 & Hrun & Hc1); try done; [lia|].
  destruct (line_parsed_at (conn s) p _ c1 Hwf E ltac:(lia) Hc1)
    as (W1 & K1 & S1 & R1 & L1 & N1 & pre & post & U1 & B1 & P1 & Hpost).
  set (pre1 := pre ++ target_of (lp_path p) ++ NUL :: post) in *. destruct Hc1 as [M1 G1 T1 _ _ Fr1].
  exists fuel, (headers_done c1 pre1 hs (CRLF ++ rest)), (pre1 ++ header_cuts hs).
  split.
  { rewrite Hrun.
    etransitivity; [apply (loop_headers hs _ (s <| conn := c1 |>) pre1 (CRLF ++ rest))|done]; try done.
    - by rewrite P1.
    - by rewrite P1.
    - rewrite length_app, P1. cbn [conn set]. rewrite R1. lia. }
  unfold headers_done. split; cbn [m_method cgi m_linger m_content_length m_check_state m_read_buf
    m_url m_checked_idx m_start_line m_read_idx set]; try done.
  - by rewrite L1.
  - by rewrite N1, Hcl.
  - destruct W1 as (W1 & W2 & W3). pose proof (header_cuts_length hs).
    split_and!; cbn [m_read_buf m_checked_idx m_read_idx set]; rewrite ?length_app; try lia.
    rewrite <- W1, B1, !length_app. lia.
  - exists pre, (post ++ header_cuts hs). split_and!; [done|unfold pre1; parts_eq|].
    intros Hne. specialize (Hpost Hne). rewrite length_app, header_cuts_length. lia.
  - unfold request_text. rewrite !length_app, header_cuts_length, P1. simpl. lia.
  - assert (only_parse (conn s) c1) as Fr.
    { transitivity (next_line (conn s) [] (line_text p) (header_lines hs ++ CRLF ++ rest)); [done|].
      unfold only_parse. rewrite Fr1. done. }
    etransitivity; [exact Fr|done].
Qed.

(** The main loop on a request without a body. *)
Lemma request_parsed (s : hstate DB) p hs rest :
  fresh (conn s) (request_text p hs) rest -> line_ok p -> eol_free (line_text p) ->
  Forall header_line_ok hs -> length_of 0 hs = 0 ->
  exists c', process_read mysql_query stat mmap t s = do_req (s <| conn := c' |>) /\
    parsed (conn s) p hs c'.
Proof.
  intros Hfr Hok Hfree Hhs Hlen.
  destruct (loop_to_blank s p hs rest) as (fuel & c1 & pre & -> & [M G L N W S E U K T P R F]); try done.
  destruct U as (pre0 & post0 & U & Epre & Hpost).
  rewrite (loop_blank _ (s <| conn := c1 |>) pre rest); try done.
  - cbn [conn set]. rewrite N, Hlen. cbn [Z.eqb]. eexists. split; [reflexivity|].
    split; try done; [|by etransitivity].
    exists (Z.of_nat (length pre0)), pre0, (post0 ++ NUL :: NUL :: rest).
    split_and!; [done..|]. cbn [next_line m_read_buf set]. rewrite Epre. parts_eq.
  - cbn [conn set]. rewrite R. pose proof (fr_read _ _ _ Hfr). lia.
Qed.

(** C19: a complete request without a body reaches [do_request] as it was sent:
    for every method, target and list of header lines that fit in the read
    buffer, [process_read] on a connection as [init()] leaves it ends (it does
    not run out of data or of rounds) in [do_request], with the method, the
    path, the keep-alive flag and the length of the request. *)
Theorem request_reaches_handler (s : hstate DB) p hs rest :
  fresh (conn s) (request_text p hs) rest -> line_ok p -> eol_free (line_text p) ->
  Forall header_line_ok hs -> length_of 0 hs = 0 ->
  exists c', process_read mysql_query stat mmap t s = do_req (s <| conn := c' |>) /\
    parsed (conn s) p hs c'.
Proof. apply request_parsed. Qed.

(** The main loop on a request with a body: where the target and the body are. *)
Lemma form_parsed (s : hstate DB) p hs body x rest :
  fresh (conn s) (request_text p hs) (body ++ x :: rest) -> line_ok p -> eol_free (line_text p) ->
  Forall header_line_ok hs -> length_of 0 hs = Z.of_nat (length body) -> body <> [] ->
  Z.of_nat (length (request_text p hs) + length body) <= m_read_idx (conn s) ->
  NUL ∈ body ++ x :: rest ->
  exists c' pre mid, process_read mysql_query stat mmap t s = do_req (s <| conn := c' |>) /\
    parsed (conn s) p hs c' /\ m_url c' = PBuf (Z.of_nat (length pre)) /\
    m_string c' = PBuf (Z.of_nat (length (pre ++ target_of (lp_path p) ++ NUL :: mid))) /\
    m_read_buf c' = pre ++ target_of (lp_path p) ++ NUL :: mid ++ body ++ NUL :: rest /\
    (lp_path p <> [] -> (10 + length (header_lines hs) <= length mid)%nat).
Proof.
  intros Hfr Hok Hfree Hhs Hlen Hne Hrd Hnul.
  destruct (loop_to_blank s p hs (body ++ x :: rest))
    as (fuel & c1 & pre & -> & [M G L N W S E U K T P R F]); try done.
  destruct U as (pre0 & post0 & U & Epre & Hpost). pose proof W as (_ & _ & W3).
  rewrite (loop_blank _ (s <| conn := c1 |>) pre (body ++ x :: rest)); try done; cbn [conn set]; [|lia].
  rewrite (proj2 (Z.eqb_neq _ _)) by (rewrite N, Hlen; destruct body; [done|simpl; lia]).
  rewrite (loop_content fuel _ (pre ++ [NUL; NUL]) body x rest); try done;
    cbn [next_line conn m_read_buf m_content_length m_checked_idx m_start_line m_read_idx set].
  - eexists _, pre0, (post0 ++ [NUL; NUL]). split; [reflexivity|].
    assert (pre ++ [NUL; NUL] = pre0 ++ target_of (lp_path p) ++ NUL :: post0 ++ [NUL; NUL]) as Epre'
      by (rewrite Epre; parts_eq).
    split; [|cbn [m_url m_string m_read_buf set]; rewrite Epre'; split_and!; try done; [parts_eq|]].
    + split; try done; [|by etransitivity].
      exists (Z.of_nat (length pre0)), pre0, (post0 ++ [NUL; NUL] ++ body ++ NUL :: rest).
      split_and!; [done..|]. cbn [m_read_buf set]. rewrite Epre. parts_eq.
    + intros Hp. specialize (Hpost Hp). rewrite length_app. lia.
  - parts_eq.
  - by rewrite N, Hlen.
  - parts_len.
  - parts_len.
  - rewrite R in W3 |- *. rewrite !length_app. simpl. lia.
Qed.

(** C20: a complete request with a body (a submitted form) reaches [do_request]
    with the body behind [m_string], terminated at [Content-length], provided
    the read buffer holds one more byte than the request and a terminator
    follows somewhere. *)
Theorem form_reaches_handler (s : hstate DB) p hs body x rest :
  fresh (conn s) (request_text p hs) (body ++ x :: rest) -> line_ok p -> eol_free (line_text p) ->
  Forall header_line_ok hs -> length_of 0 hs = Z.of_nat (length body) -> body <> [] ->
  Z.of_nat (length (request_text p hs) + length body) <= m_read_idx (conn s) ->
  NUL ∈ body ++ x :: rest ->
  exists c', process_read mysql_query stat mmap t s = do_req (s <| conn := c' |>) /\
    parsed (conn s) p hs c' /\
    exists pre, m_string c' = PBuf (Z.of_nat (length pre)) /\
      m_read_buf c' = pre ++ body ++ NUL :: rest.
Proof.
  intros Hfr Hok Hfree Hhs Hlen Hne Hrd Hnul.
  destruct (form_parsed s p hs body x rest) as (c' & pre & mid & Hrun & Hp & _ & Hs & Eb & _); try done.
  exists c'. split; [exact Hrun|]. split; [exact Hp|].
  exists (pre ++ target_of (lp_path p) ++ NUL :: mid). split; [exact Hs|]. rewrite Eb. parts_eq.
Qed.
End main_loop.

(** ** Requests that are turned down *)

Lemma strcasecmp_eq_false s t rest : plain t -> plain s -> ~ same_ci t s ->
  strcasecmp_eq (t ++ NUL :: rest) s = Ok false.
Proof.
  revert t. induction s as [|a s IH]; intros [|x t] Ht Hs Hne; try done; simpl.
  - apply plain_cons in Ht as [? _]. by rewrite bool_decide_eq_false_2.
  - apply plain_cons in Hs as [Ha _]. rewrite bool_decide_eq_false_2; [done|].
    intros E. by apply Ha, tolower_nul.
  - apply plain_cons in Ht as [_ ?], Hs as [_ ?]. case_bool_decide as Hx; [|done].
    apply IH; [done..|]. unfold same_ci in *. simpl in Hne. congruence.
Qed.

Lemma plain_methods : plain (lit "GET") /\ plain (lit "POST").
Proof. split; apply (bool_decide_unpack _); vm_compute; done. Qed.

(** a request line whose first word is neither GET nor POST (in any case
    of letters) is answered with [BAD_REQUEST], whatever follows it; the other
    methods of the [METHOD] type are never recognised. *)
Theorem unknown_method_rejected c pre m x rest :
  m_read_buf c = pre ++ m ++ x :: rest -> word m -> is_blank x -> NUL ∈ rest ->
  ~ same_ci m (lit "GET") -> ~ same_ci m (lit "POST") ->
  exists c', parse_request_line (Z.of_nat (length pre)) c = Ok (BAD_REQUEST, c') /\
    m_method c' = m_method c /\ m_check_state c' = m_check_state c.
Proof.
  intros E Hm Hx Hnul Hget Hpost. destruct plain_methods as [Pg Pp]. pose proof Hm as (_ & Pm & _).
  pose (c1 := c <| m_url := PBuf (Z.of_nat (length pre) + Z.of_nat (length m) + 1) |>
                <| m_read_buf := (pre ++ m) ++ NUL :: rest |>).
  exists c1. split; [unfold parse_request_line|done].
  st_step (eapply print_text_total; [done|set_solver]). st_step (by eapply text_at_parts).
  st_step (by apply lift_ok, strpbrk_word). st_modify.
  st_step (eapply (write_char_parts _ _ (pre ++ m)); [cbn [m_read_buf set]; rewrite E; parts_eq|parts_len]).
  st_modify. st_step (eapply (text_at_parts _ _ pre); [parts_eq|done]).
  st_step (by apply (lift_ok _ _ false), strcasecmp_eq_false).
  st_step (by apply (lift_ok _ _ false), strcasecmp_eq_false). cbn [orb]. reflexivity.
Qed.

(** an absolute URL without a slash behind its host, [http://host], makes
    the parser compare the null pointer that [strchr] returned with
    [https://], before the test that would have rejected it. *)
Theorem absolute_url_without_path c pre post x1 bs1 host x2 bs2 rest :
  m_read_buf c = pre ++ method_text post ++ x1 :: bs1 ++ (lit "http://" ++ host) ++ x2 :: bs2 ++
                 HTTP11 ++ NUL :: rest ->
  Forall is_blank (x1 :: bs1) -> Forall is_blank (x2 :: bs2) -> host_ok host ->
  parse_request_line (Z.of_nat (length pre)) c = Halt NullDeref.
Proof.
  intros E Hb1 Hb2 Hh. pose proof Hh as [Hp HF].
  assert (word (lit "http://" ++ host)) as Hw.
  { split_and!; [done| |].
    - apply plain_app. split; [|done]. apply (bool_decide_unpack _). vm_compute. done.
    - apply Forall_app. split; [apply (bool_decide_unpack _); vm_compute; done|].
      eapply Forall_impl; [exact HF|]. simpl. tauto. }
  rewrite (parse_request_line_split c pre post x1 bs1 _ x2 bs2 rest E Hb1 Hb2 Hw).
  set (c1 := line_split _ _ _ _ _ _ _). unfold parse_target.
  set (pre1 := pre ++ method_text post ++ NUL :: bs1).
  assert (m_read_buf c1 = pre1 ++ lit "http://" ++ host ++ NUL :: bs2 ++ HTTP11 ++ NUL :: rest) as E1.
  { unfold c1, line_split, pre1. parts_eq. }
  replace (Z.of_nat (length pre + _ + 1 + _)) with (Z.of_nat (length pre1)) by (unfold pre1; parts_len).
  rewrite (ST_bind_step _ _ c1 PNull c1); [reflexivity|].
  unfold skip_scheme. st_step reflexivity. st_step (by eapply text_at_parts).
  st_step (apply (lift_ok _ _ true), strncasecmp_eq_ok; (simpl; lia) || done).
  st_step (eapply (text_at_parts _ _ (pre1 ++ lit "http://")); [rewrite E1; parts_eq|parts_len]).
  st_step (apply lift_ok, strpbrk_none; [done|];
    intros d Hd; apply (proj1 (Forall_forall _ _) HF) in Hd; set_solver).
  done.
Qed.

(** when the body has not arrived completely, [parse_content] reaches its
    end without a [return]: the value the main loop then tests is undefined. *)
Theorem incomplete_body_no_return c pre l :
  m_read_buf c = pre ++ l -> NUL ∈ l ->
  m_read_idx c < m_content_length c + m_checked_idx c <= LONG_MAX ->
  parse_content (Z.of_nat (length pre)) c = Halt FlowOffEnd.
Proof.
  intros E Hnul Hn. unfold parse_content. st_step (by eapply print_text_total). st_step reflexivity.
  rewrite (proj2 (Z.ltb_ge _ _)), (proj2 (Z.leb_gt _ _)) by lia. done.
Qed.

(** a [Content-length] of [-n] makes the parser store the terminator [n]
    bytes in front of the body: inside the text of the headers, or outside
    the buffer when it reaches further than the data before it. *)
Theorem negative_length_store c pre l n :
  m_read_buf c = pre ++ l -> NUL ∈ l -> m_content_length c = - n -> 0 < n ->
  m_checked_idx c <= m_read_idx c ->
  - LONG_MAX <= m_checked_idx c - n <= LONG_MAX ->
  match parse_content (Z.of_nat (length pre)) c with
  | Ok (r, c') => r = GET_REQUEST /\ n <= Z.of_nat (length pre) /\
                  rd (m_read_buf c') (Z.of_nat (length pre) - n) = Ok NUL
  | Halt h => h = OutOfBounds /\ Z.of_nat (length pre) < n
  end.
Proof.
  intros E Hnul Hn Hpos Hck Hlong. unfold parse_content, mbind, ST_bind.
  rewrite (print_text_total c pre l E Hnul). unfold get. rewrite Hn.
  rewrite (proj2 (Z.ltb_ge _ _)), (proj2 (Z.leb_le _ _)) by lia.
  replace (Z.of_nat (length pre) + - n) with (Z.of_nat (length pre) - n) by lia.
  unfold write_char. destruct (decide (n <= Z.of_nat (length pre))) as [Hle|Hgt].
  - rewrite wr_ok by (rewrite E, length_app; destruct l; [by apply not_elem_of_nil in Hnul|simpl; lia]).
    cbn -[Z.sub rd]. split_and!; [done|done|]. apply rd_lookup. split; [lia|].
    apply list_lookup_insert_eq. rewrite E, length_app. lia.
  - rewrite wr_oob by lia. split; [done|lia].
Qed.

(** a line [Host: ...] is never recognised: the length of the comparison
    includes the terminator of ["Host"], so the colon already differs. *)
Theorem host_header_ignored c pre name v rest :
  same_ci name (lit "Host:") -> plain (name ++ v) ->
  m_read_buf c = pre ++ name ++ v ++ NUL :: rest ->
  parse_headers (Z.of_nat (length pre)) c = Ok (NO_REQUEST, c).
Proof.
  intros Hci Hp E. apply (parse_headers_step c pre (Other (name ++ v)) rest).
  - split_and!; [done|by destruct name|..]; rewrite <- app_assoc;
      by rewrite (strncasecmp_eq_ci _ _ _ _ _ Hci).
  - rewrite E. cbn [header_text]. parts_eq.
Qed.

(** ** The theorems at concrete requests *)

(** A connection whose buffer holds [data], as [init()] and one [recv] leave it. *)
Definition sample_conn (data : list ascii) : http_conn := {|
  timer_flag := 0; improv := 0; mysql := Some 1; m_state := 0; m_sokcfd := 7; m_address := 0;
  m_read_buf := data ++ replicate (2048 - length data) NUL;
  m_read_idx := Z.of_nat (length data); m_checked_idx := 0; m_start_line := 0;
  m_write_buf := replicate 1024 NUL; m_write_idx := 0;
  m_check_state := CHECK_STATE_REQUESTLINE; m_method := GET;
  m_real_file := replicate 200 NUL; m_url := PNull; m_version := PNull; m_host := PNull;
  m_content_length := 0; m_linger := false; m_file_address := FIndet;
  m_file_stat := {| st_mode := 0; st_size := 0 |};
  m_iv := replicate 2 {| iov_base := IovWriteBuf; iov_len := 0 |}; m_iv_count := 0; cgi := 0;
  m_string := PIndet; bytes_to_send := 0; bytes_have_send := 0; doc_root := lit "/srv/root";
  m_TRIGMode := 0; m_close_log := 0; sql_user := []; sql_passwd := []; sql_name := [] |}.

Definition sample_state (data : list ascii) : hstate unit :=
  {| conn := sample_conn data;
     glob := {| users := {[ lit "ann" := lit "pw" ]}; m_lock := {| locker.m_mutex := None |}; db := tt |} |}.

Definition sample_query (q : option Z) (sql : list ascii) (d : unit) : Z * unit := (0, d).
Definition sample_stat (path : list ascii) : option file_stat :=
  Some {| st_mode := 33188; st_size := 12 |}.
Definition sample_mmap (path : list ascii) (n : Z) : faddr := FMapped path.

Definition sample_line : line_parts :=
  {| lp_post := false; lp_blank1 := [SP]; lp_origin := NoOrigin; lp_path := lit "index.html";
     lp_blank2 := [SP] |}.
Definition sample_root_line : line_parts :=
  {| lp_post := false; lp_blank1 := [SP]; lp_origin := Http (lit "a.org"); lp_path := [];
     lp_blank2 := [SP] |}.
Definition sample_headers : list header :=
  [Other (lit "Host: a.org"); KeepAlive (lit "connection:") [SP] (lit "Keep-Alive")].
Definition sample_form_headers : list header :=
  [ContentLength (lit "Content-Length:") [SP] 20].

Ltac by_eval := vm_compute; repeat split; discriminate || reflexivity.
Ltac by_decide := apply (bool_decide_unpack _); vm_compute; exact I.

Lemma sample_header_ok h : h ∈ sample_headers ++ sample_form_headers -> header_line_ok h.
Proof.
  intros Hin. repeat (apply elem_of_cons in Hin as [->|Hin]); [..|by apply not_elem_of_nil in Hin].
  - split; [split_and!|]; by_decide || by_eval.
  - split; [split_and!|]; by_decide || by_eval.
  - split; [split_and!|]; by_decide || by_eval.
Qed.

Definition sample_request : list ascii := request_text sample_line sample_headers.

Lemma sample_fresh (data extra : list ascii) :
  (length (data ++ extra) <=? 2048)%nat = true ->
  fresh (sample_conn (data ++ extra)) data (extra ++ replicate (2048 - length (data ++ extra)) NUL).
Proof.
  intros H%Nat.leb_le. rewrite length_app in H. unfold sample_conn.
  split; cbn [m_read_buf m_check_state m_checked_idx m_start_line m_content_length m_read_idx]; try done.
  - split_and!; cbn [m_read_buf m_checked_idx m_read_idx]; unfold READ_BUFFER_SIZE;
      rewrite ?length_app, ?length_replicate; lia.
  - by rewrite <- app_assoc.
  - rewrite length_app. lia.
Qed.


Lemma parse_line_resumes_witness :
  exists c1, parse_line (sample_conn (lit "GET")) = Ok (LINE_OPEN, c1) /\
    parse_line (advance (sample_conn (lit "GET /" ++ CRLF)) (m_checked_idx c1)) =
    parse_line (sample_conn (lit "GET /" ++ CRLF)).
Proof.
  exists (advance (sample_conn (lit "GET")) 3). split; [by_eval|].
  apply (parse_line_resumes (sample_conn (lit "GET"))); try by_eval.
  intros i x Hi. unfold char_at. rewrite !rd_lookup. intros [H0 Hx]. split; [done|].
  change (m_read_idx (sample_conn (lit "GET"))) with 3 in Hi.
  assert (i = 0 \/ i = 1 \/ i = 2) as [-> | [-> | ->]] by lia; exact Hx.
Defined.

Lemma request_line_accepted_witness :
  exists c', parse_request_line 0
      (sample_conn (line_text sample_root_line ++ NUL :: NUL :: lit "next")) = Ok (NO_REQUEST, c') /\
    m_url c' = PBuf 16.
Proof.
  destruct (request_line_accepted (sample_conn (line_text sample_root_line ++ NUL :: NUL :: lit "next"))
    [] sample_root_line (lit "next" ++ replicate 2016 NUL)) as (c' & Hrun & _).
  - split_and!; by_decide.
  - by_eval.
  - exists c'. split; [exact Hrun|]. revert Hrun. vm_compute. intros [= <-]. done.
Defined.

Lemma header_line_effect_witness :
  parse_headers 0 (sample_conn (lit "content-length:  -42" ++ [NUL])) =
    Ok (NO_REQUEST, (sample_conn (lit "content-length:  -42" ++ [NUL])) <| m_content_length := -42 |>).
Proof.
  apply (header_line_effect _ [] (ContentLength (lit "content-length:") [SP; SP] (-42))
    (replicate 2027 NUL)).
  - split_and!; by_decide || by_eval.
  - by_eval.
Defined.

Lemma request_reaches_handler_witness :
  exists c', process_read sample_query sample_stat sample_mmap 1%nat (sample_state sample_request) =
    do_request sample_query sample_stat sample_mmap 1%nat ((sample_state sample_request) <| conn := c' |>) /\
    m_linger c' = true.
Proof.
  destruct (request_reaches_handler sample_query sample_stat sample_mmap 1%nat
    (sample_state sample_request) sample_line sample_headers
    (replicate (2048 - length sample_request) NUL)) as (c' & Hrun & Hp).
  - pose proof (sample_fresh sample_request []) as H. rewrite !app_nil_r in H. by apply H.
  - split_and!; by_decide.
  - by_decide.
  - apply Forall_forall. intros h Hh. apply sample_header_ok. set_solver.
  - by_eval.
  - exists c'. split; [exact Hrun|]. by rewrite (pd_linger _ _ _ _ Hp).
Defined.

Definition sample_form : line_parts :=
  {| lp_post := true; lp_blank1 := [SP]; lp_origin := NoOrigin; lp_path := lit "2CGISQL.cgi";
     lp_blank2 := [SP] |}.
Definition sample_body : list ascii := lit "user=ann&password=pw".

Lemma form_reaches_handler_witness :
  let text := request_text sample_form sample_form_headers in
  exists c', process_read sample_query sample_stat sample_mmap 1%nat (sample_state (text ++ sample_body)) =
    do_request sample_query sample_stat sample_mmap 1%nat
      ((sample_state (text ++ sample_body)) <| conn := c' |>) /\
    m_method c' = POST.
Proof.
  intros text.
  destruct (form_reaches_handler sample_query sample_stat sample_mmap 1%nat
    (sample_state (text ++ sample_body)) sample_form sample_form_headers sample_body NUL
    (replicate (2047 - length (text ++ sample_body)) NUL)) as (c' & Hrun & Hp & _).
  - by apply (sample_fresh text sample_body).
  - split_and!; by_decide.
  - by_decide.
  - apply Forall_forall. intros h Hh. apply sample_header_ok. set_solver.
  - by_eval.
  - by_eval.
  - by_eval.
  - apply elem_of_app. right. by left.
  - exists c'. split; [exact Hrun|]. by rewrite (pd_method _ _ _ _ Hp).
Defined.

Lemma unknown_method_rejected_witness :
  exists c', parse_request_line 0 (sample_conn (lit "HEAD / HTTP/1.1")) = Ok (BAD_REQUEST, c').
Proof.
  destruct (unknown_method_rejected (sample_conn (lit "HEAD / HTTP/1.1")) [] (lit "HEAD") SP
    (lit "/ HTTP/1.1" ++ replicate 2033 NUL)) as (c' & Hrun & _).
  - by_eval.
  - by_decide.
  - by left.
  - apply elem_of_app. right. by left.
  - by_decide.
  - by_decide.
  - exists c'. exact Hrun.
Defined.

Lemma absolute_url_without_path_witness :
  parse_request_line 0 (sample_conn (lit "GET http://a.org HTTP/1.1")) = Halt NullDeref.
Proof.
  apply (absolute_url_without_path _ [] false SP [] (lit "a.org") SP [] (replicate 2022 NUL)).
  - by_eval.
  - by_decide.
  - by_decide.
  - by_decide.
Defined.

Lemma incomplete_body_no_return_witness :
  parse_content 0 ((sample_conn (lit "user=an")) <| m_content_length := 20 |>) = Halt FlowOffEnd.
Proof.
  apply (incomplete_body_no_return _ [] (lit "user=an" ++ replicate 2041 NUL)).
  - by_eval.
  - apply elem_of_app. right. by left.
  - by_eval.
Defined.

Lemma negative_length_store_witness :
  match parse_content 4 ((sample_conn (lit "abcdbody")) <| m_content_length := -3 |> <| m_checked_idx := 4 |>) with
  | Ok (r, c') => r = GET_REQUEST /\ 3 <= 4 /\ rd (m_read_buf c') 1 = Ok NUL
  | Halt h => h = OutOfBounds /\ 4 < 3
  end.
Proof.
  apply (negative_length_store
    ((sample_conn (lit "abcdbody")) <| m_content_length := -3 |> <| m_checked_idx := 4 |>)
    (lit "abcd") (lit "body" ++ replicate 2040 NUL) 3).
  - by_eval.
  - apply elem_of_app. right. by left.
  - by_eval.
  - by_eval.
  - by_eval.
  - by_eval.
Defined.

Lemma host_header_ignored_witness :
  parse_headers 0 (sample_conn (lit "Host: a.org")) = Ok (NO_REQUEST, sample_conn (lit "Host: a.org")).
Proof.
  apply (host_header_ignored _ [] (lit "Host:") (lit " a.org") (replicate 2036 NUL)); by_decide || by_eval.
Defined.
