(* ===== verification/HttpHandler.v ===== *)
(** * HttpHandler: what [do_request] serves

    The file that a request is answered with: a static path under the document
    root, a page selected by a digit, and the result pages of the login and
    registration forms; the update of the table of users. *)

From Stdlib Require Import Ascii String.
From S2P Require Import Prelude Locker CStr HttpConn HttpRequest HttpParse.

Section handler.
Context {DB : Type}
  (mysql_query : option Z -> list ascii -> DB -> Z * DB)
  (stat : list ascii -> option file_stat)
  (mmap : list ascii -> Z -> faddr) (t : tid).

Notation do_req := (do_request mysql_query stat mmap t).

(** ** The file behind a path *)

(** The specification of the last part of [do_request]. *)
Definition file_code (path : list ascii) : HTTP_CODE :=
  match stat path with
  | None => NO_RESOURCE
  | Some st =>
    if Z.land (st_mode st) S_IROTH =? 0 then FORBIDDEN_REQUEST
    else if S_ISDIR (st_mode st) then BAD_REQUEST else FILE_REQUEST
  end.

Definition file_opened (path : list ascii) (c : http_conn) : http_conn :=
  match stat path with
  | None => c
  | Some st =>
    let c := c <| m_file_stat := st |> in
    if bool_decide (file_code path = FILE_REQUEST)
    then c <| m_file_address := mmap path (st_size st) |> else c
  end.

Lemma open_file_spec (s : hstate DB) path :
  cstr (m_real_file (conn s)) = Ok path ->
  open_file stat mmap s = Ok (file_code path, s <| conn := file_opened path (conn s) |>).
Proof.
  intros Hp. unfold open_file, file_opened, file_code. st_step reflexivity. st_step (by apply lift_ok).
  destruct (stat path) as [st|]; [|by destruct s].
  st_step reflexivity.
  destruct (Z.land (st_mode st) S_IROTH =? 0); [by rewrite bool_decide_eq_false_2|].
  destruct (S_ISDIR (st_mode st)); [by rewrite bool_decide_eq_false_2|]. st_step reflexivity.
  rewrite bool_decide_eq_true_2 by done. done.
Qed.

(** ** The path *)

(** The name buffer holds the document root, and its last byte is free. *)
Definition name_room (root old rf : list ascii) : Prop :=
  rf = root ++ old ++ [NUL] /\ Z.of_nat (length root + length old) + 1 = FILENAME_LEN.

Lemma strncpy_name root old rf text :
  name_room root old rf -> plain root -> plain text ->
  let room := Z.to_nat (FILENAME_LEN - Z.of_nat (length root) - 1) in
  exists old', strncpy rf (Z.of_nat (length root)) text (FILENAME_LEN - Z.of_nat (length root) - 1) =
      Ok (root ++ old' ++ [NUL]) /\ name_room root old' (root ++ old' ++ [NUL]) /\
    cstr (root ++ old' ++ [NUL]) = Ok (root ++ take room text).
Proof.
  intros [-> Hl] Hr Ht room. unfold FILENAME_LEN in Hl. unfold strncpy. fold room.
  assert (length old = room) as Hroom by (unfold room, FILENAME_LEN; lia).
  exists (take room text ++ replicate (room - length text) NUL).
  assert (length (take room text ++ replicate (room - length text) NUL) = room) as Hn.
  { rewrite length_app, length_take, length_replicate. lia. }
  split_and!.
  - by rewrite (blit_app root old [NUL]) by (lia || done).
  - split; [done|]. unfold FILENAME_LEN. lia.
  - assert (plain (root ++ take room text)) as Hp.
    { apply plain_app. split; [done|]. intros Hin. apply Ht. by apply elem_of_take in Hin as (? & ? & ?); eapply list_elem_of_lookup_2. }
    rewrite <- (app_assoc (take room text)), app_assoc.
    destruct (room - length text)%nat; simpl; by apply cstr_plain.
Qed.

(** A request as the parsers hand it over: the root, and a URL whose last
    slash is followed by [b]. *)
Record asks (c : http_conn) (pre a b post : list ascii) : Prop := {
  as_root : plain (doc_root c);
  as_room : Z.of_nat (length (doc_root c)) < FILENAME_LEN;
  as_name : m_real_file c = replicate (Z.to_nat FILENAME_LEN) NUL;
  as_url : m_url c = PBuf (Z.of_nat (length pre));
  as_buf : m_read_buf c = pre ++ (a ++ "/"%char :: b) ++ NUL :: post;
  as_plain : plain (a ++ "/"%char :: b);
  as_last : "/"%char ∉ b
}.

Definition blank_name (root : list ascii) : list ascii :=
  replicate (Z.to_nat (FILENAME_LEN - Z.of_nat (length root) - 1)) NUL.

Definition root_copied (c : http_conn) : http_conn :=
  c <| m_real_file := doc_root c ++ blank_name (doc_root c) ++ [NUL] |>.

Lemma strcpy_root root : Z.of_nat (length root) < FILENAME_LEN ->
  strcpy (replicate (Z.to_nat FILENAME_LEN) NUL) 0 root = Ok (root ++ blank_name root ++ [NUL]) /\
  name_room root (blank_name root) (root ++ blank_name root ++ [NUL]).
Proof.
  unfold FILENAME_LEN. intros Hl. unfold strcpy, blank_name. split.
  - replace (replicate (Z.to_nat 200) NUL) with
      ([] ++ replicate (length (root ++ [NUL])) NUL ++ replicate (199 - length root) NUL).
    + etransitivity; [apply blit_app; [done|by rewrite length_replicate]|]. f_equal.
      rewrite app_nil_l, <- app_assoc. f_equal. unfold FILENAME_LEN.
      replace (Z.to_nat (200 - Z.of_nat (length root) - 1)) with (199 - length root)%nat by lia.
      apply replicate_cons_app.
    + rewrite app_nil_l, <- replicate_add. f_equal. rewrite length_app. simpl. lia.
  - split; [done|]. rewrite length_replicate. unfold FILENAME_LEN. lia.
Qed.

(** The characters that the code looks at behind the last slash. *)
Definition first_of (b : list ascii) : ascii := hd NUL (b ++ [NUL]).

Lemma read_after_slash c pre a b post :
  m_read_buf c = pre ++ (a ++ "/"%char :: b) ++ NUL :: post ->
  read_char (Z.of_nat (length pre) + Z.of_nat (length a) + 1) c = Ok (first_of b, c).
Proof.
  intros E. unfold first_of. destruct b as [|x b]; simpl.
  - eapply (read_char_parts _ _ (pre ++ a ++ ["/"%char])); [rewrite E; parts_eq|parts_len].
  - eapply (read_char_parts _ _ (pre ++ a ++ ["/"%char])); [rewrite E; parts_eq|parts_len].
Qed.

Lemma read_first c pre b post :
  m_read_buf c = pre ++ ("/"%char :: b) ++ NUL :: post ->
  read_char (Z.of_nat (length pre) + 1) c = Ok (first_of b, c).
Proof.
  intros E. rewrite <- (read_after_slash c pre [] b post E). f_equal. simpl. lia.
Qed.

Lemma do_request_start (s : hstate DB) pre a b post :
  asks (conn s) pre a b post ->
  let u := Z.of_nat (length pre) in
  let p := u + Z.of_nat (length a) in
  let len := Z.of_nat (length (doc_root (conn s))) in
  do_req s =
    (_ ← (if (cgi (conn s) =? 1) && (bool_decide (first_of b = "2"%char) || bool_decide (first_of b = "3"%char))
          then do_cgi mysql_query t u p len else mret tt);
     _ ← choose_file u p len;
     open_file stat mmap) (s <| conn := root_copied (conn s) |>).
Proof.
  intros [Hr Hl Hn Hu E Hp Hb] u p len. unfold do_request. st_step reflexivity.
  st_step (apply lift_ok; rewrite Hn; by apply strcpy_root). st_step reflexivity.
  rewrite Hu. st_step reflexivity.
  st_step (by eapply zoom_ok, (print_text_parts _ _ pre); [exact E|..]).
  st_step (by eapply zoom_ok, (text_at_parts _ _ pre)).
  st_step (by apply lift_ok, strrchr_found). cbv iota. fold u. fold p. fold len.
  destruct (cgi (conn s) =? 1); cbn [andb].
  - rewrite (ST_bind_step _ _ _ (bool_decide (first_of b = "2"%char) || bool_decide (first_of b = "3"%char)) (s <| conn := root_copied (conn s) |>)); [done|].
    st_step (by eapply zoom_ok, read_after_slash). done.
  - st_step reflexivity. done.
Qed.

(** The path served for a URL: the part of it that fits behind the root. *)
Definition path_of (root url : list ascii) : list ascii :=
  root ++ take (Z.to_nat (FILENAME_LEN - Z.of_nat (length root) - 1)) url.

Definition named (rf : list ascii) (s : hstate DB) : hstate DB :=
  s <| conn := (conn s) <| m_real_file := rf |> |>.

Lemma choose_file_url (s : hstate DB) pre url post root old p x :
  m_read_buf (conn s) = pre ++ url ++ NUL :: post -> plain url -> plain root ->
  name_room root old (m_real_file (conn s)) ->
  read_char (p + 1) (conn s) = Ok (x, conn s) -> page_of x = None ->
  exists rf, choose_file (Z.of_nat (length pre)) p (Z.of_nat (length root)) s = Ok (tt, named rf s) /\
    cstr rf = Ok (path_of root url).
Proof.
  intros E Hu Hr Hroom Hx Hpage.
  destruct (strncpy_name root old _
    (take (Z.to_nat (FILENAME_LEN - Z.of_nat (length root) - 1)) url) Hroom Hr) as (old' & Hcpy & _ & Hstr).
  { intros (i & Hi & Hin)%elem_of_take. apply Hu. by eapply list_elem_of_lookup_2. }
  rewrite take_take, Nat.min_id in Hstr.
  exists (root ++ old' ++ [NUL]). split; [|exact Hstr]. unfold choose_file.
  st_step (by eapply zoom_ok). st_step reflexivity. rewrite Hpage.
  replace (s <| conn := conn s |>) with s by (by destruct s).
  st_step (by eapply zoom_ok, (text_at_parts _ _ pre)).
  replace (s <| conn := conn s |>) with s by (by destruct s).
  st_step (by apply lift_ok, cstrn_plain).
  st_step (by apply lift_ok). done.
Qed.

Lemma choose_file_page (s : hstate DB) u p x page root :
  read_char (p + 1) (conn s) = Ok (x, conn s) -> page_of x = Some page ->
  plain root -> m_real_file (conn s) = root ++ blank_name root ++ [NUL] ->
  Z.of_nat (length root + length page) < FILENAME_LEN ->
  exists rf, choose_file u p (Z.of_nat (length root)) s = Ok (tt, named rf s) /\
    cstr rf = Ok (root ++ page).
Proof.
  intros Hx Hpage Hr Hrf Hlen. unfold FILENAME_LEN in Hlen.
  set (k := (199 - length root - length page)%nat).
  assert (plain page) as Hpp.
  { unfold page_of in Hpage. repeat case_bool_decide; simplify_eq; apply (bool_decide_unpack _); done. }
  exists (root ++ page ++ replicate k NUL ++ [NUL]). split.
  - unfold choose_file. st_step (by eapply zoom_ok). st_step reflexivity. rewrite Hpage.
    replace (s <| conn := conn s |>) with s by (by destruct s).
    st_step (apply lift_ok; rewrite Hrf; unfold strncpy; rewrite Nat2Z.id, take_ge, Nat.sub_diag by lia;
      rewrite app_nil_r; replace (blank_name root) with (replicate (length page) NUL ++ replicate k NUL);
      [rewrite <- (app_assoc (replicate _ _)); apply blit_app; [done|by rewrite length_replicate]|]).
    { unfold blank_name, FILENAME_LEN. rewrite <- replicate_add. f_equal. unfold k. lia. }
    done.
  - rewrite (app_assoc root). destruct k; simpl; apply cstr_plain; by apply plain_app.
Qed.

(** [do_request] on anything but a submitted form. *)
Lemma plain_request_answer (s : hstate DB) pre a b post :
  asks (conn s) pre a b post ->
  cgi (conn s) <> 1 \/ (first_of b <> "2"%char /\ first_of b <> "3"%char) ->
  Z.of_nat (length (doc_root (conn s))) + 14 < FILENAME_LEN ->
  let url := a ++ "/"%char :: b in
  let path := match page_of (first_of b) with
              | Some page => doc_root (conn s) ++ page
              | None => path_of (doc_root (conn s)) url
              end in
  exists rf, do_req s = Ok (file_code path, s <| conn := file_opened path ((conn s) <| m_real_file := rf |>) |>) /\
    cstr rf = Ok path.
Proof.
  intros Hasks Hcgi Hlen url path. rewrite (do_request_start s pre a b post Hasks).
  pose proof Hasks as [Hr Hl Hn Hu E Hp Hb].
  replace ((cgi (conn s) =? 1) && _) with false.
  2: { symmetry. apply andb_false_iff. destruct Hcgi as [H|[H1 H2]]; [left; by apply Z.eqb_neq|right].
       by rewrite !bool_decide_eq_false_2. }
  set (s1 := s <| conn := root_copied (conn s) |>).
  assert (read_char (Z.of_nat (length pre) + Z.of_nat (length a) + 1) (conn s1) =
          Ok (first_of b, conn s1)) as Hx by (by eapply read_after_slash).
  assert (exists rf, choose_file (Z.of_nat (length pre)) (Z.of_nat (length pre) + Z.of_nat (length a))
    (Z.of_nat (length (doc_root (conn s)))) s1 = Ok (tt, named rf s1) /\ cstr rf = Ok path)
    as (rf & Hch & Hrf).
  { unfold path. destruct (page_of (first_of b)) as [page|] eqn:Hpage.
    - eapply choose_file_page; try done. unfold FILENAME_LEN in *.
      assert (length page <= 14)%nat; [|lia].
      revert Hpage. unfold page_of. repeat case_bool_decide; intros; simplify_eq; simpl; lia.
    - eapply choose_file_url; try done. by apply (strcpy_root (doc_root (conn s))). }
  exists rf. split; [|done]. st_step reflexivity. st_step (exact Hch).
  etransitivity; [by apply (open_file_spec (named rf s1) path)|done].
Qed.

(** a request that is not a submitted form is answered with the file the
    URL names: the path is the document root followed by the URL (cut off so
    that it fits the name buffer; nothing in it is rejected, [..] included),
    or by the page that a digit 0, 1, 5, 6 or 7 behind the last slash selects;
    the answer is [NO_RESOURCE], [FORBIDDEN_REQUEST], [BAD_REQUEST] (for a
    directory) or [FILE_REQUEST] with the file mapped, by what [stat] says of
    that path; the users and the database are untouched. *)
Theorem plain_request_served (s : hstate DB) pre a b post :
  asks (conn s) pre a b post ->
  cgi (conn s) <> 1 \/ (first_of b <> "2"%char /\ first_of b <> "3"%char) ->
  Z.of_nat (length (doc_root (conn s))) + 14 < FILENAME_LEN ->
  let url := a ++ "/"%char :: b in
  let path := match page_of (first_of b) with
              | Some page => doc_root (conn s) ++ page
              | None => path_of (doc_root (conn s)) url
              end in
  exists rf, do_req s = Ok (file_code path, s <| conn := file_opened path ((conn s) <| m_real_file := rf |>) |>) /\
    cstr rf = Ok path.
Proof. apply plain_request_answer. Qed.

(** ** The forms *)

(** The body of the login and registration forms. *)
Definition form_text (name password : list ascii) : list ascii :=
  lit "user=" ++ name ++ lit "&password=" ++ password.

Lemma copy_until_found stop s : forall room rest, stop ∉ s -> (length s < room)%nat ->
  copy_until stop room (s ++ stop :: rest) = Ok s.
Proof.
  induction s as [|c s IH]; intros [|room] rest Hs Hl; try (simpl in Hl; lia); simpl.
  - by rewrite bool_decide_eq_true_2.
  - apply not_elem_of_cons in Hs as [Hc Hs]. rewrite bool_decide_eq_false_2 by done.
    rewrite IH by (done || simpl in Hl; lia). done.
Qed.

(** A buffer that is too small: the copy runs over its end. *)
Lemma copy_until_over stop s : forall room rest, stop ∉ s -> (room <= length s)%nat ->
  copy_until stop room (s ++ rest) = Halt OutOfBounds.
Proof.
  induction s as [|c s IH]; intros [|room] rest Hs Hl; try (simpl in Hl; lia); try done.
  - by destruct rest.
  - simpl in Hl. apply not_elem_of_cons in Hs as [Hc Hs]. simpl.
    rewrite bool_decide_eq_false_2 by done. by rewrite IH by (done || lia).
Qed.

(** The form a connection carries, and where: the URL [/d...] with the digit
    that selects login or registration, and the body behind [m_string]. *)
Record submits (c : http_conn) (pre b mid : list ascii) (name password rest : list ascii) : Prop := {
  su_root : plain (doc_root c);
  su_room : Z.of_nat (length (doc_root c)) + 19 < FILENAME_LEN;
  su_file : m_real_file c = replicate (Z.to_nat FILENAME_LEN) NUL;
  su_cgi : cgi c = 1;
  su_url : m_url c = PBuf (Z.of_nat (length pre));
  su_buf : m_read_buf c = pre ++ ("/"%char :: b) ++ NUL :: mid ++ form_text name password ++ NUL :: rest;
  su_string : m_string c = PBuf (Z.of_nat (length (pre ++ ("/"%char :: b) ++ NUL :: mid)));
  su_plain : plain b /\ "/"%char ∉ b /\ (2 <= length b < 199)%nat;
  su_over : (20 <= length (("/"%char :: b) ++ NUL :: mid))%nat;
  su_name : plain name /\ "&"%char ∉ name /\ (length name < 100)%nat;
  su_password : plain password /\ (length password < 100)%nat
}.

(** The pages a form is answered with. *)
Definition result_page (page : string) : Prop :=
  page ∈ ["/welcome.html"; "/logError.html"; "/log.html"; "/registerError.html"]%string.

Lemma result_page_facts page : result_page page ->
  plain (lit page) /\ (length (lit page) <= 19)%nat /\
  exists x l, lit page = "/"%char :: x :: l /\ page_of x = None.
Proof.
  unfold result_page. rewrite !elem_of_cons, elem_of_nil.
  intros [->|[->|[->|[->|[]]]]]; (split_and!;
    [apply (bool_decide_unpack _); vm_compute; done|simpl; lia|eexists _, _; split; reflexivity]).
Qed.

Definition new_url (buf : list ascii) (s : hstate DB) : hstate DB :=
  s <| conn := (conn s) <| m_read_buf := buf |> |>.

Lemma set_url_page (s : hstate DB) pre old post page :
  m_read_buf (conn s) = pre ++ old ++ post -> (20 <= length old)%nat -> result_page page ->
  exists post', set_url (Z.of_nat (length pre)) page s =
    Ok (tt, new_url (pre ++ lit page ++ NUL :: post') s).
Proof.
  intros E Hold Hpage. destruct (result_page_facts page Hpage) as (_ & Hlen & _).
  set (n := (length (lit page) + 1)%nat).
  exists (drop n old ++ post). unfold set_url.
  apply (zoom_ok conn (fun c s => s <| conn := c |>) _ s tt ((conn s) <| m_read_buf := pre ++ lit page ++ NUL :: drop n old ++ post |>)).
  st_step reflexivity.
  assert (strcpy (m_read_buf (conn s)) (Z.of_nat (length pre)) (lit page) =
          Ok (pre ++ lit page ++ NUL :: drop n old ++ post)) as Hcpy.
  { rewrite E. unfold strcpy. rewrite <- (take_drop n old) at 1. rewrite <- app_assoc.
    etransitivity; [apply blit_app; [done|]|by rewrite <- (app_assoc (lit page))].
    rewrite length_app, length_take. unfold n. simpl. lia. }
  st_step (by apply lift_ok). done.
Qed.

(** The page is then served under the root. *)
Lemma serve_page (s : hstate DB) pre post page root old :
  m_read_buf (conn s) = pre ++ lit page ++ NUL :: post -> result_page page ->
  plain root -> Z.of_nat (length root) + 19 < FILENAME_LEN ->
  name_room root old (m_real_file (conn s)) ->
  let path := root ++ lit page in
  exists rf, (_ ← choose_file (Z.of_nat (length pre)) (Z.of_nat (length pre)) (Z.of_nat (length root));
              open_file stat mmap) s =
      Ok (file_code path, s <| conn := file_opened path ((conn s) <| m_real_file := rf |>) |>).
Proof.
  intros E Hpage Hr Hlen Hroom path. unfold FILENAME_LEN in *.
  destruct (result_page_facts page Hpage) as (Hp & Hpl & x & l & Ep & Hx).
  destruct (choose_file_url s pre (lit page) post root old (Z.of_nat (length pre)) x)
    as (rf & Hch & Hrf); try done.
  { eapply (read_char_parts _ _ (pre ++ ["/"%char])); [rewrite E, Ep; parts_eq|parts_len]. }
  exists rf. st_step (exact Hch). unfold path_of, FILENAME_LEN in Hrf. rewrite take_ge in Hrf by lia.
  by rewrite (open_file_spec (named rf s) path Hrf).
Qed.

(** The name buffer is filled before the form is looked at. *)
Lemma do_cgi_names (s : hstate DB) pre d b post :
  asks (conn s) pre [] (d :: b) post -> (length b < 198)%nat ->
  let u := Z.of_nat (length pre) in
  let root := doc_root (conn s) in
  exists rf old, name_room root old rf /\
    do_cgi mysql_query t u u (Z.of_nat (length root)) (s <| conn := root_copied (conn s) |>) =
      take_form mysql_query t u u (named rf s).
Proof.
  intros [Hr Hl Hn Hu E Hp Hb] Hblen u root. apply plain_cons in Hp as [_ [_ Hp]%plain_cons].
  destruct (strcpy_root root Hl) as [_ Hroom].
  destruct (strncpy_name root _ _ ("/"%char :: b) Hroom Hr) as (old & Hcpy & Hroom' & _).
  { by apply plain_cons. }
  exists (root ++ old ++ [NUL]), old. split; [done|]. unfold do_cgi.
  st_step (eapply zoom_ok, (read_char_parts _ _ (pre ++ ["/"%char]));
    [cbn [conn set root_copied m_read_buf]; rewrite E; parts_eq|unfold u; parts_len]).
  st_step (eapply zoom_ok, (text_at_parts _ _ (pre ++ ["/"%char; d]) (b ++ NUL :: post));
    [cbn [conn set root_copied m_read_buf]; rewrite E; parts_eq|unfold u; parts_len]).
  st_step (by apply lift_ok, cstr_plain). cbv zeta.
  rewrite (proj2 (Z.leb_gt _ _)) by (unfold URL_REAL_SIZE; rewrite length_app; simpl; lia).
  st_step reflexivity. st_step (apply lift_ok; exact Hcpy). st_step reflexivity. done.
Qed.

Lemma submits_asks c pre b mid name password rest :
  submits c pre b mid name password rest ->
  asks c pre [] b (mid ++ form_text name password ++ NUL :: rest).
Proof.
  intros [Hr Hl Hrf Hcgi Hu E Hstr (Hb & Hslash & Hblen) _ _ _].
  split; try done; [lia|by apply plain_cons].
Qed.

(** The form is taken apart, and handed to login or registration. *)
Lemma take_form_dispatch (s : hstate DB) rf pre b mid name password rest :
  submits (conn s) pre b mid name password rest ->
  let u := Z.of_nat (length pre) in
  take_form mysql_query t u u (named rf s) =
    (if bool_decide (first_of b = "3"%char) then do_register mysql_query t u name password
     else if bool_decide (first_of b = "2"%char) then do_login u name password
     else mret tt) (named rf s).
Proof.
  intros [_ _ _ _ _ E Hstr _ _ (Hn & Hamp & Hnl) (Hpw & Hpl)] u. unfold take_form.
  st_step reflexivity. cbn [conn set m_string named]. rewrite Hstr. st_step reflexivity.
  set (pre1 := pre ++ ("/"%char :: b) ++ NUL :: mid).
  st_step (eapply zoom_ok, (text_at_parts _ _ (pre1 ++ lit "user=")
      (name ++ "&"%char :: lit "password=" ++ password ++ NUL :: rest));
    [cbn [conn set named m_read_buf]; rewrite E; unfold pre1, form_text; parts_eq|parts_len]).
  st_step (by apply lift_ok, copy_until_found).
  st_step (eapply zoom_ok, (text_at_parts _ _ (pre1 ++ lit "user=" ++ name ++ lit "&password=")
      (password ++ NUL :: rest));
    [cbn [conn set named m_read_buf]; rewrite E; unfold pre1, form_text; parts_eq|parts_len]).
  st_step (by apply lift_ok, copy_until_found).
  st_step (eapply zoom_ok, (read_first _ pre b (mid ++ form_text name password ++ NUL :: rest));
    cbn [conn set named m_read_buf]; exact E).
  by rewrite until_nul_plain.
Qed.

(** The answer to a form once its result page is known. *)
Lemma form_answer (s : hstate DB) pre b mid name password rest :
  submits (conn s) pre b mid name password rest ->
  first_of b = "2"%char \/ first_of b = "3"%char ->
  exists rf old, name_room (doc_root (conn s)) old rf /\
    do_req s =
      (_ ← (if bool_decide (first_of b = "3"%char)
            then do_register mysql_query t (Z.of_nat (length pre)) name password
            else do_login (Z.of_nat (length pre)) name password);
       _ ← choose_file (Z.of_nat (length pre)) (Z.of_nat (length pre)) (Z.of_nat (length (doc_root (conn s))));
       open_file stat mmap) (named rf s).
Proof.
  intros Hsub Hd. pose proof (submits_asks _ _ _ _ _ _ _ Hsub) as Hasks.
  pose proof (su_plain _ _ _ _ _ _ _ Hsub) as (_ & _ & Hlen).
  rewrite (do_request_start s pre [] b _ Hasks). rewrite (su_cgi _ _ _ _ _ _ _ Hsub).
  destruct b as [|d b]; [simpl in Hlen; lia|].
  destruct (do_cgi_names s pre d b _ Hasks) as (rf & old & Hroom & Hrun); [simpl in Hlen; lia|].
  exists rf, old. split; [done|].
  replace (bool_decide (first_of (d :: b) = "2"%char) || bool_decide (first_of (d :: b) = "3"%char)) with true.
  2: { symmetry. destruct Hd as [-> | ->]; done. }
  cbn [length Z.of_nat Z.eqb andb Pos.eqb]. rewrite Z.add_0_r. unfold mbind, ST_bind at 1. rewrite Hrun.
  rewrite (take_form_dispatch s rf pre _ mid name password rest Hsub).
  destruct Hd as [Hd|Hd]; rewrite Hd; cbn; done.
Qed.

(** The room in front of the body that a result page may overwrite. *)
Lemma submits_room (s : hstate DB) rf pre b mid name password rest :
  submits (conn s) pre b mid name password rest ->
  m_read_buf (conn (named rf s)) =
    pre ++ (("/"%char :: b) ++ NUL :: mid) ++ (form_text name password ++ NUL :: rest).
Proof. intros H. cbn [conn named set m_read_buf]. rewrite (su_buf _ _ _ _ _ _ _ H). parts_eq. Qed.

Definition answered (s s' : hstate DB) (page : string) (code : HTTP_CODE) : Prop :=
  let path := doc_root (conn s) ++ lit page in
  code = file_code path /\
  exists buf rf, conn s' =
    file_opened path ((conn s) <| m_read_buf := buf |> <| m_real_file := rf |>).

(** The answer to the login form. *)
Lemma login_run (s : hstate DB) pre b mid name password rest :
  submits (conn s) pre b mid name password rest -> first_of b = "2"%char ->
  exists code s', do_req s = Ok (code, s') /\ glob s' = glob s /\
    answered s s' (if bool_decide (users (glob s) !! name = Some password)
                   then "/welcome.html" else "/logError.html") code.
Proof.
  intros Hsub Hd. destruct (form_answer s pre b mid name password rest Hsub) as (rf & old & Hroom & ->); [by left|].
  rewrite Hd. rewrite (bool_decide_eq_false_2 ("2"%char = "3"%char)) by done.
  set (page := if bool_decide (users (glob s) !! name = Some password)
               then "/welcome.html"%string else "/logError.html"%string).
  assert (result_page page) as Hpage by (unfold page, result_page; case_match; set_solver).
  pose proof (submits_room s rf _ _ _ _ _ _ Hsub) as E.
  destruct (set_url_page _ _ _ _ page E (su_over _ _ _ _ _ _ _ Hsub) Hpage) as (post & Hset).
  set (s2 := new_url _ _) in Hset.
  destruct (serve_page s2 pre post page (doc_root (conn s)) old) as (rf' & Hserve);
    [done|done|apply Hsub|apply Hsub|done|].
  eexists _, _. split.
  - eapply ST_bind_ok. exists tt, s2. split; [|exact Hserve].
    unfold do_login. st_step reflexivity. rewrite <- Hset. unfold page. cbn [named glob set].
    by case_bool_decide.
  - split; [done|]. split; [done|]. by eexists _, _.
Qed.

(** the login form: for a POST to [/2...] with the body
    [user=NAME&password=PASSWORD] (each shorter than 100 characters) the server
    answers with [/welcome.html] when the table of users has that password
    for that name, and with [/logError.html] in every other case; neither the
    table nor the database changes. *)
Theorem login_answer (s : hstate DB) pre b mid name password rest :
  submits (conn s) pre b mid name password rest -> first_of b = "2"%char ->
  exists code s', do_req s = Ok (code, s') /\ glob s' = glob s /\
    answered s s' (if bool_decide (users (glob s) !! name = Some password)
                   then "/welcome.html" else "/logError.html") code.
Proof. apply login_run. Qed.

(** The answer to the registration form. *)
Lemma register_run (s : hstate DB) pre b mid name password rest :
  submits (conn s) pre b mid name password rest -> first_of b = "3"%char ->
  locker.m_mutex (m_lock (glob s)) = None -> (length name + length password < 152)%nat ->
  let '(r, db') := mysql_query (mysql (conn s)) (sql_insert_text name password) (db (glob s)) in
  let known := bool_decide (is_Some (users (glob s) !! name)) in
  exists code s', do_req s = Ok (code, s') /\
    glob s' = (if known then glob s
               else {| users := <[name := password]> (users (glob s)); m_lock := m_lock (glob s); db := db' |}) /\
    answered s s' (if negb known && (r =? 0) then "/log.html" else "/registerError.html") code.
Proof.
  intros Hsub Hd Hfree Hlen. destruct (mysql_query _ _ _) as [r db'] eqn:Hq. intros known.
  destruct (form_answer s pre b mid name password rest Hsub) as (rf & old & Hroom & ->); [by right|].
  rewrite Hd. rewrite (bool_decide_eq_true_2 ("3"%char = "3"%char)) by done.
  set (page := if negb known && (r =? 0) then "/log.html"%string else "/registerError.html"%string).
  set (g' := if known then glob s else _).
  assert (result_page page) as Hpage by (unfold page, result_page; case_match; set_solver).
  pose proof (submits_room s rf _ _ _ _ _ _ Hsub) as E.
  set (s1 := (named rf s) <| glob := g' |>).
  destruct (set_url_page s1 _ _ _ page E (su_over _ _ _ _ _ _ _ Hsub) Hpage) as (post & Hset).
  set (s2 := new_url _ _) in Hset.
  destruct (serve_page s2 pre post page (doc_root (conn s)) old) as (rf' & Hserve);
    [done|done|apply Hsub|apply Hsub|done|].
  eexists _, _. split.
  - eapply ST_bind_ok. exists tt, s2. split; [|exact Hserve].
    unfold do_register. rewrite (proj2 (Z.leb_gt _ _))
      by (unfold SQL_INSERT_SIZE, sql_insert_text; rewrite !length_app; simpl; lia).
    st_step reflexivity. rewrite <- Hset. cbn [named glob set].
    destruct (users (glob s) !! name) as [pw|] eqn:Hname.
    + assert (known = true) as Hk by (by apply bool_decide_eq_true_2). unfold s1, g', page. rewrite Hk.
      by destruct s.
    + assert (known = false) as Hk by (apply bool_decide_eq_false_2; by intros [? ?]).
      st_step (apply zoom_ok, zoom_ok; unfold locker.lock; cbn [glob named set m_lock]; by rewrite Hfree).
      st_step reflexivity. cbn [glob conn named set mysql db]. rewrite Hq. cbv zeta beta iota.
      st_step reflexivity. st_step reflexivity. st_step reflexivity.
      unfold s1, g', page. rewrite Hk. cbn [negb andb users set glob]. rewrite Hname.
      destruct s as [c [us [lk] d]]. cbn in Hfree. subst lk. destruct (r =? 0); reflexivity.
  - split; [done|]. split; [done|]. by eexists _, _.
Qed.

(** What the registration does to the globals, and the page that answers it. *)
Definition register_effect (q : option Z) (g : globals DB) (name password : list ascii) : globals DB * string :=
  let '(r, db') := mysql_query q (sql_insert_text name password) (db g) in
  if bool_decide (is_Some (users g !! name)) then (g, "/registerError.html"%string)
  else ({| users := <[name := password]> (users g); m_lock := m_lock g; db := db' |},
        if r =? 0 then "/log.html"%string else "/registerError.html"%string).

Lemma register_effect_run (s : hstate DB) pre b mid name password rest :
  submits (conn s) pre b mid name password rest -> first_of b = "3"%char ->
  locker.m_mutex (m_lock (glob s)) = None -> (length name + length password < 152)%nat ->
  let eff := register_effect (mysql (conn s)) (glob s) name password in
  exists code s', do_req s = Ok (code, s') /\ glob s' = eff.1 /\ answered s s' eff.2 code.
Proof.
  intros Hsub Hd Hfree Hlen eff. pose proof (register_run s pre b mid name password rest Hsub Hd Hfree Hlen) as H.
  unfold eff, register_effect. destruct (mysql_query _ _ _) as [r db']. cbv zeta in H. by case_bool_decide.
Qed.

(** the registration form: for a POST to [/3...], with a free lock, a new
    name is sent to the database in one INSERT statement and entered in the
    table of users (also when the database refused it), and the answer is
    [/log.html] or, when the query failed, [/registerError.html]; a name that is
    already in the table is answered with [/registerError.html] and nothing is
    sent or changed.  The lock is free again at the end. *)
Theorem register_answer (s : hstate DB) pre b mid name password rest :
  submits (conn s) pre b mid name password rest -> first_of b = "3"%char ->
  locker.m_mutex (m_lock (glob s)) = None -> (length name + length password < 152)%nat ->
  let '(r, db') := mysql_query (mysql (conn s)) (sql_insert_text name password) (db (glob s)) in
  let known := bool_decide (is_Some (users (glob s) !! name)) in
  exists code s', do_req s = Ok (code, s') /\
    glob s' = (if known then glob s
               else {| users := <[name := password]> (users (glob s)); m_lock := m_lock (glob s); db := db' |}) /\
    answered s s' (if negb known && (r =? 0) then "/log.html" else "/registerError.html") code.
Proof. apply register_run. Qed.

(** ** Forms the code cannot handle *)

(** [init()] does not set [m_string], and only a request with a body does:
    a POST to [/2...] or [/3...] without [Content-length] reads the form
    through a pointer that was never assigned. *)
Theorem form_without_body (s : hstate DB) pre d b post :
  asks (conn s) pre [] (d :: b) post -> (length b < 198)%nat -> cgi (conn s) = 1 ->
  d = "2"%char \/ d = "3"%char -> m_string (conn s) = PIndet ->
  do_req s = Halt Indeterminate.
Proof.
  intros Hasks Hlen Hcgi Hd Hstr. rewrite (do_request_start s pre [] (d :: b) post Hasks).
  destruct (do_cgi_names s pre d b post Hasks Hlen) as (rf & old & _ & Hrun).
  rewrite Hcgi. cbn [length Z.of_nat]. rewrite Z.add_0_r.
  replace ((1 =? 1) && _) with true by (by destruct Hd as [-> | ->]).
  apply ST_bind_halt. rewrite Hrun. unfold take_form.
  rewrite (ST_bind_step _ _ (named rf s) (named rf s) (named rf s)) by done.
  apply ST_bind_halt. cbn [conn named set m_string]. by rewrite Hstr.
Qed.

(** a user name of 100 characters or more runs over the local array
    [name[100]] of [do_request]. *)
Theorem long_name_overflows (s : hstate DB) pre d b mid name rest :
  asks (conn s) pre [] (d :: b) (mid ++ lit "user=" ++ name ++ rest) ->
  (length b < 198)%nat -> cgi (conn s) = 1 -> d = "2"%char \/ d = "3"%char ->
  m_string (conn s) = PBuf (Z.of_nat (length (pre ++ ("/"%char :: d :: b) ++ NUL :: mid))) ->
  "&"%char ∉ name -> (100 <= length name)%nat ->
  do_req s = Halt OutOfBounds.
Proof.
  intros Hasks Hlen Hcgi Hd Hstr Hamp Hname. rewrite (do_request_start s pre [] (d :: b) _ Hasks).
  destruct (do_cgi_names s pre d b _ Hasks Hlen) as (rf & old & _ & Hrun).
  rewrite Hcgi. cbn [length Z.of_nat]. rewrite Z.add_0_r.
  replace ((1 =? 1) && _) with true by (by destruct Hd as [-> | ->]).
  apply ST_bind_halt. rewrite Hrun. unfold take_form.
  st_step reflexivity. cbn [conn named set m_string]. rewrite Hstr. st_step reflexivity.
  set (pre1 := pre ++ ("/"%char :: d :: b) ++ NUL :: mid).
  st_step (eapply zoom_ok, (text_at_parts _ _ (pre1 ++ lit "user=") (name ++ rest));
    [cbn [conn set named m_read_buf]; rewrite (as_buf _ _ _ _ _ Hasks); unfold pre1; parts_eq|parts_len]).
  apply ST_bind_halt. unfold lift. by rewrite copy_until_over.
Qed.
End handler.

(** ** The theorems at concrete requests *)

(** A connection after parsing, with its URL at the start of the buffer. *)
Definition parsed_state (post : bool) (data : list ascii) (str : cptr) : hstate unit :=
  let s := sample_state data in
  s <| conn := (conn s) <| m_url := PBuf 0 |> <| m_string := str |>
                        <| cgi := if post then 1 else 0 |> |>.

Definition form_data (url body : string) : list ascii :=
  lit url ++ NUL :: lit "HTTP/1.1......" ++ lit body.

Lemma plain_request_served_witness :
  exists rf, do_request sample_query sample_stat sample_mmap 1%nat
      (parsed_state false (lit "/a/../../etc/passwd") PIndet) =
    Ok (FILE_REQUEST, (parsed_state false (lit "/a/../../etc/passwd") PIndet)
      <| conn := file_opened sample_stat sample_mmap (lit "/srv/root/a/../../etc/passwd")
           ((conn (parsed_state false (lit "/a/../../etc/passwd") PIndet)) <| m_real_file := rf |>) |>).
Proof.
  destruct (plain_request_served sample_query sample_stat sample_mmap 1%nat
    (parsed_state false (lit "/a/../../etc/passwd") PIndet) [] (lit "/a/../../etc") (lit "passwd")
    (replicate 2028 NUL)) as (rf & Hrun & _).
  - split; by_decide || by_eval.
  - left. by_eval.
  - by_eval.
  - exists rf. exact Hrun.
Defined.

Definition login_state : hstate unit :=
  parsed_state true (form_data "/2CGISQL.cgi" "user=ann&password=pw") (PBuf 27).

Lemma login_answer_witness :
  exists code s', do_request sample_query sample_stat sample_mmap 1%nat login_state = Ok (code, s') /\
    answered sample_stat sample_mmap login_state s' "/welcome.html" code.
Proof.
  destruct (login_answer sample_query sample_stat sample_mmap 1%nat login_state
    [] (lit "2CGISQL.cgi") (lit "HTTP/1.1......") (lit "ann") (lit "pw") (replicate 2000 NUL))
    as (code & s' & Hrun & _ & Ha).
  - split; by_decide || by_eval || (split_and!; by_decide || (vm_compute; lia)) || (vm_compute; lia).
  - by_eval.
  - exists code, s'. split; [exact Hrun|exact Ha].
Defined.

Definition register_state : hstate unit :=
  parsed_state true (form_data "/3CGISQL.cgi" "user=bob&password=pw") (PBuf 27).

(** A database that refuses the statement. *)
Definition refusing_query (q : option Z) (sql : list ascii) (d : unit) : Z * unit := (1, d).

Lemma register_answer_witness :
  exists code s', do_request refusing_query sample_stat sample_mmap 1%nat register_state = Ok (code, s') /\
    users (glob s') !! lit "bob" = Some (lit "pw") /\
    answered sample_stat sample_mmap register_state s' "/registerError.html" code.
Proof.
  pose proof (register_answer refusing_query sample_stat sample_mmap 1%nat register_state
    [] (lit "3CGISQL.cgi") (lit "HTTP/1.1......") (lit "bob") (lit "pw") (replicate 2000 NUL)) as H.
  destruct H as (code & s' & Hrun & Hg & Ha).
  - split; by_decide || by_eval || (split_and!; by_decide || (vm_compute; lia)) || (vm_compute; lia).
  - by_eval.
  - by_eval.
  - vm_compute. lia.
  - exists code, s'. split; [exact Hrun|]. split; [by rewrite Hg|exact Ha].
Defined.

Lemma form_without_body_witness :
  do_request sample_query sample_stat sample_mmap 1%nat
    (parsed_state true (lit "/2CGISQL.cgi") PIndet) = Halt Indeterminate.
Proof.
  apply (form_without_body _ _ _ _ _ [] "2"%char (lit "CGISQL.cgi") (replicate 2035 NUL)).
  - split; by_decide || by_eval.
  - vm_compute. lia.
  - by_eval.
  - by left.
  - by_eval.
Defined.

Definition long_name : list ascii := replicate 100 "x"%char.

Lemma long_name_overflows_witness :
  do_request sample_query sample_stat sample_mmap 1%nat
    (parsed_state true (lit "/2x" ++ NUL :: lit "user=" ++ long_name) (PBuf 4)) = Halt OutOfBounds.
Proof.
  apply (long_name_overflows _ _ _ _ _ [] "2"%char (lit "x") [] long_name (replicate 1939 NUL)).
  - split; by_decide || by_eval.
  - vm_compute. lia.
  - by_eval.
  - by left.
  - by_eval.
  - by_decide.
  - vm_compute. lia.
Defined.
