(* ===== verification/HttpResponse.v ===== *)
(** * HttpResponse: the response writer of ocean_http/http/http_conn.cpp

    [add_response] and the helpers built on it, [process_write], [unmap]: the
    bytes that are put in [m_write_buf] and the [iovec]s that are set up. *)

From Stdlib Require Import Ascii String.
From S2P Require Import Prelude CStr HttpConn.

(** ** The texts of the answers *)

Definition ok_200_title : list ascii := lit "OK".
Definition error_400_title : list ascii := lit "Bad Request".
Definition error_400_form : list ascii :=
  lit "Your request has bad syntax or is inherently impossible to staisfy." ++ [LF].
Definition error_403_title : list ascii := lit "Forbidden".
Definition error_403_form : list ascii :=
  lit "You do not have permission to get file form this server." ++ [LF].
Definition error_404_title : list ascii := lit "Not Found".
Definition error_404_form : list ascii :=
  lit "The requested file was not found on this server." ++ [LF].
Definition error_500_title : list ascii := lit "Internal Error".
Definition error_500_form : list ascii :=
  lit "There was an unusual problem serving the request file." ++ [LF].
Definition oK_string : list ascii := lit "<html><body></body></html>".

Definition crlf : list ascii := [CR; LF].

(** ** The write buffer *)

(** [LOG_INFO("request:%s", m_write_buf)]. *)
Definition log_write_buf : ST http_conn unit :=
  c ← get;
  if m_close_log c =? 0 then _ ← lift (cstr (m_write_buf c)); mret tt else mret tt.

(** [add_response] for a format whose expansion is [text]. *)
Definition add_response (text : list ascii) : ST http_conn bool :=
  c ← get;
  if WRITE_BUFFER_SIZE <=? m_write_idx c then mret false
  else
    let size := WRITE_BUFFER_SIZE - 1 - m_write_idx c in
    let len := Z.of_nat (length text) in
    b ← lift (vsnprintf (m_write_buf c) (m_write_idx c) size text);
    _ ← modify (fun c => c <| m_write_buf := b |>);
    if size <=? len then mret false
    else
      _ ← modify (fun c => c <| m_write_idx := m_write_idx c + len |>);
      _ ← log_write_buf;
      mret true.

Definition add_content (content : list ascii) : ST http_conn bool := add_response content.

Definition status_text (status : Z) (title : list ascii) : list ascii :=
  lit "HTTP/1.1" ++ [SP] ++ dec status ++ [SP] ++ title ++ crlf.
Definition add_status_line (status : Z) (title : list ascii) : ST http_conn bool :=
  add_response (status_text status title).

Definition length_text (n : Z) : list ascii := lit "Content-Length:" ++ dec n ++ crlf.
Definition add_content_length (content_length : Z) : ST http_conn bool :=
  add_response (length_text content_length).

Definition add_content_type : ST http_conn bool :=
  add_response (lit "Content-Type:" ++ lit "text/html" ++ crlf).

Definition linger_text (linger : bool) : list ascii :=
  lit "Connection:" ++ (if linger then lit "keep-alive" else lit "close") ++ crlf.
Definition add_linger : ST http_conn bool :=
  c ← get; add_response (linger_text (m_linger c)).

Definition add_blank_line : ST http_conn bool := add_response crlf.

(** [a && b && c]: a test that fails ends the chain. *)
Definition and_then (m k : ST http_conn bool) : ST http_conn bool :=
  b ← m; if b : bool then k else mret false.

(** The parameter is an [int]: a larger value is converted. *)
Definition add_headers (content_length : Z) : ST http_conn bool :=
  and_then (add_content_length (to_int content_length)) (and_then add_linger add_blank_line).

(** ** [process_write] *)

Definition set_iov (i : Z) (v : iovec) : ST http_conn unit :=
  c ← get; iv ← lift (wr (m_iv c) i v); modify (fun c => c <| m_iv := iv |>).

(** The part of the [switch] that writes a complete error answer. *)
Definition add_error (status : Z) (title form : list ascii) : ST http_conn bool :=
  _ ← add_status_line status title;
  _ ← add_headers (Z.of_nat (length form));
  add_content form.

(** The statements behind the [switch]: only the buffer is sent. *)
Definition send_buffer : ST http_conn bool :=
  c ← get;
  _ ← set_iov 0 {| iov_base := IovWriteBuf; iov_len := m_write_idx c |};
  _ ← modify (fun c => c <| m_iv_count := 1 |> <| bytes_to_send := m_write_idx c |>);
  mret true.

Definition process_write (ret : HTTP_CODE) : ST http_conn bool :=
  match ret with
  | INTERNAL_ERROR =>
    ok ← add_error 500 error_500_title error_500_form;
    if ok : bool then send_buffer else mret false
  | BAD_REQUEST =>
    ok ← add_error 404 error_404_title error_404_form;
    if ok : bool then send_buffer else mret false
  | FORBIDDEN_REQUEST =>
    ok ← add_error 403 error_403_title error_403_form;
    if ok : bool then send_buffer else mret false
  | FILE_REQUEST =>
    _ ← add_status_line 200 ok_200_title;
    c ← get;
    if negb (st_size (m_file_stat c) =? 0) then
      _ ← add_headers (st_size (m_file_stat c));
      c ← get;
      _ ← set_iov 0 {| iov_base := IovWriteBuf; iov_len := m_write_idx c |};
      _ ← set_iov 1 {| iov_base := IovFile (m_file_address c); iov_len := st_size (m_file_stat c) |};
      _ ← modify (fun c => c <| m_iv_count := 2 |>
            <| bytes_to_send := to_int (m_write_idx c + st_size (m_file_stat c)) |>);
      mret true
    else
      _ ← add_headers (Z.of_nat (length oK_string));
      ok ← add_content oK_string;
      (* no break: a success falls through to [default] *)
      if ok : bool then mret false else mret false
  | _ => mret false
  end.

(** [unmap]: an unassigned pointer is tested like any other. *)
Definition unmap : ST http_conn unit :=
  c ← get;
  match m_file_address c with
  | FIndet => throw Indeterminate
  | FNull => mret tt
  | FFailed | FMapped _ => modify (fun c => c <| m_file_address := FNull |>)
  end.

#[global] Arguments add_response : simpl never.

(** ** Lemmas *)

(** The response so far: the text written, followed by a terminator. *)
Definition holds (c : http_conn) (out : list ascii) : Prop :=
  m_write_idx c = Z.of_nat (length out) /\ Z.of_nat (length out) < WRITE_BUFFER_SIZE /\
  Z.of_nat (length (m_write_buf c)) = WRITE_BUFFER_SIZE /\
  exists rest, m_write_buf c = out ++ NUL :: rest.

(** Only the write buffer and its index differ. *)
Definition only_output (c c' : http_conn) : Prop :=
  c' = c <| m_write_buf := m_write_buf c' |> <| m_write_idx := m_write_idx c' |>.

#[export] Instance only_output_refl : Reflexive only_output.
Proof. by intros []. Qed.
#[export] Instance only_output_trans : Transitive only_output.
Proof. intros c1 c2 c3 H1 H2. unfold only_output in *. rewrite H2. rewrite H1. done. Qed.

Lemma log_write_buf_ok c : NUL ∈ m_write_buf c -> log_write_buf c = Ok (tt, c).
Proof.
  intros Hin. unfold log_write_buf. st_step reflexivity. case_match; [|done].
  assert (exists s, cstr (m_write_buf c) = Ok s) as [s Hs].
  { clear H. revert Hin. generalize (m_write_buf c) as l. induction l as [|x l IH]; intros Hin.
    - by apply not_elem_of_nil in Hin.
    - simpl. case_bool_decide; [eauto|]. apply elem_of_cons in Hin as [|Hin]; [congruence|].
      destruct (IH Hin) as [s ->]. by eexists. }
  st_step (by apply lift_ok). done.
Qed.

Lemma add_response_fits c out text :
  holds c out -> Z.of_nat (length (out ++ text)) < WRITE_BUFFER_SIZE - 1 ->
  exists c', add_response text c = Ok (true, c') /\ holds c' (out ++ text) /\ only_output c c'.
Proof.
  unfold WRITE_BUFFER_SIZE. intros (Hidx & Hlt & Hlen & rest & E) Hfit. unfold WRITE_BUFFER_SIZE in *.
  rewrite length_app in Hfit.
  set (old := take (length text) rest). set (rest' := drop (length text) rest).
  set (buf := out ++ text ++ NUL :: rest').
  assert (length out + S (length rest) = 1024)%nat as Hrest.
  { apply (f_equal length) in E. rewrite length_app in E. simpl in E. lia. }
  assert (vsnprintf (m_write_buf c) (m_write_idx c) (1024 - 1 - m_write_idx c) text = Ok buf) as Hv.
  { rewrite vsnprintf_fits by lia. rewrite E, Hidx.
    rewrite <- (take_drop (length text) rest). fold old rest'. rewrite app_comm_cons.
    etransitivity; [apply (blit_app out (NUL :: old)); [done|]|].
    - unfold old. rewrite length_app. simpl. rewrite length_take. lia.
    - unfold buf. by rewrite <- app_assoc. }
  exists (c <| m_write_buf := buf |> <| m_write_idx := Z.of_nat (length (out ++ text)) |>).
  split; [|split; [|done]].
  - unfold add_response, WRITE_BUFFER_SIZE. st_step reflexivity. rewrite (proj2 (Z.leb_gt _ _)) by lia.
    st_step (by apply lift_ok). st_step reflexivity. rewrite (proj2 (Z.leb_gt _ _)) by lia.
    st_step reflexivity. rewrite length_app, Nat2Z.inj_add, <- Hidx.
    st_step (apply log_write_buf_ok; cbn [m_write_buf set]; unfold buf; set_solver). done.
  - unfold holds, WRITE_BUFFER_SIZE. cbn [m_write_buf m_write_idx set]. split_and!; [done|rewrite length_app; lia| |].
    + unfold buf, rest'. rewrite !length_app, length_cons, length_drop. lia.
    + exists rest'. unfold buf. by rewrite app_assoc.
Qed.

Lemma add_response_full c out text :
  holds c out -> WRITE_BUFFER_SIZE - 1 <= Z.of_nat (length (out ++ text)) ->
  exists buf, add_response text c = Ok (false, c <| m_write_buf := buf |>) /\
    length buf = length (m_write_buf c) /\ take (length out) buf = out.
Proof.
  unfold WRITE_BUFFER_SIZE. intros (Hidx & Hlt & Hlen & rest & E) Hfit. unfold WRITE_BUFFER_SIZE in *.
  rewrite length_app in Hfit.
  assert (exists buf, vsnprintf (m_write_buf c) (m_write_idx c) (1024 - 1 - m_write_idx c) text = Ok buf /\
    length buf = length (m_write_buf c) /\ take (length out) buf = out) as (buf & Hv & Hbl & Htk).
  { unfold vsnprintf. destruct (Z.leb_spec (1024 - 1 - m_write_idx c) 0).
    - exists (m_write_buf c). split_and!; [done..|]. rewrite E. by rewrite take_app_length.
    - rewrite blit_ok by (rewrite ?length_app, ?length_take; simpl; lia).
      eexists. split_and!; [done| |].
      + rewrite !length_app, length_drop, !length_take. cbn [length]. lia.
      + rewrite Hidx, Nat2Z.id, E, take_app_length. by rewrite take_app_length. }
  exists buf. split_and!; [|done..].
  unfold add_response, WRITE_BUFFER_SIZE. st_step reflexivity. rewrite (proj2 (Z.leb_gt _ _)) by lia.
  st_step (by apply lift_ok). st_step reflexivity. by rewrite (proj2 (Z.leb_le _ _)) by lia.
Qed.

Lemma dec_digits_length fuel n : (length (dec_digits fuel n []) <= fuel)%nat.
Proof.
  revert n. induction fuel as [|fuel IH]; intros n; simpl; [lia|].
  case_match; simpl; [lia|]. rewrite dec_digits_app, length_app. simpl. specialize (IH (n / 10)). lia.
Qed.

(** A number that fits an [int] is printed in at most 33 characters. *)
Lemma dec_int_length n : (length (dec (to_int n)) <= 33)%nat.
Proof.
  assert (- 2 ^ 31 <= to_int n < 2 ^ 31) as Hn.
  { unfold to_int, wrap_s. pose proof (Z.mod_pos_bound (n + 2 ^ (32 - 1)) (2 ^ 32) ltac:(lia)). lia. }
  generalize dependent (to_int n). intros m Hm.
  assert (forall k, 0 <= k <= 2 ^ 31 -> (length (dec_nonneg k) <= 32)%nat) as Hk.
  { intros k Hk. unfold dec_nonneg. etransitivity; [apply dec_digits_length|].
    assert (Z.log2 k <= 31); [|lia].
    rewrite <- (Z.log2_pow2 31) by lia. apply Z.log2_le_mono. lia. }
  unfold dec. destruct (Z.ltb_spec m 0); simpl.
  - specialize (Hk (- m) ltac:(lia)). lia.
  - specialize (Hk m ltac:(lia)). lia.
Qed.

(** The header block behind the status line. *)
Definition headers_text (n : Z) (linger : bool) : list ascii :=
  length_text (to_int n) ++ linger_text linger ++ crlf.

Lemma headers_text_length n linger : (length (headers_text n linger) <= 80)%nat.
Proof.
  unfold headers_text, length_text, linger_text. rewrite !length_app. pose proof (dec_int_length n).
  destruct linger; simpl; lia.
Qed.

Lemma add_headers_fits c out n :
  holds c out -> Z.of_nat (length out) < 900 ->
  exists c', add_headers n c = Ok (true, c') /\ holds c' (out ++ headers_text n (m_linger c)) /\
    only_output c c'.
Proof.
  intros H0 Hlen. pose proof (headers_text_length n (m_linger c)) as Hh.
  unfold headers_text in *. rewrite !length_app in Hh.
  destruct (add_response_fits c out (length_text (to_int n)) H0) as (c1 & R1 & H1 & F1).
  { unfold WRITE_BUFFER_SIZE. rewrite length_app. lia. }
  assert (m_linger c1 = m_linger c) as L1 by (by rewrite F1).
  destruct (add_response_fits c1 _ (linger_text (m_linger c)) H1) as (c2 & R2 & H2 & F2).
  { unfold WRITE_BUFFER_SIZE. rewrite !length_app. lia. }
  destruct (add_response_fits c2 _ crlf H2) as (c3 & R3 & H3 & F3).
  { unfold WRITE_BUFFER_SIZE. rewrite !length_app. lia. }
  exists c3. split_and!; [|by rewrite <- !app_assoc in H3|by etransitivity; [|etransitivity]].
  unfold add_headers, and_then. st_step (exact R1).
  unfold add_linger. rewrite (ST_bind_step _ _ c1 true c2); [exact R3|].
  st_step reflexivity. by rewrite L1.
Qed.

(** ** What is sent *)

Definition head_text (status : Z) (title : list ascii) (n : Z) (linger : bool) : list ascii :=
  status_text status title ++ headers_text n linger.

Definition error_status (ret : HTTP_CODE) : option (Z * list ascii * list ascii) :=
  match ret with
  | INTERNAL_ERROR => Some (500, error_500_title, error_500_form)
  | BAD_REQUEST => Some (404, error_404_title, error_404_form)
  | FORBIDDEN_REQUEST => Some (403, error_403_title, error_403_form)
  | _ => None
  end.

(** Nothing has been written yet, and the [iovec] array has its two entries. *)
Definition ready (c : http_conn) : Prop :=
  m_write_idx c = 0 /\ m_write_buf c = replicate (Z.to_nat WRITE_BUFFER_SIZE) NUL /\ length (m_iv c) = 2%nat.

Lemma ready_holds c : ready c -> holds c [].
Proof.
  intros (Hi & Hb & _). unfold holds. rewrite Hi, Hb, length_replicate. split_and!; try done.
  exists (replicate 1023 NUL). done.
Qed.

Lemma set_iov_ok c i v : 0 <= i < Z.of_nat (length (m_iv c)) ->
  set_iov i v c = Ok (tt, c <| m_iv := <[Z.to_nat i := v]> (m_iv c) |>).
Proof. intros Hi. unfold set_iov. st_step reflexivity. st_step (by apply lift_ok, wr_ok). done. Qed.

Lemma add_error_fits c out status title form :
  holds c out -> Z.of_nat (length out + length (status_text status title) + length form) < 900 ->
  exists c', add_error status title form c = Ok (true, c') /\
    holds c' (out ++ head_text status title (Z.of_nat (length form)) (m_linger c) ++ form) /\ only_output c c'.
Proof.
  intros H0 Hlen. unfold add_error, add_status_line, add_content.
  destruct (add_response_fits c out (status_text status title) H0) as (c1 & R1 & H1 & F1).
  { unfold WRITE_BUFFER_SIZE. rewrite length_app. lia. }
  destruct (add_headers_fits c1 _ (Z.of_nat (length form)) H1) as (c2 & R2 & H2 & F2).
  { rewrite length_app. lia. }
  pose proof (headers_text_length (Z.of_nat (length form)) (m_linger c1)).
  destruct (add_response_fits c2 _ form H2) as (c3 & R3 & H3 & F3).
  { unfold WRITE_BUFFER_SIZE. rewrite !length_app. lia. }
  assert (m_linger c1 = m_linger c) as L1 by (by rewrite F1). rewrite L1 in H3.
  exists c3. split_and!.
  - st_step (exact R1). st_step (exact R2). exact R3.
  - unfold head_text. by rewrite <- !app_assoc in *.
  - by etransitivity; [|etransitivity].
Qed.

(** C23: every piece of a response either fits, and then exactly its text is
    appended, or is refused with the part written so far intact; the buffer
    of 1024 bytes is never written outside its bounds, whatever the text, and
    one byte of it is never used by the text. *)
Theorem add_response_total c out text :
  holds c out ->
  exists c', add_response text c =
      Ok (bool_decide (Z.of_nat (length (out ++ text)) < WRITE_BUFFER_SIZE - 1), c') /\
    only_output c c' /\ length (m_write_buf c') = length (m_write_buf c) /\
    (if bool_decide (Z.of_nat (length (out ++ text)) < WRITE_BUFFER_SIZE - 1)
     then holds c' (out ++ text)
     else m_write_idx c' = m_write_idx c /\ take (length out) (m_write_buf c') = out).
Proof.
  intros H. pose proof H as (_ & _ & Hlen & _). case_bool_decide as Hfit.
  - destruct (add_response_fits c out text H Hfit) as (c' & Hr & Hh & Hf). exists c'.
    split_and!; try done. destruct Hh as (_ & _ & Hlen' & _). lia.
  - destruct (add_response_full c out text H ltac:(lia)) as (buf & Hr & Hl & Ht).
    eexists. split_and!; done.
Qed.

(** C24: an error answer is complete and consistent: the status line, the
    [Content-Length] of the body that follows, the [Connection] header and the
    body are in the buffer, byte for byte, and exactly these bytes are
    scheduled for sending.  A malformed request ([BAD_REQUEST]) is answered
    with status 404, like a missing file. *)
Theorem error_answer_sent c ret status title form :
  ready c -> error_status ret = Some (status, title, form) ->
  let out := head_text status title (Z.of_nat (length form)) (m_linger c) ++ form in
  exists c', process_write ret c = Ok (true, c') /\ holds c' out /\
    m_iv_count c' = 1 /\ bytes_to_send c' = Z.of_nat (length out) /\
    m_iv c' !! 0%nat = Some {| iov_base := IovWriteBuf; iov_len := Z.of_nat (length out) |}.
Proof.
  intros Hready Hret out. pose proof (ready_holds c Hready) as H0. pose proof Hready as (_ & _ & Hiv).
  destruct (add_error_fits c [] status title form H0) as (c1 & R1 & H1 & F1).
  { destruct ret; simplify_eq/=; vm_compute; done. }
  fold out in H1. pose proof H1 as (Hidx & _). assert (m_iv c1 = m_iv c) as Eiv by (by rewrite F1).
  exists (c1 <| m_iv := <[0%nat := {| iov_base := IovWriteBuf; iov_len := m_write_idx c1 |}]> (m_iv c1) |>
     <| m_iv_count := 1 |> <| bytes_to_send := m_write_idx c1 |>).
  split_and!; try done.
  - assert (process_write ret c =
      (ok ← add_error status title form; if ok : bool then send_buffer else mret false) c) as ->
      by (destruct ret; simplify_eq/=; done).
    st_step (exact R1). unfold send_buffer. st_step reflexivity.
    st_step (apply set_iov_ok; rewrite Eiv, Hiv; lia). st_step reflexivity. done.
  - cbn [m_iv set]. rewrite Hidx. rewrite list_lookup_insert_eq; [done|]. rewrite Eiv, Hiv. lia.
Qed.

(** The answer for a file that is not empty. *)
Lemma file_answer c :
  ready c -> 0 < st_size (m_file_stat c) ->
  let size := st_size (m_file_stat c) in
  let head := head_text 200 ok_200_title size (m_linger c) in
  exists c', process_write FILE_REQUEST c = Ok (true, c') /\ holds c' head /\
    m_iv_count c' = 2 /\
    m_iv c' = [ {| iov_base := IovWriteBuf; iov_len := Z.of_nat (length head) |};
                {| iov_base := IovFile (m_file_address c); iov_len := size |} ] /\
    m_sokcfd c' = m_sokcfd c /\ m_TRIGMode c' = m_TRIGMode c /\
    (improv c' = improv c /\ timer_flag c' = timer_flag c) /\
    (size + 200 <= INT_MAX -> to_int size = size /\ bytes_to_send c' = Z.of_nat (length head) + size).
Proof.
  intros Hready Hsize size head. pose proof (ready_holds c Hready) as H0. pose proof Hready as (_ & _ & Hiv).
  destruct (add_response_fits c [] (status_text 200 ok_200_title) H0) as (c1 & R1 & H1 & F1); [by vm_compute|].
  destruct (add_headers_fits c1 _ size H1) as (c2 & R2 & H2 & F2); [by vm_compute|].
  assert (m_linger c1 = m_linger c /\ m_file_stat c1 = m_file_stat c) as [L1 S1] by (by rewrite F1).
  assert (m_iv c2 = m_iv c /\ m_file_stat c2 = m_file_stat c /\ m_file_address c2 = m_file_address c)
    as (I2 & S2 & A2) by (rewrite F2, F1; done).
  rewrite L1 in H2. change ([] ++ ?x) with x in H2. fold head in H2. pose proof H2 as (Hidx & _).
  destruct (m_iv c) as [|v0 [|v1 [|]]] eqn:Ec; try done.
  eexists. split.
  { unfold process_write. st_step (exact R1). st_step reflexivity. rewrite S1. fold size.
    rewrite (proj2 (Z.eqb_neq _ _)) by lia. cbn [negb]. st_step (exact R2). st_step reflexivity.
    st_step (apply set_iov_ok; rewrite I2; simpl; lia).
    st_step (apply set_iov_ok; cbn [m_iv set]; rewrite I2; simpl; lia).
    st_step reflexivity. reflexivity. }
  cbn [m_iv m_iv_count bytes_to_send set m_write_idx m_file_stat]. split_and!; try done.
  - rewrite I2, Hidx, S2, A2. done.
  - cbn [m_sokcfd]. rewrite F2, F1. done.
  - cbn [m_TRIGMode]. rewrite F2, F1. done.
  - cbn [improv]. rewrite F2, F1. done.
  - cbn [timer_flag]. rewrite F2, F1. done.
  - intros Hs. rewrite Hidx, S2. fold size.
    assert (length head <= 100)%nat.
    { unfold head, head_text. rewrite length_app. pose proof (headers_text_length size (m_linger c)).
      change (length (status_text 200 ok_200_title)) with 17%nat. lia. }
    unfold INT_MAX in *. split; apply to_int_id; unfold INT_MAX; lia.
Qed.

(** a file is answered with the status line and headers in the buffer and
    the mapped file behind them, as two [iovec]s; the announced length is the
    size of the file converted to [int], so it is the true length exactly for
    the files of at most 2147483647 bytes. *)
Theorem file_answer_sent c :
  ready c -> 0 < st_size (m_file_stat c) ->
  let size := st_size (m_file_stat c) in
  let head := head_text 200 ok_200_title size (m_linger c) in
  exists c', process_write FILE_REQUEST c = Ok (true, c') /\ holds c' head /\
    m_iv_count c' = 2 /\
    m_iv c' = [ {| iov_base := IovWriteBuf; iov_len := Z.of_nat (length head) |};
                {| iov_base := IovFile (m_file_address c); iov_len := size |} ] /\
    m_sokcfd c' = m_sokcfd c /\ m_TRIGMode c' = m_TRIGMode c /\
    (size + 200 <= INT_MAX -> to_int size = size /\ bytes_to_send c' = Z.of_nat (length head) + size).
Proof.
  intros Hr Hs size head. destruct (file_answer c Hr Hs) as (c' & ? & ? & ? & ? & ? & ? & _ & ?).
  exists c'. by split_and!.
Qed.

(** no answer at all is produced for a missing file, an empty file or any
    other code: [process_write] returns false (for the empty file after having
    written a complete answer, since the [case] has no [break]), and the
    caller closes the connection. *)
Theorem no_answer c ret :
  ready c -> error_status ret = None ->
  (ret = FILE_REQUEST -> st_size (m_file_stat c) = 0) ->
  exists c', process_write ret c = Ok (false, c') /\ only_output c c' /\
    (ret = FILE_REQUEST -> holds c' (head_text 200 ok_200_title (Z.of_nat (length oK_string)) (m_linger c) ++ oK_string)).
Proof.
  intros Hready Hret Hsize. destruct (decide (ret = FILE_REQUEST)) as [->|Hne].
  - specialize (Hsize eq_refl). pose proof (ready_holds c Hready) as H0.
    destruct (add_response_fits c [] (status_text 200 ok_200_title) H0) as (c1 & R1 & H1 & F1); [by vm_compute|].
    destruct (add_headers_fits c1 _ (Z.of_nat (length oK_string)) H1) as (c2 & R2 & H2 & F2); [by vm_compute|].
    pose proof (headers_text_length (Z.of_nat (length oK_string)) (m_linger c1)).
    destruct (add_response_fits c2 _ oK_string H2) as (c3 & R3 & H3 & F3).
    { unfold WRITE_BUFFER_SIZE. rewrite !length_app.
      assert (length (status_text 200 ok_200_title) = 17%nat) by done.
      assert (length oK_string = 26%nat) by done. rewrite length_nil. lia. }
    assert (m_linger c1 = m_linger c /\ m_file_stat c1 = m_file_stat c) as [L1 S1] by (by rewrite F1).
    exists c3. split_and!; [|by etransitivity; [|etransitivity]|].
    + unfold process_write. st_step (exact R1). st_step reflexivity. rewrite S1, Hsize. cbn [Z.eqb negb].
      st_step (exact R2). st_step (exact R3). done.
    + intros _. rewrite L1 in H3. unfold head_text. by rewrite <- !app_assoc in *.
  - exists c. split_and!; [by destruct ret|done|done].
Qed.

(** ** The theorems at concrete answers *)

Definition ready_conn (size : Z) : http_conn := {|
  timer_flag := 0; improv := 0; mysql := Some 1; m_state := 0; m_sokcfd := 7; m_address := 0;
  m_read_buf := replicate 2048 NUL; m_read_idx := 0; m_checked_idx := 0; m_start_line := 0;
  m_write_buf := replicate 1024 NUL; m_write_idx := 0;
  m_check_state := CHECK_STATE_REQUESTLINE; m_method := GET;
  m_real_file := replicate 200 NUL; m_url := PNull; m_version := PNull; m_host := PNull;
  m_content_length := 0; m_linger := true; m_file_address := FMapped (lit "/srv/x");
  m_file_stat := {| st_mode := 33188; st_size := size |};
  m_iv := replicate 2 {| iov_base := IovWriteBuf; iov_len := 0 |}; m_iv_count := 0; cgi := 0;
  m_string := PIndet; bytes_to_send := 0; bytes_have_send := 0; doc_root := lit "/srv/root";
  m_TRIGMode := 0; m_close_log := 0; sql_user := []; sql_passwd := []; sql_name := [] |}.

Lemma ready_conn_ok size : ready (ready_conn size).
Proof. done. Qed.

Lemma add_response_total_witness :
  exists c', add_response (lit "abc") (ready_conn 1) = Ok (true, c').
Proof.
  destruct (add_response_total (ready_conn 1) [] (lit "abc")) as (c' & H & _).
  - apply ready_holds, ready_conn_ok.
  - exists c'. exact H.
Defined.

Lemma error_answer_sent_witness :
  exists c', process_write BAD_REQUEST (ready_conn 1) = Ok (true, c') /\ bytes_to_send c' = 117.
Proof.
  destruct (error_answer_sent (ready_conn 1) BAD_REQUEST 404 error_404_title error_404_form)
    as (c' & H & _ & _ & Hb & _).
  - apply ready_conn_ok.
  - reflexivity.
  - exists c'. split; [exact H|]. rewrite Hb. reflexivity.
Defined.

Lemma file_answer_sent_witness :
  exists c', process_write FILE_REQUEST (ready_conn 4096) = Ok (true, c') /\ m_iv_count c' = 2.
Proof.
  destruct (file_answer_sent (ready_conn 4096)) as (c' & H & _ & Hc & _).
  - apply ready_conn_ok.
  - reflexivity.
  - exists c'. split; [exact H|exact Hc].
Defined.

Lemma no_answer_witness :
  exists c', process_write FILE_REQUEST (ready_conn 0) = Ok (false, c').
Proof.
  destruct (no_answer (ready_conn 0) FILE_REQUEST) as (c' & H & _).
  - apply ready_conn_ok.
  - reflexivity.
  - reflexivity.
  - exists c'. exact H.
Defined.
