(* ===== verification/SqlPool.v ===== *)
(** * SqlPool: the connection pool of ocean_http/cgimysql/sql_connection_pool.{h,cpp}

    The list of free connections, its counters, its mutex and the semaphore
    that counts it.  [GetConnection] and [ReleaseConnection] are written as
    the sequence of their atomic parts, so that the calls of several threads
    can be interleaved between them; the MySQL client library is a parameter. *)

From Stdlib Require Import Ascii String.
From S2P Require Import Prelude Locker.

(** A [MYSQL *] that is not null. *)
Definition MYSQL : Set := Z.

Module sql_connection_pool.

Record pool := {
  m_MaxConn : option Z;      (* not set by the constructor *)
  m_CurConn : Z;
  m_FreeConn : Z;
  lock : locker.locker;
  connList : list MYSQL;
  reserve : sem.sem;
  m_url : string;
  m_port : string;
  m_user : string;
  m_password : string;
  m_database_name : string;
  m_close_log : option Z     (* not set by the constructor *)
}.
#[global] Instance pool_settable : Settable pool := fun p => {|
  m_MaxConn := m_MaxConn p; m_CurConn := m_CurConn p; m_FreeConn := m_FreeConn p;
  lock := lock p; connList := connList p; reserve := reserve p; m_url := m_url p;
  m_port := m_port p; m_user := m_user p; m_password := m_password p;
  m_database_name := m_database_name p; m_close_log := m_close_log p |}.

Definition ctor : res pool :=
  s ← sem.ctor;
  Ok {| m_MaxConn := None; m_CurConn := 0; m_FreeConn := 0; lock := locker.ctor; connList := [];
        reserve := s; m_url := ""; m_port := ""; m_user := ""; m_password := "";
        m_database_name := ""; m_close_log := None |}.

Definition on_lock {A} (m : ST locker.locker A) : ST pool A :=
  zoom lock (fun l p => p <| lock := l |>) m.
Definition on_reserve {A} (m : ST sem.sem A) : ST pool A :=
  zoom reserve (fun s p => p <| reserve := s |>) m.

(** ** [GetConnection] by its atomic parts *)

(** [0 == connList.size()], read without the lock. *)
Definition get_check : ST pool bool := gets (fun p => bool_decide (connList p = [])).

(** [reserve.wait()]; its result is not looked at. *)
Definition get_wait (interrupted : bool) : ST pool unit :=
  _ ← on_reserve (sem.wait interrupted); mret tt.

Definition get_lock (t : tid) : ST pool unit := _ ← on_lock (locker.lock t); mret tt.

(** The critical section: [front()] of an empty list is undefined. *)
Definition get_pop : ST pool MYSQL :=
  p ← get;
  match connList p with
  | [] => throw EmptyContainer
  | c :: l =>
    _ ← modify (fun p => p <| connList := l |> <| m_FreeConn := m_FreeConn p - 1 |>
                           <| m_CurConn := m_CurConn p + 1 |>);
    _ ← on_lock locker.unlock;
    mret c
  end.

Definition GetConnection (t : tid) (interrupted : bool) : ST pool (option MYSQL) :=
  empty ← get_check;
  if empty : bool then mret None
  else
    _ ← get_wait interrupted;
    _ ← get_lock t;
    c ← get_pop;
    mret (Some c).

(** ** [ReleaseConnection] by its atomic parts *)

Definition rel_push (c : MYSQL) : ST pool unit :=
  _ ← modify (fun p => p <| connList := connList p ++ [c] |> <| m_FreeConn := m_FreeConn p + 1 |>
                         <| m_CurConn := m_CurConn p - 1 |>);
  _ ← on_lock locker.unlock;
  mret tt.

Definition rel_post : ST pool unit := _ ← on_reserve sem.post; mret tt.

Definition ReleaseConnection (t : tid) (conn : option MYSQL) : ST pool bool :=
  match conn with
  | None => mret false
  | Some c => _ ← get_lock t; _ ← rel_push c; _ ← rel_post; mret true
  end.

Definition GetFreeConn (p : pool) : Z := m_FreeConn p.

(** [DestroyPool]; the result lists the connections handed to [mysql_close]. *)
Definition DestroyPool (t : tid) : ST pool (list MYSQL) :=
  _ ← get_lock t;
  p ← get;
  _ ← (if bool_decide (connList p = []) then mret tt
       else modify (fun p => p <| m_CurConn := 0 |> <| m_FreeConn := 0 |> <| connList := [] |>));
  _ ← on_lock locker.unlock;
  mret (connList p).

Definition dtor (t : tid) : ST pool (list MYSQL) := DestroyPool t.

(** ** [init] *)

(** [m_port = Port]: a [std::string] assigned from an [int] is the one
    character with that code. *)
Definition string_of_int_assign (n : Z) : string :=
  String (ascii_of_N (Z.to_N (n `mod` 256))) EmptyString.

Section init.
(** [mysql_init] and [mysql_real_connect] for the [i]-th connection. *)
Variable mysql_connect : nat -> option MYSQL.

Fixpoint init_loop (n i : nat) : ST pool unit :=
  match n with
  | O => mret tt
  | S n' =>
    match mysql_connect i with
    | None => throw ExitCall
    | Some c =>
      _ ← modify (fun p => p <| connList := connList p ++ [c] |> <| m_FreeConn := m_FreeConn p + 1 |>);
      init_loop n' (S i)
    end
  end.

Definition init (Url User PassWord DataBaseName : string) (Port MaxConn close_log : Z) : ST pool unit :=
  _ ← modify (fun p => p <| m_url := Url |> <| m_port := string_of_int_assign Port |>
        <| m_user := User |> <| m_password := PassWord |> <| m_database_name := DataBaseName |>
        <| m_close_log := Some close_log |>);
  _ ← init_loop (Z.to_nat MaxConn) 0;
  p ← get;
  s ← lift (sem.ctor_num (m_FreeConn p));
  modify (fun p => p <| reserve := s |> <| m_MaxConn := Some (m_FreeConn p) |>).
End init.

(** ** [connectionRAII] *)

Record connectionRAII := { connRAII : option MYSQL }.

Definition raii_ctor (t : tid) (interrupted : bool) : ST pool (option MYSQL * connectionRAII) :=
  c ← GetConnection t interrupted; mret (c, {| connRAII := c |}).

Definition raii_dtor (t : tid) (r : connectionRAII) : ST pool bool :=
  ReleaseConnection t (connRAII r).

(** ** Several threads *)

(** Where a thread is: outside, or between two atomic parts of a call. *)
Inductive pc : Set :=
| Idle
| AtWait                 (* GetConnection: the list was not empty *)
| AtLock                 (* ... the semaphore was taken *)
| InGet                  (* ... the mutex is held *)
| Holding (c : MYSQL)    (* the connection is in use *)
| InRel (c : MYSQL)      (* ReleaseConnection: the mutex is held *)
| AtPost.                (* ... the connection is back in the list *)

Record world := { the_pool : pool; pcs : list pc }.

(** The next atomic part of thread [t]. *)
Definition part (t : tid) (at_pc : pc) : ST pool pc :=
  match at_pc with
  | Idle => empty ← get_check; mret (if empty : bool then Idle else AtWait)
  | AtWait => _ ← get_wait false; mret AtLock
  | AtLock => _ ← get_lock t; mret InGet
  | InGet => c ← get_pop; mret (Holding c)
  | Holding c => _ ← get_lock t; mret (InRel c)
  | InRel c => _ ← rel_push c; mret AtPost
  | AtPost => _ ← rel_post; mret Idle
  end.

Inductive step : world -> world -> Prop :=
| step_part t p p' l a a' :
    l !! t = Some a -> part t a p = Ok (a', p') ->
    step {| the_pool := p; pcs := l |} {| the_pool := p'; pcs := <[t := a']> l |}.

(** ** The invariant *)

(** The threads that are entitled to an element of the list: it was counted by
    the semaphore and taken, or put back and not yet counted. *)
Definition owed (a : pc) : nat :=
  match a with AtLock | InGet | AtPost => 1 | _ => 0 end.

Definition held (a : pc) : option MYSQL :=
  match a with Holding c | InRel c => Some c | _ => None end.

Definition locked (a : pc) : bool := match a with InGet | InRel _ => true | _ => false end.

Record pool_inv (all : list MYSQL) (w : world) : Prop := {
  pi_count : Z.of_nat (length (connList (the_pool w))) =
             sem.m_sem (reserve (the_pool w)) + Z.of_nat (sum_list_with owed (pcs w));
  pi_sem : 0 <= sem.m_sem (reserve (the_pool w));
  pi_all : connList (the_pool w) ++ omap held (pcs w) ≡ₚ all;
  pi_size : Z.of_nat (length all) < SEM_VALUE_MAX;
  pi_free : m_FreeConn (the_pool w) = Z.of_nat (length (connList (the_pool w)));
  pi_cur : m_CurConn (the_pool w) = Z.of_nat (length (omap held (pcs w)));
  pi_lock : forall t a, pcs w !! t = Some a -> locked a = true ->
            locker.m_mutex (lock (the_pool w)) = Some t
}.

(** What one part does to the pool, case by case. *)
Inductive part_effect (t : tid) (p : pool) : pc -> pc -> pool -> Prop :=
| eff_empty : connList p = [] -> part_effect t p Idle Idle p
| eff_check : connList p <> [] -> part_effect t p Idle AtWait p
| eff_wait : 0 < sem.m_sem (reserve p) ->
    part_effect t p AtWait AtLock (p <| reserve := {| sem.m_sem := sem.m_sem (reserve p) - 1 |} |>)
| eff_lock_get : locker.m_mutex (lock p) = None ->
    part_effect t p AtLock InGet (p <| lock := {| locker.m_mutex := Some t |} |>)
| eff_pop c l : connList p = c :: l ->
    part_effect t p InGet (Holding c)
      (p <| connList := l |> <| m_FreeConn := m_FreeConn p - 1 |> <| m_CurConn := m_CurConn p + 1 |>
         <| lock := {| locker.m_mutex := None |} |>)
| eff_lock_rel c : locker.m_mutex (lock p) = None ->
    part_effect t p (Holding c) (InRel c) (p <| lock := {| locker.m_mutex := Some t |} |>)
| eff_push c :
    part_effect t p (InRel c) AtPost
      (p <| connList := connList p ++ [c] |> <| m_FreeConn := m_FreeConn p + 1 |>
         <| m_CurConn := m_CurConn p - 1 |> <| lock := {| locker.m_mutex := None |} |>)
| eff_post_full : SEM_VALUE_MAX <= sem.m_sem (reserve p) -> part_effect t p AtPost Idle p
| eff_post : sem.m_sem (reserve p) < SEM_VALUE_MAX ->
    part_effect t p AtPost Idle (p <| reserve := {| sem.m_sem := sem.m_sem (reserve p) + 1 |} |>).

Lemma part_effect_of t p a a' p' : part t a p = Ok (a', p') -> part_effect t p a a' p'.
Proof.
  destruct p as [mx cu fr [mu] cl [sm] u1 u2 u3 u4 u5 cll].
  destruct a; unfold part, get_check, get_wait, get_lock, get_pop, rel_push, rel_post, on_lock, on_reserve,
    sem.wait, sem.post, locker.lock, locker.unlock; exec; intros H; repeat (case_match; inv_res; try done);
    reflect_bools; simplify_eq/=; try (case_bool_decide); try (econstructor; simpl; done || lia).
Qed.

Lemma omap_held_mid l1 a l2 :
  omap held (l1 ++ a :: l2) = omap held l1 ++ option_list (held a) ++ omap held l2.
Proof. rewrite omap_app. simpl. by destruct (held a). Qed.

Lemma step_inv all w w' : pool_inv all w -> step w w' -> pool_inv all w'.
Proof.
  intros [Hc Hs Ha Hz Hf Hu Hl] Hstep. inversion Hstep as [t p p' l a a' Ht Hrun]; subst. simpl in *.
  apply part_effect_of in Hrun.
  pose proof (Permutation_length Ha) as HaL. rewrite length_app in HaL.
  destruct (threads_split l t a Ht) as (l1 & l2 & El & Eins). specialize (Eins a').
  assert (forall t' b, <[t := a']> l !! t' = Some b -> locked b = true ->
    locker.m_mutex (lock p') = Some t') as Hl'.
  { eapply (lock_step locked); [exact Ht|exact Hl|..]; destruct Hrun; simpl; auto; congruence. }
  clear Hl. split; cbn [the_pool pcs]; [| | |exact Hz| | |exact Hl'];
    rewrite ?Eins; clear Hl' Ht Eins Hstep; subst l; rewrite ?sum_weight_mid, ?omap_held_mid in *;
    destruct Hrun as [|He|H0|Hn|c l' E|c Hn|c|Hm|Hm];
    cbn [reserve connList m_FreeConn m_CurConn set sem.m_sem owed held option_list] in *;
    rewrite ?E in *; rewrite ?length_app in *; cbn [length app] in *; try done; try lia.
  - rewrite <- Ha. solve_Permutation.
  - rewrite <- Ha. solve_Permutation.
  - rewrite Hu. simpl. lia.
  - rewrite Hu. simpl. lia.
Qed.

(** The pool after [init], before any thread uses it. *)
Definition pool_start (all : list MYSQL) (threads : nat) (w : world) : Prop :=
  connList (the_pool w) = all /\ m_FreeConn (the_pool w) = Z.of_nat (length all) /\
  m_CurConn (the_pool w) = 0 /\ sem.m_sem (reserve (the_pool w)) = Z.of_nat (length all) /\
  pcs w = replicate threads Idle.

Lemma replicate_idle n :
  sum_list_with owed (replicate n Idle) = 0%nat /\ omap held (replicate n Idle) = [].
Proof. induction n as [|n [IH1 IH2]]; [done|]. simpl. by rewrite IH1. Qed.

Lemma start_inv all threads w :
  pool_start all threads w -> Z.of_nat (length all) < SEM_VALUE_MAX -> pool_inv all w.
Proof.
  intros (Hc & Hf & Hu & Hs & Hp) Hz. destruct (replicate_idle threads) as [E1 E2].
  split; rewrite ?Hp, ?E1, ?E2, ?Hc, ?Hs, ?Hf, ?Hu; try done; try lia.
  - by rewrite app_nil_r.
  - intros t a [-> _]%lookup_replicate. done.
Qed.

Lemma reach_inv all w w' : pool_inv all w -> rtc step w w' -> pool_inv all w'.
Proof. intros Hi Hr. revert Hi. induction Hr; eauto using step_inv. Qed.

(** ** [init] *)

Lemma init_loop_ok connect n : forall i p cs,
  (forall k, (k < n)%nat -> connect (i + k)%nat = cs !! k) -> length cs = n ->
  init_loop connect n i p = Ok (tt, p <| connList := connList p ++ cs |>
                                      <| m_FreeConn := m_FreeConn p + Z.of_nat n |>).
Proof.
  induction n as [|n IH]; intros i p cs Hk Hl.
  - destruct cs; [|done]. simpl. rewrite app_nil_r, Z.add_0_r. by destruct p.
  - destruct cs as [|c cs]; [done|].
    assert (connect i = Some c) as E by (rewrite <- (Nat.add_0_r i); rewrite (Hk 0%nat); [done|lia]).
    cbn [init_loop]. rewrite E. st_step reflexivity.
    rewrite (IH (S i) _ cs); [|intros k Hlt; specialize (Hk (S k) ltac:(lia));
      by replace (i + S k)%nat with (S i + k)%nat in Hk by lia|simpl in Hl; lia].
    destruct p. unfold set. cbn [connList m_FreeConn]. rewrite <- app_assoc. cbn [app].
    do 3 f_equal. lia.
Qed.

(** [init] with [MaxConn] connections that all succeed ends with exactly
    these connections in the list, the counter, the semaphore and [m_MaxConn]
    equal to their number: the state from which the pool is used. *)
Theorem init_builds_pool connect url user pw dbname port n close_log p0 cs threads :
  ctor = Ok p0 -> length cs = Z.to_nat n -> 0 <= n < SEM_VALUE_MAX ->
  (forall k, (k < length cs)%nat -> connect k = cs !! k) ->
  exists p, init connect url user pw dbname port n close_log p0 = Ok (tt, p) /\
    pool_start cs threads {| the_pool := p; pcs := replicate threads Idle |} /\
    m_MaxConn p = Some n /\ locker.m_mutex (lock p) = None.
Proof.
  intros Hp Hl Hn Hk. injection Hp as <-. unfold SEM_VALUE_MAX in *. eexists. split.
  - unfold init. st_step reflexivity.
    st_step (apply (init_loop_ok _ _ _ _ cs); [intros k Hlt; apply Hk; lia|done]). st_step reflexivity.
    cbn [m_FreeConn set]. rewrite Z2Nat.id by lia.
    st_step (apply lift_ok; unfold sem.ctor_num, SEM_VALUE_MAX; rewrite to_u32_id by (unfold UINT32_MAX; lia);
             rewrite (proj2 (Z.ltb_ge _ _)) by lia; reflexivity).
    reflexivity.
  - unfold pool_start. cbn. rewrite Hl. split_and!; done || lia || (f_equal; lia).
Qed.

(** ** Properties of the running pool *)

(** C11: whatever the threads do, in any interleaving of the parts of
    [GetConnection] and [ReleaseConnection], no connection is lost or handed to
    two threads at once (the free list and the connections in use together are
    the initial ones), the counters tell the sizes of the two, and the
    semaphore plus the calls in flight is the length of the list. *)
Theorem pool_conserves all threads w w' :
  pool_start all threads w -> Z.of_nat (length all) < SEM_VALUE_MAX -> rtc step w w' ->
  connList (the_pool w') ++ omap held (pcs w') ≡ₚ all /\
  GetFreeConn (the_pool w') = Z.of_nat (length (connList (the_pool w'))) /\
  m_CurConn (the_pool w') = Z.of_nat (length (omap held (pcs w'))) /\
  Z.of_nat (length (connList (the_pool w'))) =
    sem.m_sem (reserve (the_pool w')) + Z.of_nat (sum_list_with owed (pcs w')).
Proof.
  intros Hst Hz Hr. destruct (reach_inv all w w') as [Hc Hs Ha _ Hf Hu _]; [|done|done].
  by eapply start_inv.
Qed.


(** ** Specification: an atomic pool

    Taking and returning a connection as single steps; the connections are used
    in turn. *)

Inductive client : Set := Out | Asking | Has (c : MYSQL).

Record counter := { free : list MYSQL; clients : list client }.

Inductive counter_step : counter -> counter -> Prop :=
| counter_ask t c q l : l !! t = Some Out ->
    counter_step {| free := c :: q; clients := l |} {| free := c :: q; clients := <[t := Asking]> l |}
| counter_get t c q l : l !! t = Some Asking ->
    counter_step {| free := c :: q; clients := l |} {| free := q; clients := <[t := Has c]> l |}
| counter_put t c q l : l !! t = Some (Has c) ->
    counter_step {| free := q; clients := l |} {| free := q ++ [c]; clients := <[t := Out]> l |}.

(** A connection is taken and returned when it leaves and enters the list. *)
Definition client_of (a : pc) : client :=
  match a with
  | Idle | AtPost => Out
  | AtWait | AtLock | InGet => Asking
  | Holding c | InRel c => Has c
  end.

Definition counter_of (w : world) : counter :=
  {| free := connList (the_pool w); clients := client_of <$> pcs w |}.

Lemma same_client t (l : list pc) a a' :
  l !! t = Some a -> client_of a' = client_of a -> client_of <$> <[t := a']> l = client_of <$> l.
Proof. intros Ht E. rewrite list_fmap_insert, E. apply list_insert_id. by rewrite list_lookup_fmap, Ht. Qed.

#[export] Instance pool_refines all : Refines step counter_step (pool_inv all) counter_of.
Proof.
  split; [apply step_inv|]. intros w w' _ Hstep. destruct Hstep as [t p p' l a a' Ht Hrun].
  apply part_effect_of in Hrun. unfold counter_of. cbn [the_pool pcs].
  assert ((client_of <$> l) !! t = Some (client_of a)) as Hcl by (by rewrite list_lookup_fmap, Ht).
  destruct Hrun as [He|He|H0|Hn|c l' He|c Hn|c|Hm|Hm];
    cbn [connList set]; try (left; by erewrite same_client); right;
    rewrite ?list_fmap_insert; cbn [client_of] in *.
  - destruct (connList p); [done|]. by apply counter_ask.
  - rewrite He. by apply counter_get.
  - by apply counter_put.
Qed.

(** C18: the pool implements an atomic one.  However the threads are
    interleaved between the parts of [GetConnection] and [ReleaseConnection],
    the threads see atomic steps: a thread that finds a free connection asks
    for one and later gets the connection that has been free for longest, and a
    connection that is returned is the last to be used again; the mutex, the
    semaphore and the counters are invisible. *)
Theorem pool_implements_counter all threads w w' :
  pool_start all threads w -> Z.of_nat (length all) < SEM_VALUE_MAX -> rtc step w w' ->
  rtc counter_step {| free := all; clients := replicate threads Out |} (counter_of w').
Proof.
  intros Hst Hz Hr. pose proof (pool_refines all).
  destruct (refines_reach w w' (start_inv all threads w Hst Hz) Hr) as [_ Hspec].
  revert Hspec. destruct Hst as (Hq & _ & _ & _ & Hp). unfold counter_of at 1. by rewrite Hq, Hp, fmap_replicate.
Qed.

(** no wake-up is lost: when no call is in flight, a thread that is put to
    sleep in [GetConnection] sleeps because every connection is in use. *)
Theorem pool_waits_only_when_exhausted all threads w w' t :
  pool_start all threads w -> Z.of_nat (length all) < SEM_VALUE_MAX -> rtc step w w' ->
  pcs w' !! t = Some AtWait -> sum_list_with owed (pcs w') = 0%nat ->
  part t AtWait (the_pool w') = Halt Blocks <-> omap held (pcs w') ≡ₚ all.
Proof.
  intros Hst Hz Hr Ht H0. destruct (reach_inv all w w') as [Hc Hs Ha _ Hf Hu Hl]; [by eapply start_inv|done|].
  rewrite H0, Z.add_0_r in Hc. unfold part, get_wait, on_reserve, sem.wait. exec.
  destruct (Z.ltb_spec 0 (sem.m_sem (reserve (the_pool w')))) as [Hpos|Hnp].
  - split; [done|]. intros Hp. apply Permutation_length in Hp, Ha. rewrite length_app in Ha. lia.
  - split; [intros _|done]. destruct (connList (the_pool w')) as [|c cl]; [by rewrite <- Ha|].
    simpl in Hc. lia.
Qed.

(** a wait that a signal interrupts is not noticed: [GetConnection] goes on
    without having taken a unit, and when the list has been emptied in the
    meantime it takes the [front()] of an empty list. *)
Theorem interrupted_wait_pops_empty t p :
  connList p = [] -> locker.m_mutex (lock p) = None ->
  (_ ← get_wait true; _ ← get_lock t; get_pop) p = Halt EmptyContainer.
Proof.
  destruct p as [mx cu fr [mu] cl sm u1 u2 u3 u4 u5 cll]. cbn. by intros -> ->.
Qed.

(** The RAII guard is balanced: constructing and destroying a
    [connectionRAII] in one thread returns the connection to the back of the
    list and leaves every counter, the mutex and the semaphore as they were. *)
Lemma raii_balance t p c l :
  connList p = c :: l -> locker.m_mutex (lock p) = None ->
  0 < sem.m_sem (reserve p) <= SEM_VALUE_MAX ->
  exists p1 r, raii_ctor t false p = Ok ((Some c, r), p1) /\ connList p1 = l /\
    raii_dtor t r p1 = Ok (true, p <| connList := l ++ [c] |>).
Proof.
  destruct p as [mx cu fr [mu] cl [sm] u1 u2 u3 u4 u5 cll]. cbn [connList lock reserve sem.m_sem locker.m_mutex].
  intros -> -> Hs.
  exists {| m_MaxConn := mx; m_CurConn := cu + 1; m_FreeConn := fr - 1; lock := {| locker.m_mutex := None |};
            connList := l; reserve := {| sem.m_sem := sm - 1 |}; m_url := u1; m_port := u2; m_user := u3;
            m_password := u4; m_database_name := u5; m_close_log := cll |}, {| connRAII := Some c |}.
  split_and!.
  - cbv -[Z.ltb Z.add Z.sub]. by rewrite (proj2 (Z.ltb_lt _ _)) by lia.
  - reflexivity.
  - cbv -[Z.leb Z.add Z.sub app SEM_VALUE_MAX].
    rewrite (proj2 (Z.leb_gt _ _)) by lia. by rewrite Z.sub_add, Z.sub_add, Z.add_simpl_r.
Qed.

(** the port of the pool is lost: [m_port] is assigned from an [int] and
    holds one character; 3306 and every port equal to it modulo 256 give the
    same text. *)
Theorem port_is_one_char port :
  String.length (string_of_int_assign port) = 1%nat /\
  string_of_int_assign port = string_of_int_assign (port + 256).
Proof.
  split; [done|]. unfold string_of_int_assign. do 3 f_equal.
  rewrite <- (Z.mul_1_l 256) at 2. by rewrite Z.mod_add by lia.
Qed.

(** ** The theorems at a pool of two connections and three threads *)

Definition two_conns (k : nat) : option MYSQL := [11; 12] !! k.

Definition sample_pool : pool := {|
  m_MaxConn := Some 2; m_CurConn := 0; m_FreeConn := 2; lock := {| locker.m_mutex := None |};
  connList := [11; 12]; reserve := {| sem.m_sem := 2 |}; m_url := "localhost";
  m_port := string_of_int_assign 3306; m_user := "root"; m_password := "root";
  m_database_name := "yourdb"; m_close_log := Some 0 |}.

Definition sample_world : world := {| the_pool := sample_pool; pcs := replicate 3 Idle |}.

Lemma sample_start : pool_start [11; 12] 3 sample_world.
Proof. split_and!; reflexivity. Qed.

Lemma init_builds_pool_witness :
  exists p, (p0 ← ctor; init two_conns "localhost" "root" "root" "yourdb" 3306 2 0 p0) = Ok (tt, p) /\
    connList p = [11; 12].
Proof.
  destruct (init_builds_pool two_conns "localhost" "root" "root" "yourdb" 3306 2 0
    {| m_MaxConn := None; m_CurConn := 0; m_FreeConn := 0; lock := locker.ctor; connList := [];
       reserve := {| sem.m_sem := 0 |}; m_url := ""; m_port := ""; m_user := ""; m_password := "";
       m_database_name := ""; m_close_log := None |} [11; 12] 3%nat) as (p & Hrun & Hst & _).
  - reflexivity.
  - reflexivity.
  - done.
  - done.
  - exists p. split; [exact Hrun|]. by destruct Hst.
Defined.

(** Run one thread for one part. *)
Definition run1 (t : tid) (w : world) : option world :=
  match pcs w !! t with
  | Some a =>
    match part t a (the_pool w) with
    | Ok (a', p') => Some {| the_pool := p'; pcs := <[t := a']> (pcs w) |}
    | Halt _ => None
    end
  | None => None
  end.

Lemma run1_step t w w' : run1 t w = Some w' -> step w w'.
Proof.
  unfold run1. destruct w as [p l]. simpl. destruct (l !! t) as [a|] eqn:Ht; [|done].
  destruct (part t a p) as [[a' p']|] eqn:Hr; [|done]. intros [= <-]. by apply (step_part t p p' l a a').
Qed.

Lemma run_steps ts : forall w w', foldl (fun o t => o ≫= run1 t) (Some w) ts = Some w' -> rtc step w w'.
Proof.
  induction ts as [|t ts IH]; intros w w' H; simpl in H; [simplify_eq; constructor|].
  destruct (run1 t w) as [w1|] eqn:E; simpl in H.
  - eapply rtc_l; [by eapply run1_step|by apply IH].
  - exfalso. clear -H. induction ts; simpl in H; done || auto.
Qed.

(** Two threads take both connections, a third one comes to wait. *)
Definition schedule : list tid := [0; 1; 2; 0; 1; 0; 0; 1; 1]%nat.
Definition busy_world : world := Eval vm_compute in
  default sample_world (foldl (fun o t => o ≫= run1 t) (Some sample_world) schedule).

Lemma busy_reached : rtc step sample_world busy_world.
Proof. apply (run_steps schedule). by vm_compute. Qed.

Lemma pool_conserves_witness :
  connList (the_pool busy_world) ++ omap held (pcs busy_world) ≡ₚ [11; 12] /\
  connList (the_pool busy_world) = [].
Proof.
  split; [|reflexivity].
  apply (pool_conserves [11; 12] 3 sample_world busy_world); [apply sample_start|done|apply busy_reached].
Defined.

Lemma pool_implements_counter_witness :
  rtc counter_step {| free := [11; 12]; clients := [Out; Out; Out] |}
    {| free := []; clients := [Has 11; Has 12; Asking] |}.
Proof.
  apply (pool_implements_counter [11; 12] 3 sample_world busy_world); [apply sample_start|done|apply busy_reached].
Defined.


Lemma pool_waits_only_when_exhausted_witness :
  part 2%nat AtWait (the_pool busy_world) = Halt Blocks <-> omap held (pcs busy_world) ≡ₚ [11; 12].
Proof.
  apply (pool_waits_only_when_exhausted [11; 12] 3 sample_world busy_world 2%nat);
    [apply sample_start|done|apply busy_reached|reflexivity|reflexivity].
Defined.

End sql_connection_pool.
