(* ===== verification/HttpServe.v ===== *)
(** * HttpServe: the life of a connection in ocean_http/http/http_conn.cpp

    The epoll helpers, [init], [close_conn], [read_once], [process] and
    [initmysql_result].  The system calls are recorded in the order in which
    they are made; what [recv] delivers is an input. *)

From Stdlib Require Import Ascii String.
From S2P Require Import Prelude Locker CStr HttpConn HttpRequest HttpParse HttpHandler HttpResponse SqlPool.

(** ** System calls *)

Definition EPOLLIN : Z := 1.
Definition EPOLLOUT : Z := 4.
Definition EPOLLHUP : Z := 16.
Definition EPOLLRDHUP : Z := 8192.
Definition EPOLLONESHOT : Z := Z.shiftl 1 30.
Definition EPOLLET : Z := Z.shiftl 1 31.

Inductive syscall : Set :=
| EpollAdd (fd events : Z)
| EpollMod (fd events : Z)
| EpollDel (fd : Z)
| SetNonblock (fd : Z)
| Close (fd : Z)
| Bind (fd port : Z)
| Listen (fd : Z)
| SetLinger (fd onoff : Z)
| ReuseAddr (fd : Z)
| Sigaction (sig : Z) (ignore restart : bool)
| Alarm (seconds : Z)
| SendText (fd : Z) (text : string).
#[export] Instance syscall_eq_dec : EqDecision syscall.
Proof. solve_decision. Defined.

(** [fcntl(F_SETFL)] with [O_NONBLOCK] added. *)
Definition setnonblocking (fd : Z) : ST (list syscall) unit := modify (fun k => k ++ [SetNonblock fd]).

Definition add_events (one_shot : bool) (TRIGMode : Z) : Z :=
  let ev := if TRIGMode =? 1 then Z.lor (Z.lor EPOLLIN EPOLLET) EPOLLRDHUP else Z.lor EPOLLIN EPOLLHUP in
  if one_shot then Z.lor ev EPOLLONESHOT else ev.

Definition addfd (fd : Z) (one_shot : bool) (TRIGMode : Z) : ST (list syscall) unit :=
  _ ← modify (fun k => k ++ [EpollAdd fd (add_events one_shot TRIGMode)]);
  setnonblocking fd.

Definition removefd (fd : Z) : ST (list syscall) unit :=
  modify (fun k => k ++ [EpollDel fd; Close fd]).

Definition mod_events (ev TRIGMode : Z) : Z :=
  if TRIGMode =? 1 then Z.lor (Z.lor (Z.lor ev EPOLLET) EPOLLONESHOT) EPOLLRDHUP
  else Z.lor (Z.lor ev EPOLLONESHOT) EPOLLHUP.

Definition modfd (fd ev TRIGMode : Z) : ST (list syscall) unit :=
  modify (fun k => k ++ [EpollMod fd (mod_events ev TRIGMode)]).

(** ** [read_once] *)

(** What a socket has for [recv]: pieces of data, and what follows them. *)
Inductive after_data : Set := Closed | WouldBlock | Failed.
#[export] Instance after_data_eq_dec : EqDecision after_data.
Proof. solve_decision. Defined.
Record socket := { pieces : list (list ascii); after : after_data }.

(** [recv(fd, buf, n, 0)]: the bytes, or [None] for -1 with the flag that tells
    [EAGAIN].  A length of 0 gives 0. *)
Definition recv (n : Z) (k : socket) : (option (list ascii) * bool) * socket :=
  if n =? 0 then ((Some [], false), k)
  else
    match pieces k with
    | [] => ((match after k with Closed => Some [] | _ => None end,
              match after k with WouldBlock => true | _ => false end), k)
    | d :: ds =>
      let got := take (Z.to_nat n) d in
      let left := drop (Z.to_nat n) d in
      ((Some got, false),
       {| pieces := if bool_decide (left = []) then ds else left :: ds; after := after k |})
    end.

Record reading := { rconn : http_conn; rsock : socket }.
#[export] Instance reading_settable : Settable reading := fun r =>
  {| rconn := rconn r; rsock := rsock r |}.

(** One [recv] into the buffer at [m_read_idx]; the result is [bytes_read] and
    whether a failure was [EAGAIN]. *)
Definition recv_into : ST reading (Z * bool) :=
  r ← get;
  let c := rconn r in
  let '((got, again), k) := recv (READ_BUFFER_SIZE - m_read_idx c) (rsock r) in
  _ ← modify (fun r => r <| rsock := k |>);
  match got with
  | None => mret (-1, again)
  | Some d =>
    b ← lift (blit (m_read_buf c) (m_read_idx c) d);
    _ ← modify (fun r => r <| rconn := (rconn r) <| m_read_buf := b |> |>);
    mret (Z.of_nat (length d), false)
  end.

Definition add_read_idx (n : Z) : ST reading unit :=
  modify (fun r => r <| rconn := (rconn r) <| m_read_idx := m_read_idx (rconn r) + n |> |>).

(** The edge-triggered loop; every round that goes on stores at least one byte. *)
Fixpoint read_all (fuel : nat) : ST reading bool :=
  match fuel with
  | O => throw Diverges
  | S fuel' =>
    '(bytes_read, again) ← recv_into;
    if bytes_read =? -1 then mret again
    else if bytes_read =? 0 then mret false
    else _ ← add_read_idx bytes_read; read_all fuel'
  end.

Definition read_once : ST reading bool :=
  r ← get;
  let c := rconn r in
  if READ_BUFFER_SIZE <=? m_read_idx c then mret false
  else if m_TRIGMode c =? 0 then
    '(bytes_read, _) ← recv_into;
    _ ← add_read_idx bytes_read;
    mret (negb (bytes_read <=? 0))
  else read_all (S (Z.to_nat (READ_BUFFER_SIZE - m_read_idx c))).

(** The body of [write()] is empty: a caller gets no value. *)
Definition write : ST http_conn bool := throw FlowOffEnd.

Definition get_address (c : http_conn) : Z := m_address c.

(** ** The connection in the server *)

Section serve.
Context {DB : Type}
  (mysql_query : option Z -> list ascii -> DB -> Z * DB)
  (stat : list ascii -> option file_stat)
  (mmap : list ascii -> Z -> faddr).

(** A connection with the globals, the static [m_user_count] and the calls made. *)
Record server := { hs : hstate DB; m_user_count : Z; calls : list syscall }.
#[export] Instance server_settable : Settable server := fun s =>
  {| hs := hs s; m_user_count := m_user_count s; calls := calls s |}.

Definition on_hs {A} (m : ST (hstate DB) A) : ST server A :=
  zoom hs (fun h s => s <| hs := h |>) m.
Definition on_hconn {A} (m : ST http_conn A) : ST server A := on_hs (on_conn m).
Definition sys {A} (m : ST (list syscall) A) : ST server A :=
  zoom calls (fun k s => s <| calls := k |>) m.

(** The public [init]: the socket is registered with the [m_TRIGMode] that the
    object had before. *)
Definition init (sockfd addr : Z) (root : list ascii) (TRIGMode close_log : Z)
    (user passwd sqlname : list ascii) : ST server unit :=
  _ ← on_hconn (modify (fun c => c <| m_sokcfd := sockfd |> <| m_address := addr |>));
  s ← get;
  _ ← sys (addfd sockfd true (m_TRIGMode (conn (hs s))));
  _ ← modify (fun s => s <| m_user_count := m_user_count s + 1 |>);
  _ ← on_hconn (modify (fun c => c <| doc_root := root |> <| m_TRIGMode := TRIGMode |>
                                   <| m_close_log := close_log |>));
  s ← get;
  let c := conn (hs s) in
  b1 ← lift (strcpy (sql_user c) 0 user);
  b2 ← lift (strcpy (sql_passwd c) 0 passwd);
  b3 ← lift (strcpy (sql_name c) 0 sqlname);
  _ ← on_hconn (modify (fun c => c <| sql_user := b1 |> <| sql_passwd := b2 |> <| sql_name := b3 |>));
  on_hconn (modify init0).

Definition close_conn (real_close : bool) : ST server unit :=
  s ← get;
  let c := conn (hs s) in
  if real_close && negb (m_sokcfd c =? -1) then
    _ ← sys (removefd (m_sokcfd c));
    _ ← on_hconn (modify (fun c => c <| m_sokcfd := -1 |>));
    modify (fun s => s <| m_user_count := m_user_count s - 1 |>)
  else mret tt.

Definition process (t : tid) : ST server unit :=
  read_ret ← on_hs (process_read mysql_query stat mmap t);
  if bool_decide (read_ret = NO_REQUEST) then
    s ← get;
    sys (modfd (m_sokcfd (conn (hs s))) EPOLLIN (m_TRIGMode (conn (hs s))))
  else
    write_ret ← on_hconn (process_write read_ret);
    _ ← (if write_ret : bool then mret tt else close_conn true);
    s ← get;
    sys (modfd (m_sokcfd (conn (hs s))) EPOLLOUT (m_TRIGMode (conn (hs s)))).

(** ** [initmysql_result] *)

(** A row of the result set; a column may be NULL. *)
Definition row : Type := option (list ascii) * option (list ascii).

(** [std::string temp(row[i])]: a null pointer makes the constructor throw. *)
Definition column (x : option (list ascii)) : res (list ascii) := of_option Thrown x.

Fixpoint store_rows (rows : list row) (us : gmap (list ascii) (list ascii))
    : res (gmap (list ascii) (list ascii)) :=
  match rows with
  | [] => Ok us
  | (c0, c1) :: rows' =>
    temp1 ← column c0;
    temp2 ← column c1;
    store_rows rows' (<[temp1 := temp2]> us)
  end.

(** [mysql_store_result]: the rows, or null when there is no result set. *)
Variable mysql_store_result : option Z -> DB -> option (list row).

Record boot := { bpool : sql_connection_pool.pool; bglob : globals DB }.
#[export] Instance boot_settable : Settable boot := fun b => {| bpool := bpool b; bglob := bglob b |}.

Definition select_users : list ascii := lit "select username,passwd from user".

Definition initmysql_result (t : tid) (interrupted : bool) : ST boot unit :=
  '(mysql, raii) ← zoom bpool (fun p b => b <| bpool := p |>)
                        (sql_connection_pool.raii_ctor t interrupted);
  b ← get;
  let '(r, db') := mysql_query mysql select_users (db (bglob b)) in
  _ ← modify (fun b => b <| bglob := (bglob b) <| db := db' |> |>);
  (* [r] only decides about a line in the log *)
  match mysql_store_result mysql db' with
  | None => throw NullDeref
  | Some rows =>
    us ← lift (store_rows rows (users (bglob b)));
    _ ← modify (fun b => b <| bglob := (bglob b) <| users := us |> |>);
    _ ← zoom bpool (fun p b => b <| bpool := p |>) (sql_connection_pool.raii_dtor t raii);
    mret tt
  end.
End serve.
Arguments server : clear implicits.
Arguments boot : clear implicits.
#[export] Existing Instance server_settable.
#[export] Existing Instance boot_settable.

(** ** Reading *)

Definition room (c : http_conn) : Z := READ_BUFFER_SIZE - m_read_idx c.

(** The data of a socket. *)
Definition all_data (k : socket) : list ascii := mjoin (pieces k).

(** The buffer holds [pre] up to [m_read_idx]. *)
Definition received (c : http_conn) (pre rest : list ascii) : Prop :=
  m_read_buf c = pre ++ rest /\ m_read_idx c = Z.of_nat (length pre) /\
  Z.of_nat (length (pre ++ rest)) = READ_BUFFER_SIZE.

(** [got] has arrived behind [pre]. *)
Definition arrived (c : http_conn) (pre got rest : list ascii) : http_conn :=
  c <| m_read_buf := pre ++ got ++ drop (length got) rest |>
    <| m_read_idx := m_read_idx c + Z.of_nat (length got) |>.

Lemma arrived_received c pre got rest :
  received c pre rest -> (length got <= length rest)%nat ->
  received (arrived c pre got rest) (pre ++ got) (drop (length got) rest).
Proof.
  intros (E & Hi & Hl) Hg. unfold received, arrived. cbn [m_read_buf m_read_idx set].
  rewrite !length_app in *. rewrite length_drop. split_and!; [by rewrite app_assoc|lia|lia].
Qed.

Lemma blit_received c pre got rest :
  received c pre rest -> (length got <= length rest)%nat ->
  blit (m_read_buf c) (m_read_idx c) got = Ok (pre ++ got ++ drop (length got) rest).
Proof.
  intros (E & Hi & _) Hg. rewrite E, Hi. rewrite <- (take_drop (length got) rest) at 1.
  apply blit_app; [done|]. rewrite length_take. lia.
Qed.

Definition nonempty (k : socket) : Prop := Forall (fun d => d <> []) (pieces k).

(** One [recv] that delivers the beginning of the next piece. *)
Lemma recv_into_data r pre rest d ds :
  received (rconn r) pre rest -> pieces (rsock r) = d :: ds -> nonempty (rsock r) -> rest <> [] ->
  let got := take (length rest) d in
  exists k', recv_into r = Ok ((Z.of_nat (length got), false),
      {| rconn := (rconn r) <| m_read_buf := pre ++ got ++ drop (length got) rest |>; rsock := k' |}) /\
    all_data (rsock r) = got ++ all_data k' /\ after k' = after (rsock r) /\ nonempty k' /\ got <> [].
Proof.
  intros Hrec Hp Hne Hrest got. pose proof Hrec as (E & Hi & Hl). rewrite length_app in Hl.
  assert (READ_BUFFER_SIZE - m_read_idx (rconn r) = Z.of_nat (length rest)) as Hroom by lia.
  assert (0 < length rest)%nat as Hpos by (destruct rest; [done|simpl; lia]).
  unfold nonempty in *. rewrite Hp in Hne. apply Forall_cons in Hne as [Hd Hds].
  set (left := drop (length rest) d).
  exists {| pieces := if bool_decide (left = []) then ds else left :: ds; after := after (rsock r) |}.
  split_and!; [| |done| |].
  - unfold recv_into. st_step reflexivity. unfold recv. rewrite Hroom.
    rewrite (proj2 (Z.eqb_neq _ _)) by lia. rewrite Hp, Nat2Z.id. fold got left.
    st_step reflexivity.
    st_step (apply lift_ok, (blit_received _ pre got rest Hrec); unfold got; rewrite length_take; lia).
    st_step reflexivity. done.
  - unfold all_data. rewrite Hp. cbn [pieces]. cbn [mjoin list_join].
    rewrite <- (take_drop (length rest) d) at 1. fold got left.
    case_bool_decide as El; cbn [mjoin list_join]; [by rewrite El, app_nil_r|by rewrite app_assoc].
  - cbn [pieces]. case_bool_decide; [done|by constructor].
  - unfold got. destruct d, (length rest) eqn:?; [done|done|lia|done].
Qed.

(** Without data: what follows it. *)
Lemma recv_into_end r pre rest :
  received (rconn r) pre rest -> pieces (rsock r) = [] -> rest <> [] ->
  recv_into r = Ok (match after (rsock r) with
                    | Closed => (0, false) | WouldBlock => (-1, true) | Failed => (-1, false)
                    end, r).
Proof.
  intros Hrec Hp Hrest. pose proof Hrec as (E & Hi & Hl). rewrite length_app in Hl.
  assert (0 < length rest)%nat as Hpos by (destruct rest; [done|simpl; lia]).
  unfold recv_into. st_step reflexivity. unfold recv.
  rewrite (proj2 (Z.eqb_neq _ _)) by (unfold READ_BUFFER_SIZE in *; lia). rewrite Hp.
  destruct (after (rsock r)) eqn:Ea; st_step reflexivity; [|by destruct r..].
  st_step (apply lift_ok, (blit_received _ pre [] rest Hrec); simpl; lia). st_step reflexivity.
  destruct r as [c k]. cbn [rconn rsock set]. unfold mret, ST_ret. do 2 f_equal. cbn [length app rconn] in *.
  rewrite drop_0, <- E. by destruct c.
Qed.

(** A full buffer: the length passed to [recv] is 0. *)
Lemma recv_into_full r pre :
  received (rconn r) pre [] -> recv_into r = Ok ((0, false), r).
Proof.
  intros Hrec. pose proof Hrec as (E & Hi & Hl). rewrite app_nil_r in Hl, E.
  unfold recv_into. st_step reflexivity. unfold recv. rewrite (proj2 (Z.eqb_eq _ _)) by lia.
  st_step reflexivity. st_step (apply lift_ok, (blit_received _ pre [] [] Hrec); simpl; lia).
  st_step reflexivity. destruct r as [c k]. cbn [rconn rsock set]. unfold mret, ST_ret. do 2 f_equal.
  cbn [length app rconn] in *. rewrite drop_nil, app_nil_r, <- E. by destruct c.
Qed.

Lemma arrived_nil c pre rest : received c pre rest -> arrived c pre [] rest = c.
Proof.
  intros (E & _). unfold arrived. cbn [length app]. rewrite drop_0, <- E, Z.add_0_r. by destruct c.
Qed.

Lemma arrived_app c pre g1 g2 rest :
  arrived (arrived c pre g1 rest) (pre ++ g1) g2 (drop (length g1) rest) = arrived c pre (g1 ++ g2) rest.
Proof.
  unfold arrived. rewrite drop_drop, length_app, <- !app_assoc, Nat2Z.inj_add, Z.add_assoc. done.
Qed.

Lemma read_all_spec fuel : forall r pre rest,
  received (rconn r) pre rest -> nonempty (rsock r) -> (length rest < fuel)%nat ->
  let data := all_data (rsock r) in
  exists k', read_all fuel r =
    Ok (bool_decide (after (rsock r) = WouldBlock) && (length data <? length rest)%nat,
        {| rconn := arrived (rconn r) pre (take (length rest) data) rest; rsock := k' |}).
Proof.
  induction fuel as [|fuel IH]; intros r pre rest Hrec Hne Hfuel data; [lia|]. cbn [read_all].
  destruct (decide (rest = [])) as [->|Hrest].
  { exists (rsock r). st_step (by eapply recv_into_full). rewrite andb_false_r.
    rewrite arrived_nil by done. by destruct r. }
  destruct (pieces (rsock r)) as [|d ds] eqn:Hp.
  { exists (rsock r). st_step (by eapply recv_into_end). unfold data, all_data. rewrite Hp. cbn [mjoin list_join].
    rewrite take_nil, arrived_nil by done.
    assert ((length (@nil ascii) <? length rest)%nat = true) as -> by (destruct rest; done).
    destruct (after (rsock r)); by destruct r. }
  destruct (recv_into_data r pre rest d ds Hrec Hp Hne Hrest) as (k1 & Hrun & Hdata & Haft & Hne1 & Hg).
  set (got := take (length rest) d) in *. set (c1 := arrived (rconn r) pre got rest).
  assert (length got <= length rest)%nat as Hgl by (unfold got; rewrite length_take; lia).
  assert (0 < length got)%nat by (destruct got; [done|simpl; lia]).
  destruct (IH {| rconn := c1; rsock := k1 |} (pre ++ got) (drop (length got) rest)) as (k2 & Hrec2).
  { by apply arrived_received. }
  { done. }
  { rewrite length_drop. lia. }
  exists k2. st_step (exact Hrun). cbv iota. rewrite (proj2 (Z.eqb_neq _ (-1))), (proj2 (Z.eqb_neq _ 0)) by lia.
  st_step reflexivity. etransitivity; [exact Hrec2|]. cbn [rconn rsock]. rewrite Haft.
  unfold data. rewrite Hdata, length_app, length_drop. do 2 f_equal.
  - f_equal. apply eq_true_iff_eq. rewrite !Nat.ltb_lt. lia.
  - f_equal. unfold c1. rewrite arrived_app. f_equal. rewrite take_app_ge by lia. done.
Qed.

(** The edge-triggered read. *)
Lemma read_edge_run r pre rest :
  received (rconn r) pre rest -> nonempty (rsock r) -> rest <> [] -> m_TRIGMode (rconn r) <> 0 ->
  let data := all_data (rsock r) in
  exists k', read_once r =
    Ok (bool_decide (after (rsock r) = WouldBlock) && (length data <? length rest)%nat,
        {| rconn := arrived (rconn r) pre (take (length rest) data) rest; rsock := k' |}).
Proof.
  intros Hrec Hne Hrest Hmode data. pose proof Hrec as (_ & Hi & Hl). rewrite length_app in Hl.
  assert (0 < length rest)%nat by (destruct rest; [done|simpl; lia]).
  destruct (read_all_spec (S (Z.to_nat (READ_BUFFER_SIZE - m_read_idx (rconn r)))) r pre rest)
    as (k' & Hrun); [done|done|lia|].
  exists k'. unfold read_once. st_step reflexivity. cbv zeta. rewrite (proj2 (Z.leb_gt _ _)) by lia.
  by rewrite (proj2 (Z.eqb_neq _ _)).
Qed.

(** C22: in edge-triggered mode [read_once] takes everything the socket has, in
    order, whatever the sizes of the pieces: the bytes go behind those already
    received, up to the end of the buffer, never beyond it.  It returns true
    exactly when the peer is still there and at least one byte of the buffer
    is left: data that fills the buffer exactly is reported like a closed
    connection. *)
Theorem read_once_edge r pre rest :
  received (rconn r) pre rest -> nonempty (rsock r) -> rest <> [] -> m_TRIGMode (rconn r) <> 0 ->
  let data := all_data (rsock r) in
  exists k', read_once r =
    Ok (bool_decide (after (rsock r) = WouldBlock) && (length data <? length rest)%nat,
        {| rconn := arrived (rconn r) pre (take (length rest) data) rest; rsock := k' |}).
Proof. apply read_edge_run. Qed.

(** In level-triggered mode a failed [recv] is added to the index like a
    length: [m_read_idx] is decremented. *)
Theorem read_once_level_error r pre rest :
  received (rconn r) pre rest -> rest <> [] -> m_TRIGMode (rconn r) = 0 ->
  pieces (rsock r) = [] -> after (rsock r) <> Closed ->
  exists r', read_once r = Ok (false, r') /\ m_read_idx (rconn r') = m_read_idx (rconn r) - 1.
Proof.
  intros Hrec Hrest Hmode Hp Ha. pose proof Hrec as (_ & Hi & Hl). rewrite length_app in Hl.
  assert (0 < length rest)%nat by (destruct rest; [done|simpl; lia]).
  exists (r <| rconn := (rconn r) <| m_read_idx := m_read_idx (rconn r) + -1 |> |>). split; [|done].
  unfold read_once. st_step reflexivity. cbv zeta. rewrite (proj2 (Z.leb_gt _ _)) by lia. rewrite Hmode.
  cbn [Z.eqb]. st_step (by eapply recv_into_end). destruct (after (rsock r)); [done|..]; by st_step reflexivity.
Qed.

(** ** One request from the buffer to the answer *)

Section end_to_end.
Context {DB : Type}
  (mysql_query : option Z -> list ascii -> DB -> Z * DB)
  (stat : list ascii -> option file_stat)
  (mmap : list ascii -> Z -> faddr) (t : tid).

(** A connection that [init] and [read_once] have prepared. *)
Record prepared (c : http_conn) : Prop := {
  pr_ready : ready c;
  pr_file : m_real_file c = replicate (Z.to_nat FILENAME_LEN) NUL;
  pr_root : plain (doc_root c) /\ Z.of_nat (length (doc_root c)) + 14 < FILENAME_LEN
}.

Lemma target_of_plain path : word ("/"%char :: path) -> plain (target_of path).
Proof.
  intros (_ & Hp & _). unfold target_of. case_bool_decide; [|done].
  apply (bool_decide_unpack _). vm_compute. done.
Qed.

(** [process] when the handler has opened a file. *)
Lemma file_request_answer (s : server DB) h :
  process_read mysql_query stat mmap t (hs s) = Ok (FILE_REQUEST, h) ->
  ready (conn h) -> 0 < st_size (m_file_stat (conn h)) ->
  let head := head_text 200 ok_200_title (st_size (m_file_stat (conn h))) (m_linger (conn h)) in
  exists s', process mysql_query stat mmap t s = Ok (tt, s') /\
    calls s' = calls s ++ [EpollMod (m_sokcfd (conn h)) (mod_events EPOLLOUT (m_TRIGMode (conn h)))] /\
    holds (conn (hs s')) head /\
    m_iv (conn (hs s')) = [ {| iov_base := IovWriteBuf; iov_len := Z.of_nat (length head) |};
      {| iov_base := IovFile (m_file_address (conn h)); iov_len := st_size (m_file_stat (conn h)) |} ] /\
    m_iv_count (conn (hs s')) = 2 /\ glob (hs s') = glob h /\ m_user_count s' = m_user_count s /\
    improv (conn (hs s')) = improv (conn h) /\ timer_flag (conn (hs s')) = timer_flag (conn h).
Proof.
  intros Hread Hready Hsz head.
  destruct (file_answer (conn h) Hready Hsz) as (c3 & Hwr & Hh & Hn & Hiv & Hfd & Htm & (Him & Htf) & _).
  eexists. split.
  - unfold process. st_step (apply zoom_ok; exact Hread).
    rewrite bool_decide_eq_false_2 by done. st_step (apply zoom_ok, zoom_ok; exact Hwr).
    st_step reflexivity. st_step reflexivity. cbn [conn hs set]. rewrite Hfd, Htm. reflexivity.
  - split_and!; done.
Qed.

(** [process] on a GET request for a file. *)
Lemma get_file_answer (s : server DB) p hs0 rest st a b :
  let c := conn (hs s) in
  fresh c (request_text p hs0) rest -> prepared c ->
  line_ok p -> eol_free (line_text p) -> Forall header_line_ok hs0 -> length_of 0 hs0 = 0 ->
  lp_post p = false -> cgi c = 0 -> m_linger c = false ->
  target_of (lp_path p) = a ++ "/"%char :: b -> "/"%char ∉ b -> page_of (first_of b) = None ->
  let path := path_of (doc_root c) (target_of (lp_path p)) in
  stat path = Some st -> Z.land (st_mode st) S_IROTH <> 0 -> S_ISDIR (st_mode st) = false ->
  0 < st_size st ->
  let head := head_text 200 ok_200_title (st_size st) (linger_of false hs0) in
  exists s', process mysql_query stat mmap t s = Ok (tt, s') /\
    calls s' = calls s ++ [EpollMod (m_sokcfd c) (mod_events EPOLLOUT (m_TRIGMode c))] /\
    holds (conn (hs s')) head /\
    m_iv (conn (hs s')) = [ {| iov_base := IovWriteBuf; iov_len := Z.of_nat (length head) |};
      {| iov_base := IovFile (mmap path (st_size st)); iov_len := st_size st |} ] /\
    m_iv_count (conn (hs s')) = 2 /\ glob (hs s') = glob (hs s) /\ m_user_count s' = m_user_count s /\
    improv (conn (hs s')) = improv c /\ timer_flag (conn (hs s')) = timer_flag c.
Proof.
  intros c Hfr [Hready Hfile [Hroot Hrl]] Hok Hfree Hhs Hlen Hpost Hcgi Hlin Et Hb Hpage path Hst Hrd Hdir Hsz head.
  destruct (request_parsed mysql_query stat mmap t (hs s) p hs0 rest Hfr Hok Hfree Hhs Hlen)
    as (c1 & Hread & [Pm Pc Pl _ (u & pre & post & Pu & -> & Pb) Pf]).
  assert (plain (target_of (lp_path p))) as Hpt by (apply target_of_plain, Hok).
  rewrite Et in Pb, Hpt.
  assert (m_real_file c1 = m_real_file c /\ doc_root c1 = doc_root c /\ m_sokcfd c1 = m_sokcfd c /\
    m_TRIGMode c1 = m_TRIGMode c /\ m_write_buf c1 = m_write_buf c /\ m_write_idx c1 = m_write_idx c /\
    m_iv c1 = m_iv c /\ improv c1 = improv c /\ timer_flag c1 = timer_flag c)
    as (F1 & F2 & F3 & F4 & F5 & F6 & F7 & F8 & F9).
  { fold c in Pf. rewrite Pf. split_and!; reflexivity. }
  destruct (plain_request_answer mysql_query stat mmap t ((hs s) <| conn := c1 |>) pre a b post)
    as (rf & Hdo & _).
  { split; cbn [conn set]; rewrite ?F1, ?F2; try done. lia. }
  { left. cbn [conn set]. rewrite Pc, Hpost. fold c. rewrite Hcgi. done. }
  { cbn [conn set]. by rewrite F2. }
  rewrite Hpage in Hdo. cbn [conn set] in Hdo. rewrite F2, <- Et in Hdo. fold path in Hdo.
  assert (file_code stat path = FILE_REQUEST) as Hcode.
  { unfold file_code. rewrite Hst, (proj2 (Z.eqb_neq _ _)), Hdir by done. done. }
  assert (file_opened stat mmap path (c1 <| m_real_file := rf |>) =
    c1 <| m_real_file := rf |> <| m_file_stat := st |> <| m_file_address := mmap path (st_size st) |>) as Ec2.
  { unfold file_opened. rewrite Hst, Hcode, bool_decide_eq_true_2 by done. done. }
  rewrite <- Hread, Hcode, Ec2 in Hdo.
  destruct (file_request_answer s _ Hdo) as (s' & Hrun & H1 & H2 & H3 & H4 & H5 & H6 & H7 & H8).
  { unfold ready. cbn [conn m_write_idx m_write_buf m_iv set]. rewrite F5, F6, F7. exact Hready. }
  { done. }
  cbn [conn m_file_stat m_linger m_file_address m_sokcfd m_TRIGMode improv timer_flag glob set] in *.
  rewrite Pl in H2, H3. fold c in H2, H3. rewrite Hlin in H2, H3. exists s'. split; [exact Hrun|].
  rewrite H1, H3, H4, H7, H8, F3, F4. split_and!; done.
Qed.

(** A POST of the form that the digit [d] selects: 2 logs in, 3 registers. *)
Record posts_form (d : ascii) (root : list ascii) (p : line_parts) (hs0 : list header) (name password : list ascii) : Prop := {
  pl_line : line_ok p /\ eol_free (line_text p) /\ lp_post p = true;
  pl_headers : Forall header_line_ok hs0 /\ length_of 0 hs0 = Z.of_nat (length (form_text name password));
  pl_target : first_of (lp_path p) = d /\ "/"%char ∉ lp_path p /\ (2 <= length (lp_path p) < 199)%nat;
  pl_root : Z.of_nat (length root) + 19 < FILENAME_LEN;
  pl_name : plain name /\ "&"%char ∉ name /\ (length name < 100)%nat;
  pl_password : plain password /\ (length password < 100)%nat
}.

Lemma form_submits d c p hs0 name password rest c' pre mid :
  prepared c -> posts_form d (doc_root c) p hs0 name password -> parsed c p hs0 c' ->
  m_url c' = PBuf (Z.of_nat (length pre)) ->
  m_string c' = PBuf (Z.of_nat (length (pre ++ target_of (lp_path p) ++ NUL :: mid))) ->
  m_read_buf c' = pre ++ target_of (lp_path p) ++ NUL :: mid ++ form_text name password ++ NUL :: rest ->
  (lp_path p <> [] -> (10 + length (header_lines hs0) <= length mid)%nat) ->
  submits c' pre (lp_path p) mid name password rest.
Proof.
  intros [_ Hfile [Hroot _]] [(L1 & _ & L3) (G1 & G2) (T1 & T2 & T3) Hr Hn Hp] [_ Pc _ _ _ Pf] Hu Hs Eb Hmid.
  assert (lp_path p <> []) as Hne by (intros E; rewrite E in T3; simpl in T3; lia).
  assert (target_of (lp_path p) = "/"%char :: lp_path p) as Et by (unfold target_of; by rewrite bool_decide_eq_false_2).
  rewrite Et in Hs, Eb. specialize (Hmid Hne). unfold only_parse in Pf.
  assert (15 <= length (header_lines hs0))%nat.
  { apply header_lines_long; [eapply Forall_impl; [exact G1|by intros ? []]|]. rewrite G2. unfold form_text.
    rewrite !length_app. simpl. lia. }
  assert (doc_root c' = doc_root c /\ m_real_file c' = m_real_file c) as [E1 E2] by (by rewrite Pf).
  split; rewrite ?E1, ?E2; try done.
  - by rewrite Pc, L3.
  - destruct L1 as (_ & _ & _ & _ & _ & _ & [_ Hw]%plain_cons & _). exact (conj Hw (conj T2 T3)).
  - cbn [app length]. rewrite length_app. simpl. lia.
Qed.

(** [process] on a submitted form whose result is known. *)
Lemma form_request_answer (s : server DB) d p hs0 name password x rest st page g' :
  let c := conn (hs s) in
  fresh c (request_text p hs0) (form_text name password ++ x :: rest) -> prepared c ->
  posts_form d (doc_root c) p hs0 name password -> m_linger c = false ->
  Z.of_nat (length (request_text p hs0) + length (form_text name password)) <= m_read_idx c -> NUL ∈ x :: rest ->
  (forall c1 pre mid, submits c1 pre (lp_path p) mid name password rest -> mysql c1 = mysql c ->
     let h1 := {| conn := c1; glob := glob (hs s) |} in
     exists code h, do_request mysql_query stat mmap t h1 = Ok (code, h) /\ glob h = g' /\
       answered stat mmap h1 h page code) ->
  let path := doc_root c ++ lit page in
  stat path = Some st -> Z.land (st_mode st) S_IROTH <> 0 -> S_ISDIR (st_mode st) = false -> 0 < st_size st ->
  let head := head_text 200 ok_200_title (st_size st) (linger_of false hs0) in
  exists s', process mysql_query stat mmap t s = Ok (tt, s') /\
    calls s' = calls s ++ [EpollMod (m_sokcfd c) (mod_events EPOLLOUT (m_TRIGMode c))] /\
    holds (conn (hs s')) head /\
    m_iv (conn (hs s')) = [ {| iov_base := IovWriteBuf; iov_len := Z.of_nat (length head) |};
      {| iov_base := IovFile (mmap path (st_size st)); iov_len := st_size st |} ] /\
    m_iv_count (conn (hs s')) = 2 /\ glob (hs s') = g' /\ m_user_count s' = m_user_count s /\
    improv (conn (hs s')) = improv c /\ timer_flag (conn (hs s')) = timer_flag c.
Proof.
  intros c Hfr Hpr Hpl Hlin Hrd Hnul Hrun1 path Hst Hmode Hdir Hsz head.
  pose proof Hpl as [(L1 & L2 & L3) (G1 & G2) _ _ _ _].
  destruct (form_parsed mysql_query stat mmap t (hs s) p hs0 (form_text name password) x rest)
    as (c1 & pre & mid & Hread & Hp & Hu & Hs & Eb & Hmid); try done.
  { apply elem_of_app. by right. }
  fold c in Hp.
  pose proof (form_submits d c p hs0 name password rest c1 pre mid Hpr Hpl Hp Hu Hs Eb Hmid) as Hsub.
  destruct Hp as [_ _ Pl _ _ Pf]. fold c in Pf. rewrite Hlin in Pl. unfold only_parse in Pf.
  destruct (Hrun1 c1 pre mid Hsub) as (code & h & Hdo & Hg & Hcode & buf & rf & Hc); [by rewrite Pf|].
  cbn [conn glob] in Hcode, Hc.
  assert (doc_root c1 = doc_root c) as Er by (by rewrite Pf). rewrite Er in Hcode, Hc. fold path in Hcode, Hc.
  assert (code = FILE_REQUEST) as ->.
  { rewrite Hcode. unfold file_code. by rewrite Hst, (proj2 (Z.eqb_neq _ _)), Hdir. }
  change ((hs s) <| conn := c1 |>) with {| conn := c1; glob := glob (hs s) |} in Hread.
  rewrite <- Hread in Hdo. assert (conn h = c1 <| m_read_buf := buf |> <| m_real_file := rf |> <| m_file_stat := st |>
    <| m_file_address := mmap path (st_size st) |>) as Eh.
  { rewrite Hc. unfold file_opened. by rewrite Hst, <- Hcode, bool_decide_eq_true_2. }
  destruct (file_request_answer s h Hdo) as (s' & Hrun & H1 & H2 & H3 & H4 & H5 & H6 & H7 & H8).
  { rewrite Eh. unfold ready. cbn [m_write_idx m_write_buf m_iv set]. rewrite Pf. apply Hpr. }
  { by rewrite Eh. }
  rewrite Eh in H1, H2, H3, H7, H8. cbn [m_file_stat m_linger m_file_address m_sokcfd m_TRIGMode improv timer_flag set] in *.
  rewrite Pl in H2, H3. rewrite Pf in H1, H7, H8.
  exists s'. split; [exact Hrun|]. rewrite H1, H5. by split_and!.
Qed.

(** the whole way of a GET request: for any well-formed request without a
    body in the buffer of a prepared connection, naming a readable, non-empty
    regular file, [process] leaves the 200 answer with the headers in the
    write buffer and the mapped file as second [iovec], and its only system
    call re-arms the socket for writing. *)
Theorem get_file_served (s : server DB) p hs0 rest st a b :
  let c := conn (hs s) in
  fresh c (request_text p hs0) rest -> prepared c ->
  line_ok p -> eol_free (line_text p) -> Forall header_line_ok hs0 -> length_of 0 hs0 = 0 ->
  lp_post p = false -> cgi c = 0 -> m_linger c = false ->
  target_of (lp_path p) = a ++ "/"%char :: b -> "/"%char ∉ b -> page_of (first_of b) = None ->
  let path := path_of (doc_root c) (target_of (lp_path p)) in
  stat path = Some st -> Z.land (st_mode st) S_IROTH <> 0 -> S_ISDIR (st_mode st) = false ->
  0 < st_size st ->
  let head := head_text 200 ok_200_title (st_size st) (linger_of false hs0) in
  exists s', process mysql_query stat mmap t s = Ok (tt, s') /\
    calls s' = calls s ++ [EpollMod (m_sokcfd c) (mod_events EPOLLOUT (m_TRIGMode c))] /\
    holds (conn (hs s')) head /\
    m_iv (conn (hs s')) = [ {| iov_base := IovWriteBuf; iov_len := Z.of_nat (length head) |};
      {| iov_base := IovFile (mmap path (st_size st)); iov_len := st_size st |} ] /\
    m_iv_count (conn (hs s')) = 2 /\ glob (hs s') = glob (hs s).
Proof.
  intros c Hfr Hpr Hok Hfree Hhs Hlen Hpost Hcgi Hlin Et Hb Hpage path Hst Hrd Hdir Hsz head.
  destruct (get_file_answer s p hs0 rest st a b Hfr Hpr Hok Hfree Hhs Hlen Hpost Hcgi Hlin Et Hb Hpage Hst Hrd Hdir Hsz)
    as (s' & ? & ? & ? & ? & ? & ? & _). exists s'. by split_and!.
Qed.

(** Closing is idempotent: a second [close_conn] makes no call and does not
    count the connection down again. *)
Theorem close_conn_once (s s' : server DB) :
  close_conn true s = Ok (tt, s') ->
  close_conn true s' = Ok (tt, s') /\
  (m_sokcfd (conn (hs s)) <> -1 ->
   m_user_count s' = m_user_count s - 1 /\
   calls s' = calls s ++ [EpollDel (m_sokcfd (conn (hs s))); Close (m_sokcfd (conn (hs s)))]).
Proof.
  unfold close_conn, mbind, ST_bind, get. cbv zeta. cbn [andb].
  destruct (Z.eqb_spec (m_sokcfd (conn (hs s))) (-1)) as [E|Hne]; cbn [negb].
  - intros [= <-]. rewrite E. by split.
  - intros [= <-]. split; done.
Qed.

(** When no answer could be produced the socket is closed, and [process] then
    re-arms the descriptor -1. *)
Theorem failed_answer_rearms_closed_fd (s : server DB) ret h c' :
  process_read mysql_query stat mmap t (hs s) = Ok (ret, h) -> ret <> NO_REQUEST ->
  process_write ret (conn h) = Ok (false, c') -> m_sokcfd c' <> -1 ->
  exists s', process mysql_query stat mmap t s = Ok (tt, s') /\
    calls s' = calls s ++ [EpollDel (m_sokcfd c'); Close (m_sokcfd c');
                           EpollMod (-1) (mod_events EPOLLOUT (m_TRIGMode c'))].
Proof.
  intros Hr Hne Hw Hfd. eexists. split.
  - unfold process. st_step (apply zoom_ok; exact Hr). rewrite bool_decide_eq_false_2 by done.
    st_step (apply zoom_ok, zoom_ok; exact Hw). rewrite (ST_bind_step _ _ _ tt
      ({| hs := h <| conn := c' <| m_sokcfd := -1 |> |>; m_user_count := m_user_count s - 1;
          calls := calls s ++ [EpollDel (m_sokcfd c'); Close (m_sokcfd c')] |})).
    + st_step reflexivity. reflexivity.
    + unfold close_conn. st_step reflexivity. cbn [hs conn set andb].
      rewrite (proj2 (Z.eqb_neq _ _)) by done. reflexivity.
  - cbn [calls]. by rewrite <- app_assoc.
Qed.

(** A malformed line end is not an error of the request: [process_read] says
    that the request is incomplete, and the server waits for more data. *)
Theorem bad_line_waits (h : hstate DB) c' :
  m_check_state (conn h) <> CHECK_STATE_CONTENT -> parse_line (conn h) = Ok (LINE_BAD, c') ->
  process_read mysql_query stat mmap t h = Ok (NO_REQUEST, h <| conn := c' |>).
Proof.
  intros Hst Hp. unfold process_read, mbind, ST_bind at 1, get. cbn [process_read_loop].
  st_step reflexivity. rewrite (bool_decide_eq_false_2 (_ = CHECK_STATE_CONTENT)) by done. cbn [andb].
  st_step (apply zoom_ok; exact Hp). by rewrite bool_decide_eq_true_2.
Qed.

(** The new socket is registered by the trigger mode of the object's previous
    use, not by the mode that [init] is given. *)
Theorem init_registers_stale_mode (s s' : server DB) fd addr root mode cl user pw name :
  init fd addr root mode cl user pw name s = Ok (tt, s') ->
  calls s' = calls s ++ [EpollAdd fd (add_events true (m_TRIGMode (conn (hs s)))); SetNonblock fd] /\
  m_TRIGMode (conn (hs s')) = mode /\ m_user_count s' = m_user_count s + 1.
Proof.
  unfold init. intros H.
  apply ST_bind_ok in H as (? & s1 & [= <- <-] & H). apply ST_bind_ok in H as (? & ? & [= <- <-] & H).
  apply ST_bind_ok in H as (? & s2 & [= <- <-] & H). apply ST_bind_ok in H as (? & s3 & [= <- <-] & H).
  apply ST_bind_ok in H as (? & s4 & [= <- <-] & H). apply ST_bind_ok in H as (? & ? & [= <- <-] & H).
  do 3 (apply ST_bind_ok in H as (? & ? & Hl & H); apply lift_inv in Hl as [_ ->]).
  apply ST_bind_ok in H as (? & s5 & [= <- <-] & H). injection H as <-.
  cbn [calls hs conn m_TRIGMode m_user_count set]. rewrite <- app_assoc. done.
Qed.

(** ** Loading the table of users *)

Definition add_row (us : gmap (list ascii) (list ascii)) (r : list ascii * list ascii) :=
  <[r.1 := r.2]> us.

Lemma store_rows_ok rows : forall us,
  store_rows (map (fun r => (Some r.1, Some r.2)) rows) us = Ok (foldl add_row us rows).
Proof. induction rows as [|r rows IH]; intros us; [done|]. simpl. by rewrite <- IH. Qed.

Lemma add_rows_last rows us n p : (n, p) ∈ rows -> NoDup rows.*1 -> foldl add_row us rows !! n = Some p.
Proof.
  revert us. induction rows as [|[n' p'] rows IH]; intros us Hin Hnd; [by apply not_elem_of_nil in Hin|].
  apply NoDup_cons in Hnd as [Hn Hnd]. simpl. apply elem_of_cons in Hin as [[= <- <-]|Hin]; [|by apply IH].
  clear IH. assert (forall us, us !! n = Some p -> foldl add_row us rows !! n = Some p) as Hkeep.
  { clear us. induction rows as [|[n2 p2] rows IH2]; intros us Hu; [done|]. simpl.
    apply not_elem_of_cons in Hn as [Hne Hn]. apply NoDup_cons in Hnd as [_ Hnd].
    apply IH2; [done|done|]. unfold add_row. simpl. by rewrite lookup_insert_ne by done. }
  apply Hkeep. unfold add_row. simpl. by rewrite lookup_insert_eq.
Qed.

(** [initmysql_result] loads the table of users: every row of the result
    set (with distinct names) is found in the map afterwards, the entries of
    other names are kept, and the connection it borrowed is back in the pool. *)
Theorem users_loaded mysql_store_result (b : boot DB) c l rows :
  sql_connection_pool.connList (bpool b) = c :: l ->
  locker.m_mutex (sql_connection_pool.lock (bpool b)) = None ->
  0 < sem.m_sem (sql_connection_pool.reserve (bpool b)) <= SEM_VALUE_MAX ->
  (forall d, mysql_store_result (Some c) d = Some (map (fun r => (Some r.1, Some r.2)) rows)) ->
  NoDup rows.*1 ->
  exists b', initmysql_result mysql_query mysql_store_result t false b = Ok (tt, b') /\
    (forall n p, (n, p) ∈ rows -> users (bglob b') !! n = Some p) /\
    (forall n, n ∉ rows.*1 -> users (bglob b') !! n = users (bglob b) !! n) /\
    bpool b' = (bpool b) <| sql_connection_pool.connList := l ++ [c] |>.
Proof.
  intros Hl Hm Hs Hrows Hnd.
  destruct (sql_connection_pool.raii_balance t (bpool b) c l Hl Hm Hs) as (p1 & r & Hget & _ & Hput).
  destruct (mysql_query (Some c) select_users (db (bglob b))) as [code db'] eqn:Hq.
  eexists. split.
  { unfold initmysql_result. st_step (apply zoom_ok; exact Hget). cbv iota. st_step reflexivity.
    cbn [bglob set]. rewrite Hq. cbv iota zeta. st_step reflexivity. rewrite Hrows.
    st_step (apply lift_ok, store_rows_ok). st_step reflexivity.
    st_step (apply zoom_ok; exact Hput). reflexivity. }
  cbn [bglob bpool users set]. split_and!; [|clear -b; intros n Hn|done].
  - intros n p Hin. by apply add_rows_last.
  - generalize (users (bglob b)). induction rows as [|[n2 p2] rows IH]; intros us; [done|]. simpl.
    apply not_elem_of_cons in Hn as [Hne Hn]. rewrite IH by done. unfold add_row. simpl.
    by rewrite lookup_insert_ne by done.
Qed.
End end_to_end.

(** ** The theorems at concrete connections *)

Definition sample_reading : reading :=
  {| rconn := (sample_conn (lit "GE")) <| m_TRIGMode := 1 |>;
     rsock := {| pieces := [lit "T /"; lit " HTTP/1.1"]; after := WouldBlock |} |}.

Lemma read_once_edge_witness :
  exists k', read_once sample_reading =
    Ok (true, {| rconn := arrived (rconn sample_reading) (lit "GE") (lit "T / HTTP/1.1") (replicate 2046 NUL);
                 rsock := k' |}).
Proof.
  destruct (read_once_edge sample_reading (lit "GE") (replicate 2046 NUL)) as (k' & H).
  - split_and!; by_eval.
  - by_decide.
  - by_eval.
  - by_eval.
  - exists k'. exact H.
Defined.

Definition sample_server : server unit :=
  {| hs := sample_state sample_request; m_user_count := 1; calls := [] |}.

Lemma get_file_served_witness :
  exists s', process sample_query sample_stat sample_mmap 1%nat sample_server = Ok (tt, s') /\
    calls s' = [EpollMod 7 (mod_events EPOLLOUT 0)] /\ m_iv_count (conn (hs s')) = 2.
Proof.
  destruct (get_file_served sample_query sample_stat sample_mmap 1%nat sample_server sample_line
    sample_headers (replicate (2048 - length sample_request) NUL) {| st_mode := 33188; st_size := 12 |}
    [] (lit "index.html")) as (s' & Hrun & Hcalls & _ & _ & Hn & _).
  - pose proof (sample_fresh sample_request []) as H. rewrite !app_nil_r in H. by apply H.
  - split; [by_eval|by_eval|split; by_decide || by_eval].
  - split_and!; by_decide.
  - by_decide.
  - apply Forall_forall. intros h Hh. apply sample_header_ok. set_solver.
  - by_eval.
  - by_eval.
  - by_eval.
  - by_eval.
  - reflexivity.
  - by_decide.
  - by_eval.
  - by_eval.
  - by_eval.
  - by_eval.
  - by_eval.
  - exists s'. split; [exact Hrun|]. split; [exact Hcalls|exact Hn].
Defined.
  
Definition sample_boot : boot unit :=
  {| bpool := sql_connection_pool.sample_pool; bglob := glob (sample_state []) |}.

Lemma users_loaded_witness :
  exists b', initmysql_result sample_query (fun _ _ => Some [(Some (lit "ann"), Some (lit "pw"))])
      1%nat false sample_boot = Ok (tt, b') /\
    users (bglob b') !! lit "ann" = Some (lit "pw").
Proof.
  destruct (users_loaded sample_query 1%nat
    (fun _ _ => Some [(Some (lit "ann"), Some (lit "pw"))]) sample_boot 11 [12] [(lit "ann", lit "pw")])
    as (b' & Hrun & Hu & _).
  - reflexivity.
  - reflexivity.
  - done.
  - reflexivity.
  - by_decide.
  - exists b'. split; [exact Hrun|]. apply Hu. by left.
Defined.
