(* ===== verification/HttpTerm.v ===== *)
(** * HttpTerm: the operations of a connection keep its shape and return

    The arrays of an [http_conn] keep their sizes and its indices stay ordered
    and in bounds under every operation, and the loops of [process_read] and
    [read_once] end within the fuel that the model gives them.  The argument is
    a small program logic: [keeps_at R m s] says that [m], run in [s], does not
    run out of fuel and relates [s] to the state it returns. *)

From Stdlib Require Import Ascii String.
From S2P Require Import Prelude Locker CStr HttpConn HttpRequest HttpParse HttpResponse HttpServe.

(** ** The logic *)

Section keeps.
Context {S : Type} (R : S -> S -> Prop) `{!PreOrder R}.

Definition keeps_at {A} (m : ST S A) (s : S) : Prop :=
  match m s with Ok (_, s') => R s s' | Halt h => h <> Diverges end.

Lemma keeps_ret {A} (a : A) s : keeps_at (mret a) s.
Proof. unfold keeps_at. cbn. reflexivity. Qed.

Lemma keeps_throw {A} h s : h <> Diverges -> keeps_at (A := A) (throw h) s.
Proof. done. Qed.

Lemma keeps_lift {A} (m : res A) s : m <> Halt Diverges -> keeps_at (lift m) s.
Proof. unfold keeps_at, lift. destruct m; [by intros|]. congruence. Qed.

Lemma keeps_modify f s : R s (f s) -> keeps_at (modify f) s.
Proof. done. Qed.

Lemma keeps_bind {A B} (m : ST S A) (f : A -> ST S B) s :
  keeps_at m s -> (forall a s', m s = Ok (a, s') -> R s s' -> keeps_at (f a) s') -> keeps_at (m ≫= f) s.
Proof.
  unfold keeps_at, mbind, ST_bind. destruct (m s) as [[a s']|h]; [|done].
  intros HR Hf. specialize (Hf a s' eq_refl HR). destruct (f a s') as [[b s'']|]; [|done]. by etransitivity.
Qed.

Lemma keeps_bind_get {B} (f : S -> ST S B) s : keeps_at (f s) s -> keeps_at (get ≫= f) s.
Proof. done. Qed.

Lemma keeps_bind_lift {A B} (m : res A) (f : A -> ST S B) s :
  m <> Halt Diverges -> (forall a, m = Ok a -> keeps_at (f a) s) -> keeps_at (lift m ≫= f) s.
Proof.
  unfold keeps_at, mbind, ST_bind, lift. destruct m as [a|]; [|congruence]. intros _ Hf. by apply Hf.
Qed.
End keeps.

Lemma keeps_zoom {S T A} (R : S -> S -> Prop) (Q : T -> T -> Prop) view upd (m : ST T A) s :
  keeps_at Q m (view s) -> (forall t, Q (view s) t -> R s (upd t s)) -> keeps_at R (zoom view upd m) s.
Proof. unfold keeps_at, zoom. destruct (m (view s)) as [[a t]|]; [|done]. eauto. Qed.

(** ** The string functions end *)

Create HintDb ends discriminated.

Lemma ends_bind {A B} (m : res A) (f : A -> res B) :
  m <> Halt Diverges -> (forall a, f a <> Halt Diverges) -> m ≫= f <> Halt Diverges.
Proof. destruct m as [a|h]; [intros _ Hf; apply Hf|]. intros Hm _ [= ->]; done. Qed.

Ltac ends_step :=
  match goal with
  | |- Ok _ <> Halt Diverges => discriminate
  | |- Halt _ <> Halt Diverges => discriminate
  | |- _ ≫= _ <> Halt Diverges => apply ends_bind; [|intros]
  | |- (if ?b then _ else _) <> _ => destruct b
  | |- match ?x with _ => _ end <> _ => destruct x
  | _ => solve [eauto with ends]
  end.

Ltac ends := cbn -[Z.eqb Z.leb Z.ltb]; repeat ends_step.

Lemma cstr_ends l : cstr l <> Halt Diverges.
Proof. induction l; ends; done. Qed.
#[export] Hint Resolve cstr_ends : ends.

Lemma cstrn_ends n : forall l, cstrn n l <> Halt Diverges.
Proof. induction n; intros []; ends; done. Qed.
#[export] Hint Resolve cstrn_ends : ends.

Lemma strlen_ends l : strlen l <> Halt Diverges.
Proof. unfold strlen. ends. Qed.
#[export] Hint Resolve strlen_ends : ends.

Lemma strpbrk_ends accept l : strpbrk accept l <> Halt Diverges.
Proof. induction l; ends; done. Qed.
#[export] Hint Resolve strpbrk_ends : ends.

Lemma strchr_ends c l : strchr c l <> Halt Diverges.
Proof. apply strpbrk_ends. Qed.

Lemma strspn_ends accept l : strspn accept l <> Halt Diverges.
Proof. induction l; ends; done. Qed.

Lemma strrchr_ends c l : strrchr c l <> Halt Diverges.
Proof. unfold strrchr. ends. Qed.

Lemma strcasecmp_ends s : forall l, strcasecmp_eq l s <> Halt Diverges.
Proof. induction s; intros []; ends; done. Qed.

Lemma strncasecmp_ends n : forall l s, strncasecmp_eq n l s <> Halt Diverges.
Proof. induction n; intros [] []; ends; done. Qed.

Lemma atol_ends l : atol l <> Halt Diverges.
Proof. unfold atol. ends. Qed.

Lemma from_ends b p : from b p <> Halt Diverges.
Proof. unfold from. ends. Qed.
#[export] Hint Resolve from_ends : ends.

Lemma blit_ends b p s : blit b p s <> Halt Diverges.
Proof. unfold blit. ends. Qed.
#[export] Hint Resolve blit_ends : ends.

Lemma strcpy_ends b p s : strcpy b p s <> Halt Diverges.
Proof. apply blit_ends. Qed.
#[export] Hint Resolve strcpy_ends : ends.

Lemma strcat_ends b p s : strcat b p s <> Halt Diverges.
Proof. unfold strcat. ends. Qed.

Lemma strncpy_ends b p s n : strncpy b p s n <> Halt Diverges.
Proof. apply blit_ends. Qed.

Lemma vsnprintf_ends b p n s : vsnprintf b p n s <> Halt Diverges.
Proof. unfold vsnprintf. ends. Qed.

Lemma rd_ends {A} (a : list A) i : rd a i <> Halt Diverges.
Proof. unfold rd, of_option. ends. Qed.

Lemma wr_ends {A} (a : list A) i v : wr a i v <> Halt Diverges.
Proof. unfold wr. ends. Qed.

Lemma ptr_off_ends p : ptr_off p <> Halt Diverges.
Proof. unfold ptr_off. ends. Qed.

Lemma copy_until_ends stop l : forall room, copy_until stop room l <> Halt Diverges.
Proof. induction l; intros []; ends; done. Qed.
#[export] Hint Resolve strchr_ends strspn_ends strrchr_ends strcasecmp_ends strncasecmp_ends atol_ends
  strcat_ends strncpy_ends vsnprintf_ends rd_ends wr_ends ptr_off_ends copy_until_ends : ends.

(** ** ... and keep the size of the array they write to *)

Lemma strcpy_size b p s b' : strcpy b p s = Ok b' -> length b' = length b.
Proof. apply blit_length. Qed.

Lemma strcat_size b p s b' : strcat b p s = Ok b' -> length b' = length b.
Proof.
  unfold strcat. intros H. apply res_bind_ok in H as (l & _ & H). apply res_bind_ok in H as (n & _ & H).
  by eapply strcpy_size.
Qed.

Lemma strncpy_size b p s n b' : strncpy b p s n = Ok b' -> length b' = length b.
Proof. apply blit_length. Qed.

Lemma vsnprintf_size b p n s b' : vsnprintf b p n s = Ok b' -> length b' = length b.
Proof. unfold vsnprintf. case_match; [by intros [= <-]|]. apply blit_length. Qed.

Lemma wr_size {A} (a : list A) i v a' : wr a i v = Ok a' -> length a' = length a.
Proof. intros H. by apply wr_inv in H as (_ & _ & ?). Qed.

Create HintDb sizes discriminated.
#[export] Hint Resolve blit_length strcpy_size strcat_size strncpy_size vsnprintf_size wr_size : sizes.

(** ** What the parsers and the writers leave alone *)

Record same_shape (c c' : http_conn) : Prop := {
  ss_read_buf : length (m_read_buf c') = length (m_read_buf c);
  ss_write_buf : length (m_write_buf c') = length (m_write_buf c);
  ss_real_file : length (m_real_file c') = length (m_real_file c);
  ss_iv : length (m_iv c') = length (m_iv c);
  ss_read_idx : m_read_idx c' = m_read_idx c;
  ss_checked_idx : m_checked_idx c' = m_checked_idx c;
  ss_start_line : m_start_line c' = m_start_line c;
  ss_write_idx : 0 <= m_write_idx c <= WRITE_BUFFER_SIZE -> 0 <= m_write_idx c' <= WRITE_BUFFER_SIZE
}.

#[export] Instance same_shape_preorder : PreOrder same_shape.
Proof.
  split; [by intros c; split|]. intros c1 c2 c3 [] []. split; try congruence. auto.
Qed.

Create HintDb keeps discriminated.

Ltac shape :=
  constructor; cbn; intros; first [done | solve [eauto with sizes] | lia].

Lemma keeps_bind_modify {S B} (R : S -> S -> Prop) `{!PreOrder R} g (f : unit -> ST S B) s :
  R s (g s) -> keeps_at R (f tt) (g s) -> keeps_at R (modify g ≫= f) s.
Proof. intros HR Hf. apply keeps_bind; [done|done|]. intros [] s' [= <-] _. exact Hf. Qed.

Ltac keeps_step :=
  match goal with
  | |- keeps_at _ (mret _) _ => apply keeps_ret; apply _
  | |- keeps_at _ (throw _) _ => apply keeps_throw; discriminate
  | |- keeps_at _ (get ≫= _) _ => apply keeps_bind_get
  | |- keeps_at _ (lift _ ≫= _) _ => apply keeps_bind_lift; [solve [ends]|intros]
  | |- keeps_at _ (modify _ ≫= _) _ => apply keeps_bind_modify; [apply _|repeat case_match; shape|]
  | |- keeps_at _ (modify _) _ => apply keeps_modify; repeat case_match; shape
  | |- keeps_at _ (lift _) _ => apply keeps_lift; [apply _|ends]
  | |- keeps_at _ (if ?b then _ else _) _ => destruct b eqn:?
  | |- keeps_at _ (match ?x with _ => _ end) _ => destruct x eqn:?
  | |- keeps_at _ (_ ≫= _) _ => apply keeps_bind; [apply _| |intros]
  | _ => solve [auto with keeps]
  end.
Ltac keeps := cbv zeta; repeat (keeps_step; cbv zeta beta).

Lemma text_at_keeps p c : keeps_at same_shape (text_at p) c.
Proof.
  unfold keeps_at, text_at. pose proof (from_ends (m_read_buf c) p).
  destruct (from _ _); [reflexivity|congruence].
Qed.

Lemma read_char_keeps p c : keeps_at same_shape (read_char p) c.
Proof.
  unfold keeps_at, read_char. pose proof (rd_ends (m_read_buf c) p).
  destruct (rd _ _); [reflexivity|congruence].
Qed.

Lemma write_char_keeps p x c : keeps_at same_shape (write_char p x) c.
Proof.
  unfold keeps_at, write_char. pose proof (wr_ends (m_read_buf c) p x).
  destruct (wr _ _ _) eqn:E; [shape|congruence].
Qed.
#[export] Hint Resolve text_at_keeps read_char_keeps write_char_keeps : keeps.

Lemma print_text_keeps p c : keeps_at same_shape (print_text p) c.
Proof. unfold print_text. keeps. Qed.
#[export] Hint Resolve print_text_keeps : keeps.

Lemma log_text_keeps p c : keeps_at same_shape (log_text p) c.
Proof. unfold log_text. keeps. Qed.
#[export] Hint Resolve log_text_keeps : keeps.

Lemma skip_scheme_keeps scheme n url c : keeps_at same_shape (skip_scheme scheme n url) c.
Proof. unfold skip_scheme. keeps. Qed.
#[export] Hint Resolve skip_scheme_keeps : keeps.

Lemma parse_target_keeps u c : keeps_at same_shape (parse_target u) c.
Proof. unfold parse_target. keeps. Qed.
#[export] Hint Resolve parse_target_keeps : keeps.

Lemma parse_request_line_keeps p c : keeps_at same_shape (parse_request_line p) c.
Proof. unfold parse_request_line. keeps. Qed.

Lemma parse_headers_keeps p c : keeps_at same_shape (parse_headers p) c.
Proof. unfold parse_headers. keeps. Qed.

Lemma parse_content_keeps p c : keeps_at same_shape (parse_content p) c.
Proof. unfold parse_content. keeps. Qed.
#[export] Hint Resolve parse_request_line_keeps parse_headers_keeps parse_content_keeps : keeps.

Lemma log_write_buf_keeps c : keeps_at same_shape log_write_buf c.
Proof. unfold log_write_buf. keeps. Qed.
#[export] Hint Resolve log_write_buf_keeps : keeps.

Lemma add_response_keeps text c : keeps_at same_shape (add_response text) c.
Proof. unfold add_response. keeps. Qed.
#[export] Hint Resolve add_response_keeps : keeps.

Lemma add_headers_keeps n c : keeps_at same_shape (add_headers n) c.
Proof. unfold add_headers, and_then, add_content_length, add_linger, add_blank_line. keeps. Qed.
#[export] Hint Resolve add_headers_keeps : keeps.

Lemma set_iov_keeps i v c : keeps_at same_shape (set_iov i v) c.
Proof. unfold set_iov. keeps. Qed.
#[export] Hint Resolve set_iov_keeps : keeps.

Lemma process_write_keeps ret c : keeps_at same_shape (process_write ret) c.
Proof.
  unfold process_write, add_error, send_buffer, add_status_line, add_content. destruct ret; keeps.
Qed.

(** ** The request handler *)

Section handler.
Context {DB : Type}
  (mysql_query : option Z -> list ascii -> DB -> Z * DB)
  (stat : list ascii -> option file_stat)
  (mmap : list ascii -> Z -> faddr).

Definition same_conn (s s' : hstate DB) : Prop := same_shape (conn s) (conn s').

#[local] Instance same_conn_preorder : PreOrder same_conn.
Proof. split; [by intros s; unfold same_conn|]. unfold same_conn. intros ???. apply transitivity. Qed.

Lemma on_conn_keeps {A} (m : ST http_conn A) s :
  keeps_at same_shape m (conn s) -> keeps_at same_conn (on_conn m) s.
Proof. intros H. by apply (keeps_zoom _ same_shape). Qed.

Lemma on_glob_keeps {A} (m : ST (globals DB) A) s :
  keeps_at (fun _ _ => True) m (glob s) -> keeps_at same_conn (on_glob m) s.
Proof. intros H. apply (keeps_zoom _ (fun _ _ => True)); [done|]. intros g _. unfold same_conn. cbn. reflexivity. Qed.

Lemma on_lock_keeps t s : keeps_at same_conn (on_lock (locker.lock t)) s.
Proof.
  apply on_glob_keeps, (keeps_zoom _ (fun _ _ => True)); [|done].
  unfold keeps_at, locker.lock. by destruct (locker.m_mutex _).
Qed.

Lemma on_unlock_keeps s : keeps_at same_conn (on_lock locker.unlock) s.
Proof. by apply on_glob_keeps. Qed.
#[local] Hint Resolve on_lock_keeps on_unlock_keeps : keeps.

Ltac keeps_h :=
  cbv zeta; repeat (first [ keeps_step | (apply on_conn_keeps; keeps) | (apply on_glob_keeps; done) ]; cbv zeta beta).

Lemma set_url_keeps u page s : keeps_at same_conn (set_url u page) s.
Proof. unfold set_url. keeps_h. Qed.

Lemma set_real_file_keeps rf s :
  length rf = length (m_real_file (conn s)) -> keeps_at same_conn (set_real_file rf) s.
Proof. intros H. unfold set_real_file. keeps_h. Qed.
#[local] Hint Resolve set_url_keeps : keeps.

Lemma do_register_keeps t u name password s : keeps_at same_conn (do_register mysql_query t u name password) s.
Proof. unfold do_register. keeps_h. Qed.
#[local] Hint Resolve do_register_keeps : keeps.

Lemma take_form_keeps t u p s : keeps_at same_conn (take_form mysql_query t u p) s.
Proof. unfold take_form, do_login. keeps_h. Qed.
#[local] Hint Resolve take_form_keeps : keeps.

Ltac file_size :=
  repeat match goal with
  | H : same_conn _ _ |- _ => apply ss_real_file in H
  | H : strncpy _ _ _ _ = Ok _ |- _ => apply strncpy_size in H
  | H : strcpy _ _ _ = Ok _ |- _ => apply strcpy_size in H
  end; congruence.

Ltac keeps_file :=
  cbv zeta; repeat (first
    [ match goal with
      | |- keeps_at _ (set_real_file _) _ => apply set_real_file_keeps; solve [file_size]
      end
    | keeps_step | (apply on_conn_keeps; keeps) ]; cbv zeta beta).

Lemma do_cgi_keeps t u p len s : keeps_at same_conn (do_cgi mysql_query t u p len) s.
Proof. unfold do_cgi. keeps_file. Qed.

Lemma choose_file_keeps u p len s : keeps_at same_conn (choose_file u p len) s.
Proof. unfold choose_file. keeps_file. Qed.

Lemma open_file_keeps s : keeps_at same_conn (open_file stat mmap) s.
Proof. unfold open_file. keeps_file. Qed.
#[local] Hint Resolve do_cgi_keeps choose_file_keeps open_file_keeps : keeps.

Lemma do_request_keeps t s : keeps_at same_conn (do_request mysql_query stat mmap t) s.
Proof. unfold do_request. keeps_file. Qed.

(** ** The rounds of [process_read] *)

(** The body of the loop, with what follows it as a parameter: from a complete
    line on, and the whole. *)
Definition take_line (t : tid) (k : LINE_STATUS -> ST (hstate DB) HTTP_CODE) (line_status : LINE_STATUS)
    : ST (hstate DB) HTTP_CODE :=
  s ← get;
  let text := get_line (conn s) in
  _ ← on_conn (modify (fun c => c <| m_start_line := m_checked_idx c |>));
  _ ← on_conn (log_text text);
  match m_check_state (conn s) with
  | CHECK_STATE_REQUESTLINE =>
    ret ← on_conn (parse_request_line text);
    if bool_decide (ret = BAD_REQUEST) then mret BAD_REQUEST else k line_status
  | CHECK_STATE_HEADER =>
    ret ← on_conn (parse_headers text);
    if bool_decide (ret = BAD_REQUEST) then mret BAD_REQUEST
    else if bool_decide (ret = GET_REQUEST) then do_request mysql_query stat mmap t
    else k line_status
  | CHECK_STATE_CONTENT =>
    ret ← on_conn (parse_content text);
    if bool_decide (ret = GET_REQUEST) then do_request mysql_query stat mmap t else k LINE_OPEN
  end.

Definition read_round (t : tid) (k : LINE_STATUS -> ST (hstate DB) HTTP_CODE) (line_status : LINE_STATUS)
    : ST (hstate DB) HTTP_CODE :=
  s ← get;
  line_status ←
    (if bool_decide (m_check_state (conn s) = CHECK_STATE_CONTENT) && bool_decide (line_status = LINE_OK)
     then mret line_status else on_conn parse_line);
  if bool_decide (line_status <> LINE_OK) then mret NO_REQUEST
  else
    take_line t k line_status.

Lemma process_read_round n t ls :
  process_read_loop mysql_query stat mmap (S n) t ls =
    read_round t (process_read_loop mysql_query stat mmap n t) ls.
Proof. reflexivity. Qed.

(** A connection in use: its arrays have their sizes, its indices are ordered
    and in bounds. *)
Record typed (c : http_conn) : Prop := {
  ty_read_buf : Z.of_nat (length (m_read_buf c)) = READ_BUFFER_SIZE;
  ty_write_buf : Z.of_nat (length (m_write_buf c)) = WRITE_BUFFER_SIZE;
  ty_real_file : Z.of_nat (length (m_real_file c)) = FILENAME_LEN;
  ty_iv : length (m_iv c) = 2%nat;
  ty_indices : 0 <= m_start_line c <= m_checked_idx c /\ m_checked_idx c <= m_read_idx c <= READ_BUFFER_SIZE;
  ty_write_idx : 0 <= m_write_idx c <= WRITE_BUFFER_SIZE
}.

Lemma typed_shape c c' : typed c -> same_shape c c' -> typed c'.
Proof. intros [] []. split; try congruence; try lia; auto. Qed.

(** The bytes that no line has taken yet. *)
Definition unscanned (c : http_conn) : nat := Z.to_nat (m_read_idx c - m_checked_idx c).

(** A round ends [process_read], whatever follows it; or it has taken a line
    and goes on with what follows. *)
Inductive round_outcome (run : (LINE_STATUS -> ST (hstate DB) HTTP_CODE) -> res (HTTP_CODE * hstate DB))
    (c : http_conn) : Prop :=
| round_ends r :
    (forall k, run k = r) -> r <> Halt Diverges ->
    (forall ret s', r = Ok (ret, s') -> typed (conn s') /\ m_read_idx (conn s') = m_read_idx c) ->
    round_outcome run c
| round_goes_on ls s' :
    (forall k, run k = k ls s') -> typed (conn s') -> m_read_idx (conn s') = m_read_idx c ->
    (unscanned (conn s') < unscanned c)%nat -> round_outcome run c.

Lemma outcome_bind {A} (m : ST (hstate DB) A) f s c :
  keeps_at same_conn m s ->
  (forall a s', m s = Ok (a, s') -> same_conn s s' -> round_outcome (fun k => f k a s') c) ->
  round_outcome (fun k => (m ≫= f k) s) c.
Proof.
  unfold keeps_at, mbind, ST_bind. destruct (m s) as [[a s']|h]; [by eauto|].
  intros Hh _. apply (round_ends _ _ (Halt h)); [done|congruence|done].
Qed.

Lemma outcome_step {A} (m : ST (hstate DB) A) f s a s' c :
  m s = Ok (a, s') -> round_outcome (fun k => f k a s') c -> round_outcome (fun k => (m ≫= f k) s) c.
Proof. unfold mbind, ST_bind. by intros ->. Qed.

Lemma outcome_end m s c :
  typed (conn s) -> m_read_idx (conn s) = m_read_idx c -> keeps_at same_conn m s ->
  round_outcome (fun _ => m s) c.
Proof.
  unfold keeps_at. intros Ht Hr Hm. apply (round_ends _ _ (m s)); [done|by destruct (m s); congruence|].
  intros ret s' E. rewrite E in Hm. split; [by eapply typed_shape|]. by rewrite (ss_read_idx _ _ Hm).
Qed.

Lemma parse_line_typed c : typed c ->
  exists st c', parse_line c = Ok (st, c') /\ typed c' /\ m_read_idx c' = m_read_idx c /\
    m_check_state c' = m_check_state c /\ m_start_line c' = m_start_line c /\
    (st = LINE_OK -> (unscanned c' < unscanned c)%nat).
Proof.
  intros [T1 T2 T3 T4 T5 T6]. assert (buf_wf c) as Hwf by (unfold buf_wf; lia).
  destruct (parse_line_spec c Hwf) as (st & c' & Hrun & Hres). exists st, c'.
  destruct (line_result_wf c st c' Hwf Hres) as ((L1 & L2 & L3) & L4 & L5 & L6 & L7).
  assert (m_write_buf c' = m_write_buf c /\ m_real_file c' = m_real_file c /\ m_iv c' = m_iv c /\
    m_start_line c' = m_start_line c /\ m_write_idx c' = m_write_idx c) as (E1 & E2 & E3 & E4 & E5)
    by (by destruct Hres).
  split_and!; try done.
  - split; rewrite ?E1, ?E2, ?E3, ?E4, ?E5; done || lia.
  - intros Hok. specialize (L7 Hok). unfold unscanned. lia.
Qed.

Lemma parse_content_ret p c ret c' : parse_content p c = Ok (ret, c') -> ret = GET_REQUEST.
Proof.
  unfold parse_content. intros H. apply ST_bind_ok in H as (? & c1 & _ & H).
  apply ST_bind_ok in H as (? & ? & [= <- <-] & H). cbv zeta in H.
  destruct (LONG_MAX <? _); [done|]. destruct (_ <=? _); [|done].
  apply ST_bind_ok in H as (? & ? & _ & H). by apply ST_bind_ok in H as (? & ? & _ & [= <- _]).
Qed.

(** From a complete line on: the body of the [switch]. *)
Lemma outcome_line t ls c s : typed (conn s) -> m_read_idx (conn s) = m_read_idx c ->
  m_check_state (conn s) = CHECK_STATE_CONTENT \/ (unscanned (conn s) < unscanned c)%nat ->
  round_outcome (fun k => take_line t k ls s) c.
Proof.
  intros Ht Hr Hless. set (s1 := s <| conn := (conn s) <| m_start_line := m_checked_idx (conn s) |> |>).
  assert (typed (conn s1)) as Ht1 by (destruct Ht; split; cbn; done || lia).
  change (m_read_idx (conn s1) = m_read_idx c) in Hr. unfold take_line. cbv zeta.
  apply (outcome_step _ _ s s s); [done|]. apply (outcome_step _ _ s tt s1); [done|].
  assert (m_check_state (conn s) <> CHECK_STATE_CONTENT -> forall s2, same_conn s1 s2 ->
    (unscanned (conn s2) < unscanned c)%nat) as Hgo.
  { intros Hne s2 H2. destruct Hless as [|Hl]; [done|]. unfold unscanned in *.
    rewrite (ss_read_idx _ _ H2), (ss_checked_idx _ _ H2). exact Hl. }
  assert (forall s2, same_conn s1 s2 -> typed (conn s2) /\ m_read_idx (conn s2) = m_read_idx c) as Hkeep.
  { intros s2 H2. split; [by eapply typed_shape|]. by rewrite (ss_read_idx _ _ H2). }
  apply outcome_bind; [apply on_conn_keeps, log_text_keeps|]. intros _ s2 _ H2.
  destruct (m_check_state (conn s)) eqn:Est;
    (apply outcome_bind; [apply on_conn_keeps; auto with keeps|]; intros ret s3 Hrun H3';
     assert (same_conn s1 s3) as H3 by (by transitivity s2); destruct (Hkeep s3 H3)).
  - case_bool_decide; [apply outcome_end; [done..|apply keeps_ret, _]|].
    eapply round_goes_on; [done..|]. by apply Hgo.
  - case_bool_decide; [apply outcome_end; [done..|apply keeps_ret, _]|].
    case_bool_decide; [apply outcome_end; [done..|apply do_request_keeps]|].
    eapply round_goes_on; [done..|]. by apply Hgo.
  - unfold on_conn, zoom in Hrun. destruct (parse_content _ _) as [[r c3]|] eqn:Ep; [|done].
    injection Hrun as -> _. apply parse_content_ret in Ep as ->.
    apply outcome_end; [done..|apply do_request_keeps].
Qed.

Lemma read_round_outcome t ls s : typed (conn s) ->
  round_outcome (fun k => read_round t k ls s) (conn s).
Proof.
  intros Ht. unfold read_round. apply (outcome_step _ _ s s s); [done|].
  destruct (_ && _) eqn:Eb.
  - apply andb_prop in Eb as [E1 E2]. reflect_bools. subst ls.
    apply (outcome_step _ _ s LINE_OK s); [done|]. apply outcome_line; auto.
  - clear Eb. destruct (parse_line_typed (conn s) Ht) as (st & c' & Hrun & Ht' & Hr & Hst & _ & Hless).
    apply (outcome_step _ _ s st (s <| conn := c' |>));
      [by apply (zoom_ok conn (fun c s => s <| conn := c |>))|].
    case_bool_decide as Hok; [apply outcome_end; [done|done|apply keeps_ret, _]|].
    destruct (decide (st = LINE_OK)) as [->|]; [|done]. apply outcome_line; auto.
Qed.

(** With more rounds than bytes that are not scanned the loop returns, and more
    rounds change nothing. *)
Lemma read_loop_ends t : forall n ls s, (unscanned (conn s) < n)%nat -> typed (conn s) ->
  exists r, (forall k, (unscanned (conn s) < k)%nat -> process_read_loop mysql_query stat mmap k t ls s = r) /\
    r <> Halt Diverges /\
    forall ret s', r = Ok (ret, s') -> typed (conn s') /\ m_read_idx (conn s') = m_read_idx (conn s).
Proof.
  induction n as [|n IH]; intros ls s Hn Ht; [lia|].
  destruct (read_round_outcome t ls s Ht) as [r Hr Hd Hty|ls' s1 Hr Ht1 Hi Hless].
  - exists r. split_and!; [|done|done]. intros [|k] Hk; [lia|]. by rewrite process_read_round, Hr.
  - destruct (IH ls' s1) as (r & Hk & Hd & Hty); [lia|done|]. exists r. split_and!; [|done|by rewrite <- Hi].
    intros [|k] Hle; [lia|]. rewrite process_read_round, Hr. apply Hk. lia.
Qed.

Lemma process_read_ends t s : typed (conn s) ->
  process_read mysql_query stat mmap t s <> Halt Diverges /\
  forall ret s', process_read mysql_query stat mmap t s = Ok (ret, s') ->
    typed (conn s') /\ m_read_idx (conn s') = m_read_idx (conn s).
Proof.
  intros Ht. destruct (read_loop_ends t (S (unscanned (conn s))) LINE_OK s) as (r & Hk & Hd & Hty); [lia|done|].
  assert (process_read mysql_query stat mmap t s = r) as ->; [|done].
  unfold process_read. etransitivity; [apply Hk; unfold unscanned; lia|done].
Qed.

(** ** The other operations *)

Lemma recv_bound n k got again k' : 0 <= n -> recv n k = ((Some got, again), k') -> Z.of_nat (length got) <= n.
Proof.
  unfold recv. intros Hn. repeat case_match; intros [= <- _ _]; reflect_bools; simpl; try lia;
    rewrite ?length_take; lia.
Qed.

Lemma recv_into_typed r : typed (rconn r) ->
  match recv_into r with
  | Ok ((n, _), r') => typed (rconn r') /\ m_read_idx (rconn r') = m_read_idx (rconn r) /\
      -1 <= n <= room (rconn r)
  | Halt h => h <> Diverges
  end.
Proof.
  intros Ht. pose proof Ht as [T1 _ _ _ T5 _]. unfold recv_into, room. cbv [mbind ST_bind get modify lift mret ST_ret].
  destruct (recv _ _) as [[[got|] again] k'] eqn:E; cbn [rconn set]; [|split_and!; done || lia].
  apply recv_bound in E; [|lia]. pose proof (blit_ends (m_read_buf (rconn r)) (m_read_idx (rconn r)) got).
  destruct (blit _ _ _) as [b|] eqn:Eb; [|congruence]. apply blit_length in Eb. cbn.
  split_and!; [|done|lia|lia]. destruct Ht. split; cbn; done || lia.
Qed.

Lemma typed_read_idx c n : typed c -> 0 <= n <= room c -> typed (c <| m_read_idx := m_read_idx c + n |>).
Proof. intros [] Hn. unfold room in Hn. split; cbn; done || lia. Qed.

Lemma read_all_typed fuel : forall r, typed (rconn r) -> (Z.to_nat (room (rconn r)) < fuel)%nat ->
  match read_all fuel r with Ok (_, r') => typed (rconn r') | Halt h => h <> Diverges end.
Proof.
  induction fuel as [|fuel IH]; intros r Ht Hf; [lia|]. cbn [read_all].
  pose proof (recv_into_typed r Ht) as Hr. unfold mbind, ST_bind at 1.
  destruct (recv_into r) as [[[n ag] r']|]; [|done]. destruct Hr as (Ht' & Hi & Hn). cbv iota.
  destruct (Z.eqb_spec n (-1)); [done|]. destruct (Z.eqb_spec n 0); [done|].
  unfold add_read_idx. cbv [ST_bind modify]. apply IH.
  - apply typed_read_idx; [done|]. unfold room in *. lia.
  - unfold room in *. cbn. lia.
Qed.

Lemma read_once_typed r : typed (rconn r) ->
  match read_once r with
  | Ok (b, r') => length (m_iv (rconn r')) = 2%nat /\ (b = true -> typed (rconn r'))
  | Halt h => h <> Diverges
  end.
Proof.
  intros Ht. unfold read_once. unfold mbind, ST_bind at 1, get. cbv zeta.
  destruct (_ <=? _); [by split; [apply Ht|]|]. destruct (_ =? 0).
  - pose proof (recv_into_typed r Ht) as Hr. unfold ST_bind at 1.
    destruct (recv_into r) as [[[n ag] r']|]; [|done]. destruct Hr as (Ht' & Hi & Hn). cbv iota.
    unfold add_read_idx. cbv [ST_bind modify mret ST_ret]. split; [apply Ht'|].
    intros Hb. apply negb_true_iff in Hb. reflect_bools.
    apply typed_read_idx; [done|]. unfold room in *. lia.
  - pose proof (read_all_typed (S (Z.to_nat (READ_BUFFER_SIZE - m_read_idx (rconn r)))) r Ht) as Hr.
    assert (Z.to_nat (room (rconn r)) < S (Z.to_nat (READ_BUFFER_SIZE - m_read_idx (rconn r))))%nat as Hf
      by (unfold room; lia).
    specialize (Hr Hf). destruct (read_all _ _) as [[b r']|]; [|done]. split; [apply Hr|done].
Qed.

Lemma close_conn_typed b (s s' : server DB) :
  typed (conn (hs s)) -> close_conn b s = Ok (tt, s') -> typed (conn (hs s')).
Proof.
  intros Ht. unfold close_conn, mbind, ST_bind, get. cbv zeta. destruct (_ && _); intros [= <-]; [|done].
  by destruct Ht.
Qed.

Lemma process_typed t s : typed (conn (hs s)) ->
  match process mysql_query stat mmap t s with
  | Ok (_, s') => typed (conn (hs s'))
  | Halt h => h <> Diverges
  end.
Proof.
  intros Ht. unfold process. unfold mbind, ST_bind at 1. unfold on_hs at 1, zoom.
  destruct (process_read_ends t (hs s) Ht) as [Hd Hty].
  destruct (process_read mysql_query stat mmap t (hs s)) as [[ret h]|]; [|congruence].
  destruct (Hty ret h eq_refl) as [Hth _]. case_bool_decide; [exact Hth|].
  unfold ST_bind at 1, on_hconn, on_hs, on_conn, zoom. cbn [hs set].
  pose proof (process_write_keeps ret (conn h)) as Hw. unfold keeps_at in Hw.
  destruct (process_write ret (conn h)) as [[b c']|]; [|done]. apply (typed_shape _ _ Hth) in Hw.
  destruct b; [exact Hw|]. unfold ST_bind at 1.
  destruct (close_conn true _) as [[[] s']|] eqn:Ec; [|by revert Ec; unfold close_conn, mbind, ST_bind, get; destruct (_ && _)].
  refine (close_conn_typed true _ _ _ Ec). exact Hw.
Qed.

Lemma init_typed (s s' : server DB) fd addr root mode cl user pw name :
  length (m_iv (conn (hs s))) = 2%nat -> init fd addr root mode cl user pw name s = Ok (tt, s') ->
  typed (conn (hs s')).
Proof.
  intros Hiv H. unfold init in H.
  apply ST_bind_ok in H as (? & s1 & [= <- <-] & H). apply ST_bind_ok in H as (? & ? & [= <- <-] & H).
  apply ST_bind_ok in H as (? & s2 & [= <- <-] & H). apply ST_bind_ok in H as (? & s3 & [= <- <-] & H).
  apply ST_bind_ok in H as (? & s4 & [= <- <-] & H). apply ST_bind_ok in H as (? & ? & [= <- <-] & H).
  do 3 (apply ST_bind_ok in H as (? & ? & Hl & H); apply lift_inv in Hl as [_ ->]).
  apply ST_bind_ok in H as (? & s5 & [= <- <-] & H). injection H as <-.
  split; cbn -[replicate]; rewrite ?length_replicate; done || lia.
Qed.

(** ** The life of a connection object *)

(** What happens to a connection in the server: its operations, the members
    that the server assigns, and what other threads do to the globals.  After
    a failed read the object is not used before the next [init]. *)
Inductive op_step : server DB -> server DB -> Prop :=
| op_init fd addr root mode cl user pw name s s' :
    init fd addr root mode cl user pw name s = Ok (tt, s') -> op_step s s'
| op_read k k' s c' :
    read_once {| rconn := conn (hs s); rsock := k |} = Ok (true, {| rconn := c'; rsock := k' |}) ->
    op_step s (s <| hs := (hs s) <| conn := c' |> |>)
| op_lost k k' s c' fd addr root mode cl user pw name s' :
    read_once {| rconn := conn (hs s); rsock := k |} = Ok (false, {| rconn := c'; rsock := k' |}) ->
    init fd addr root mode cl user pw name (s <| hs := (hs s) <| conn := c' |> |>) = Ok (tt, s') ->
    op_step s s'
| op_process t s s' : process mysql_query stat mmap t s = Ok (tt, s') -> op_step s s'
| op_close b s s' : close_conn b s = Ok (tt, s') -> op_step s s'
| op_unmap s c' : unmap (conn (hs s)) = Ok (tt, c') -> op_step s (s <| hs := (hs s) <| conn := c' |> |>)
| op_flags s v1 v2 v3 v4 :
    op_step s (s <| hs := (hs s) <| conn := (conn (hs s)) <| improv := v1 |> <| timer_flag := v2 |>
                            <| m_state := v3 |> <| mysql := v4 |> |> |>)
| op_others s g n k : op_step s {| hs := {| conn := conn (hs s); glob := g |}; m_user_count := n; calls := k |}.

Lemma op_step_typed s s' : typed (conn (hs s)) -> op_step s s' -> typed (conn (hs s')).
Proof.
  intros Ht Hs. destruct Hs as [????????? s' H|k k' s c' H|k k' s c' ???????? s' H Hi|t s s' H|b s s' H|s c' H|s|s].
  - eapply init_typed; [|exact H]. apply Ht.
  - pose proof (read_once_typed {| rconn := conn (hs s); rsock := k |} Ht) as Hr. rewrite H in Hr. by apply Hr.
  - pose proof (read_once_typed {| rconn := conn (hs s); rsock := k |} Ht) as Hr. rewrite H in Hr.
    eapply init_typed; [|exact Hi]. exact (proj1 Hr).
  - pose proof (process_typed t s Ht) as Hp. by rewrite H in Hp.
  - by eapply close_conn_typed.
  - unfold unmap, mbind, ST_bind, get in H. destruct Ht, (m_file_address _); try done; injection H as <-; by split.
  - by destruct Ht.
  - done.
Qed.

(** ** Properties *)

(** C14: [process_read] terminates, and the fuel of the model is no limit: from
    a connection whose indices are in order the loop of the state machine
    ends within [m_read_idx - m_checked_idx + 1] rounds, because every round
    that goes on has taken at least one byte of a line; with any larger number
    of rounds the result is the same, in every error case too. *)
Theorem process_read_terminates t s n :
  typed (conn s) -> m_read_idx (conn s) - m_checked_idx (conn s) < Z.of_nat n ->
  process_read mysql_query stat mmap t s = process_read_loop mysql_query stat mmap n t LINE_OK s /\
  process_read mysql_query stat mmap t s <> Halt Diverges.
Proof.
  intros Ht Hn. pose proof Ht as [_ _ _ _ T5 _]. split; [|by apply process_read_ends].
  destruct (read_loop_ends t (S (unscanned (conn s))) LINE_OK s) as (r & Hk & _ & _); [lia|done|].
  unfold process_read. cbv [mbind ST_bind get]. rewrite !Hk by (unfold unscanned in *; lia). done.
Qed.


End handler.

(** ** The theorems at a connection *)

#[local] Ltac by_eval := HttpParse.by_eval.

Definition sample_socket : socket := {| pieces := [HttpParse.sample_request]; after := WouldBlock |}.

(** An object of the array of connections, before it is used. *)
Definition unused : server unit := {|
  hs := (HttpParse.sample_state []) <| conn := (HttpParse.sample_conn [])
          <| sql_user := replicate 100 NUL |> <| sql_passwd := replicate 100 NUL |>
          <| sql_name := replicate 100 NUL |> |>;
  m_user_count := 0; calls := [] |}.

Definition after_run {A} (m : res (A * server unit)) : server unit :=
  match m with Ok (_, s) => s | Halt _ => unused end.

Definition accepted : server unit :=
  after_run (init 7 0 (lit "/srv/root") 1 0 (lit "root") (lit "pw") (lit "db") unused).
Definition arrived_data : server unit :=
  match read_once {| rconn := conn (hs accepted); rsock := sample_socket |} with
  | Ok (_, r) => accepted <| hs := (hs accepted) <| conn := rconn r |> |>
  | Halt _ => accepted
  end.
Definition answered : server unit :=
  after_run (process HttpParse.sample_query HttpParse.sample_stat HttpParse.sample_mmap 1%nat arrived_data).

Lemma process_read_terminates_witness :
  process_read HttpParse.sample_query HttpParse.sample_stat HttpParse.sample_mmap 1%nat (hs arrived_data) =
    process_read_loop HttpParse.sample_query HttpParse.sample_stat HttpParse.sample_mmap 2048 1%nat LINE_OK
      (hs arrived_data) /\
  process_read HttpParse.sample_query HttpParse.sample_stat HttpParse.sample_mmap 1%nat (hs arrived_data) <>
    Halt Diverges.
Proof. apply process_read_terminates; [split; by_eval|by_eval]. Defined.


