(* ===== verification/HttpResume.v ===== *)
(** * HttpResume: requests that arrive in pieces

    [process_read] is called after every read.  When it says that the request
    is incomplete, the next call, with more data in the buffer, goes on as if
    all the data had been there from the start.  The reason is that the parsers
    read and write only inside the line they are given, whose end is
    terminated, so they do not see what has not arrived yet. *)

From Stdlib Require Import Ascii String.
From S2P Require Import Prelude Locker CStr HttpConn HttpRequest HttpResponse HttpServe HttpTerm.

(** ** Functions that stop at a terminator *)

(** [f] does not look behind the first terminator. *)
Definition stops {A} (f : list ascii -> res A) : Prop :=
  forall l x y, NUL ∈ l -> f (l ++ x) = f (l ++ y).

Lemma elem_nul_cons c l : NUL ∈ c :: l -> c <> NUL -> NUL ∈ l.
Proof. intros [E|H]%elem_of_cons Hc; [congruence|done]. Qed.

Lemma cstr_stops : stops cstr.
Proof.
  intros l x y. induction l as [|c l IH]; intros Hin; [by apply not_elem_of_nil in Hin|]. simpl.
  case_bool_decide; [done|]. by rewrite IH by (by eapply elem_nul_cons).
Qed.

Lemma strlen_stops : stops strlen.
Proof. intros l x y H. unfold strlen. by rewrite (cstr_stops l x y H). Qed.

Lemma atol_stops : stops atol.
Proof. intros l x y H. unfold atol. by rewrite (cstr_stops l x y H). Qed.

Lemma strpbrk_stops accept : stops (strpbrk accept).
Proof.
  intros l x y. induction l as [|c l IH]; intros Hin; [by apply not_elem_of_nil in Hin|]. simpl.
  case_bool_decide; [done|]. case_bool_decide; [done|]. by rewrite IH by (by eapply elem_nul_cons).
Qed.

Lemma strspn_stops accept : stops (strspn accept).
Proof.
  intros l x y. induction l as [|c l IH]; intros Hin; [by apply not_elem_of_nil in Hin|]. simpl.
  case_bool_decide as H; [|done]. by rewrite IH by (eapply elem_nul_cons; [exact Hin|apply H]).
Qed.

Lemma tolower_not_nul c d : d <> NUL -> tolower c = tolower d -> c <> NUL.
Proof. intros Hd E ->. apply Hd. by rewrite (HttpParse.tolower_nul d). Qed.

Lemma strcasecmp_stops s : plain s -> stops (fun l => strcasecmp_eq l s).
Proof.
  intros Hs l x y. revert l. induction s as [|a s IH]; intros [|c l] Hin; try by apply not_elem_of_nil in Hin.
  - done.
  - apply plain_cons in Hs as [Ha Hs]. simpl. case_bool_decide as E; [|done]. apply IH; [done|].
    eapply elem_nul_cons; [exact Hin|by eapply tolower_not_nul].
Qed.

Lemma strncasecmp_stops n s : plain s -> stops (fun l => strncasecmp_eq n l s).
Proof.
  intros Hs l x y. revert n l. induction s as [|a s IH]; intros [|n] [|c l] Hin; try by apply not_elem_of_nil in Hin.
  - done.
  - done.
  - done.
  - apply plain_cons in Hs as [Ha Hs]. simpl. case_bool_decide as E; [|done]. apply IH; [done|].
    eapply elem_nul_cons; [exact Hin|by eapply tolower_not_nul].
Qed.

(** ** Where they stop *)

Section bounds.
Context (l : list ascii) (i : nat) (Hi : l !! i = Some NUL).

Lemma strpbrk_bound accept k : strpbrk accept l = Ok (Some k) -> 0 <= k < Z.of_nat i.
Proof.
  clear -Hi. revert i k Hi. induction l as [|c l' IH]; intros i k Hi; [done|]. simpl.
  case_bool_decide as Hc; [done|]. destruct i as [|i]; [simpl in Hi; congruence|].
  case_bool_decide; [intros [= <-]; lia|].
  unfold mbind, res_bind. destruct (strpbrk accept l') as [[k'|]|] eqn:E; try done.
  intros [= <-]. specialize (IH i k' Hi eq_refl). lia.
Qed.

Lemma strspn_bound accept k : strspn accept l = Ok k -> 0 <= k <= Z.of_nat i.
Proof.
  clear -Hi. revert i k Hi. induction l as [|c l' IH]; intros i k Hi; [done|]. simpl.
  case_bool_decide as Hc; [|intros [= <-]; lia]. destruct i as [|i]; [simpl in Hi; destruct Hc; congruence|].
  unfold mbind, res_bind. destruct (strspn accept l') as [k'|] eqn:E; [|done].
  intros [= <-]. specialize (IH i k' Hi eq_refl). lia.
Qed.

Lemma strlen_bound k : strlen l = Ok k -> 0 <= k <= Z.of_nat i /\ l !! Z.to_nat k = Some NUL.
Proof.
  intros H. unfold strlen in H. apply res_bind_ok in H as (s & Hs & [= <-]).
  apply cstr_inv in Hs as [Hp [rest E]]. rewrite Nat2Z.id. split; [|rewrite E; by apply list_lookup_middle].
  destruct (decide (i < length s)%nat) as [Hlt|]; [|lia]. exfalso.
  rewrite E, lookup_app_l in Hi by done. apply Hp. by eapply list_elem_of_lookup_2.
Qed.
End bounds.

Lemma strncasecmp_bound s : plain s -> forall n l i, l !! i = Some NUL ->
  strncasecmp_eq n l s = Ok true -> (n `min` length s <= i)%nat.
Proof.
  induction s as [|a s IH]; intros Hs n l i Hi H; [simpl; lia|].
  apply plain_cons in Hs as [Ha Hs]. destruct n as [|n]; [lia|]. destruct l as [|c l]; [done|]. simpl in H.
  case_bool_decide as E; [|done]. destruct i as [|i].
  - exfalso. simpl in Hi. injection Hi as ->. by apply (tolower_not_nul _ _ Ha E).
  - specialize (IH Hs n l i Hi H). simpl. lia.
Qed.

Lemma strcasecmp_bound s : plain s -> forall l i, l !! i = Some NUL -> strcasecmp_eq l s = Ok true -> (length s <= i)%nat.
Proof.
  induction s as [|a s IH]; intros Hs l i Hi H; [simpl; lia|].
  apply plain_cons in Hs as [Ha Hs]. destruct l as [|c l]; [done|]. simpl in H.
  case_bool_decide as E; [|done]. destruct i as [|i].
  - exfalso. simpl in Hi. injection Hi as ->. by apply (tolower_not_nul _ _ Ha E).
  - specialize (IH Hs l i Hi H). simpl. lia.
Qed.

(** ** More data in the buffer *)

Section resume.
Context (data : list ascii).

(** [data] arrives behind what has been received. *)
Definition ext (c : http_conn) : http_conn :=
  let r := Z.to_nat (m_read_idx c) in
  arrived c (take r (m_read_buf c)) data (drop r (m_read_buf c)).

Definition fits (c : http_conn) : Prop :=
  Z.of_nat (length (m_read_buf c)) = READ_BUFFER_SIZE /\ 0 <= m_read_idx c /\
  m_read_idx c + Z.of_nat (length data) <= READ_BUFFER_SIZE.

(** A position inside the received data. *)
Definition inside (c : http_conn) (p : Z) : Prop := 0 <= p < m_read_idx c.

(** A terminator there. *)
Definition term (c : http_conn) (q : Z) : Prop := inside c q /\ char_at c q NUL.

Lemma ext_parts c : fits c -> exists l1 l2 l3,
  m_read_buf c = l1 ++ l2 ++ l3 /\ m_read_buf (ext c) = l1 ++ data ++ l3 /\
  Z.of_nat (length l1) = m_read_idx c /\ length l2 = length data.
Proof.
  intros (Hl & Hr & Hd). set (r := Z.to_nat (m_read_idx c)).
  exists (take r (m_read_buf c)), (take (length data) (drop r (m_read_buf c))),
    (drop (length data) (drop r (m_read_buf c))). unfold ext, arrived. fold r. cbn [m_read_buf set].
  rewrite !length_take, length_drop. unfold READ_BUFFER_SIZE in *.
  split_and!; [by rewrite !take_drop|done|unfold r; lia|unfold r; lia].
Qed.

Lemma ext_of_parts c l1 l2 l3 :
  m_read_buf c = l1 ++ l2 ++ l3 -> Z.of_nat (length l1) = m_read_idx c -> length l2 = length data ->
  ext c = c <| m_read_buf := l1 ++ data ++ l3 |> <| m_read_idx := m_read_idx c + Z.of_nat (length data) |>.
Proof.
  intros E Hr Hl. unfold ext, arrived. rewrite <- Hr, Nat2Z.id, E, take_app_length, drop_app_length, <- Hl.
  by rewrite drop_app_length.
Qed.

Lemma ext_read c p : fits c -> inside c p -> rd (m_read_buf (ext c)) p = rd (m_read_buf c) p.
Proof.
  intros Hf Hp. destruct (ext_parts c Hf) as (l1 & l2 & l3 & -> & -> & Hr & _). unfold inside in Hp. unfold rd.
  case_bool_decide; [|done]. by rewrite !lookup_app_l by lia.
Qed.

(** What is behind [p], on both sides of the data that has been received. *)
Lemma ext_drop c p q : fits c -> 0 <= p <= q -> term c q ->
  exists l x y, drop (Z.to_nat p) (m_read_buf c) = l ++ x /\ drop (Z.to_nat p) (m_read_buf (ext c)) = l ++ y /\
    l !! Z.to_nat (q - p) = Some NUL.
Proof.
  intros Hf Hp [Hq Hn]. destruct (ext_parts c Hf) as (l1 & l2 & l3 & E & Ex & Hr & _).
  unfold char_at in Hn. apply rd_lookup in Hn as [_ Hn]. unfold inside in Hq. rewrite E, Ex.
  rewrite E, lookup_app_l in Hn by lia. rewrite !drop_app_le by lia.
  eexists _, _, _. split; [reflexivity|]. split; [reflexivity|].
  rewrite lookup_drop. by replace (Z.to_nat p + Z.to_nat (q - p))%nat with (Z.to_nat q) by lia.
Qed.

Lemma ext_write c p x : fits c -> inside c p ->
  ext (c <| m_read_buf := <[Z.to_nat p := x]> (m_read_buf c) |>) =
    (ext c) <| m_read_buf := <[Z.to_nat p := x]> (m_read_buf (ext c)) |>.
Proof.
  intros Hf Hp. destruct (ext_parts c Hf) as (l1 & l2 & l3 & E & Ex & Hr & Hl). unfold inside in Hp.
  rewrite (ext_of_parts c l1 l2 l3) in * by done. cbn [m_read_buf set].
  rewrite (ext_of_parts _ (<[Z.to_nat p := x]> l1) l2 l3); cbn [m_read_buf m_read_idx set].
  - by rewrite insert_app_l by lia.
  - by rewrite E, insert_app_l by lia.
  - by rewrite length_insert.
  - done.
Qed.

Lemma ext_blit c p s b' : fits c -> 0 <= p -> p + Z.of_nat (length s) <= m_read_idx c ->
  blit (m_read_buf c) p s = Ok b' ->
  blit (m_read_buf (ext c)) p s = Ok (m_read_buf (ext (c <| m_read_buf := b' |>))).
Proof.
  intros Hf Hp Hs. destruct (ext_parts c Hf) as (l1 & l2 & l3 & E & Ex & Hr & Hl).
  set (a := take (Z.to_nat p) l1). set (o := take (length s) (drop (Z.to_nat p) l1)).
  set (z := drop (length s) (drop (Z.to_nat p) l1)).
  assert (l1 = a ++ o ++ z) as El by (unfold a, o, z; by rewrite !take_drop).
  assert (p = Z.of_nat (length a)) as Ep by (unfold a; rewrite length_take; lia).
  assert (length o = length s) as Eo by (unfold o; rewrite length_take, length_drop; lia).
  rewrite Ex, E, El, <- !app_assoc. rewrite !blit_app by done. intros [= <-].
  rewrite (ext_of_parts _ (a ++ s ++ z) l2 l3); cbn [m_read_buf m_read_idx set]; rewrite <- ?app_assoc; try done.
  rewrite <- Hr, El, !length_app. lia.
Qed.

Lemma ext_length c : fits c -> length (m_read_buf (ext c)) = length (m_read_buf c).
Proof.
  intros Hf. destruct (ext_parts c Hf) as (l1 & l2 & l3 & -> & -> & _ & Hl). by rewrite !length_app, Hl.
Qed.

(** ** Computations that do not see the new data *)

(** What [m] does, [m'] does with the new data behind. *)
Definition sim {A} (m m' : ST http_conn A) (c : http_conn) : Prop :=
  forall a c', m c = Ok (a, c') -> m' (ext c) = Ok (a, ext c').

Lemma sim_ret {A} (a : A) c : sim (mret a) (mret a) c.
Proof. intros a' c' [= <- <-]. done. Qed.

Lemma sim_at {A} (m m' : ST http_conn A) c a c' : sim m m' c -> m c = Ok (a, c') -> m' (ext c) = Ok (a, ext c').
Proof. auto. Qed.

Lemma sim_throw {A} h (m : ST http_conn A) c : sim (throw h) m c.
Proof. done. Qed.

Lemma sim_bind {A B} (m m' : ST http_conn A) (f f' : A -> ST http_conn B) c :
  sim m m' c -> (forall a c', m c = Ok (a, c') -> sim (f a) (f' a) c') -> sim (m ≫= f) (m' ≫= f') c.
Proof.
  intros Hm Hf b c' H. apply ST_bind_ok in H as (a & c1 & Ha & Hb).
  rewrite (ST_bind_step _ _ _ _ _ (Hm _ _ Ha)). by apply (Hf a c1 Ha).
Qed.

Lemma sim_get {B} (f f' : http_conn -> ST http_conn B) c :
  sim (f c) (f' (ext c)) c -> sim (get ≫= f) (get ≫= f') c.
Proof. intros Hf b c' H. by apply Hf. Qed.

Lemma sim_modify {B} g g' (f f' : unit -> ST http_conn B) c :
  g' (ext c) = ext (g c) -> sim (f tt) (f' tt) (g c) -> sim (modify g ≫= f) (modify g' ≫= f') c.
Proof. intros E Hf b c' H. cbv [mbind ST_bind modify] in *. rewrite E. by apply Hf. Qed.

Lemma sim_lift {A B} (m : res A) (f f' : A -> ST http_conn B) c :
  (forall a, m = Ok a -> sim (f a) (f' a) c) -> sim (lift m ≫= f) (lift m ≫= f') c.
Proof.
  intros Hf b c' H. apply ST_bind_ok in H as (a & c1 & Ha & Hb). apply lift_inv in Ha as [-> ->].
  cbv [mbind ST_bind lift]. by apply (Hf a eq_refl).
Qed.

(** The text at [p], of which only the part up to a terminator matters. *)
Lemma sim_text {B} p q (k k' : list ascii -> ST http_conn B) c :
  fits c -> 0 <= p <= q -> term c q ->
  (forall l x y, l !! Z.to_nat (q - p) = Some NUL -> drop (Z.to_nat p) (m_read_buf c) = l ++ x ->
     sim (k (l ++ x)) (k' (l ++ y)) c) ->
  sim (text_at p ≫= k) (text_at p ≫= k') c.
Proof.
  intros Hf Hp Hq Hk. destruct (ext_drop c p q Hf Hp Hq) as (l & x & y & E & Ex & Hl).
  pose proof Hf as (Hlen & _). pose proof (ext_length c Hf) as Hlx. destruct Hq as [[H0 H1] _].
  pose proof Hf as (_ & _ & Hd). unfold READ_BUFFER_SIZE in *.
  intros b c' H. apply ST_bind_ok in H as (a & c1 & Ha & Hb).
  unfold text_at in Ha. rewrite from_ok in Ha by lia. injection Ha as <- <-.
  rewrite E in Hb. unfold mbind, ST_bind, text_at. rewrite from_ok by lia. rewrite Ex.
  by eapply Hk.
Qed.

Lemma sim_stops {A B} (f : list ascii -> res A) l x y (g g' : A -> ST http_conn B) c :
  stops f -> NUL ∈ l -> (forall a, f (l ++ x) = Ok a -> sim (g a) (g' a) c) ->
  sim (lift (f (l ++ x)) ≫= g) (lift (f (l ++ y)) ≫= g') c.
Proof. intros Hs Hin Hg. rewrite (Hs l y x Hin). by apply sim_lift. Qed.

Lemma sim_read {B} p (k k' : ascii -> ST http_conn B) c :
  fits c -> inside c p -> (forall x, char_at c p x -> sim (k x) (k' x) c) ->
  sim (read_char p ≫= k) (read_char p ≫= k') c.
Proof.
  intros Hf Hp Hk b c' H. apply ST_bind_ok in H as (x & c1 & Hx & Hb). unfold read_char in Hx.
  destruct (rd (m_read_buf c) p) as [x'|] eqn:E; [|done]. injection Hx as <- <-.
  unfold mbind, ST_bind, read_char. rewrite (ext_read c p Hf Hp), E. by apply (Hk x' E).
Qed.

Definition put_char (p : Z) (x : ascii) (c : http_conn) : http_conn :=
  c <| m_read_buf := <[Z.to_nat p := x]> (m_read_buf c) |>.

Lemma sim_write {B} p x (k k' : unit -> ST http_conn B) c :
  fits c -> inside c p -> sim (k tt) (k' tt) (put_char p x c) ->
  sim (write_char p x ≫= k) (write_char p x ≫= k') c.
Proof.
  intros Hf Hp Hk b c' H. pose proof Hf as (Hl & _ & Hd). pose proof Hp as [H0 H1].
  pose proof (ext_length c Hf) as Hlx. unfold READ_BUFFER_SIZE in *.
  apply ST_bind_ok in H as ([] & c1 & Hw & Hb). rewrite write_char_ok in Hw by lia. injection Hw as <-.
  unfold mbind, ST_bind. rewrite write_char_ok by lia. rewrite <- (ext_write c p x Hf Hp). by apply Hk.
Qed.

Lemma put_fits p x c : fits c -> fits (put_char p x c).
Proof. unfold fits. cbn. by rewrite length_insert. Qed.

Lemma put_term p c q : term c q -> term (put_char p NUL c) q.
Proof.
  intros [Hq Hn]. split; [exact Hq|]. unfold char_at in *. apply rd_lookup in Hn as [H0 Hn]. apply rd_lookup.
  split; [done|]. cbn. destruct (decide (Z.to_nat p = Z.to_nat q)) as [->|];
    [apply list_lookup_insert_eq; by eapply lookup_lt_Some|by rewrite list_lookup_insert_ne].
Qed.

Lemma put_term_new p c : fits c -> inside c p -> term (put_char p NUL c) p.
Proof.
  intros (Hl & _ & Hd) [H0 H1]. split; [done|]. apply rd_lookup. split; [done|]. cbn.
  apply list_lookup_insert_eq. unfold READ_BUFFER_SIZE in *. lia.
Qed.

Lemma term_elem (l : list ascii) (i : nat) : l !! i = Some NUL -> NUL ∈ l.
Proof. apply list_elem_of_lookup_2. Qed.

(** ** The parsers *)

Lemma print_text_sim p q c : fits c -> 0 <= p <= q -> term c q -> sim (print_text p) (print_text p) c.
Proof.
  intros Hf Hp Hq. unfold print_text. apply (sim_text p q); [done..|]. intros l x y Hl _.
  apply sim_stops; [apply cstr_stops|by eapply term_elem|]. intros s _. apply sim_ret.
Qed.

Lemma log_text_sim p q c : fits c -> 0 <= p <= q -> term c q -> sim (log_text p) (log_text p) c.
Proof.
  intros Hf Hp Hq. unfold log_text. apply sim_get. change (m_close_log (ext c)) with (m_close_log c).
  case_match; [by eapply print_text_sim|apply sim_ret].
Qed.

Lemma drop_term c p q : 0 <= p <= q -> term c q ->
  drop (Z.to_nat p) (m_read_buf c) !! Z.to_nat (q - p) = Some NUL.
Proof.
  intros Hp [_ Hn]. unfold char_at in Hn. apply rd_lookup in Hn as [_ Hn]. rewrite lookup_drop.
  by replace (Z.to_nat p + Z.to_nat (q - p))%nat with (Z.to_nat q) by lia.
Qed.

Lemma skip_scheme_sim scheme n u q c :
  fits c -> 0 <= u <= q -> term c q -> plain (lit scheme) -> (n <= length (lit scheme))%nat ->
  sim (skip_scheme scheme n (PBuf u)) (skip_scheme scheme n (PBuf u)) c.
Proof.
  intros Hf Hu Hq Hs Hn. unfold skip_scheme. apply sim_lift. intros u' [= <-].
  apply (sim_text u q); [done..|]. intros l x y Hl E. pose proof (drop_term c u q Hu Hq) as Hd. rewrite E in Hd.
  apply (sim_stops (fun l => strncasecmp_eq n l (lit scheme)));
    [by apply strncasecmp_stops|by eapply term_elem|].
  intros [|] Hcmp; [|apply sim_ret]. apply (strncasecmp_bound _ Hs _ _ _ Hd) in Hcmp.
  apply (sim_text _ q); [done|lia|done|]. intros l' x' y' Hl' E'.
  apply (sim_stops (strchr "/"%char)); [apply strpbrk_stops|by eapply term_elem|]. intros r _. apply sim_ret.
Qed.

Lemma skip_scheme_result scheme n u q c url c' :
  fits c -> 0 <= u <= q -> term c q -> plain (lit scheme) -> (n <= length (lit scheme))%nat ->
  skip_scheme scheme n (PBuf u) c = Ok (url, c') ->
  c' = c /\ (url = PNull \/ exists w, url = PBuf w /\ u <= w <= q).
Proof.
  intros Hf Hu Hq Hs Hn H. unfold skip_scheme in H.
  apply ST_bind_ok in H as (u' & ? & Hu' & H). apply lift_inv in Hu' as [[= <-] ->].
  assert (forall p l c1, text_at p c = Ok (l, c1) -> 0 <= p <= q -> c1 = c /\ l !! Z.to_nat (q - p) = Some NUL) as Htext.
  { intros p l c1 Ht Hp. unfold text_at, from in Ht. case_bool_decide; [|done]. injection Ht as <- <-.
    split; [done|]. by apply drop_term. }
  apply ST_bind_ok in H as (l & c1 & Hl & H). apply Htext in Hl as [-> Hl]; [|done].
  apply ST_bind_ok in H as (b & ? & Hb & H). apply lift_inv in Hb as [Hb ->]. destruct b.
  - apply (strncasecmp_bound _ Hs _ _ _ Hl) in Hb.
    apply ST_bind_ok in H as (l' & c1 & Hl' & H). apply Htext in Hl' as [-> Hl']; [|lia].
    apply ST_bind_ok in H as (r & ? & Hr & H). apply lift_inv in Hr as [Hr ->]. injection H as <- <-.
    split; [done|]. destruct r as [k|]; [right|by left]. apply (strpbrk_bound _ _ Hl') in Hr.
    eexists. split; [reflexivity|]. lia.
  - injection H as <- <-. split; [done|]. right. exists u. split; [done|lia].
Qed.

Lemma strcat_one b w s : 0 <= w <= Z.of_nat (length b) -> strlen (drop (Z.to_nat w) b) = Ok 1 ->
  strcat b w s = strcpy b (w + 1) s.
Proof. intros Hw Hl. unfold strcat. rewrite from_ok by done. cbn [mbind]. unfold mbind, res_bind. by rewrite Hl. Qed.

(** The completion of [/]: it fits between the target and the end of the line. *)
Lemma judge_sim w q c :
  fits c -> 0 <= w < q -> term c q -> q + 11 <= m_read_idx c -> strlen (drop (Z.to_nat w) (m_read_buf c)) = Ok 1 ->
  forall (g : unit -> ST http_conn HTTP_CODE), (forall c', sim (g tt) (g tt) c') ->
  let m := (c ← get;
            b ← lift (strcat (m_read_buf c) w (lit "judge.html"));
            modify (fun c => c <| m_read_buf := b |>)) in
  sim (m ≫= g) (m ≫= g) c.
Proof.
  intros Hf Hw Hq Hroom Hlen g Hg m. apply sim_bind; [|intros [] c' _; apply Hg]. unfold m. apply sim_get.
  pose proof Hf as (Hl & _ & Hd). pose proof Hq as [[Hq0 Hq1] _].
  assert (strlen (drop (Z.to_nat w) (m_read_buf (ext c))) = Ok 1) as Hlen'.
  { destruct (ext_drop c w q Hf ltac:(lia) Hq) as (l & x & y & E & -> & Hn). rewrite <- Hlen, E.
    apply strlen_stops. by eapply term_elem. }
  intros a c' H. apply ST_bind_ok in H as (b & ? & Hb & H). apply lift_inv in Hb as [Hb ->].
  injection H as <- <-. rewrite strcat_one in Hb by (done || unfold READ_BUFFER_SIZE in *; lia).
  unfold mbind, ST_bind, lift.
  rewrite strcat_one by (done || rewrite (ext_length c Hf); unfold READ_BUFFER_SIZE in *; lia). unfold strcpy in *.
  rewrite (ext_blit c (w + 1) _ b Hf) by (done || (rewrite length_app; simpl; lia) || lia). reflexivity.
Qed.

Lemma parse_target_sim u q c :
  fits c -> 0 <= u <= q -> term c q -> q + 11 <= m_read_idx c -> sim (parse_target u) (parse_target u) c.
Proof.
  intros Hf Hu Hq Hroom. assert (plain (lit "http://") /\ plain (lit "https://")) as [P1 P2].
  { split; apply (bool_decide_unpack _); vm_compute; done. }
  unfold parse_target. apply sim_bind; [apply (skip_scheme_sim _ _ _ q); done|].
  intros url c1 H1. apply (skip_scheme_result _ _ _ q) in H1 as [-> H1]; [|done..].
  apply sim_modify; [reflexivity|]. set (c1 := c <| m_url := url |>).
  apply sim_bind.
  { destruct H1 as [->|(w & -> & Hw)]; [by intros ??|]. apply (skip_scheme_sim _ _ _ q); try done. lia. }
  intros url2 c2 H2. destruct H1 as [->|(w & -> & Hw)]; [done|].
  apply (skip_scheme_result _ _ _ q) in H2 as [-> H2]; [|done|lia|done..].
  apply sim_modify; [reflexivity|]. set (c2 := c1 <| m_url := url2 |>).
  destruct H2 as [->|(w2 & -> & Hw2)]; [apply sim_ret|]. pose proof Hq as [[Hq0 Hq1] Hqn].
  apply sim_read; [exact Hf|split; [lia|change (m_read_idx c2) with (m_read_idx c); lia]|].
  intros x Hx. case_bool_decide as Hslash; [apply sim_ret|].
  apply (sim_text w2 q); [exact Hf|lia|exact Hq|]. intros l z y Hl E.
  apply sim_stops; [apply strlen_stops|by eapply term_elem|]. intros len Hlen. rewrite <- E in Hlen.
  assert (forall c', sim (_ ← modify (fun c => c <| m_check_state := CHECK_STATE_HEADER |>); mret NO_REQUEST)
    (_ ← modify (fun c => c <| m_check_state := CHECK_STATE_HEADER |>); mret NO_REQUEST) c') as Hend.
  { intros c'. apply sim_modify; [reflexivity|apply sim_ret]. }
  destruct (Z.eqb_spec len 1) as [->|]; [|apply sim_bind; [apply sim_ret|intros [] c' _; apply Hend]].
  apply (judge_sim w2 q c2 Hf); [|exact Hq|exact Hroom|exact Hlen|exact Hend].
  assert (w2 <> q); [|lia]. intros ->. unfold char_at in Hqn, Hx. change (m_read_buf c2) with (m_read_buf c) in Hx.
  rewrite Hqn in Hx. injection Hx as <-. done.
Qed.

Create HintDb stops discriminated.
#[local] Hint Resolve cstr_stops strlen_stops atol_stops strpbrk_stops strspn_stops strncasecmp_stops
  strcasecmp_stops : stops.
#[local] Hint Extern 1 (plain _) => apply (bool_decide_unpack _); vm_compute; exact I : stops.

(** A call of [f] on the text at [p], which has a terminator at [q]. *)
Ltac sim_call p q f :=
  apply (sim_text p q); [assumption|lia|assumption|];
  let l := fresh "l" in let x := fresh "x" in let y := fresh "y" in
  let Hl := fresh "Hl" in let E := fresh "E" in let Hn := fresh "Hn" in
  intros l x y Hl E;
  match goal with |- sim _ _ ?c => pose proof (drop_term c p q ltac:(lia) ltac:(assumption)) as Hn; rewrite E in Hn end;
  apply (sim_stops f); [auto with stops|by eapply term_elem|].

(** A line from [p] on, with the two terminators of its end in front of [e]. *)
Record line_at (c : http_conn) (p e : Z) : Prop := {
  la_fits : fits c;
  la_range : 0 <= p < e;
  la_last : term c (e - 1);
  la_end : term c (e - 2)
}.

Lemma inside_term c p q : 0 <= p <= q -> term c q -> inside c p.
Proof. intros Hp [[? ?] _]. split; lia. Qed.

(** The rest of [parse_request_line] from the target on. *)
Definition from_target (u : Z) : ST http_conn HTTP_CODE :=
  l ← text_at u;
  r ← lift (strpbrk blanks l);
  _ ← modify (fun c => c <| m_version := of_off (option_map (Z.add u) r) |>);
  match r with
  | None => mret BAD_REQUEST
  | Some j =>
    _ ← write_char (u + j) NUL;
    l ← text_at (u + j + 1);
    n ← lift (strspn blanks l);
    let v := u + j + 1 + n in
    _ ← modify (fun c => c <| m_version := PBuf v |>);
    l ← text_at v;
    ok ← lift (strcasecmp_eq l (lit "HTTP/1.1"));
    if negb ok then mret BAD_REQUEST else parse_target u
  end.

Lemma from_target_sim u e c :
  fits c -> 0 <= u <= e - 2 -> term c (e - 2) -> term c (e - 1) -> sim (from_target u) (from_target u) c.
Proof.
  intros Hf Hu H2 H1. unfold from_target. sim_call u (e - 2) (strpbrk blanks). intros r Hr.
  apply sim_modify; [reflexivity|]. destruct r as [j|]; [|apply sim_ret]. apply (strpbrk_bound _ _ Hn) in Hr.
  set (q := u + j). assert (u <= q < e - 2) as Rq by (unfold q; lia). set (ca := c <| m_version := _ |>).
  assert (inside ca q) as Hin by (apply (inside_term c q (e - 2)); [lia|done]).
  apply sim_write; [exact Hf|exact Hin|]. set (cb := put_char q NUL ca).
  assert (fits cb) as Hfb by (by apply put_fits). assert (term cb q) as Tq by (by apply put_term_new).
  assert (term cb (e - 2)) as T2 by (by apply put_term).
  assert (m_read_idx cb = m_read_idx c) as Hr' by done. clearbody cb.
  sim_call (q + 1) (e - 2) (strspn blanks). intros n Hs. apply (strspn_bound _ _ Hn0) in Hs. cbv zeta.
  apply sim_modify; [reflexivity|]. sim_call (q + 1 + n) (e - 2) (fun l => strcasecmp_eq l (lit "HTTP/1.1")).
  intros [|] Hv; [|apply sim_ret]. apply (strcasecmp_bound (lit "HTTP/1.1")) with (2 := Hn1) in Hv;
    [|auto with stops]. cbn in Hv. apply (parse_target_sim u q); [exact Hfb|lia|exact Tq|].
  destruct H1 as [[_ ?] _].
  change (m_read_idx (cb <| m_version := PBuf (q + 1 + n) |>)) with (m_read_idx cb). lia.
Qed.

Lemma print_text_state p c a c' : print_text p c = Ok (a, c') -> c' = c.
Proof.
  intros H. unfold print_text in H. apply ST_bind_ok in H as (l & ? & Hl & H). unfold text_at in Hl.
  destruct (from _ _); [|done]. injection Hl as <- <-.
  apply ST_bind_ok in H as (s & ? & Hs & H). apply lift_inv in Hs as [_ ->]. by injection H.
Qed.

Lemma parse_request_line_sim p e c :
  line_at c p e -> sim (parse_request_line p) (parse_request_line p) c.
Proof.
  intros [Hf Hp H1 H2]. unfold parse_request_line.
  apply sim_bind; [by apply (print_text_sim p (e - 1)); [|lia|]|].
  intros [] c0 Hc0. apply print_text_state in Hc0 as ->.
  sim_call p (e - 1) (strpbrk blanks). intros r Hr. apply sim_modify; [reflexivity|].
  destruct r as [k|]; [|apply sim_ret]. pose proof (strpbrk_bound _ _ Hn _ _ Hr) as Hk.
  pose proof (drop_term c p (e - 2) ltac:(lia) H2) as Hn2. rewrite E in Hn2.
  apply (strpbrk_bound _ _ Hn2) in Hr. clear Hk Hn Hn2 E Hl.
  set (q := p + k). set (ca := c <| m_url := _ |>). assert (p <= q < e - 2) as Rq by (unfold q; lia).
  assert (inside ca q) as Hin by (apply (inside_term c q (e - 2)); [lia|done]).
  apply sim_write; [exact Hf|exact Hin|]. set (cb := put_char q NUL ca).
  assert (fits cb) as Hfb by (by apply put_fits). assert (term cb q) as Tq by (by apply put_term_new).
  assert (term cb (e - 2)) as T2 by (by apply put_term). assert (term cb (e - 1)) as T1 by (by apply put_term).
  clearbody cb. apply sim_modify; [reflexivity|].
  sim_call p q (fun l => strcasecmp_eq l (lit "GET")). intros is_get _. apply sim_bind.
  { destruct is_get; [apply sim_ret|]. unfold sim, lift.
    rewrite (strcasecmp_stops (lit "POST") ltac:(auto with stops) l0 x0 y0) by (by eapply term_elem).
    intros a c'. destruct (strcasecmp_eq _ _); [|done]. by intros [= <- <-]. }
  intros is_post cc Hcc. assert (cc = cb <| m_url := PBuf (q + 1) |>) as ->.
  { destruct is_get; [by injection Hcc|]. by apply lift_inv in Hcc as [_ ->]. }
  destruct (is_get || is_post); [|apply sim_ret]. apply sim_modify; [by destruct is_get|].
  match goal with |- sim _ _ ?c0 => set (cd := c0) end.
  assert (fits cd) as Hfd by (by destruct is_get). assert (term cd (e - 2)) as Hd2 by (by destruct is_get).
  assert (term cd (e - 1)) as Hd1 by (by destruct is_get). clearbody cd.
  sim_call (q + 1) (e - 2) (strspn blanks). intros n Hs. apply (strspn_bound _ _ Hn0) in Hs. cbv zeta.
  apply sim_modify; [reflexivity|]. by apply (from_target_sim (q + 1 + n) e); [|lia|..].
Qed.

Lemma parse_headers_sim p e c : line_at c p e -> sim (parse_headers p) (parse_headers p) c.
Proof.
  intros [Hf Hp H1 H2]. destruct HttpParse.plain_names as (Pc & Pl & Ph).
  unfold parse_headers. apply sim_bind; [by apply (print_text_sim p (e - 1)); [|lia|]|].
  intros [] c0 Hc0. apply print_text_state in Hc0 as ->.
  apply sim_read; [done|by apply (inside_term c p (e - 1)); [lia|]|]. intros x Hx. case_bool_decide as Hnul.
  { apply sim_get. change (m_content_length (ext c)) with (m_content_length c). case_match; [|apply sim_ret].
    apply sim_modify; [reflexivity|apply sim_ret]. }
  assert (p <= e - 2) as Hp2.
  { destruct (decide (p = e - 1)) as [->|]; [|lia]. destruct H1 as [_ H1]. unfold char_at in *. congruence. }
  sim_call p (e - 2) (fun l => strncasecmp_eq 11 l (lit "Connection:")). intros [|] Hc.
  { apply (strncasecmp_bound _ Pc _ _ _ Hn) in Hc. cbn in Hc.
    sim_call (p + 11) (e - 2) (strspn blanks). intros n Hn1. apply (strspn_bound _ _ Hn0) in Hn1.
    sim_call (p + 11 + n) (e - 2) (fun l => strcasecmp_eq l (lit "keep-alive")). intros ka _.
    apply sim_bind; [|intros [] c1 _; apply sim_ret].
    destruct ka; [|apply sim_ret]. intros a c' [= <- <-]. done. }
  apply (sim_stops (fun l => strncasecmp_eq 15 l (lit "Content-length:")));
    [auto with stops|by eapply term_elem|]. intros [|] Hcl.
  { apply (strncasecmp_bound _ Pl _ _ _ Hn) in Hcl. cbn in Hcl.
    sim_call (p + 15) (e - 2) (strspn blanks). intros n Hn1. apply (strspn_bound _ _ Hn0) in Hn1.
    sim_call (p + 15 + n) (e - 2) atol. intros v _. apply sim_modify; [reflexivity|apply sim_ret]. }
  apply (sim_stops (fun l => strncasecmp_eq 5 l (lit "Host"))); [auto with stops|by eapply term_elem|].
  intros [|] Hh.
  { apply (strncasecmp_bound _ Ph _ _ _ Hn) in Hh. cbn in Hh.
    sim_call (p + 5) (e - 1) (strspn blanks). intros n _. apply sim_modify; [reflexivity|apply sim_ret]. }
  apply sim_bind; [by apply (log_text_sim p (e - 1)); [|lia|]|]. intros [] c1 _. apply sim_ret.
Qed.

(** ** The line scanner *)

Lemma ext_wf c : buf_wf c -> fits c -> buf_wf (ext c).
Proof. intros (Hl & Hi & Hm) Hf. pose proof Hf as (_ & _ & Hd). unfold buf_wf. rewrite ext_length by done. cbn. lia. Qed.

Lemma ext_char c i x : fits c -> inside c i -> char_at c i x -> char_at (ext c) i x.
Proof. unfold char_at. intros Hf Hi <-. by apply ext_read. Qed.

Lemma ext_no_eol c a b : fits c -> 0 <= a -> b <= m_read_idx c -> no_eol c a b -> no_eol (ext c) a b.
Proof.
  intros Hf Ha Hb Hno i Hi. destruct (Hno i Hi) as (x & Hx & ?). exists x. split; [|done].
  apply ext_char; [done|split; lia|done].
Qed.

Lemma ext_skip c j : buf_wf c -> fits c -> m_checked_idx c <= j <= m_read_idx c ->
  no_eol c (m_checked_idx c) j -> parse_line (ext c) = parse_line (ext (advance c j)).
Proof.
  intros Hwf Hf Hj Hno. pose proof Hwf as (_ & Hi & _).
  apply (parse_line_skip_to (ext c) j); [by apply ext_wf|cbn; lia|].
  apply ext_no_eol; [done|cbn; lia|lia|exact Hno].
Qed.

(** A scan that did not find a line has left nothing undone. *)
Lemma parse_line_unfinished c st c' : buf_wf c -> fits c -> parse_line c = Ok (st, c') -> st <> LINE_OK ->
  parse_line (ext c') = parse_line (ext c) /\ exists j, c' = advance c j.
Proof.
  intros Hwf Hf Hrun Hst. destruct (parse_line_spec c Hwf) as (st' & c2 & Hrun' & Hres).
  rewrite Hrun in Hrun'. injection Hrun' as <- <-. pose proof Hwf as (_ & Hi & _).
  destruct Hres as [Hno|j Hj Hr Hno _|j|j x Hj Hno _ _]; [..|done|];
    (split; [symmetry; apply ext_skip; done || lia|by eexists]).
Qed.

(** The round that completes a line does the same with more data. *)
Lemma line_ok_step n m c c' : buf_wf c -> fits c ->
  (m_checked_idx c = m_read_idx c \/ exists x, char_at c (m_checked_idx c) x /\ (x = CR \/ x = LF)) ->
  parse_line_loop (S n) c = Ok (LINE_OK, c') -> parse_line_loop (S m) (ext c) = Ok (LINE_OK, ext c').
Proof.
  intros Hwf Hf Hstop H. pose proof Hwf as (_ & Hi & _). cbn [parse_line_loop] in *.
  apply ST_bind_ok in H as (? & ? & [= <- <-] & H). erewrite ST_bind_step by reflexivity. cbv zeta in *.
  change (m_checked_idx (ext c)) with (m_checked_idx c).
  change (m_read_idx (ext c)) with (m_read_idx c + Z.of_nat (length data)).
  destruct (Z.ltb_spec (m_checked_idx c) (m_read_idx c)) as [Hlt|]; [|done].
  rewrite (proj2 (Z.ltb_lt _ _)) by lia. destruct Hstop as [?|(x & Hx & Hor)]; [lia|].
  assert (inside c (m_checked_idx c)) as Hin by (split; lia).
  rewrite (ST_bind_step _ _ _ _ _ (read_char_ok _ _ _ Hx)) in H.
  rewrite (ST_bind_step _ _ _ _ _ (read_char_ok _ _ _ (ext_char _ _ _ Hf Hin Hx))).
  revert H. destruct Hor as [->| ->].
  - rewrite bool_decide_eq_true_2 by done. destruct (Z.eqb_spec (m_checked_idx c + 1) (m_read_idx c)); [done|].
    rewrite (proj2 (Z.eqb_neq _ _)) by lia. apply sim_at.
    apply sim_read; [done|split; lia|]. intros y _. case_bool_decide; [|apply sim_ret].
    apply sim_write; [done|done|]. apply sim_modify; [reflexivity|].
    apply sim_write; [by apply (put_fits (m_checked_idx c) NUL)|split; cbn; lia|].
    apply sim_modify; [reflexivity|apply sim_ret].
  - rewrite bool_decide_eq_false_2, bool_decide_eq_true_2 by done.
    destruct (Z.ltb_spec 1 (m_checked_idx c)); [|done]. apply sim_at.
    apply sim_read; [done|split; lia|]. intros y _. case_bool_decide; [|apply sim_ret].
    apply sim_write; [done|split; lia|].
    apply sim_write; [by apply (put_fits (m_checked_idx c - 1) NUL)|done|].
    apply sim_modify; [reflexivity|apply sim_ret].
Qed.

Lemma parse_line_line c c' : buf_wf c -> fits c -> parse_line c = Ok (LINE_OK, c') ->
  parse_line (ext c) = Ok (LINE_OK, ext c').
Proof.
  intros Hwf Hf H. destruct (first_eol c Hwf) as (k & Hno & Hle & Hstop). pose proof Hwf as (_ & Hi & _).
  rewrite (ext_skip c (m_checked_idx c + Z.of_nat k)) by (done || lia).
  rewrite (parse_line_skip_to c (m_checked_idx c + Z.of_nat k)) in H by (done || lia).
  revert H. apply line_ok_step; [apply buf_wf_advance; [done|lia]|done|exact Hstop].
Qed.

(** The line that was found: from the start of the line to the position reached. *)
Lemma found_line c c' : typed c -> fits c -> parse_line c = Ok (LINE_OK, c') ->
  line_at c' (m_start_line c) (m_checked_idx c').
Proof.
  intros Ht Hf Hrun. pose proof Ht as [T1 _ _ _ T5 _]. assert (buf_wf c) as Hwf by (unfold buf_wf; lia).
  destruct (parse_line_spec c Hwf) as (st' & c2 & Hrun' & Hres). rewrite Hrun in Hrun'. injection Hrun' as <- <-.
  inversion Hres as [| |j H1 H2 H3 _ _ _ E1 E2|]. pose proof Hf as (_ & _ & Hd). unfold READ_BUFFER_SIZE in *.
  change (m_checked_idx (cut_line c j)) with (j + 2).
  split; [unfold fits; rewrite cut_line_length; done|lia|split; [split; cbn; lia|]..];
    apply rd_lookup; (split; [lia|]); cbn.
  - replace (Z.to_nat (j + 2 - 1)) with (Z.to_nat (j + 1)) by lia. apply list_lookup_insert_eq.
    rewrite length_insert. lia.
  - rewrite list_lookup_insert_ne by lia. replace (Z.to_nat (j + 2 - 2)) with (Z.to_nat j) by lia.
    apply list_lookup_insert_eq. lia.
Qed.

(** ** The state machine *)

Section machine.
Context {DB : Type}
  (mysql_query : option Z -> list ascii -> DB -> Z * DB)
  (stat : list ascii -> option file_stat)
  (mmap : list ascii -> Z -> faddr).

Notation round := (read_round mysql_query stat mmap).
Notation loop := (process_read_loop mysql_query stat mmap).

(** The same state with the new data. *)
Definition extend (s : hstate DB) : hstate DB := s <| conn := ext (conn s) |>.

Lemma extend_fits (s s' : hstate DB) : fits (conn s) -> same_conn s s' -> fits (conn s').
Proof. intros (H1 & H2 & H3) [E _ _ _ Hr _ _ _]. unfold fits. by rewrite E, Hr. Qed.

Lemma extend_typed (s : hstate DB) : typed (conn s) -> fits (conn s) -> typed (conn (extend s)).
Proof.
  intros [] Hf. pose proof Hf as (_ & _ & Hd). split; try done; [by rewrite <- (ext_length _ Hf) in *|].
  cbn. lia.
Qed.

Lemma on_conn_extended {A} (m : ST http_conn A) (s : hstate DB) a c' :
  m (ext (conn s)) = Ok (a, ext c') -> on_conn m (extend s) = Ok (a, extend (s <| conn := c' |>)).
Proof. intros H. unfold on_conn, zoom. change (conn (extend s)) with (ext (conn s)). by rewrite H. Qed.

Lemma on_conn_again {A} (m : ST http_conn A) (s : hstate DB) c' :
  m (ext c') = m (ext (conn s)) -> on_conn m (extend (s <| conn := c' |>)) = on_conn m (extend s).
Proof.
  intros H. unfold on_conn, zoom. change (conn (extend (s <| conn := c' |>))) with (ext c').
  change (conn (extend s)) with (ext (conn s)). by rewrite H.
Qed.

Lemma on_conn_extend {A} (m : ST http_conn A) (s : hstate DB) a s' :
  sim m m (conn s) -> on_conn m s = Ok (a, s') -> on_conn m (extend s) = Ok (a, extend s').
Proof.
  intros Hs. unfold on_conn at 1, zoom. destruct (m (conn s)) as [[a1 c1]|] eqn:E; [|done]. intros [= <- <-].
  by apply on_conn_extended, Hs.
Qed.

Lemma open_file_answers (s s1 : hstate DB) : open_file stat mmap s <> Ok (NO_REQUEST, s1).
Proof.
  unfold open_file. intros H. apply ST_bind_ok in H as (? & ? & _ & H). apply ST_bind_ok in H as (? & ? & _ & H).
  case_match; [|done]. apply ST_bind_ok in H as (? & ? & _ & H).
  case_match; [done|]. case_match; [done|]. by apply ST_bind_ok in H as (? & ? & _ & H).
Qed.

Lemma do_request_answers t (s s1 : hstate DB) : do_request mysql_query stat mmap t s <> Ok (NO_REQUEST, s1).
Proof.
  unfold do_request. intros H. do 7 (apply ST_bind_ok in H as (? & ? & _ & H); cbv zeta in H).
  case_match; [|done]. do 3 (apply ST_bind_ok in H as (? & ? & _ & H)). by apply open_file_answers in H.
Qed.

(** The state in which a line is handed to its parser, and the [switch]. *)
Definition started (s : hstate DB) : hstate DB :=
  s <| conn := (conn s) <| m_start_line := m_checked_idx (conn s) |> |>.

Definition switch (t : tid) (k : LINE_STATUS -> ST (hstate DB) HTTP_CODE) (st : CHECK_STATE) (text : Z)
    : ST (hstate DB) HTTP_CODE :=
  match st with
  | CHECK_STATE_REQUESTLINE =>
    ret ← on_conn (parse_request_line text);
    if bool_decide (ret = BAD_REQUEST) then mret BAD_REQUEST else k LINE_OK
  | CHECK_STATE_HEADER =>
    ret ← on_conn (parse_headers text);
    if bool_decide (ret = BAD_REQUEST) then mret BAD_REQUEST
    else if bool_decide (ret = GET_REQUEST) then do_request mysql_query stat mmap t
    else k LINE_OK
  | CHECK_STATE_CONTENT =>
    ret ← on_conn (parse_content text);
    if bool_decide (ret = GET_REQUEST) then do_request mysql_query stat mmap t else k LINE_OPEN
  end.

Lemma take_line_switch t k s :
  on_conn (log_text (m_start_line (conn s))) (started s) = Ok (tt, started s) ->
  take_line mysql_query stat mmap t k LINE_OK s =
    switch t k (m_check_state (conn s)) (m_start_line (conn s)) (started s).
Proof.
  intros Hlog. unfold take_line. rewrite (ST_bind_step _ _ _ s s) by done.
  rewrite (ST_bind_step _ _ _ tt (started s)) by done. by rewrite (ST_bind_step _ _ _ tt (started s)) by exact Hlog.
Qed.

Lemma take_line_logs t k s r : take_line mysql_query stat mmap t k LINE_OK s = Ok r ->
  on_conn (log_text (m_start_line (conn s))) (started s) = Ok (tt, started s).
Proof.
  destruct r as [ret s1]. unfold take_line. intros H. apply ST_bind_ok in H as (? & ? & [= <- <-] & H).
  apply ST_bind_ok in H as ([] & ? & [= <-] & H). fold (started s) in H.
  apply ST_bind_ok in H as ([] & sb & Hlog & _). change (get_line (conn s)) with (m_start_line (conn s)) in Hlog.
  rewrite Hlog. revert Hlog. unfold on_conn, zoom, log_text, mbind, ST_bind, get.
  destruct (m_close_log _ =? 0); [|intros [= <-]; by destruct s].
  destruct (print_text _ _) as [[[] c]|] eqn:E; [|done]. apply print_text_state in E as ->. by intros [= <-].
Qed.

Lemma on_conn_shape {A} (m : ST http_conn A) (s : hstate DB) a s' :
  keeps_at same_shape m (conn s) -> on_conn m s = Ok (a, s') -> same_conn s s'.
Proof. intros Hk Hm. apply on_conn_keeps in Hk. unfold keeps_at in Hk. by rewrite Hm in Hk. Qed.

(** A line was taken without an answer: the machine goes on, and it does so
    with more data too. *)
Lemma switch_extend t k st s s1 p e :
  line_at (conn s) p e -> switch t k st p s = Ok (NO_REQUEST, s1) ->
  exists s3, k LINE_OK s3 = Ok (NO_REQUEST, s1) /\ same_conn s s3 /\
    forall k', switch t k' st p (extend s) = k' LINE_OK (extend s3).
Proof.
  intros La H. destruct st; simpl in *; apply ST_bind_ok in H as (ret & s3 & Hp & H).
  - case_bool_decide; [done|]. exists s3.
    split_and!; [done|by eapply on_conn_shape, Hp; apply parse_request_line_keeps|]. intros k'.
    erewrite ST_bind_step by (apply on_conn_extend; [by eapply parse_request_line_sim|exact Hp]).
    by rewrite bool_decide_eq_false_2.
  - case_bool_decide; [done|]. case_bool_decide; [by apply do_request_answers in H|]. exists s3.
    split_and!; [done|by eapply on_conn_shape, Hp; apply parse_headers_keeps|]. intros k'.
    erewrite ST_bind_step by (apply on_conn_extend; [by eapply parse_headers_sim|exact Hp]).
    by rewrite !bool_decide_eq_false_2.
  - unfold on_conn, zoom in Hp. destruct (parse_content _ _) as [[r c]|] eqn:E; [|done].
    apply parse_content_ret in E as ->. injection Hp as <- _. by apply do_request_answers in H.
Qed.

Lemma take_line_extend t k s s1 e :
  line_at (conn s) (m_start_line (conn s)) e ->
  take_line mysql_query stat mmap t k LINE_OK s = Ok (NO_REQUEST, s1) ->
  exists s3, k LINE_OK s3 = Ok (NO_REQUEST, s1) /\ same_conn (started s) s3 /\
    forall k', take_line mysql_query stat mmap t k' LINE_OK (extend s) = k' LINE_OK (extend s3).
Proof.
  intros Hline H. pose proof (take_line_logs _ _ _ _ H) as Hlog. rewrite (take_line_switch _ _ _ Hlog) in H.
  assert (line_at (conn (started s)) (m_start_line (conn s)) e) as La by (by destruct Hline; split).
  apply (switch_extend _ _ _ _ _ _ e La) in H as (s3 & Hk & Hs & Hx). exists s3. split_and!; [done..|].
  intros k'. rewrite <- Hx. apply take_line_switch. change (started (extend s)) with (extend (started s)).
  change (m_start_line (conn (extend s))) with (m_start_line (conn s)). apply on_conn_extend; [|exact Hlog].
  destruct La as [Lf Lr L1 L2]. apply (log_text_sim _ (e - 1)); [done|lia|done].
Qed.

(** A round that ends with [NO_REQUEST] can be run again when more data is
    there; one that goes on would have done the same with more data. *)
Lemma round_extend t k s s1 :
  typed (conn s) -> fits (conn s) -> round t k LINE_OK s = Ok (NO_REQUEST, s1) ->
  (forall k', round t k' LINE_OK (extend s1) = round t k' LINE_OK (extend s)) \/
  exists s3, k LINE_OK s3 = Ok (NO_REQUEST, s1) /\ typed (conn s3) /\ fits (conn s3) /\
    (unscanned (conn s3) < unscanned (conn s))%nat /\
    forall k', round t k' LINE_OK (extend s) = k' LINE_OK (extend s3).
Proof.
  intros Ht Hf H. unfold read_round in H. apply ST_bind_ok in H as (? & ? & [= <- <-] & H).
  destruct (_ && _) eqn:Eb.
  { apply andb_prop in Eb as [E1 _]. reflect_bools. apply ST_bind_ok in H as (? & ? & [= <- <-] & H).
    simpl in H. rewrite (take_line_switch _ _ _ (take_line_logs _ _ _ _ H)), E1 in H. simpl in H.
    apply ST_bind_ok in H as (ret & s3 & Hp & H). unfold on_conn, zoom in Hp.
    destruct (parse_content _ _) as [[r c]|] eqn:E; [|done].
    apply parse_content_ret in E as ->. injection Hp as <- _. by apply do_request_answers in H. }
  assert (buf_wf (conn s)) as Hwf by (destruct Ht; unfold buf_wf; lia).
  destruct (parse_line_typed (conn s) Ht) as (st & c2 & Hrun & Ht2 & Hr2 & Hst & Hsl & Hless).
  set (s2 := s <| conn := c2 |>).
  apply ST_bind_ok in H as (st' & s2' & Hp & H). unfold on_conn, zoom in Hp. rewrite Hrun in Hp.
  injection Hp as <- <-. fold s2 in H. change (m_check_state (conn (extend s))) with (m_check_state (conn s)).
  assert (forall k', round t k' LINE_OK (extend s) =
    (st ← on_conn parse_line; if bool_decide (st <> LINE_OK) then mret NO_REQUEST else take_line mysql_query stat mmap t k' st)
      (extend s)) as Hround.
  { intros k'. unfold read_round. rewrite (ST_bind_step _ _ _ (extend s) (extend s)) by done.
    change (m_check_state (conn (extend s))) with (m_check_state (conn s)). by rewrite Eb. }
  case_bool_decide as Hok.
  - left. injection H as <-. destruct (parse_line_unfinished _ _ _ Hwf Hf Hrun Hok) as [Hagain [j Ej]].
    intros k'. rewrite Hround. unfold read_round. rewrite (ST_bind_step _ _ _ (extend s2) (extend s2)) by done.
    change (m_check_state (conn (extend s2))) with (m_check_state c2). rewrite Hst, Eb.
    unfold mbind, ST_bind. unfold s2. by rewrite (on_conn_again _ _ _ Hagain).
  - right. destruct (decide (st = LINE_OK)) as [->|]; [|done].
    assert (line_at (conn s2) (m_start_line (conn s2)) (m_checked_idx c2)) as La.
    { change (m_start_line (conn s2)) with (m_start_line c2). rewrite Hsl. by apply found_line. }
    apply (take_line_extend _ _ _ _ _ La) in H as (s3 & Hk & Hs & Hx). exists s3. split_and!; [done|..].
    + eapply typed_shape, Hs. destruct Ht2; split; cbn; done || lia.
    + eapply extend_fits, Hs. apply La.
    + specialize (Hless eq_refl). unfold unscanned in *.
      by rewrite (ss_read_idx _ _ Hs), (ss_checked_idx _ _ Hs).
    + intros k'. rewrite Hround. rewrite (ST_bind_step _ _ _ LINE_OK (extend s2)); [apply Hx|].
      by apply on_conn_extended, parse_line_line.
Qed.

(** [process_read] as its loop, with any fuel above the bytes not scanned. *)
Lemma process_read_fuel t s n : typed (conn s) -> (unscanned (conn s) < n)%nat ->
  process_read mysql_query stat mmap t s = loop n t LINE_OK s.
Proof.
  intros Ht Hn. destruct (read_loop_ends mysql_query stat mmap t (S (unscanned (conn s))) LINE_OK s)
    as (r & Hk & _ & _); [lia|done|].
  transitivity r; [|symmetry; by apply Hk]. rewrite <- (Hk (S (S (unscanned (conn s))))) by lia. reflexivity.
Qed.

Lemma process_read_extend t : forall n s s1, (unscanned (conn s) < n)%nat ->
  typed (conn s) -> fits (conn s) -> process_read mysql_query stat mmap t s = Ok (NO_REQUEST, s1) ->
  process_read mysql_query stat mmap t (extend s1) = process_read mysql_query stat mmap t (extend s).
Proof.
  induction n as [|n IH]; intros s s1 Hn Ht Hf H; [lia|].
  destruct (proj2 (process_read_ends mysql_query stat mmap t s Ht) _ _ H) as [Ht1 Hr1].
  assert (fits (conn s1)) as Hf1.
  { destruct Hf as (_ & Hf2 & Hf3). split; [apply Ht1|]. by rewrite Hr1. }
  pose proof (extend_typed _ Ht Hf) as Htx. pose proof (extend_typed _ Ht1 Hf1) as Htx1.
  rewrite (process_read_fuel t s (S n)) in H by (done || lia). rewrite process_read_round in H.
  destruct (round_extend _ _ _ _ Ht Hf H) as [Hagain|(s3 & Hk & Ht3 & Hf3 & Hless & Hx)].
  - set (N := S (unscanned (conn (extend s)) + unscanned (conn (extend s1)))).
    rewrite !(process_read_fuel t _ (S N)) by (done || lia). rewrite !process_read_round. apply Hagain.
  - pose proof (extend_typed _ Ht3 Hf3) as Htx3.
    set (N := S (unscanned (conn (extend s)) + unscanned (conn (extend s3)))).
    rewrite (process_read_fuel t (extend s) (S N)) by (done || lia). rewrite process_read_round, Hx.
    rewrite <- (process_read_fuel t (extend s3) N) by (done || lia).
    apply IH; [lia|done|done|]. rewrite (process_read_fuel t s3 n) by (done || lia). exact Hk.
Qed.

End machine.

End resume.

(** ** What the parsers leave to the server

    Between two calls the server sets flags of the connection and lends it
    another MySQL connection, and other threads change the globals.  The
    parsers neither read nor write any of these. *)

Record flags := { f_mysql : option Z; f_state : Z; f_improv : Z; f_timer_flag : Z }.

Definition flags_of (c : http_conn) : flags :=
  {| f_mysql := mysql c; f_state := m_state c; f_improv := improv c; f_timer_flag := timer_flag c |}.

Section flags.
Context (v : flags).

Definition put_flags (c : http_conn) : http_conn :=
  c <| mysql := f_mysql v |> <| m_state := f_state v |> <| improv := f_improv v |>
    <| timer_flag := f_timer_flag v |>.

Definition with_flags {A} (r : res (A * http_conn)) : res (A * http_conn) :=
  match r with Ok (a, c) => Ok (a, put_flags c) | Halt h => Halt h end.

(** [m] does the same whatever the flags are. *)
Definition blind {A} (m : ST http_conn A) : Prop := forall c, m (put_flags c) = with_flags (m c).

Lemma blind_ret {A} (a : A) : blind (mret a).
Proof. done. Qed.

Lemma blind_throw {A} h : blind (A := A) (throw h).
Proof. done. Qed.

Lemma blind_lift {A} (m : res A) : blind (lift m).
Proof. intros c. unfold lift. by destruct m. Qed.

Lemma blind_modify f : (forall c, f (put_flags c) = put_flags (f c)) -> blind (modify f).
Proof. intros H c. unfold modify. by rewrite H. Qed.

Lemma blind_bind {A B} (m : ST http_conn A) (f : A -> ST http_conn B) :
  blind m -> (forall a, blind (f a)) -> blind (m ≫= f).
Proof.
  intros Hm Hf c. unfold mbind, ST_bind. rewrite Hm. destruct (m c) as [[a c']|]; [|done]. apply Hf.
Qed.

Lemma blind_get {B} (f : http_conn -> ST http_conn B) :
  (forall c, f (put_flags c) = f c) -> (forall c, blind (f c)) -> blind (get ≫= f).
Proof. intros He Hf c. unfold mbind, ST_bind, get. rewrite He. apply Hf. Qed.

Lemma blind_text p : blind (text_at p).
Proof. intros c. unfold text_at. change (m_read_buf (put_flags c)) with (m_read_buf c). by destruct (from _ _). Qed.

Lemma blind_read p : blind (read_char p).
Proof. intros c. unfold read_char. change (m_read_buf (put_flags c)) with (m_read_buf c). by destruct (rd _ _). Qed.

Lemma blind_write p x : blind (write_char p x).
Proof. intros c. unfold write_char. change (m_read_buf (put_flags c)) with (m_read_buf c). by destruct (wr _ _ _). Qed.
End flags.

Create HintDb blind discriminated.
#[local] Hint Resolve blind_ret blind_throw blind_lift blind_text blind_read blind_write : blind.

Ltac blind_step :=
  match goal with
  | |- blind _ (get ≫= _) => apply blind_get; [reflexivity|intros]
  | |- blind _ (_ ≫= _) => apply blind_bind; [|intros]
  | |- blind _ (modify _) => apply blind_modify; intros; repeat case_match; reflexivity
  | |- blind _ (if ?b then _ else _) => destruct b
  | |- blind _ (match ?x with _ => _ end) => destruct x
  | _ => solve [auto with blind]
  end.
Ltac blind := cbv zeta; repeat (blind_step; cbv zeta).

Lemma blind_print v p : blind v (print_text p).
Proof. unfold print_text. blind. Qed.
#[local] Hint Resolve blind_print : blind.

Lemma blind_log v p : blind v (log_text p).
Proof. unfold log_text. blind. Qed.
#[local] Hint Resolve blind_log : blind.

Lemma blind_scheme v s n u : blind v (skip_scheme s n u).
Proof. unfold skip_scheme. blind. Qed.
#[local] Hint Resolve blind_scheme : blind.

Lemma blind_target v u : blind v (parse_target u).
Proof. unfold parse_target. blind. Qed.
#[local] Hint Resolve blind_target : blind.

Lemma blind_request_line v p : blind v (parse_request_line p).
Proof. unfold parse_request_line. blind. Qed.

Lemma blind_headers v p : blind v (parse_headers p).
Proof. unfold parse_headers. blind. Qed.

Lemma blind_line_loop v n : blind v (parse_line_loop n).
Proof. induction n; cbn [parse_line_loop]; blind. Qed.

Lemma blind_line v : blind v parse_line.
Proof. unfold parse_line. apply blind_get; [reflexivity|]. intros. apply blind_line_loop. Qed.

(** ** Properties *)

Lemma ext_app d1 d2 c : fits (d1 ++ d2) c -> ext d2 (ext d1 c) = ext (d1 ++ d2) c.
Proof.
  intros Hf. destruct (ext_parts _ c Hf) as (l1 & l2 & l3 & E & _ & Hr & Hl). rewrite length_app in Hl.
  rewrite (ext_of_parts (d1 ++ d2) c l1 l2 l3) by (rewrite ?length_app; done).
  set (a := take (length d1) l2). set (b := drop (length d1) l2).
  assert (l2 = a ++ b) as El by (unfold a, b; by rewrite take_drop).
  rewrite (ext_of_parts d1 c l1 a (b ++ l3)); [|rewrite E, El, <- app_assoc; done|done|unfold a; rewrite length_take; lia].
  rewrite (ext_of_parts d2 _ (l1 ++ d1) b l3); cbn [m_read_buf m_read_idx set].
  - rewrite <- !app_assoc, length_app, Nat2Z.inj_add, Z.add_assoc. reflexivity.
  - by rewrite <- app_assoc.
  - rewrite length_app. lia.
  - unfold b. rewrite length_drop. lia.
Qed.

Lemma ext_nil c : fits [] c -> ext [] c = c.
Proof.
  intros Hf. destruct (ext_parts [] c Hf) as (l1 & [|] & l3 & E & _ & Hr & Hl); [|done].
  rewrite (ext_of_parts [] c l1 [] l3) by done. cbn [app length]. change ([] ++ l3) with l3 in E.
  rewrite <- E, Z.add_0_r. by destruct c.
Qed.

(** An edge-triggered read that the socket does not end: the data arrives. *)
Lemma read_once_extends c k : typed c -> nonempty k -> m_TRIGMode c <> 0 -> after k = WouldBlock ->
  m_read_idx c + Z.of_nat (length (all_data k)) < READ_BUFFER_SIZE ->
  exists k', read_once {| rconn := c; rsock := k |} = Ok (true, {| rconn := ext (all_data k) c; rsock := k' |}).
Proof.
  intros [T1 _ _ _ T5 _] Hk Hm Ha Hroom. set (r := Z.to_nat (m_read_idx c)).
  assert (length (drop r (m_read_buf c)) = Z.to_nat (READ_BUFFER_SIZE - m_read_idx c)) as Hlen.
  { rewrite length_drop. unfold r. lia. }
  destruct (read_edge_run {| rconn := c; rsock := k |} (take r (m_read_buf c)) (drop r (m_read_buf c)))
    as (k' & Hrun); [|done|intros E; rewrite E in Hlen; simpl in Hlen; lia|done|].
  { split_and!; [by rewrite take_drop| |by rewrite take_drop]. cbn. rewrite length_take. unfold r. lia. }
  exists k'. rewrite Hrun. cbn [rsock rconn]. rewrite Ha, bool_decide_eq_true_2, (proj2 (Nat.ltb_lt _ _)) by (done || lia).
  rewrite (take_ge (all_data k)) by lia. reflexivity.
Qed.

Section pieces.
Context {DB : Type}
  (mysql_query : option Z -> list ascii -> DB -> Z * DB)
  (stat : list ascii -> option file_stat)
  (mmap : list ascii -> Z -> faddr).

Notation round := (read_round mysql_query stat mmap).
Notation loop := (process_read_loop mysql_query stat mmap).
Notation run := (process_read mysql_query stat mmap).

(** The server has set the flags and other threads the globals. *)
Definition touch (v : flags) (g : globals DB) (s : hstate DB) : hstate DB :=
  {| conn := put_flags v (conn s); glob := g |}.

Lemma on_conn_touch {A} (m : ST http_conn A) v g s a s' :
  blind v m -> on_conn m s = Ok (a, s') -> on_conn m (touch v g s) = Ok (a, touch v g s').
Proof.
  intros Hm. unfold on_conn, zoom. cbn [conn touch]. rewrite (Hm (conn s)).
  destruct (m (conn s)) as [[a1 c1]|]; [|done]. intros [= -> <-]. reflexivity.
Qed.

Lemma take_line_touch v g t (k k' : LINE_STATUS -> ST (hstate DB) HTTP_CODE) ls s s1 :
  (forall ls s, k ls s = Ok (NO_REQUEST, s1) -> k' ls (touch v g s) = Ok (NO_REQUEST, touch v g s1)) ->
  take_line mysql_query stat mmap t k ls s = Ok (NO_REQUEST, s1) ->
  take_line mysql_query stat mmap t k' ls (touch v g s) = Ok (NO_REQUEST, touch v g s1).
Proof.
  intros Hk H. unfold take_line in *. apply ST_bind_ok in H as (? & ? & [= <- <-] & H).
  apply ST_bind_ok in H as ([] & sa & Ha & H). apply ST_bind_ok in H as ([] & sb & Hb & H).
  rewrite (ST_bind_step _ _ _ (touch v g s) (touch v g s)) by done. cbv zeta.
  apply (on_conn_touch _ v g) in Ha; [|by apply blind_modify]. rewrite (ST_bind_step _ _ _ _ _ Ha).
  apply (on_conn_touch _ v g) in Hb; [|apply blind_log].
  change (get_line (conn (touch v g s))) with (get_line (conn s)). rewrite (ST_bind_step _ _ _ _ _ Hb).
  change (m_check_state (conn (touch v g s))) with (m_check_state (conn s)).
  destruct (m_check_state (conn s)); apply ST_bind_ok in H as (ret & sc & Hc & H).
  - apply (on_conn_touch _ v g) in Hc; [|apply blind_request_line]. rewrite (ST_bind_step _ _ _ _ _ Hc).
    case_bool_decide; [done|]. by apply Hk.
  - apply (on_conn_touch _ v g) in Hc; [|apply blind_headers]. rewrite (ST_bind_step _ _ _ _ _ Hc).
    case_bool_decide; [done|]. case_bool_decide; [by apply do_request_answers in H|]. by apply Hk.
  - unfold on_conn, zoom in Hc. destruct (parse_content _ _) as [[r c]|] eqn:E; [|done].
    apply parse_content_ret in E as ->. injection Hc as <- _. by apply do_request_answers in H.
Qed.

(** [process_read] on an incomplete request does not see them. *)
Lemma loop_touch v g t n : forall ls s s1,
  loop n t ls s = Ok (NO_REQUEST, s1) -> loop n t ls (touch v g s) = Ok (NO_REQUEST, touch v g s1).
Proof.
  induction n as [|n IH]; intros ls s s1; [done|]. rewrite !process_read_round. unfold read_round. intros H.
  apply ST_bind_ok in H as (? & ? & [= <- <-] & H). rewrite (ST_bind_step _ _ _ (touch v g s) (touch v g s)) by done.
  change (m_check_state (conn (touch v g s))) with (m_check_state (conn s)).
  apply ST_bind_ok in H as (ls' & s2 & Hs & H).
  assert ((if bool_decide (m_check_state (conn s) = CHECK_STATE_CONTENT) && bool_decide (ls = LINE_OK)
    then mret ls else on_conn parse_line) (touch v g s) = Ok (ls', touch v g s2)) as Hs'.
  { destruct (_ && _); [change (Ok (ls, s) = Ok (ls', s2)) in Hs; by simplify_eq|].
    apply on_conn_touch; [apply blind_line|exact Hs]. }
  rewrite (ST_bind_step _ _ _ _ _ Hs'). destruct (bool_decide (ls' <> LINE_OK));
    [change (Ok (NO_REQUEST, s2) = Ok (NO_REQUEST, s1)) in H; by simplify_eq|].
  refine (take_line_touch v g t _ _ _ _ _ _ H). intros. by apply IH.
Qed.

Lemma process_read_touch v g t s s1 :
  run t s = Ok (NO_REQUEST, s1) -> run t (touch v g s) = Ok (NO_REQUEST, touch v g s1).
Proof. apply loop_touch. Qed.

Lemma extend_touch d v g s : extend d (touch v g s) = touch v g (extend d s).
Proof. reflexivity. Qed.

Lemma touch_self (s : hstate DB) : touch (flags_of (conn s)) (glob s) s = s.
Proof. by destruct s as [[] ?]. Qed.

Lemma touch_touch v g v' g' s : touch v g (touch v' g' s) = touch v g s.
Proof. reflexivity. Qed.

Lemma typed_touch v g s : typed (conn s) -> typed (conn (touch v g s)).
Proof. by intros []. Qed.

(** What happens between two calls: the server sets the flags, other threads
    the globals, and more data arrives. *)
Record event := { ev_flags : flags; ev_glob : globals DB; ev_data : list ascii }.

Definition after_event (e : event) (s : hstate DB) : hstate DB :=
  extend (ev_data e) (touch (ev_flags e) (ev_glob e) s).

Definition event_data (es : list event) : list ascii := concat (map ev_data es).

(** The pieces of a request arrive, each after [process_read] has found that
    what is there is incomplete. *)
Inductive arrive (t : tid) : list event -> hstate DB -> hstate DB -> Prop :=
| arrive_nil s : arrive t [] s s
| arrive_cons e es s s1 s' :
    run t s = Ok (NO_REQUEST, s1) -> arrive t es (after_event e s1) s' -> arrive t (e :: es) s s'.

Lemma arrive_snoc t e es s s1 s' :
  arrive t es s s' -> run t s' = Ok (NO_REQUEST, s1) -> arrive t (es ++ [e]) s (after_event e s1).
Proof. induction 1; intros Hr; econstructor; eauto using arrive_nil. Qed.

Lemma extend_nil (s : hstate DB) : typed (conn s) -> extend [] s = s.
Proof.
  intros Ht. unfold extend. rewrite ext_nil; [by destruct s|].
  destruct Ht. split_and!; cbn [length]; done || lia.
Qed.

(** The whole request in the buffer at once, with the flags and the globals
    that are there in the end. *)
Definition at_once (data : list ascii) (s s' : hstate DB) : hstate DB :=
  touch (flags_of (conn s')) (glob s') (extend data s).

(** One call on the data so far, and then one on all of it. *)
Lemma resume_once t d ds s s1 v g :
  typed (conn s) -> m_read_idx (conn s) + Z.of_nat (length (d ++ ds)) <= READ_BUFFER_SIZE ->
  run t s = Ok (NO_REQUEST, s1) ->
  typed (conn (extend d (touch v g s1))) /\
  m_read_idx (conn (extend d (touch v g s1))) = m_read_idx (conn s) + Z.of_nat (length d) /\
  forall v' g', run t (touch v' g' (extend ds (extend d (touch v g s1)))) = run t (touch v' g' (extend (d ++ ds) s)).
Proof.
  rewrite length_app. intros Ht Hroom Hrun.
  destruct (proj2 (process_read_ends mysql_query stat mmap t s Ht) _ _ Hrun) as [Ht1 Hr1].
  assert (forall s0 : hstate DB, typed (conn s0) -> m_read_idx (conn s0) = m_read_idx (conn s) -> fits (d ++ ds) (conn s0) /\ fits d (conn s0))
    as Hfits.
  { intros s0 Ht0 Hr0. rewrite <- Hr0 in Hroom. destruct Ht0. split; (split_and!; [done|lia|rewrite ?length_app; lia]). }
  destruct (Hfits s Ht eq_refl) as [Hf _]. destruct (Hfits s1 Ht1 Hr1) as [Hf1 Hd1].
  split_and!.
  - by apply extend_typed; [apply typed_touch|].
  - cbn. by rewrite Hr1.
  - intros v' g'. rewrite !extend_touch, touch_touch.
    replace (extend ds (extend d s1)) with (extend (d ++ ds) s1)
      by (unfold extend; rewrite <- ext_app by done; reflexivity).
    rewrite <- !extend_touch.
    apply (process_read_extend _ _ _ _ _ (S (unscanned (conn (touch v' g' s))))); [lia|by apply typed_touch|exact Hf|].
    by apply process_read_touch.
Qed.

Lemma resumes t es s s' :
  typed (conn s) -> m_read_idx (conn s) + Z.of_nat (length (event_data es)) <= READ_BUFFER_SIZE ->
  arrive t es s s' -> run t s' = run t (at_once (event_data es) s s').
Proof.
  intros Ht Hroom Ha. unfold at_once, event_data in *. revert Ht Hroom.
  induction Ha as [s|e es s s1 s' Hrun Ha IH]; cbn [map concat]; intros Ht Hroom.
  - rewrite extend_nil by done. by rewrite touch_self.
  - destruct (resume_once t (ev_data e) (concat (map ev_data es)) s s1 (ev_flags e) (ev_glob e) Ht Hroom Hrun)
      as (Ht1 & Hr1 & Hres).
    rewrite IH; [apply Hres|exact Ht1|]. unfold after_event. rewrite length_app in Hroom. lia.
Qed.

(** C12: a request may arrive in pieces of any size, cut at any place: a line,
    a word, between the CR and the LF.  When [process_read] finds the request
    incomplete and more data arrives behind what is in the buffer, the next
    call gives the same result, in the same state of the connection and of the
    globals, as one call on all the data; errors included.  Between the calls
    the event loop may have set the flags of the connection, a worker may have
    lent it another MySQL connection, and other threads may have changed the
    globals. *)
Theorem process_read_resumes t es s s' :
  typed (conn s) -> m_read_idx (conn s) + Z.of_nat (length (event_data es)) <= READ_BUFFER_SIZE ->
  arrive t es s s' -> run t s' = run t (at_once (event_data es) s s').
Proof. apply resumes. Qed.

End pieces.

Arguments event : clear implicits.

(** ** The theorem at a request *)

Definition first_piece : list ascii := take 30 HttpParse.sample_request.

(** The server's writes between the calls: another MySQL connection, a read. *)
Definition sample_flags : flags := {| f_mysql := Some 7; f_state := 0; f_improv := 1; f_timer_flag := 0 |}.

Definition sample_event (data : list ascii) : event unit :=
  {| ev_flags := sample_flags; ev_glob := glob (HttpParse.sample_state []); ev_data := data |}.
Definition more_pieces : list (event unit) :=
  [sample_event (take 1 (drop 30 HttpParse.sample_request)); sample_event (drop 31 HttpParse.sample_request)].

Lemma process_read_resumes_witness : exists s',
  arrive HttpParse.sample_query HttpParse.sample_stat HttpParse.sample_mmap 1%nat more_pieces
    (HttpParse.sample_state first_piece) s' /\
  process_read HttpParse.sample_query HttpParse.sample_stat HttpParse.sample_mmap 1%nat s' =
    process_read HttpParse.sample_query HttpParse.sample_stat HttpParse.sample_mmap 1%nat
      (touch sample_flags (glob (HttpParse.sample_state [])) (HttpParse.sample_state HttpParse.sample_request)).
Proof.
  eassert (arrive HttpParse.sample_query HttpParse.sample_stat HttpParse.sample_mmap 1%nat more_pieces
    (HttpParse.sample_state first_piece) _) as Ha.
  { repeat (eapply arrive_cons; [vm_compute; reflexivity|]). apply arrive_nil. }
  eexists. split; [exact Ha|].
  rewrite (process_read_resumes _ _ _ _ more_pieces (HttpParse.sample_state first_piece) _);
    [|split; HttpParse.by_eval|HttpParse.by_eval|exact Ha].
  f_equal.
Defined.
