(* ===== verification/HttpPieces.v ===== *)
(** * HttpPieces: a request that arrives in pieces

    What [process_read] (src/ocean_http/http/http_conn.cpp) does on the part of a request
    that has arrived so far: it takes the lines that are complete, waits for
    the rest, and a well-formed request is answered when, and only when, its
    last byte is there. *)

From Stdlib Require Import Ascii String.
From S2P Require Import Prelude Locker CStr HttpConn HttpRequest HttpParse HttpHandler HttpTerm HttpResume.

(** ** A line that has not arrived completely *)

(** The part [e] of a line and its CR LF, at least one byte of which is missing. *)
Definition partial_line (e : list ascii) : Prop :=
  exists line e', e ++ e' = line ++ CRLF /\ e' <> [] /\ eol_free line.

Lemma partial_nil : partial_line [].
Proof. exists [], CRLF. split_and!; [done|done|by apply Forall_nil]. Qed.

Lemma partial_line_cases e : partial_line e -> eol_free e \/ exists l, e = l ++ [CR] /\ eol_free l.
Proof.
  intros (line & e' & E & Hne & Hfree). apply app_eq_inv in E as [(k & -> & Ek)|(k & -> & _)].
  - destruct k as [|x [|y k]]; simpl in Ek.
    + left. by rewrite app_nil_r.
    + injection Ek as <- _. right. by exists line.
    + injection Ek as _ _ Ek. by destruct k, e'.
  - left. by apply Forall_app in Hfree as [??].
Qed.

(** The scanner stops at the end of the data, or at a CR that is the last byte. *)
Lemma parse_line_partial c pre e rest :
  buf_wf c -> m_read_buf c = pre ++ e ++ rest -> m_checked_idx c = Z.of_nat (length pre) ->
  m_read_idx c = Z.of_nat (length (pre ++ e)) -> partial_line e ->
  exists j, parse_line c = Ok (LINE_OPEN, advance c j).
Proof.
  intros Hwf E Hck Hrd [Hfree|(l & -> & Hfree)]%partial_line_cases.
  - exists (m_read_idx c). rewrite (parse_line_skip_to c (m_read_idx c)); [|done|destruct Hwf; lia|].
    + unfold parse_line. exec_unfold. cbn [parse_line_loop]. exec_unfold.
      cbn [advance m_checked_idx m_read_idx set]. by rewrite Z.ltb_irrefl.
    + rewrite Hck, Hrd. by eapply no_eol_parts.
  - rewrite app_assoc, length_app, Nat2Z.inj_add in Hrd. set (j := Z.of_nat (length (pre ++ l))) in *.
    assert (m_checked_idx c <= j) by (unfold j; rewrite Hck, length_app; lia). cbn [length] in Hrd.
    exists j. rewrite (parse_line_skip_to c j); [|done|lia|].
    + unfold parse_line. exec_unfold. cbn [parse_line_loop]. exec_unfold.
      cbn [advance m_checked_idx m_read_idx set]. rewrite (proj2 (Z.ltb_lt _ _)) by lia.
      rewrite (read_char_ok (advance c j) j CR).
      * rewrite bool_decide_eq_true_2 by done. by rewrite (proj2 (Z.eqb_eq _ _)).
      * unfold char_at. change (m_read_buf (advance c j)) with (m_read_buf c).
        rewrite E, <- app_assoc, app_assoc. by apply rd_app.
    + rewrite Hck. eapply no_eol_parts; [|done]. rewrite E. by rewrite <- app_assoc.
Qed.

(** ** What has arrived of a request *)

Lemma partial_headers hs : Forall header_line_ok hs -> forall d d',
  d ++ d' = header_lines hs ++ CRLF -> d' <> [] ->
  exists hs1 hs2 e, hs = hs1 ++ hs2 /\ d = header_lines hs1 ++ e /\ partial_line e.
Proof.
  induction 1 as [|h hs [_ Hh] _ IH]; intros d d' E Hne.
  - exists [], [], d. split_and!; [done..|]. exists [], d'. split_and!; [exact E|exact Hne|by apply Forall_nil].
  - change (header_lines (h :: hs)) with ((header_text h ++ CRLF) ++ header_lines hs) in E.
    rewrite <- (app_assoc (header_text h ++ CRLF)) in E. symmetry in E.
    destruct (decide (length d < length (header_text h ++ CRLF))%nat) as [Hlt|Hge].
    + exists [], (h :: hs), d. split_and!; [done..|].
      apply app_eq_inv in E as [(k & Ek & _)|(k & -> & _)]; [|rewrite length_app in Hlt; lia].
      exists (header_text h), k. split_and!; [done| |done]. intros ->. rewrite app_nil_r in Ek. rewrite Ek in Hlt. lia.
    + apply app_eq_inv in E as [(k & Ek & Erest)|(k & -> & E)].
      * assert (k = []) as ->. { apply nil_length_inv. rewrite Ek, length_app in Hge. lia. }
        rewrite app_nil_r in Ek. exists [h], hs, []. unfold header_lines. cbn. rewrite !app_nil_r.
        split_and!; [done..|]. apply partial_nil.
      * destruct (IH k d' (eq_sym E) Hne) as (hs1 & hs2 & e & -> & -> & He).
        exists (h :: hs1), hs2, e. split_and!; [done| |done]. unfold header_lines. cbn. by rewrite <- !app_assoc.
Qed.

(** A proper prefix of a request ends inside a line. *)
Lemma partial_request p hs d d' :
  eol_free (line_text p) -> Forall header_line_ok hs -> d ++ d' = request_text p hs -> d' <> [] ->
  partial_line d \/
  exists hs1 hs2 e, hs = hs1 ++ hs2 /\ d = line_text p ++ CRLF ++ header_lines hs1 ++ e /\ partial_line e.
Proof.
  intros Hp Hhs E Hne. unfold request_text in E. rewrite app_assoc in E. symmetry in E.
  apply app_eq_inv in E as [(k & Ek & Erest)|(k & -> & E)].
  - destruct (decide (k = [])) as [->|Hk].
    + right. exists [], hs, []. cbn. rewrite !app_nil_r in *. split_and!; [done..|]. apply partial_nil.
    + left. by exists (line_text p), k.
  - right. destruct (partial_headers hs Hhs k d' (eq_sym E) Hne) as (hs1 & hs2 & e & -> & -> & He).
    exists hs1, hs2, e. by rewrite <- app_assoc.
Qed.

(** ** What has arrived of it *)

(** [d] is in the buffer, and no call of [process_read] has looked at it. *)
Record has_arrived (c : http_conn) (d : list ascii) : Prop := {
  ha_typed : typed c;
  ha_fresh : fresh c d (drop (length d) (m_read_buf c));
  ha_read : m_read_idx c = Z.of_nat (length d)
}.

Lemma has_arrived_flags v c d : has_arrived c d -> has_arrived (put_flags v c) d.
Proof. by intros [[] [] ?]. Qed.

Lemma has_arrived_ext data c d : has_arrived c d -> Z.of_nat (length (d ++ data)) <= READ_BUFFER_SIZE ->
  has_arrived (ext data c) (d ++ data).
Proof.
  intros [Ht Hfr Hrd] Hroom. rewrite length_app, Nat2Z.inj_add in Hroom.
  assert (fits data c) as Hf by (destruct Ht; split_and!; [done|lia..]).
  destruct (ext_parts data c Hf) as (l1 & l2 & l3 & E & Ex & Hl1 & Hl2).
  set (g := {| users := ∅; m_lock := {| locker.m_mutex := None |}; db := tt |}).
  pose proof (extend_typed data {| conn := c; glob := g |} Ht Hf) as Htx. cbn [conn extend set] in Htx.
  assert (l1 = d) as ->.
  { destruct Hfr as [_ _ _ _ _ Ed _]. rewrite Ed in E. apply app_inj_1 in E as [? _]; [done|lia]. }
  assert (m_read_idx (ext data c) = Z.of_nat (length (d ++ data))) as Hlen.
  { change (m_read_idx (ext data c)) with (m_read_idx c + Z.of_nat (length data)). rewrite length_app. lia. }
  split; [exact Htx| |exact Hlen]. destruct Hfr as [Hwf Hst Hck Hsl Hcl _ _]. split; try done.
  - destruct Htx; unfold buf_wf; lia.
  - rewrite Ex, app_assoc, drop_app_length. done.
  - lia.
Qed.

Section pieces.
Context {DB : Type}
  (mysql_query : option Z -> list ascii -> DB -> Z * DB)
  (stat : list ascii -> option file_stat)
  (mmap : list ascii -> Z -> faddr) (t : tid).

Notation loop := (process_read_loop mysql_query stat mmap).
Notation run := (process_read mysql_query stat mmap t).

(** The loop ends at a line that is not complete. *)
Lemma loop_partial fuel (s : hstate DB) pre e rest :
  m_check_state (conn s) <> CHECK_STATE_CONTENT -> buf_wf (conn s) ->
  m_read_buf (conn s) = pre ++ e ++ rest -> m_checked_idx (conn s) = Z.of_nat (length pre) ->
  m_read_idx (conn s) = Z.of_nat (length (pre ++ e)) -> partial_line e ->
  exists c', loop (S fuel) t LINE_OK s = Ok (NO_REQUEST, s <| conn := c' |>) /\ only_parse (conn s) c'.
Proof.
  intros Hst Hwf E Hck Hrd He. destruct (parse_line_partial _ _ _ _ Hwf E Hck Hrd He) as [j Hj].
  exists (advance (conn s) j). split; [|done]. cbn [process_read_loop]. st_step reflexivity.
  rewrite (bool_decide_eq_false_2 (_ = CHECK_STATE_CONTENT)) by done. cbn [andb].
  st_step (eapply zoom_ok; exact Hj). by rewrite bool_decide_eq_true_2.
Qed.
(** The loop over the complete lines, up to the one that is not. *)
Lemma waits_in_headers (s : hstate DB) p hs1 e rest :
  let d := line_text p ++ CRLF ++ header_lines hs1 ++ e in
  fresh (conn s) d rest -> m_read_idx (conn s) = Z.of_nat (length d) ->
  line_ok p -> eol_free (line_text p) -> Forall header_line_ok hs1 -> partial_line e ->
  exists c', run s = Ok (NO_REQUEST, s <| conn := c' |>) /\ only_parse (conn s) c'.
Proof.
  intros d [Hwf Hst Hck Hsl Hcl E _] Hrd Hok Hfree Hhs He. unfold d in E. rewrite <- !app_assoc in E.
  unfold d in Hrd. pose proof (header_lines_count hs1) as Hcount. rewrite !length_app in Hrd. cbn [length CRLF] in Hrd.
  unfold process_read. unfold mbind, ST_bind, get at 1. cbv beta iota. rewrite Hck.
  set (fuel := (Z.to_nat (m_read_idx (conn s) - 0) - length hs1)%nat).
  replace (S (S (Z.to_nat (m_read_idx (conn s) - 0)))) with (S (length hs1 + S fuel))%nat by (unfold fuel; lia).
  destruct (loop_request_line mysql_query stat mmap t (length hs1 + S fuel) s p (header_lines hs1 ++ e ++ rest))
    as (c1 & Hrun & Hc1); try done; [lia|].
  destruct (line_parsed_at (conn s) p _ c1 Hwf E ltac:(lia) Hc1) as (W1 & K1 & S1 & R1 & _ & _ & pre & post & _ & B1 & P1 & _).
  set (pre1 := pre ++ target_of (lp_path p) ++ NUL :: post) in *.
  rewrite Hrun, (loop_headers mysql_query stat mmap t hs1 (S fuel) (s <| conn := c1 |>) pre1 (e ++ rest));
    cbn [conn set]; try done; [|apply Hc1|by rewrite P1|by rewrite P1|rewrite length_app, P1, R1; lia].
  destruct W1 as (W1 & W2 & W3). pose proof (header_cuts_length hs1) as Hcuts.
  set (c2 := headers_done c1 pre1 hs1 (e ++ rest)).
  destruct (loop_partial fuel (s <| conn := c1 |> <| conn := c2 |>) (pre1 ++ header_cuts hs1) e rest)
    as (c' & -> & Hframe); unfold c2; cbn [conn set headers_done m_check_state m_read_buf m_checked_idx m_read_idx]; try done.
  - by rewrite (lpd_state _ _ _ _ Hc1).
  - split_and!; cbn [m_read_buf m_checked_idx m_read_idx set headers_done]; rewrite ?length_app; try lia.
    rewrite <- W1, B1, !length_app. lia.
  - rewrite R1, Hrd, !length_app, Hcuts, P1. lia.
  - exists c'. split; [done|]. etransitivity; [|exact Hframe].
    assert (only_parse (conn s) c1) as Fr.
    { transitivity (next_line (conn s) [] (line_text p) (header_lines hs1 ++ e ++ rest)); [done|].
      unfold only_parse. rewrite (lpd_frame _ _ _ _ Hc1). done. }
    etransitivity; [exact Fr|done].
Qed.

(** A request that has not arrived completely is never answered: on every
    proper prefix of a well-formed request, cut anywhere, [process_read] takes
    the lines that are complete and returns [NO_REQUEST].  It changes the fields
    of the parsers and nothing else. *)
Lemma process_read_waits (s : hstate DB) p hs d d' rest :
  fresh (conn s) d rest -> m_read_idx (conn s) = Z.of_nat (length d) ->
  line_ok p -> eol_free (line_text p) -> Forall header_line_ok hs ->
  d ++ d' = request_text p hs -> d' <> [] ->
  exists c', run s = Ok (NO_REQUEST, s <| conn := c' |>) /\ only_parse (conn s) c'.
Proof.
  intros Hfr Hrd Hok Hfree Hhs E Hne.
  destruct (partial_request p hs d d' Hfree Hhs E Hne) as [He|(hs1 & hs2 & e & -> & -> & He)].
  - destruct Hfr as [Hwf Hst Hck Hsl _ Eb _]. unfold process_read. unfold mbind, ST_bind, get at 1. cbv beta iota.
    apply (loop_partial _ s [] d rest); try done. by rewrite Hst.
  - apply Forall_app in Hhs as [Hhs1 _]. by eapply waits_in_headers.
Qed.

(** What the parser finds after the events: all the data, and the flags and the
    globals of the last one. *)
Definition delivered (data : list ascii) (e : event DB) (s : hstate DB) : hstate DB :=
  touch (ev_flags e) (ev_glob e) (extend data s).

Lemma delivered_arrived data e (s : hstate DB) d : has_arrived (conn s) d ->
  Z.of_nat (length (d ++ data)) <= READ_BUFFER_SIZE -> has_arrived (conn (delivered data e s)) (d ++ data).
Proof. intros. by apply has_arrived_flags, has_arrived_ext. Qed.

Lemma run_after_events (s s' s1 : hstate DB) d es e : has_arrived (conn s) d ->
  Z.of_nat (length (d ++ event_data (es ++ [e]))) <= READ_BUFFER_SIZE ->
  arrive mysql_query stat mmap t es s s' -> run s' = Ok (NO_REQUEST, s1) ->
  run (after_event e s1) = run (delivered (event_data (es ++ [e])) e s).
Proof.
  intros Ha Hroom Harr Hrun. rewrite length_app, Nat2Z.inj_add in Hroom.
  pose proof (arrive_snoc _ _ _ _ e _ _ _ _ Harr Hrun) as Harr'.
  rewrite (resumes mysql_query stat mmap t (es ++ [e]) s (after_event e s1));
    [|apply Ha|rewrite (ha_read _ _ Ha); lia|exact Harr'].
  unfold at_once, delivered. destruct e as [[] ? ?]. reflexivity.
Qed.

(** The events can happen, and the server waits after each of them but the last. *)
Lemma pieces_wait (s : hstate DB) p hs d es : has_arrived (conn s) d ->
  line_ok p -> eol_free (line_text p) -> Forall header_line_ok hs ->
  Z.of_nat (length (request_text p hs)) <= READ_BUFFER_SIZE ->
  forall d', d ++ event_data es ++ d' = request_text p hs -> d' <> [] ->
  exists s' s1, arrive mysql_query stat mmap t es s s' /\ run s' = Ok (NO_REQUEST, s1).
Proof.
  intros Ha Hok Hfree Hhs Hroom. induction es as [|e es IH] using rev_ind; intros d' E Hne.
  - destruct (process_read_waits s p hs d d' _ (ha_fresh _ _ Ha) (ha_read _ _ Ha) Hok Hfree Hhs E Hne) as (c' & Hrun & _).
    eexists _, _. split; [apply arrive_nil|exact Hrun].
  - assert (event_data (es ++ [e]) = event_data es ++ ev_data e) as Ed
      by (unfold event_data; by rewrite map_app, concat_app; cbn; rewrite app_nil_r).
    destruct (IH (ev_data e ++ d')) as (s0 & s1 & Harr & Hrun).
    { rewrite <- E, Ed. by rewrite <- app_assoc. }
    { by destruct (ev_data e). }
    assert (Z.of_nat (length (d ++ event_data (es ++ [e]))) <= READ_BUFFER_SIZE) as Hlen.
    { rewrite <- E in Hroom. rewrite !length_app in *. lia. }
    pose proof (delivered_arrived _ e s d Ha Hlen) as [_ Hfr Hrd].
    destruct (process_read_waits _ p hs _ d' _ Hfr Hrd Hok Hfree Hhs) as (c' & Hwait & _); [by rewrite <- app_assoc|done|].
    rewrite <- (run_after_events s s0 s1 d es e Ha Hlen Harr Hrun) in Hwait.
    eexists _, _. split; [by eapply arrive_snoc|exact Hwait].
Qed.

(** A connection that waits for the rest of a request, [d] of which has come:
    the parser will do with more data what it would have done with all of it on
    the connection as it was, and only the parser's fields have changed. *)
Record pending (base : hstate DB) (d : list ascii) (s : hstate DB) : Prop := {
  pe_resumes : forall e, Z.of_nat (length (d ++ ev_data e)) <= READ_BUFFER_SIZE ->
    run (after_event e s) = run (delivered (d ++ ev_data e) e base);
  pe_frame : exists v, only_parse (put_flags v (ext d (conn base))) (conn s);
  pe_typed : typed (conn s);
  pe_read : m_read_idx (conn s) = Z.of_nat (length d)
}.

Lemma delivered_nil e (base : hstate DB) : has_arrived (conn base) [] ->
  delivered [] e base = touch (ev_flags e) (ev_glob e) base.
Proof. intros [Ht _ _]. unfold delivered. by rewrite extend_nil. Qed.

Lemma pending_start (base : hstate DB) : has_arrived (conn base) [] -> pending base [] base.
Proof.
  intros Ha. pose proof Ha as [Ht _ Hr]. split; [done| |exact Ht|exact Hr].
  exists (flags_of (conn base)). change (only_parse (conn (touch (flags_of (conn base)) (glob base) (extend [] base))) (conn base)).
  rewrite extend_nil, touch_self by done. reflexivity.
Qed.

Lemma pending_touch v g (base s : hstate DB) d : pending base d s -> pending base d (touch v g s).
Proof.
  intros [Hres (v1 & Hf) Ht Hr]. split; [exact Hres| |by apply typed_touch|exact Hr].
  exists v. unfold only_parse in *. cbn [conn touch]. rewrite Hf at 1. reflexivity.
Qed.

Lemma delivered_more d e e' (base : hstate DB) : has_arrived (conn base) [] ->
  Z.of_nat (length (d ++ ev_data e')) <= READ_BUFFER_SIZE ->
  delivered (ev_data e') e' (delivered d e base) = delivered (d ++ ev_data e') e' base.
Proof.
  intros [Ht _ Hr] Hroom. unfold delivered. rewrite extend_touch, touch_touch. f_equal. unfold extend. cbn [conn set].
  rewrite <- (ext_app d (ev_data e')); [done|]. destruct Ht. split_and!; [done|lia|]. rewrite Hr. done.
Qed.

Lemma pending_step (base : hstate DB) p hs d d' s e : has_arrived (conn base) [] -> pending base d s ->
  line_ok p -> eol_free (line_text p) -> Forall header_line_ok hs ->
  Z.of_nat (length (request_text p hs)) <= READ_BUFFER_SIZE ->
  (d ++ ev_data e) ++ d' = request_text p hs -> d' <> [] ->
  exists s1, run (after_event e s) = Ok (NO_REQUEST, s1) /\ pending base (d ++ ev_data e) s1 /\
    glob s1 = ev_glob e /\ flags_of (conn s1) = ev_flags e.
Proof.
  intros Ha [Hres _ _ _] Hok Hfree Hhs Hroom E Hne.
  assert (Z.of_nat (length (d ++ ev_data e)) <= READ_BUFFER_SIZE) as Hlen.
  { rewrite <- E, length_app in Hroom. lia. }
  pose proof (delivered_arrived (d ++ ev_data e) e base [] Ha Hlen) as Had. rewrite app_nil_l in Had.
  destruct (process_read_waits _ p hs _ d' _ (ha_fresh _ _ Had) (ha_read _ _ Had) Hok Hfree Hhs E Hne) as (c' & Hwait & Hframe).
  exists ((delivered (d ++ ev_data e) e base) <| conn := c' |>).
  split; [by rewrite Hres|]. split; [|split; [done|]].
  - destruct (proj2 (process_read_ends mysql_query stat mmap t _ (ha_typed _ _ Had)) _ _ Hwait) as [Ht1 Hr1].
    split; [|by exists (ev_flags e)|exact Ht1|rewrite Hr1; apply Had].
    intros e' Hlen'.
    set (b := delivered (d ++ ev_data e) e base) in *.
    rewrite (run_after_events b b _ (d ++ ev_data e) [] e'); [|exact Had| |apply arrive_nil|exact Hwait];
      cbn [app]; unfold event_data; cbn [map concat]; rewrite app_nil_r; [|done].
    unfold b. by rewrite delivered_more.
  - cbn [conn set]. unfold only_parse in Hframe. rewrite Hframe. by destruct e as [[]].
Qed.


End pieces.

(** ** The theorems at a request *)

Lemma sample_headers_ok : Forall header_line_ok sample_headers.
Proof. apply Forall_forall. intros h Hh. apply sample_header_ok. set_solver. Qed.

