(* ===== verification/ThreadPool.v ===== *)
(** * ThreadPool: the worker pool of ocean_http/threadpool/threadpool.h

    The request queue with its mutex and semaphore, [append], [append_p] and
    the loop of the workers, by their atomic parts.  The requests are reached
    through the interface [Request]: what the template needs of its [T]. *)

From S2P Require Import Prelude Locker SqlPool.

(** A [T *] that is not null. *)
Definition request : Set := Z.

(** What the pool uses of the objects it is given, in a world [W] that holds
    them and the connection pool. *)
Class Request (W : Type) := {
  rq_state : request -> W -> Z;
  rq_set_state : request -> Z -> W -> W;
  rq_set_improv : request -> Z -> W -> W;
  rq_set_timer_flag : request -> Z -> W -> W;
  rq_set_mysql : request -> option MYSQL -> W -> W;
  rq_read_once : request -> ST W bool;
  rq_write : request -> ST W bool;
  rq_process : tid -> request -> ST W unit;
  rq_pool : forall A, ST sql_connection_pool.pool A -> ST W A
}.
Arguments rq_pool {W _ A} m.

Module threadpool.

(** A member that the constructor leaves unset is [None]. *)
Record pool := {
  m_thread_number : option Z;
  m_max_requests : option Z;
  m_threads : option nat;                    (* the length of the array *)
  m_workqueue : list (option request);
  m_queuelocker : locker.locker;
  m_queuestat : sem.sem;
  m_actor_model : option Z
}.
#[global] Instance pool_settable : Settable pool := fun p => {|
  m_thread_number := m_thread_number p; m_max_requests := m_max_requests p; m_threads := m_threads p;
  m_workqueue := m_workqueue p; m_queuelocker := m_queuelocker p; m_queuestat := m_queuestat p;
  m_actor_model := m_actor_model p |}.

Definition member (o : option Z) : res Z := of_option Indeterminate o.

(** The members before the body of a constructor runs. *)
Definition blank : res pool :=
  s ← sem.ctor;
  Ok {| m_thread_number := None; m_max_requests := None; m_threads := None; m_workqueue := [];
        m_queuelocker := locker.ctor; m_queuestat := s; m_actor_model := None |}.

(** [pthread_create] and [pthread_detach] for the [i]-th thread: both succeed,
    or the constructor throws. *)
Fixpoint start_threads (ok : nat -> bool) (len i n : nat) : res unit :=
  match n with
  | O => Ok tt
  | S n' =>
    if (i <? len)%nat then
      if ok i then start_threads ok len (S i) n' else Halt Thrown
    else Halt OutOfBounds
  end.

(** The size of the array is the member, not the parameter. *)
Definition ctor (ok : nat -> bool) (actor_model thread_number max_requests : Z) : res pool :=
  p ← blank;
  if (thread_number <=? 0) || (max_requests <=? 0) then Halt Thrown
  else
    n ← member (m_thread_number p);
    if n <? 0 then Halt Thrown
    else
      _ ← start_threads ok (Z.to_nat n) 0 (Z.to_nat thread_number);
      Ok (p <| m_threads := Some (Z.to_nat n) |>).

Definition on_lock {A} (m : ST locker.locker A) : ST pool A :=
  zoom m_queuelocker (fun l p => p <| m_queuelocker := l |>) m.
Definition on_stat {A} (m : ST sem.sem A) : ST pool A :=
  zoom m_queuestat (fun s p => p <| m_queuestat := s |>) m.

(** The body, then the members from the last to the first. *)
Definition dtor : ST pool unit :=
  p ← get;
  _ ← lift (of_option Indeterminate (m_threads p));
  _ ← modify (fun p => p <| m_threads := None |>);
  _ ← lift (sem.dtor (m_queuestat p));
  _ ← lift (locker.dtor (m_queuelocker p));
  modify (fun p => p <| m_workqueue := [] |>).

(** ** [append] and [append_p] by their atomic parts *)

Definition lock_queue (t : tid) : ST pool unit := _ ← on_lock (locker.lock t); mret tt.

(** The critical section.  The [size_t] makes the comparison unsigned. *)
Definition push_request (r : option request) : ST pool bool :=
  p ← get;
  max ← lift (member (m_max_requests p));
  if to_u64 max <=? Z.of_nat (length (m_workqueue p)) then
    _ ← on_lock locker.unlock; mret false
  else
    _ ← modify (fun p => p <| m_workqueue := m_workqueue p ++ [r] |>);
    _ ← on_lock locker.unlock;
    mret true.

Definition post_request : ST pool unit := _ ← on_stat sem.post; mret tt.

Definition append_p (t : tid) (r : option request) : ST pool bool :=
  _ ← lock_queue t;
  ok ← push_request r;
  if ok : bool then _ ← post_request; mret true else mret false.

(** ** One round of [run] by its atomic parts *)

(** [m_queuestat.wait()]; its result is not looked at. *)
Definition wait_request (interrupted : bool) : ST pool unit :=
  _ ← on_stat (sem.wait interrupted); mret tt.

(** The critical section: [None] when the queue is empty. *)
Definition take_request : ST pool (option (option request)) :=
  p ← get;
  match m_workqueue p with
  | [] => _ ← on_lock locker.unlock; mret None
  | r :: l =>
    _ ← modify (fun p => p <| m_workqueue := l |>);
    _ ← on_lock locker.unlock;
    mret (Some r)
  end.

Section serving.
Context {W : Type} `{Request W}.

(** Both objects: the queue and the requests. *)
Record state := { tp : pool; env : W }.
#[global] Instance state_settable : Settable state := fun s => {| tp := tp s; env := env s |}.

Definition on_tp {A} (m : ST pool A) : ST state A := zoom tp (fun p s => s <| tp := p |>) m.
Definition on_env {A} (m : ST W A) : ST state A := zoom env (fun w s => s <| env := w |>) m.

(** [append]: the state of the request is set inside the critical section,
    after the test for a full queue. *)
Definition append (t : tid) (r : request) (st : Z) : ST state bool :=
  _ ← on_tp (lock_queue t);
  s ← get;
  max ← lift (member (m_max_requests (tp s)));
  if to_u64 max <=? Z.of_nat (length (m_workqueue (tp s))) then
    _ ← on_tp (on_lock locker.unlock); mret false
  else
    _ ← on_env (modify (rq_set_state r st));
    _ ← on_tp (modify (fun p => p <| m_workqueue := m_workqueue p ++ [Some r] |>));
    _ ← on_tp (on_lock locker.unlock);
    _ ← on_tp post_request;
    mret true.

(** [connectionRAII mysqlcon(&request->mysql, m_connPool); request->process();] *)
Definition process_with_conn (t : tid) (interrupted : bool) (r : request) : ST W unit :=
  '(c, raii) ← rq_pool (sql_connection_pool.raii_ctor t interrupted);
  _ ← modify (rq_set_mysql r c);
  _ ← rq_process t r;
  _ ← rq_pool (sql_connection_pool.raii_dtor t raii);
  mret tt.

(** What a worker does with a request, by the model in use. *)
Definition serve (t : tid) (interrupted : bool) (actor_model : Z) (r : request) : ST W unit :=
  if actor_model =? 1 then
    w ← get;
    if rq_state r w =? 0 then
      ok ← rq_read_once r;
      if ok : bool then
        _ ← modify (rq_set_improv r 1);
        process_with_conn t interrupted r
      else
        _ ← modify (rq_set_improv r 1);
        modify (rq_set_timer_flag r 1)
    else
      ok ← rq_write r;
      if ok : bool then modify (rq_set_improv r 1)
      else
        _ ← modify (rq_set_improv r 1);
        modify (rq_set_timer_flag r 1)
  else process_with_conn t interrupted r.

(** One round of the [while (true)] of [run]. *)
Definition run_round (t : tid) (sem_interrupted conn_interrupted : bool) : ST state unit :=
  _ ← on_tp (wait_request sem_interrupted);
  _ ← on_tp (lock_queue t);
  r ← on_tp take_request;
  match r with
  | None | Some None => mret tt
  | Some (Some r) =>
    s ← get;
    model ← lift (member (m_actor_model (tp s)));
    on_env (serve t conn_interrupted model r)
  end.

(** [worker]: the thread runs rounds for ever; here the first [n] of them. *)
Fixpoint worker (n : nat) (t : tid) : ST state unit :=
  match n with
  | O => mret tt
  | S n' => _ ← run_round t false false; worker n' t
  end.
End serving.
Arguments state : clear implicits.

(** ** Producers and workers together *)

Inductive pc : Set :=
| PIdle                         (* a producer outside of append *)
| PWant (r : option request)    (* append called *)
| PIn (r : option request)      (* ... the mutex is held *)
| PPost                         (* ... the request is in the queue *)
| WWait                         (* a worker at the head of its loop *)
| WLock                         (* ... the semaphore was taken *)
| WIn                           (* ... the mutex is held *)
| WServe (r : option request).  (* a request was taken *)

#[global] Instance pc_eq_dec : EqDecision pc.
Proof. solve_decision. Defined.

Inductive event : Set := Nothing | Accepted (r : option request) | Taken (r : option request).

(** The next atomic part of thread [t]. *)
Definition part (t : tid) (a : pc) : ST pool (pc * event) :=
  match a with
  | PIdle => mret (PIdle, Nothing)
  | PWant r => _ ← lock_queue t; mret (PIn r, Nothing)
  | PIn r => ok ← push_request r; mret (if ok : bool then (PPost, Accepted r) else (PIdle, Nothing))
  | PPost => _ ← post_request; mret (PIdle, Nothing)
  | WWait => _ ← wait_request false; mret (WLock, Nothing)
  | WLock => _ ← lock_queue t; mret (WIn, Nothing)
  | WIn => r ← take_request;
           mret (match r with None => (WWait, Nothing) | Some r => (WServe r, Taken r) end)
  | WServe _ => mret (WWait, Nothing)
  end.

(** The queue, the threads, and what was accepted and taken so far. *)
Record world := {
  queue : pool; pcs : list pc; accepted : list (option request); taken : list (option request)
}.

Definition record_event (e : event) (w : world) : world :=
  match e with
  | Nothing => w
  | Accepted r => {| queue := queue w; pcs := pcs w; accepted := accepted w ++ [r]; taken := taken w |}
  | Taken r => {| queue := queue w; pcs := pcs w; accepted := accepted w; taken := taken w ++ [r] |}
  end.

Inductive step : world -> world -> Prop :=
| step_call t r p l acc tk :
    l !! t = Some PIdle ->
    step {| queue := p; pcs := l; accepted := acc; taken := tk |}
         {| queue := p; pcs := <[t := PWant r]> l; accepted := acc; taken := tk |}
| step_part t p p' l a a' e acc tk :
    l !! t = Some a -> part t a p = Ok ((a', e), p') ->
    step {| queue := p; pcs := l; accepted := acc; taken := tk |}
         (record_event e {| queue := p'; pcs := <[t := a']> l; accepted := acc; taken := tk |}).

(** ** The invariant *)

(** A unit of the semaphore that was taken and not yet used, or a request that
    is not yet counted. *)
Definition owed (a : pc) : nat := match a with WLock | WIn | PPost => 1 | _ => 0 end.
Definition locked (a : pc) : bool := match a with PIn _ | WIn => true | _ => false end.

Record queue_inv (max : Z) (w : world) : Prop := {
  qi_fifo : accepted w = taken w ++ m_workqueue (queue w);
  qi_count : Z.of_nat (length (m_workqueue (queue w))) =
             sem.m_sem (m_queuestat (queue w)) + Z.of_nat (sum_list_with owed (pcs w));
  qi_sem : 0 <= sem.m_sem (m_queuestat (queue w));
  qi_max : m_max_requests (queue w) = Some max;
  qi_bound : Z.of_nat (length (m_workqueue (queue w))) <= max;
  qi_lock : forall t a, pcs w !! t = Some a -> locked a = true ->
            locker.m_mutex (m_queuelocker (queue w)) = Some t;
  qi_owner : forall t, locker.m_mutex (m_queuelocker (queue w)) = Some t ->
            exists a, pcs w !! t = Some a /\ locked a = true
}.

(** What one part does, case by case. *)
Inductive part_effect (t : tid) (p : pool) : pc -> pc -> event -> pool -> Prop :=
| eff_idle : part_effect t p PIdle PIdle Nothing p
| eff_plock r : locker.m_mutex (m_queuelocker p) = None ->
    part_effect t p (PWant r) (PIn r) Nothing (p <| m_queuelocker := {| locker.m_mutex := Some t |} |>)
| eff_full r max : m_max_requests p = Some max -> to_u64 max <= Z.of_nat (length (m_workqueue p)) ->
    part_effect t p (PIn r) PIdle Nothing (p <| m_queuelocker := {| locker.m_mutex := None |} |>)
| eff_push r max : m_max_requests p = Some max -> Z.of_nat (length (m_workqueue p)) < to_u64 max ->
    part_effect t p (PIn r) PPost (Accepted r)
      (p <| m_workqueue := m_workqueue p ++ [r] |> <| m_queuelocker := {| locker.m_mutex := None |} |>)
| eff_post : sem.m_sem (m_queuestat p) < SEM_VALUE_MAX ->
    part_effect t p PPost PIdle Nothing
      (p <| m_queuestat := {| sem.m_sem := sem.m_sem (m_queuestat p) + 1 |} |>)
| eff_post_full : SEM_VALUE_MAX <= sem.m_sem (m_queuestat p) -> part_effect t p PPost PIdle Nothing p
| eff_wait : 0 < sem.m_sem (m_queuestat p) ->
    part_effect t p WWait WLock Nothing
      (p <| m_queuestat := {| sem.m_sem := sem.m_sem (m_queuestat p) - 1 |} |>)
| eff_wlock : locker.m_mutex (m_queuelocker p) = None ->
    part_effect t p WLock WIn Nothing (p <| m_queuelocker := {| locker.m_mutex := Some t |} |>)
| eff_empty : m_workqueue p = [] ->
    part_effect t p WIn WWait Nothing (p <| m_queuelocker := {| locker.m_mutex := None |} |>)
| eff_take r l : m_workqueue p = r :: l ->
    part_effect t p WIn (WServe r) (Taken r)
      (p <| m_workqueue := l |> <| m_queuelocker := {| locker.m_mutex := None |} |>)
| eff_served r : part_effect t p (WServe r) WWait Nothing p.

Lemma tp_part_effect_of t p a a' e p' : part t a p = Ok ((a', e), p') -> part_effect t p a a' e p'.
Proof.
  destruct p as [tn [mr|] th wq [mu] [sm] am];
  destruct a; unfold part, lock_queue, push_request, post_request, wait_request, take_request, on_lock, on_stat,
    sem.wait, sem.post, locker.lock, locker.unlock, member; exec; intros H; repeat (case_match; inv_res; try done);
    reflect_bools; simplify_eq/=; try (econstructor; simpl; done || lia).
Qed.

Lemma record_event_fields e w :
  queue (record_event e w) = queue w /\ pcs (record_event e w) = pcs w.
Proof. by destruct e. Qed.

Lemma tp_step_inv max w w' : 0 < max < SEM_VALUE_MAX -> queue_inv max w -> step w w' -> queue_inv max w'.
Proof.
  intros Hmax [Hf Hc Hs Hm Hb Hl Ho] Hstep. inversion Hstep as [t r p l acc tk Ht|t p p' l a a' e acc tk Ht Hrun];
    subst; cbn [queue pcs accepted taken] in *.
  { destruct (threads_split l t _ Ht) as (l1 & l2 & El & Eins).
    split; cbn [queue pcs accepted taken]; try done.
    - rewrite Eins. subst l. by rewrite sum_weight_mid in *.
    - eapply (lock_step locked); [exact Ht|exact Hl|done|by left].
    - eapply (owner_step locked); [exact Ht|exact Ho|done|by left]. }
  apply tp_part_effect_of in Hrun.
  assert (forall t' b, <[t := a']> l !! t' = Some b -> locked b = true ->
    locker.m_mutex (m_queuelocker p') = Some t') as Hl'.
  { eapply (lock_step locked); [exact Ht|exact Hl|..]; destruct Hrun; simpl; auto; congruence. }
  assert (forall t', locker.m_mutex (m_queuelocker p') = Some t' ->
    exists b, <[t := a']> l !! t' = Some b /\ locked b = true) as Ho'.
  { eapply (owner_step locked); [exact Ht|exact Ho|..]; destruct Hrun; simpl; auto; congruence. }
  destruct (threads_split l t a Ht) as (l1 & l2 & El & Eins). specialize (Eins a').
  assert (forall m, m_max_requests p = Some m -> to_u64 m = max) as Hu.
  { intros m Em. rewrite Hm in Em. simplify_eq. unfold SEM_VALUE_MAX in *. apply Z.mod_small. lia. }
  split; rewrite ?(proj1 (record_event_fields _ _)), ?(proj2 (record_event_fields _ _));
    cbn [queue pcs]; [| | | | |exact Hl'|exact Ho'];
    rewrite ?Eins; clear Hl Hl' Ho Ho' Ht Eins Hstep; subst l; rewrite ?sum_weight_mid in *;
    destruct Hrun as [|r Hn|r m Em He|r m Em He|Hp|Hp|Hp|Hn|He|r l' He|r];
    cbn [record_event accepted taken m_workqueue m_queuestat m_max_requests set sem.m_sem owed] in *;
    try specialize (Hu _ Em); rewrite ?He in *; rewrite ?length_app in *; cbn [length app] in *;
    try done; try lia.
  - by rewrite Hf, app_assoc.
  - by rewrite Hf, <- app_assoc.
Qed.

Lemma tp_reach_inv max w w' : 0 < max < SEM_VALUE_MAX -> queue_inv max w -> rtc step w w' -> queue_inv max w'.
Proof. intros Hm Hi Hr. revert Hi. induction Hr; eauto using tp_step_inv. Qed.

(** An empty queue of capacity [max], with idle producers and waiting workers. *)
Definition queue_start (max : Z) (producers workers : nat) (w : world) : Prop :=
  m_workqueue (queue w) = [] /\ m_max_requests (queue w) = Some max /\
  sem.m_sem (m_queuestat (queue w)) = 0 /\ locker.m_mutex (m_queuelocker (queue w)) = None /\
  pcs w = replicate producers PIdle ++ replicate workers WWait /\ accepted w = [] /\ taken w = [].

Lemma tp_start_inv max np nw w : 0 < max -> queue_start max np nw w -> queue_inv max w.
Proof.
  intros Hmax (Hq & Hm & Hs & Hk & Hp & Ha & Ht). split; rewrite ?Hq, ?Hm, ?Hs, ?Hk, ?Ha, ?Ht; try done; try (simpl; lia).
  - rewrite Hp, sum_list_with_app, !sum_weight_replicate by done. done.
  - intros t a Hta. rewrite Hp in Hta. apply list_elem_of_lookup_2, elem_of_app in Hta as [Hin|Hin];
      apply elem_of_replicate in Hin as [-> _]; done.
Qed.

(** ** Properties *)

(** C16: under every interleaving of producers and workers the requests are
    taken in the order in which [append] accepted them, none is lost or taken
    twice, the queue never holds more than [m_max_requests], and every queued
    request has a unit of the semaphore or a thread on its way to it. *)
Theorem requests_fifo max np nw w w' :
  0 < max < SEM_VALUE_MAX -> queue_start max np nw w -> rtc step w w' ->
  accepted w' = taken w' ++ m_workqueue (queue w') /\
  Z.of_nat (length (m_workqueue (queue w'))) <= max /\
  Z.of_nat (length (m_workqueue (queue w'))) =
    sem.m_sem (m_queuestat (queue w')) + Z.of_nat (sum_list_with owed (pcs w')).
Proof.
  intros Hmax Hst Hr. destruct (tp_reach_inv max w w' Hmax) as [Hf Hc _ _ Hb _ _]; [|done|done].
  eapply tp_start_inv; [|exact Hst]. lia.
Qed.


(** ** Progress

    A step of a thread that has something to do: not a call, not the idling
    of a producer. *)
Inductive work : world -> world -> Prop :=
| work_part t p p' l a a' e acc tk :
    l !! t = Some a -> a <> PIdle -> part t a p = Ok ((a', e), p') ->
    work {| queue := p; pcs := l; accepted := acc; taken := tk |}
         (record_event e {| queue := p'; pcs := <[t := a']> l; accepted := acc; taken := tk |}).

Lemma work_step w w' : work w w' -> step w w'.
Proof. intros [t p p' l a a' e acc tk Ht _ Hrun]. by apply (step_part t p p' l a a' e). Qed.

(** How many parts are left: a producer has its own, and every queued request
    is worth a round of a worker. *)
Definition parts_left (a : pc) : nat :=
  match a with
  | PIdle => 0 | PPost => 1 | PIn _ => 7 | PWant _ => 8
  | WIn => 1 | WLock => 2 | WWait => 3 | WServe _ => 4
  end.
Definition work_left (w : world) : nat :=
  5 * length (m_workqueue (queue w)) + sum_list_with parts_left (pcs w).

(** A worker in its critical section finds a request. *)
Lemma queue_inv_taken max w t : queue_inv max w -> pcs w !! t = Some WIn -> m_workqueue (queue w) <> [].
Proof.
  intros [_ Hc Hs _ _ _ _] Ht E. destruct (threads_split _ _ _ Ht) as (l1 & l2 & El & _).
  rewrite El, sum_weight_mid, E in Hc. simpl in Hc. lia.
Qed.

Lemma work_decreases max w w' : queue_inv max w -> work w w' -> (work_left w' < work_left w)%nat.
Proof.
  intros Hi Hwork. destruct Hwork as [t p p' l a a' e acc tk Ht Hne Hrun].
  pose proof (queue_inv_taken max _ t Hi : l !! t = Some WIn -> m_workqueue p <> []) as Hq.
  apply tp_part_effect_of in Hrun. destruct (threads_split l t a Ht) as (l1 & l2 & El & Eins).
  unfold work_left. rewrite (proj1 (record_event_fields _ _)), (proj2 (record_event_fields _ _)).
  cbn [queue pcs]. rewrite Eins, El, !sum_weight_mid.
  destruct Hrun; cbn [m_workqueue set parts_left]; rewrite ?length_app; cbn [length]; try lia; [done| |].
  - by apply Hq in Ht.
  - match goal with E : m_workqueue p = _ |- _ => rewrite E end. cbn [length]. lia.
Qed.

Definition is_worker (a : pc) : bool := match a with WWait | WLock | WIn | WServe _ => true | _ => false end.

Lemma part_kind t p a a' e p' : part_effect t p a a' e p' -> is_worker a' = is_worker a.
Proof. by destruct 1. Qed.

Lemma steps_kind w w' : rtc step w w' -> is_worker <$> pcs w' = is_worker <$> pcs w.
Proof.
  induction 1 as [|w w1 w' Hstep _ ->]; [done|].
  destruct Hstep as [t r p l acc tk Ht|t p p' l a a' e acc tk Ht Hrun];
    rewrite ?(proj2 (record_event_fields _ _)); cbn [pcs]; rewrite list_fmap_insert;
    apply list_insert_id; rewrite list_lookup_fmap, Ht; simpl; f_equal.
  symmetry. eapply part_kind. by eapply tp_part_effect_of.
Qed.

(** What a thread that cannot go on waits for. *)
Lemma stuck_part max w t a : queue_inv max w -> pcs w !! t = Some a ->
  (forall r, part t a (queue w) <> Ok r) ->
  (a = WWait /\ sem.m_sem (m_queuestat (queue w)) <= 0) \/
  (locked a = false /\ locker.m_mutex (m_queuelocker (queue w)) <> None).
Proof.
  intros [_ _ _ Hm _ _ _] Ht Hno.
  destruct a; unfold part, lock_queue, push_request, post_request, wait_request, take_request, on_lock, on_stat,
    sem.wait, sem.post, locker.lock, locker.unlock, member in Hno; revert Hno; exec; rewrite ?Hm; cbn;
    repeat case_match; intros Hno; inv_res; try (by edestruct Hno); reflect_bools; auto.
Qed.

(** Nothing is left to do: no call is in flight and the queue is empty. *)
Definition at_rest (w : world) : Prop :=
  m_workqueue (queue w) = [] /\ accepted w = taken w /\ Forall (fun a => a = PIdle \/ a = WWait) (pcs w).

Lemma nf_at_rest max w : queue_inv max w -> true ∈ is_worker <$> pcs w -> nf work w -> at_rest w.
Proof.
  intros Hi Hw Hnf. pose proof Hi as [Hf Hc Hs Hm Hb Hl Ho].
  assert (forall t a, pcs w !! t = Some a -> a <> PIdle -> forall r, part t a (queue w) <> Ok r) as Hno.
  { intros t a Ht Hne [[a' e] p'] Hrun. apply Hnf. destruct w as [p l acc tk].
    eexists. by apply (work_part t p p' l a a' e). }
  assert (forall t a, pcs w !! t = Some a -> a = PIdle \/ (a = WWait /\ sem.m_sem (m_queuestat (queue w)) <= 0)
    \/ (locked a = false /\ locker.m_mutex (m_queuelocker (queue w)) <> None)) as Hstuck.
  { intros t a Ht. destruct (decide (a = PIdle)) as [|Hne]; [by left|right].
    eapply stuck_part; eauto. }
  assert (locker.m_mutex (m_queuelocker (queue w)) = None) as Hfree.
  { destruct (locker.m_mutex _) as [t|] eqn:E; [|done]. destruct (Ho t eq_refl) as (a & Ht & Hlk).
    destruct (Hstuck t a Ht) as [->|[[-> _]|[E' _]]]; simpl in *; congruence. }
  assert (Forall (fun a => a = PIdle \/ a = WWait) (pcs w)) as Hall.
  { apply Forall_lookup. intros t a Ht. destruct (Hstuck t a Ht) as [|[[? _]|[_ ?]]]; auto. done. }
  assert (sem.m_sem (m_queuestat (queue w)) <= 0) as H0.
  { apply list_elem_of_fmap in Hw as (a & Hk & Ha). apply list_elem_of_lookup_1 in Ha as [t Ht].
    destruct (Hstuck t a Ht) as [->|[[_ ?]|[_ ?]]]; done. }
  assert (sum_list_with owed (pcs w) = 0%nat) as Hsum.
  { clear -Hall. induction Hall as [|a l [-> | ->] _ IH]; [done|exact IH|exact IH]. }
  assert (m_workqueue (queue w) = []) as Hq.
  { apply nil_length_inv. lia. }
  split_and!; [done| |done]. by rewrite Hf, Hq, app_nil_r.
Qed.

Lemma work_steps_bound max n : forall w w', queue_inv max w -> 0 < max < SEM_VALUE_MAX ->
  nsteps work n w w' -> (n + work_left w' <= work_left w)%nat /\ queue_inv max w'.
Proof.
  induction n as [|n IH]; intros w w' Hi Hmax Hn; inversion Hn as [|? ? w1 ? Hs Hr]; subst; [auto with lia|].
  pose proof (work_decreases max w w1 Hi Hs).
  destruct (IH w1 w') as [? ?]; [by eapply tp_step_inv, work_step|done|done|]. split; [lia|done].
Qed.

(** C15: the pool makes progress.  From every reachable state, under every
    scheduling of the threads, the calls in flight and the workers go on for
    a bounded number of steps, and when none of them can go on the queue is
    empty: every request that was accepted has been taken by a worker, every
    producer has returned, and every worker is back at its semaphore.  No
    lost wake-up and no deadlock between the mutex and the semaphore. *)
Theorem pool_drains max np nw w w1 w2 n :
  0 < max < SEM_VALUE_MAX -> (0 < nw)%nat -> queue_start max np nw w -> rtc step w w1 ->
  nsteps work n w1 w2 ->
  (n <= work_left w1)%nat /\ (nf work w2 -> at_rest w2).
Proof.
  intros Hmax Hnw Hst Hr Hn.
  assert (queue_inv max w1) as Hi.
  { eapply tp_reach_inv; [done| |done]. eapply tp_start_inv; [lia|done]. }
  destruct (work_steps_bound max n w1 w2 Hi Hmax Hn) as [Hle Hi2]. split; [lia|].
  apply (nf_at_rest max); [done|].
  rewrite (steps_kind w w2).
  - destruct Hst as (_ & _ & _ & _ & -> & _). rewrite fmap_app, !fmap_replicate.
    apply elem_of_app. right. apply elem_of_replicate. split; [done|lia].
  - transitivity w1; [done|]. eapply rtc_subrel; [|by eapply rtc_nsteps_2]. apply work_step.
Qed.

(** ** Specification: an atomic bounded queue

    No mutex and no semaphore: a request is accepted or refused in one step, and
    a worker takes the head of the queue in one step. *)

Inductive task : Set := Free | Submitting (r : option request) | Waiting | Serving (r : option request).

Record office := { line : list (option request); tasks : list task }.

Inductive office_step (max : Z) : office -> office -> Prop :=
| office_call t r q l : l !! t = Some Free ->
    office_step max {| line := q; tasks := l |} {| line := q; tasks := <[t := Submitting r]> l |}
| office_accept t r q l : l !! t = Some (Submitting r) -> Z.of_nat (length q) < max ->
    office_step max {| line := q; tasks := l |} {| line := q ++ [r]; tasks := <[t := Free]> l |}
| office_refuse t r q l : l !! t = Some (Submitting r) -> Z.of_nat (length q) = max ->
    office_step max {| line := q; tasks := l |} {| line := q; tasks := <[t := Free]> l |}
| office_take t r q l : l !! t = Some Waiting ->
    office_step max {| line := r :: q; tasks := l |} {| line := q; tasks := <[t := Serving r]> l |}
| office_done t r q l : l !! t = Some (Serving r) ->
    office_step max {| line := q; tasks := l |} {| line := q; tasks := <[t := Waiting]> l |}.

(** A submission counts from the moment the request is in the queue, and a
    worker waits until it has taken one. *)
Definition task_of (a : pc) : task :=
  match a with
  | PIdle | PPost => Free
  | PWant r | PIn r => Submitting r
  | WWait | WLock | WIn => Waiting
  | WServe r => Serving r
  end.

Definition office_of (w : world) : office := {| line := m_workqueue (queue w); tasks := task_of <$> pcs w |}.

Lemma same_task t (l : list pc) a a' : l !! t = Some a -> task_of a' = task_of a -> task_of <$> <[t := a']> l = task_of <$> l.
Proof. intros Ht E. rewrite list_fmap_insert, E. apply list_insert_id. by rewrite list_lookup_fmap, Ht. Qed.

#[export] Instance pool_refines max : 0 < max < SEM_VALUE_MAX ->
  Refines step (office_step max) (queue_inv max) office_of.
Proof.
  intros Hmax. split; [intros w w'; by apply tp_step_inv|]. intros w w' Hi Hstep.
  pose proof (fun t => queue_inv_taken max w t Hi) as Hne. destruct Hi as [_ _ _ Hm Hb _ _].
  destruct Hstep as [t r p l acc tk Ht|t p p' l a a' e acc tk Ht Hrun]; cbn [queue pcs] in *.
  { right. unfold office_of. cbn [queue pcs]. rewrite list_fmap_insert. apply office_call.
    by rewrite list_lookup_fmap, Ht. }
  specialize (Hne t). apply tp_part_effect_of in Hrun. unfold office_of.
  rewrite (proj1 (record_event_fields _ _)), (proj2 (record_event_fields _ _)). cbn [queue pcs].
  assert ((task_of <$> l) !! t = Some (task_of a)) as Htask by (by rewrite list_lookup_fmap, Ht).
  assert (forall m, m_max_requests p = Some m -> to_u64 m = max) as Hu.
  { intros m Em. rewrite Hm in Em. simplify_eq. unfold SEM_VALUE_MAX in *. apply Z.mod_small. lia. }
  destruct Hrun as [|r Hn|r m Em He|r m Em He|Hp|Hp|Hp|Hn|He|r l' He|r];
    cbn [m_workqueue set]; try (left; by erewrite same_task); try specialize (Hu _ Em); right;
    rewrite ?list_fmap_insert; cbn [task_of] in *.
  - eapply office_refuse; [exact Htask|]. lia.
  - apply office_accept; [exact Htask|]. lia.
  - rewrite He. by apply office_take.
  - by eapply office_done.
Qed.

(** C17: the pool implements an atomic bounded queue.  However the threads are
    interleaved, what producers and workers see is a sequence of atomic steps:
    [append] adds its request at the end of the queue, or refuses it exactly
    when the queue holds [m_max_requests], and a worker gets the head of the
    queue; the mutex, the semaphore and everything in between are invisible. *)
Theorem pool_implements_queue max np nw w w' :
  0 < max < SEM_VALUE_MAX -> queue_start max np nw w -> rtc step w w' ->
  rtc (office_step max) {| line := []; tasks := replicate np Free ++ replicate nw Waiting |} (office_of w').
Proof.
  intros Hmax Hst Hr. pose proof (pool_refines max Hmax).
  destruct (refines_reach w w' (tp_start_inv max np nw w ltac:(lia) Hst) Hr) as [_ Hspec].
  revert Hspec. destruct Hst as (Hq & _ & _ & _ & Hp & _). unfold office_of at 1.
  rewrite Hq, Hp, fmap_app, !fmap_replicate. done.
Qed.

(** The constructor reads [m_thread_number] before anything has been stored
    in it, for every argument it does not refuse. *)
Theorem ctor_indeterminate ok model n max :
  0 < n -> 0 < max -> ctor ok model n max = Halt Indeterminate.
Proof. intros Hn Hm. unfold ctor. cbn. by rewrite !(proj2 (Z.leb_gt _ _)) by done. Qed.

Section serving_props.
Context {W : Type} `{Request W}.

(** Reading through the pool borrows a connection only for the request: an
    unreadable socket is flagged for its timer and no connection is taken. *)
Theorem serve_unreadable t i r (w w1 : W) :
  rq_state r w = 0 -> rq_read_once r w = Ok (false, w1) ->
  serve t i 1 r w = Ok (tt, rq_set_timer_flag r 1 (rq_set_improv r 1 w1)).
Proof.
  intros Hst Hr. unfold serve. cbn [Z.eqb Pos.eqb]. st_step reflexivity. rewrite Hst. cbn [Z.eqb].
  st_step (exact Hr). st_step reflexivity. done.
Qed.
End serving_props.

(** ** The theorems at two producers and one worker *)

Definition sample_queue : pool := {|
  m_thread_number := Some 1; m_max_requests := Some 2; m_threads := Some 1%nat; m_workqueue := [];
  m_queuelocker := {| locker.m_mutex := None |}; m_queuestat := {| sem.m_sem := 0 |};
  m_actor_model := Some 0 |}.

Definition sample_start : world :=
  {| queue := sample_queue; pcs := replicate 2 PIdle ++ replicate 1 WWait; accepted := []; taken := [] |}.

Lemma sample_start_ok : queue_start 2 2 1 sample_start.
Proof. split_and!; reflexivity. Qed.

(** A call, or the next part of a thread. *)
Definition run1 (m : tid * option (option request)) (w : world) : option world :=
  match m, w with
  | (t, Some r), {| queue := p; pcs := l; accepted := acc; taken := tk |} =>
    match l !! t with
    | Some PIdle => Some {| queue := p; pcs := <[t := PWant r]> l; accepted := acc; taken := tk |}
    | _ => None
    end
  | (t, None), {| queue := p; pcs := l; accepted := acc; taken := tk |} =>
    match l !! t with
    | Some a =>
      match part t a p with
      | Ok ((a', e), p') =>
        Some (record_event e {| queue := p'; pcs := <[t := a']> l; accepted := acc; taken := tk |})
      | Halt _ => None
      end
    | None => None
    end
  end.

Lemma tp_run1_step m w w' : run1 m w = Some w' -> step w w'.
Proof.
  destruct m as [t [r|]], w as [p l acc tk]; simpl.
  - destruct (l !! t) as [[]|] eqn:E; try done. intros [= <-]. by constructor.
  - destruct (l !! t) as [a|] eqn:E; [|done]. destruct (part t a p) as [[[a' e] p']|] eqn:Ep; [|done].
    intros [= <-]. by apply (step_part t p p' l a a' e acc tk).
Qed.

Lemma tp_run_steps ms : forall w w', foldl (fun o m => o ≫= run1 m) (Some w) ms = Some w' -> rtc step w w'.
Proof.
  induction ms as [|m ms IH]; intros w w' H; simpl in H; [simplify_eq; constructor|].
  destruct (run1 m w) as [w1|] eqn:E; simpl in H.
  - eapply rtc_l; [by eapply tp_run1_step|by apply IH].
  - exfalso. clear -H. induction ms; simpl in H; done || auto.
Qed.

(** Two requests are appended; the worker has taken the mutex for the first. *)
Definition schedule : list (tid * option (option request)) :=
  [(0, Some (Some 5%Z)); (1, Some (Some 6%Z)); (0, None); (0, None); (1, None); (0, None);
   (2, None); (1, None); (2, None); (1, None)]%nat.
Definition busy : world := Eval vm_compute in
  default sample_start (foldl (fun o m => o ≫= run1 m) (Some sample_start) schedule).

Lemma tp_busy_reached : rtc step sample_start busy.
Proof. apply (tp_run_steps schedule). by vm_compute. Qed.

Lemma requests_fifo_witness :
  accepted busy = taken busy ++ m_workqueue (queue busy) /\ accepted busy = [Some 5; Some 6].
Proof.
  split; [|reflexivity].
  apply (requests_fifo 2 2 1 sample_start busy); [done|apply sample_start_ok|apply tp_busy_reached].
Defined.

Lemma pool_implements_queue_witness :
  rtc (office_step 2) {| line := []; tasks := [Free; Free; Waiting] |}
    {| line := [Some 5; Some 6]; tasks := [Free; Free; Waiting] |}.
Proof.
  exact (pool_implements_queue 2 2 1 sample_start busy (conj eq_refl eq_refl) sample_start_ok tp_busy_reached).
Defined.

(** The worker goes on until it is back at its semaphore. *)
Definition work1 (t : tid) (w : world) : option world :=
  if bool_decide (pcs w !! t = Some PIdle) then None else run1 (t, None) w.

Lemma tp_work1_work t w w' : work1 t w = Some w' -> work w w'.
Proof.
  destruct w as [p l acc tk]. unfold work1. case_bool_decide as Hne; [done|]. cbn [pcs run1] in *.
  destruct (l !! t) as [a|] eqn:E; [|done]. destruct (part t a p) as [[[a' e] p']|] eqn:Ep; [|done].
  intros [= <-]. apply (work_part t p p' l a a'); congruence.
Qed.

Fixpoint work_run (ts : list tid) (w : world) : option world :=
  match ts with [] => Some w | t :: ts' => w1 ← work1 t w; work_run ts' w1 end.

Lemma tp_work_run ts : forall w w', work_run ts w = Some w' -> nsteps work (length ts) w w'.
Proof.
  induction ts as [|t ts IH]; intros w w' Hr; cbn in *; [simplify_eq; constructor|].
  destruct (work1 t w) as [w1|] eqn:E; [|done]. econstructor; [by eapply tp_work1_work|by apply IH].
Qed.

Definition finish : list tid := [2; 2; 2; 2; 2; 2]%nat.
Definition drained : world := Eval vm_compute in default busy (work_run finish busy).

Lemma tp_drained_rests : nf work drained.
Proof.
  intros [w' Hw]. inversion Hw as [t p p' l a a' e acc tk Ht Hne Hrun]; subst.
  destruct t as [|[|[|]]]; simplify_eq/=; done.
Qed.

Lemma pool_drains_witness :
  (6 <= work_left busy)%nat /\ at_rest drained /\ taken drained = [Some 5; Some 6].
Proof.
  pose proof (pool_drains 2 2 1 sample_start busy drained 6) as Hd.
  destruct Hd as [Hle Hrest];
    [done|lia|apply sample_start_ok|apply tp_busy_reached|by apply (tp_work_run finish)|].
  split_and!; [exact Hle|apply Hrest, tp_drained_rests|reflexivity].
Defined.

End threadpool.
