(* ===== verification/Log.v ===== *)
(** * Log: the log of ocean_http/log/log.{h,cpp}

    The singleton with its line buffer, its file and, in asynchronous mode,
    its queue.  The queue is used through the interface [BoundedFifo]; the
    clock and the success of [fopen] are inputs. *)

From Stdlib Require Import Ascii String.
From S2P Require Import Prelude Locker BlockQueue CStr.

(** [struct tm] and the microseconds of [gettimeofday]. *)
Record clock := {
  tm_year : Z; tm_mon : Z; tm_mday : Z; tm_hour : Z; tm_min : Z; tm_sec : Z; tv_usec : Z
}.

Definition LOG_NAME_SIZE : Z := 256.

Module log.
Section log.
Context {Q : Type} `{BoundedFifo Q (list ascii)} (fopen : list ascii -> bool).

(** The object has static storage: what the constructor does not set is zero.
    [files] is what has been written to each file. *)
Record log := {
  dir_name : list ascii;
  log_name : list ascii;
  m_split_lines : Z;
  m_log_buf_size : Z;
  m_count : Z;
  m_today : Z;
  m_fp : option (list ascii);
  m_buf : list ascii;
  m_log_queue : option Q;
  m_is_async : bool;
  m_mutex : locker.locker;
  m_close_log : Z;
  files : gmap (list ascii) (list ascii)
}.
#[global] Instance log_settable : Settable log := fun g => {|
  dir_name := dir_name g; log_name := log_name g; m_split_lines := m_split_lines g;
  m_log_buf_size := m_log_buf_size g; m_count := m_count g; m_today := m_today g; m_fp := m_fp g;
  m_buf := m_buf g; m_log_queue := m_log_queue g; m_is_async := m_is_async g; m_mutex := m_mutex g;
  m_close_log := m_close_log g; files := files g |}.

Definition ctor : log := {|
  dir_name := replicate 128 NUL; log_name := replicate 128 NUL; m_split_lines := 0; m_log_buf_size := 0;
  m_count := 0; m_today := 0; m_fp := None; m_buf := []; m_log_queue := None; m_is_async := false;
  m_mutex := locker.ctor; m_close_log := 0; files := ∅ |}.

Definition dtor (g : log) : log := g <| m_fp := None |>.

Definition on_mutex {A} (m : ST locker.locker A) : ST log A :=
  zoom m_mutex (fun l g => g <| m_mutex := l |>) m.

(** [fputs(s, m_fp)]; the stream must be open. *)
Definition fputs (s : list ascii) : ST log unit :=
  g ← get;
  match m_fp g with
  | None => throw NullDeref
  | Some f => modify (fun g => g <| files := <[f := default [] (files g !! f) ++ s]> (files g) |>)
  end.

(** The queue behind the pointer [m_log_queue]. *)
Definition on_queue {A} (m : ST Q A) : ST log A := fun g =>
  match m_log_queue g with
  | None => Halt NullDeref
  | Some q => match m q with
              | Ok (a, q') => Ok (a, g <| m_log_queue := Some q' |>)
              | Halt h => Halt h
              end
  end.

(** ** [init] *)

Definition date_text (now : clock) : list ascii :=
  dec (tm_year now + 1900) ++ lit "_" ++ dec_pad 2 (tm_mon now + 1) ++ lit "_" ++
  dec_pad 2 (tm_mday now) ++ lit "_".

(** [snprintf(name, 255, ...)] in an array of 256 zeros, and the name it holds. *)
Definition print_name (text : list ascii) : res (list ascii) :=
  b ← vsnprintf (replicate (Z.to_nat LOG_NAME_SIZE) NUL) 0 255 text;
  cstr b.

(** The part that splits the path and opens the file. *)
Definition open_first (file_name : list ascii) (now : clock) : ST log bool :=
  name ← (match last_index "/"%char file_name with
          | None => lift (print_name (date_text now ++ file_name))
          | Some p =>
            g ← get;
            ln ← lift (strcpy (log_name g) 0 (drop (Z.to_nat (p + 1)) file_name));
            dn ← lift (strncpy (dir_name g) 0 (take (Z.to_nat (p + 1)) file_name) (p + 1));
            _ ← modify (fun g => g <| log_name := ln |> <| dir_name := dn |>);
            d ← lift (cstr dn);
            lift (print_name (d ++ date_text now ++ file_name))
          end);
  _ ← modify (fun g => g <| m_today := tm_mday now |>);
  let ok := fopen name in
  _ ← modify (fun g => g <| m_fp := if ok then Some name else None |>);
  mret (if ok then false else true).

Definition init (file_name : list ascii) (close_log log_buf_size split_lines max_queue_size : Z)
    (now : clock) : ST log bool :=
  _ ← (if 1 <=? max_queue_size then
         q ← lift (fifo_make max_queue_size);
         modify (fun g => g <| m_is_async := true |> <| m_log_queue := Some q |>)
       else mret tt);
  if log_buf_size <? 0 then throw Thrown
  else
    _ ← modify (fun g => g <| m_close_log := close_log |> <| m_log_buf_size := log_buf_size |>
          <| m_buf := replicate (Z.to_nat log_buf_size) NUL |> <| m_split_lines := split_lines |>);
    open_first file_name now.

(** ** [write_log] *)

Definition level_text (level : Z) : list ascii :=
  if level =? 0 then lit "[debug]:"
  else if level =? 1 then lit "[info]:"
  else if level =? 2 then lit "[warn]:"
  else if level =? 3 then lit "[error]:"
  else lit "[info]:".

Definition stamp (now : clock) (level : Z) : list ascii :=
  dec (tm_year now + 1900) ++ lit "-" ++ dec_pad 2 (tm_mon now + 1) ++ lit "-" ++ dec_pad 2 (tm_mday now) ++
  lit " " ++ dec_pad 2 (tm_hour now) ++ lit ":" ++ dec_pad 2 (tm_min now) ++ lit ":" ++
  dec_pad 2 (tm_sec now) ++ lit "." ++ dec_pad 6 (tv_usec now) ++ lit " " ++ level_text level ++ lit " ".

(** [snprintf(tail, 16, ...)]. *)
Definition tail_text (now : clock) : list ascii := take 15 (date_text now).

(** The change of the file, at a new day or after [m_split_lines] lines.  The
    open stream is flushed and closed. *)
Definition rotate (now : clock) : ST log unit :=
  g ← get;
  match m_fp g with
  | None => throw NullDeref
  | Some _ =>
    d ← lift (cstr (dir_name g));
    n ← lift (cstr (log_name g));
    name ← (if negb (m_today g =? tm_mday now) then
              _ ← modify (fun g => g <| m_today := tm_mday now |> <| m_count := 0 |>);
              lift (print_name (d ++ tail_text now ++ n))
            else lift (print_name (d ++ tail_text now ++ n ++ lit "." ++ dec (Z.quot (m_count g) (m_split_lines g)))));
    modify (fun g => g <| m_fp := if fopen name then Some name else None |>)
  end.

(** The first critical section: count the line, change the file if it is due. *)
Definition count_line (now : clock) : ST log unit :=
  _ ← modify (fun g => g <| m_count := m_count g + 1 |>);
  g ← get;
  if negb (m_today g =? tm_mday now) then rotate now
  else if m_split_lines g =? 0 then throw DivByZero
  else if Z.rem (m_count g) (m_split_lines g) =? 0 then rotate now
  else mret tt.

(** The second one: format the line in [m_buf].  The sum [n + m] is taken from
    the full length of the message, printed or not. *)
Definition format_line (now : clock) (level : Z) (msg : list ascii) : ST log (list ascii) :=
  g ← get;
  let head := stamp now level in
  let n := Z.of_nat (length head) in
  b ← lift (vsnprintf (m_buf g) 0 48 head);
  let m := Z.of_nat (length msg) in
  b ← lift (vsnprintf b n (to_u64 (m_log_buf_size g - n - 1)) msg);
  b ← lift (wr b (n + m) LF);
  b ← lift (wr b (n + m + 1) NUL);
  _ ← modify (fun g => g <| m_buf := b |>);
  lift (cstr b).

Definition write_log (t : tid) (now : clock) (level : Z) (msg : list ascii) : ST log unit :=
  _ ← on_mutex (locker.lock t);
  _ ← count_line now;
  _ ← on_mutex locker.unlock;
  _ ← on_mutex (locker.lock t);
  log_str ← format_line now level msg;
  _ ← on_mutex locker.unlock;
  g ← get;
  full ← (if m_is_async g then on_queue (fifo_full t) else mret true);
  if m_is_async g && negb full then
    _ ← on_queue (fifo_push t log_str); mret tt
  else
    _ ← on_mutex (locker.lock t);
    _ ← fputs log_str;
    _ ← on_mutex locker.unlock;
    mret tt.

(** [flush]: the stream is flushed under the mutex. *)
Definition flush (t : tid) : ST log unit :=
  _ ← on_mutex (locker.lock t);
  _ ← on_mutex locker.unlock;
  mret tt.

(** One round of [async_write_log]; false when the thread sleeps in [pop]. *)
Definition async_round (t : tid) : ST log bool :=
  item ← on_queue (fifo_pop t);
  match item with
  | None => mret false
  | Some single_log =>
    _ ← on_mutex (locker.lock t);
    _ ← fputs single_log;
    _ ← on_mutex locker.unlock;
    mret true
  end.

(** [async_write_log] as long as it finds lines, at most [fuel] of them. *)
Fixpoint async_write_log (fuel : nat) (t : tid) : ST log unit :=
  match fuel with
  | O => mret tt
  | S fuel' => more ← async_round t; if more : bool then async_write_log fuel' t else mret tt
  end.

(** The thread function; the instance is the one object. *)
Definition flusg_log_thread := async_write_log.

(** ** Lemmas *)

Lemma dec_pad_plain w n : plain (dec_pad w n).
Proof.
  unfold dec_pad. apply plain_app. split; [|apply dec_plain].
  intros [E _]%elem_of_replicate. done.
Qed.

Lemma level_text_plain level : plain (level_text level).
Proof. unfold level_text. repeat case_match; apply (bool_decide_unpack _); vm_compute; done. Qed.

Lemma stamp_plain now level : plain (stamp now level).
Proof.
  unfold stamp. rewrite !plain_app.
  split_and!; auto using dec_plain, dec_pad_plain, level_text_plain;
    apply (bool_decide_unpack _); vm_compute; done.
Qed.

Definition line_of (now : clock) (level : Z) (msg : list ascii) : list ascii :=
  stamp now level ++ msg ++ [LF].

(** The buffer is there, and the line fits in it. *)
Definition line_fits (g : log) (now : clock) (level : Z) (msg : list ascii) : Prop :=
  Z.of_nat (length (m_buf g)) = m_log_buf_size g /\ Z.of_nat (length (stamp now level)) < 48 /\
  Z.of_nat (length (line_of now level msg)) < m_log_buf_size g < 2 ^ 31.

Lemma format_line_ok g now level msg : line_fits g now level msg -> plain msg ->
  exists b, format_line now level msg g = Ok (line_of now level msg, g <| m_buf := b |>) /\
    length b = length (m_buf g).
Proof.
  intros (Hlen & H48 & Hfit) Hp. unfold line_of in *. rewrite !length_app in Hfit. cbn [length] in Hfit.
  set (head := stamp now level) in *. set (rest := drop (length head + length msg + 2) (m_buf g)).
  assert (exists a1 a2 x, m_buf g = a1 ++ a2 ++ x :: rest /\ length a1 = S (length head) /\ length a2 = length msg)
    as (a1 & a2 & x & E & L1 & L2).
  { pose proof (take_drop (S (length head)) (m_buf g)) as E1.
    pose proof (take_drop (length msg) (drop (S (length head)) (m_buf g))) as E2. rewrite drop_drop in E2.
    destruct (drop (S (length head) + length msg) (m_buf g)) as [|x r] eqn:Er.
    { apply (f_equal length) in Er. rewrite length_drop in Er. simpl in Er. lia. }
    exists (take (S (length head)) (m_buf g)), (take (length msg) (drop (S (length head)) (m_buf g))), x.
    split_and!; [|rewrite length_take; lia|rewrite length_take, length_drop; lia].
    rewrite <- E1 at 1. f_equal. rewrite <- E2 at 1. f_equal. f_equal.
    unfold rest. replace (length head + length msg + 2)%nat with (S (length head) + length msg + 1)%nat by lia.
    rewrite <- drop_drop, Er. done. }
  exists (head ++ msg ++ LF :: NUL :: rest).
  assert (vsnprintf (m_buf g) 0 48 head = Ok (head ++ NUL :: a2 ++ x :: rest)) as V1.
  { rewrite vsnprintf_fits by lia. rewrite E. etransitivity; [apply (blit_app [] a1)|].
    - done.
    - rewrite length_app. simpl. lia.
    - by rewrite <- app_assoc. }
  assert (vsnprintf (head ++ NUL :: a2 ++ x :: rest) (Z.of_nat (length head))
    (to_u64 (m_log_buf_size g - Z.of_nat (length head) - 1)) msg = Ok (head ++ msg ++ NUL :: x :: rest)) as V2.
  { unfold to_u64. rewrite wrap_u_id by lia. rewrite vsnprintf_fits by lia.
    etransitivity; [apply (blit_app head (NUL :: a2)); [done|rewrite length_app; simpl; lia]|].
    by rewrite <- app_assoc. }
  split.
  - unfold format_line. st_step reflexivity. fold head. cbv zeta.
    st_step (by apply lift_ok). st_step (by apply lift_ok). rewrite app_assoc.
    st_step (apply lift_ok, wr_app; rewrite length_app; lia). rewrite app_snoc.
    st_step (apply lift_ok, wr_app; rewrite !length_app; simpl; lia). st_step reflexivity.
    rewrite <- !app_assoc. apply lift_ok. cbn [app].
    replace (head ++ msg ++ LF :: NUL :: rest) with ((head ++ msg ++ [LF]) ++ NUL :: rest)
      by (by rewrite <- !app_assoc).
    apply cstr_plain. rewrite !plain_app. split_and!; [apply stamp_plain|done|].
    apply plain_cons. split; [done|apply plain_nil].
  - rewrite E, !length_app. cbn [length]. lia.
Qed.

(** No change of the file is due. *)
Definition same_file (g : log) (now : clock) : Prop :=
  m_today g = tm_mday now /\ m_split_lines g <> 0 /\ Z.rem (m_count g + 1) (m_split_lines g) <> 0.

Lemma count_line_same g now : same_file g now ->
  count_line now g = Ok (tt, g <| m_count := m_count g + 1 |>).
Proof.
  intros (Ht & Hs & Hr). unfold count_line. st_step reflexivity. st_step reflexivity.
  cbn [m_today m_split_lines m_count set]. rewrite Ht, Z.eqb_refl. cbn [negb].
  by rewrite !(proj2 (Z.eqb_neq _ _)) by done.
Qed.

Definition mutex_free (g : log) : Prop := locker.m_mutex (m_mutex g) = None.

(** The state after the line was counted and formatted. *)
Definition formatted (g : log) (b : list ascii) : log :=
  g <| m_count := m_count g + 1 |> <| m_buf := b |>.

Lemma write_log_formats g t now level msg :
  mutex_free g -> line_fits g now level msg -> plain msg -> same_file g now ->
  exists b, length b = length (m_buf g) /\
    write_log t now level msg g =
      (g ← get;
       full ← (if m_is_async g then on_queue (fifo_full t) else mret true);
       if m_is_async g && negb full then
         _ ← on_queue (fifo_push t (line_of now level msg)); mret tt
       else
         _ ← on_mutex (locker.lock t);
         _ ← fputs (line_of now level msg);
         _ ← on_mutex locker.unlock;
         mret tt) (formatted g b).
Proof.
  intros Hm Hf Hp Hs. unfold mutex_free in Hm. destruct (m_mutex g) as [mu] eqn:Emu. cbn in Hm. subst mu.
  pose (g1 := g <| m_count := m_count g + 1 |> <| m_mutex := {| locker.m_mutex := Some t |} |>).
  destruct (format_line_ok g1 now level msg Hf Hp) as (b & Hb & Hl).
  exists b. split; [exact Hl|]. unfold write_log.
  st_step (apply zoom_ok; rewrite Emu; reflexivity).
  st_step (by apply count_line_same). st_step reflexivity. st_step reflexivity.
  st_step (exact Hb). st_step reflexivity.
  unfold formatted. f_equal. destruct g. cbn in Emu. subst. reflexivity.
Qed.

Lemma fputs_ok g f s : m_fp g = Some f ->
  fputs s g = Ok (tt, g <| files := <[f := default [] (files g !! f) ++ s]> (files g) |>).
Proof. intros Hf. unfold fputs. st_step reflexivity. by rewrite Hf. Qed.

(** Writing to the file under the mutex. *)
Lemma write_direct {A} (a : A) g t f s : mutex_free g -> m_fp g = Some f ->
  (_ ← on_mutex (locker.lock t); _ ← fputs s; _ ← on_mutex locker.unlock; mret a) g =
    Ok (a, g <| files := <[f := default [] (files g !! f) ++ s]> (files g) |>).
Proof.
  unfold mutex_free. intros Hm Hf. destruct (m_mutex g) as [mu] eqn:Emu. cbn in Hm. subst mu.
  st_step (apply zoom_ok; rewrite Emu; reflexivity). st_step (by apply (fputs_ok _ f)). st_step reflexivity.
  unfold mret, ST_ret. do 2 f_equal. destruct g. cbn in Emu. subst. reflexivity.
Qed.


(** C33: the writer thread empties the queue in order: after as many rounds as
    there are lines, the file has exactly those lines appended, in the order
    in which they were queued, and the queue is empty. *)
Theorem async_drains t f : forall lines g q,
  mutex_free g -> m_fp g = Some f -> m_log_queue g = Some q -> fifo_wf q -> fifo_contents q = lines ->
  exists g' q', async_write_log (length lines) t g = Ok (tt, g') /\ mutex_free g' /\ m_fp g' = Some f /\
    default [] (files g' !! f) = default [] (files g !! f) ++ mjoin lines /\
    m_log_queue g' = Some q' /\ fifo_contents q' = [] /\ fifo_wf q'.
Proof.
  induction lines as [|l lines IH]; intros g q Hm Hf Hq Hwf Hc.
  - exists g, q. split_and!; try done. by rewrite app_nil_r.
  - destruct (fifo_pop_spec t q l lines Hwf Hc) as (q1 & Hpop & Hwf1 & _ & Hc1).
    set (g1 := g <| m_log_queue := Some q1 |>).
    assert (on_queue (fifo_pop t) g = Ok (Some l, g1)) as Hp by (unfold on_queue; by rewrite Hq, Hpop).
    pose proof (write_direct true g1 t f l Hm Hf) as Hd.
    set (g2 := g1 <| files := _ |>) in Hd.
    destruct (IH g2 q1) as (g' & q' & Hrun & Hm' & Hf' & Hfile & Hq' & Hc' & Hwf'); try done.
    exists g', q'. split_and!; try done.
    + cbn [length async_write_log]. etransitivity; [eapply (ST_bind_step _ _ _ true g2)|exact Hrun].
      unfold async_round. st_step (exact Hp). exact Hd.
    + rewrite Hfile. unfold g2. cbn [files set g1]. rewrite lookup_insert_eq. cbn [default].
      cbn [mjoin list_join]. by rewrite app_assoc.
Qed.

(** A message that does not fit the buffer is cut by [vsnprintf], but the
    newline and the terminator are stored where the whole message would have
    ended: outside the buffer. *)
Theorem long_message_overflows g t now level msg :
  mutex_free g -> same_file g now -> Z.of_nat (length (m_buf g)) = m_log_buf_size g ->
  Z.of_nat (length (stamp now level)) < 48 -> 48 <= m_log_buf_size g < 2 ^ 31 ->
  m_log_buf_size g <= Z.of_nat (length (stamp now level) + length msg) + 1 ->
  write_log t now level msg g = Halt OutOfBounds.
Proof.
  intros Hm Hs Hlen H48 Hsz Hlong. unfold mutex_free in Hm. destruct (m_mutex g) as [mu] eqn:Emu.
  cbn in Hm. subst mu. unfold write_log.
  st_step (apply zoom_ok; rewrite Emu; reflexivity).
  st_step (by apply count_line_same). st_step reflexivity. st_step reflexivity.
  apply ST_bind_halt. unfold format_line. st_step reflexivity. cbv zeta.
  cbn [m_buf m_log_buf_size set]. set (head := stamp now level) in *.
  assert (exists b1, vsnprintf (m_buf g) 0 48 head = Ok b1 /\ length b1 = length (m_buf g)) as (b1 & V1 & L1).
  { rewrite vsnprintf_fits by lia. rewrite blit_ok by (rewrite ?length_app; simpl; lia). eexists. split; [done|].
    eapply blit_length, blit_ok; rewrite ?length_app; simpl; lia. }
  st_step (by apply lift_ok).
  assert (exists b2, vsnprintf b1 (Z.of_nat (length head)) (to_u64 (m_log_buf_size g - Z.of_nat (length head) - 1)) msg = Ok b2
    /\ length b2 = length (m_buf g)) as (b2 & V2 & L2).
  { unfold to_u64. rewrite wrap_u_id by lia. unfold vsnprintf. case_match; [by eexists|]. reflect_bools.
    rewrite blit_ok by (rewrite ?length_app, ?length_take; simpl; lia). eexists. split; [done|].
    rewrite <- L1. eapply blit_length, blit_ok; rewrite ?length_app, ?length_take; simpl; lia. }
  st_step (by apply lift_ok).
  destruct (decide (Z.of_nat (length head) + Z.of_nat (length msg) < Z.of_nat (length b2))) as [Hin|Hout].
  - st_step (apply lift_ok, wr_ok; lia). apply ST_bind_halt. unfold lift.
    rewrite wr_oob; [done|]. rewrite length_insert. lia.
  - apply ST_bind_halt. unfold lift. rewrite wr_oob; [done|]. lia.
Qed.

(** [init] answers false exactly when the file could be opened. *)
Theorem init_result_inverted g file cl size split qs now r g' :
  init file cl size split qs now g = Ok (r, g') -> r = bool_decide (m_fp g' = None).
Proof.
  unfold init, open_first. intros Hi.
  apply ST_bind_ok in Hi as (? & g1 & _ & Hi). case_match; [done|].
  apply ST_bind_ok in Hi as (? & g2 & _ & Hi). apply ST_bind_ok in Hi as (name & g3 & _ & Hi).
  apply ST_bind_ok in Hi as (? & g4 & _ & Hi). cbv zeta in Hi.
  apply ST_bind_ok in Hi as (? & g5 & [= <- <-] & Hi). injection Hi as <- <-. cbn [m_fp set].
  destruct (fopen name); [by rewrite bool_decide_eq_false_2|by rewrite bool_decide_eq_true_2].
Qed.

Lemma print_name_ok text : plain text -> Z.of_nat (length text) < 255 -> print_name text = Ok text.
Proof.
  intros Hp Hl. unfold print_name. rewrite vsnprintf_fits by done.
  set (n := length (text ++ [NUL])).
  assert (n = S (length text)) as En by (unfold n; rewrite length_app; simpl; lia).
  replace (replicate (Z.to_nat LOG_NAME_SIZE) NUL)
    with ([] ++ replicate n NUL ++ replicate (Z.to_nat LOG_NAME_SIZE - n) NUL).
  - rewrite (blit_app [] (replicate n NUL)) by (done || by rewrite length_replicate).
    unfold mbind, res_bind. rewrite app_nil_l, <- app_assoc. by apply cstr_plain.
  - rewrite app_nil_l, <- replicate_add. f_equal. unfold LOG_NAME_SIZE. lia.
Qed.

(** The file changes exactly when the count reaches a multiple of
    [m_split_lines]: to the name with the date and the number of the part. *)
Theorem rotation_name g now f d n :
  m_fp g = Some f -> m_today g = tm_mday now -> m_split_lines g <> 0 ->
  Z.rem (m_count g + 1) (m_split_lines g) = 0 ->
  cstr (dir_name g) = Ok d -> cstr (log_name g) = Ok n ->
  let name := d ++ tail_text now ++ n ++ lit "." ++ dec (Z.quot (m_count g + 1) (m_split_lines g)) in
  plain name -> Z.of_nat (length name) < 255 ->
  count_line now g = Ok (tt, g <| m_count := m_count g + 1 |>
                               <| m_fp := if fopen name then Some name else None |>).
Proof.
  intros Hf Ht Hs Hr Hd Hn name Hp Hl. unfold count_line. st_step reflexivity. st_step reflexivity.
  cbn [m_today m_split_lines m_count set]. rewrite Ht, Z.eqb_refl. cbn [negb].
  rewrite (proj2 (Z.eqb_neq _ _)) by done. rewrite Hr, Z.eqb_refl. unfold rotate. st_step reflexivity.
  cbn [m_fp dir_name log_name m_today m_count m_split_lines set]. rewrite Hf.
  st_step (by apply lift_ok). st_step (by apply lift_ok). rewrite Ht, Z.eqb_refl. cbn [negb].
  st_step (by apply lift_ok, print_name_ok). done.
Qed.
(** Copying text into an array of zeros. *)
Lemma blit_zeros n text : (length text <= n)%nat ->
  blit (replicate n NUL) 0 text = Ok (text ++ replicate (n - length text) NUL).
Proof.
  intros Hl. replace n with (length text + (n - length text))%nat at 1 by lia. rewrite replicate_add.
  by apply (blit_app [] (replicate (length text) NUL)); [|rewrite length_replicate].
Qed.

(** The name of the first file: [init] splits the path, and then prints all of
    it behind the directory and the date, where [log_name] is meant (the names
    of the later files, see [rotation_name], are right).  For a file in a
    directory the result names a file in another directory, below the first,
    whose name ends in the date; it does not exist, and the log has no file. *)
Theorem first_file_name g now dir base :
  dir_name g = replicate 128 NUL -> log_name g = replicate 128 NUL ->
  plain (dir ++ "/"%char :: base) -> "/"%char ∉ base ->
  (length dir + 2 <= 128)%nat -> (length base + 1 <= 128)%nat ->
  let path := dir ++ "/"%char :: base in
  let name := (dir ++ lit "/") ++ date_text now ++ path in
  plain name -> Z.of_nat (length name) < 255 ->
  exists g', open_first path now g = Ok (negb (fopen name), g') /\
    m_fp g' = (if fopen name then Some name else None) /\
    cstr (dir_name g') = Ok (dir ++ lit "/") /\ cstr (log_name g') = Ok base.
Proof.
  intros Hd Hl Hp Hb Hld Hlb path name Hn Hlen. pose proof Hp as [Hpd Hpb]%plain_app.
  apply plain_cons in Hpb as [_ Hpb]. unfold open_first.
  assert (last_index "/"%char path = Some (Z.of_nat (length dir))) as ->.
  { unfold last_index, path. rewrite last_index_app. cbn [last_index_from]. rewrite bool_decide_eq_true_2 by done.
    by rewrite last_index_none. }
  set (i := Z.to_nat (Z.of_nat (length dir) + 1)).
  assert (i = length (dir ++ lit "/")) as Ei by (unfold i; rewrite length_app; simpl; lia).
  assert (path = (dir ++ lit "/") ++ base) as Epath by (unfold path; by rewrite <- app_assoc).
  rewrite Epath, Ei, drop_app_length, take_app_length.
  set (dn := (dir ++ lit "/") ++ replicate (128 - i) NUL). set (ln := base ++ replicate (128 - length base) NUL).
  assert (plain (dir ++ lit "/")) as Hpdir by (apply plain_app; split; [done|apply (bool_decide_unpack _); vm_compute; done]).
  assert (cstr dn = Ok (dir ++ lit "/") /\ cstr ln = Ok base) as [Cd Cl].
  { assert (forall n, (0 < n)%nat -> replicate n NUL = NUL :: replicate (n - 1) NUL) as Hrep.
    { intros n Hlt. destruct n; [lia|]. simpl. by rewrite Nat.sub_0_r. }
    unfold dn, ln. rewrite (Hrep (128 - i)%nat), (Hrep (128 - length base)%nat) by lia. split; by apply cstr_plain. }
  assert (strcpy (log_name g) 0 base = Ok ln) as Scpy.
  { rewrite Hl. unfold strcpy. rewrite blit_zeros by (rewrite length_app; simpl; lia). unfold ln. f_equal.
    rewrite length_app, <- app_assoc. cbn [length app]. by replace (128 - length base)%nat with (S (128 - (length base + 1))) by lia. }
  assert (strncpy (dir_name g) 0 (dir ++ lit "/") (Z.of_nat (length dir) + 1) = Ok dn) as Sncpy.
  { rewrite Hd. unfold strncpy. fold i. rewrite Ei, take_ge, Nat.sub_diag, app_nil_r by lia. rewrite blit_zeros by lia.
    unfold dn. by rewrite Ei. }
  exists (g <| log_name := ln |> <| dir_name := dn |> <| m_today := tm_mday now |>
    <| m_fp := if fopen name then Some name else None |>).
  split; [|done]. etransitivity; [eapply ST_bind_step|].
  - st_step reflexivity. etransitivity; [eapply ST_bind_step, lift_ok, Scpy|]. cbv beta.
    etransitivity; [eapply ST_bind_step, lift_ok, Sncpy|]. cbv beta.
    st_step reflexivity. etransitivity; [eapply ST_bind_step, lift_ok, Cd|]. cbv beta.
    rewrite <- Epath. by apply lift_ok, print_name_ok.
  - st_step reflexivity. st_step reflexivity. fold name. by destruct (fopen name).
Qed.
End log.
Arguments log : clear implicits.
End log.

(** ** The theorems at a concrete log *)

#[export] Instance chars_inhabited : Inhabited (list ascii) := populate [].

Definition sample_clock : clock :=
  {| tm_year := 123; tm_mon := 10; tm_mday := 20; tm_hour := 21; tm_min := 9; tm_sec := 16; tv_usec := 42 |}.

(** A log with a queue of two lines, of which [lines] wait. *)
Definition sample_log (lines : list (list ascii)) : log.log (block_queue.block_queue (list ascii)) := {|
  log.dir_name := replicate 128 NUL; log.log_name := replicate 128 NUL; log.m_split_lines := 800000;
  log.m_log_buf_size := 64; log.m_count := 0; log.m_today := 20; log.m_fp := Some (lit "x.log");
  log.m_buf := replicate 64 NUL;
  log.m_log_queue := Some {| block_queue.m_mutex := locker.ctor; block_queue.m_cond := cond.ctor;
    block_queue.m_array := lines ++ replicate (2 - length lines) []; block_queue.m_size := Z.of_nat (length lines);
    block_queue.m_max_size := 2; block_queue.m_front := -1;
    block_queue.m_back := Z.of_nat (length lines) - 1 |};
  log.m_is_async := true; log.m_mutex := locker.ctor; log.m_close_log := 0; log.files := ∅ |}.

(** The server's own log: [./serverlog]. *)
Lemma first_file_name_witness : exists g',
  log.open_first (fun f => bool_decide (f = lit "./2023_11_20_./serverlog")) (lit "./serverlog") sample_clock (sample_log []) =
    Ok (false, g') /\ log.m_fp g' = Some (lit "./2023_11_20_./serverlog").
Proof.
  destruct (log.first_file_name (fun f => bool_decide (f = lit "./2023_11_20_./serverlog")) (sample_log []) sample_clock
    (lit ".") (lit "serverlog")) as (g' & Hrun & Hfp & _).
  - reflexivity.
  - reflexivity.
  - apply (bool_decide_unpack _). vm_compute. done.
  - apply (bool_decide_unpack _). vm_compute. done.
  - simpl. lia.
  - simpl. lia.
  - apply (bool_decide_unpack _). vm_compute. done.
  - vm_compute. done.
  - exists g'. split; [exact Hrun|exact Hfp].
Defined.


Lemma async_drains_witness :
  exists g' q', log.async_write_log 2 1%nat (sample_log [lit "a"; lit "b"]) = Ok (tt, g') /\
    default [] (log.files g' !! lit "x.log") = lit "ab" /\ log.m_log_queue g' = Some q' /\ fifo_contents q' = [].
Proof.
  destruct (log.async_drains 1%nat (lit "x.log") [lit "a"; lit "b"] (sample_log [lit "a"; lit "b"])
    {| block_queue.m_mutex := locker.ctor; block_queue.m_cond := cond.ctor;
       block_queue.m_array := [lit "a"; lit "b"]; block_queue.m_size := 2;
       block_queue.m_max_size := 2; block_queue.m_front := -1; block_queue.m_back := 1 |})
    as (g' & q' & Hrun & _ & _ & Hf & Hq & Hc & _).
  - reflexivity.
  - reflexivity.
  - reflexivity.
  - split_and!; vm_compute; done.
  - reflexivity.
  - exists g', q'. split; [exact Hrun|]. split; [exact Hf|]. split; [exact Hq|exact Hc].
Defined.
