(* ===== verification/Config.v ===== *)
(** * Config: the command line of ocean_http/config.{h,cpp}

    The settings with their defaults, and [parse_arg] over [getopt] for
    the option string of the code. *)

From Stdlib Require Import Ascii String.
From S2P Require Import Prelude CStr.

Module config.

Record config := {
  PORT : Z; LOGWrite : Z; TRIGMode : Z; LISTENTrigmode : Z; CONNTrigmode : Z; OPT_LINGER : Z;
  sql_num : Z; thread_num : Z; close_log : Z; actor_model : Z
}.
#[global] Instance config_settable : Settable config := fun c => {|
  PORT := PORT c; LOGWrite := LOGWrite c; TRIGMode := TRIGMode c; LISTENTrigmode := LISTENTrigmode c;
  CONNTrigmode := CONNTrigmode c; OPT_LINGER := OPT_LINGER c; sql_num := sql_num c;
  thread_num := thread_num c; close_log := close_log c; actor_model := actor_model c |}.

Definition ctor : config := {|
  PORT := 9006; LOGWrite := 0; TRIGMode := 0; LISTENTrigmode := 0; CONNTrigmode := 0; OPT_LINGER := 0;
  sql_num := 8; thread_num := 8; close_log := 0; actor_model := 0 |}.

(** The letters of ["p:l:m:o:s:t:c:a:"]; each takes an argument. *)
Definition opts : list ascii := ["p"; "l"; "m"; "o"; "s"; "t"; "c"; "a"]%char.

(** The [switch] of [parse_arg]. *)
Definition set_opt (opt : ascii) (v : Z) (c : config) : config :=
  if bool_decide (opt = "p"%char) then c <| PORT := v |>
  else if bool_decide (opt = "l"%char) then c <| LOGWrite := v |>
  else if bool_decide (opt = "m"%char) then c <| TRIGMode := v |>
  else if bool_decide (opt = "o"%char) then c <| OPT_LINGER := v |>
  else if bool_decide (opt = "s"%char) then c <| sql_num := v |>
  else if bool_decide (opt = "t"%char) then c <| thread_num := v |>
  else if bool_decide (opt = "c"%char) then c <| close_log := v |>
  else if bool_decide (opt = "a"%char) then c <| actor_model := v |>
  else c.

(** The [getopt] of the GNU C library over the words behind the program name:
    words that are not options are passed over, ["--"] ends the options; an
    option's argument is the rest of its word, or the next word.  An unknown
    letter is reported and skipped; a missing argument ends the list. *)
Fixpoint getopt (fuel : nat) (word : list ascii) (words : list (list ascii))
    : list (ascii * list ascii) :=
  match fuel with
  | O => []
  | S fuel' =>
    match word with
    | x :: rest =>
      (* inside a word of options *)
      if bool_decide (x ∈ opts) then
        match rest, words with
        | _ :: _, _ => (x, rest) :: getopt fuel' [] words
        | [], w :: ws => (x, w) :: getopt fuel' [] ws
        | [], [] => []
        end
      else getopt fuel' rest words
    | [] =>
      match words with
      | ("-"%char :: x :: rest) :: ws =>
        if bool_decide (x = "-"%char) && bool_decide (rest = []) then []
        else getopt fuel' (x :: rest) ws
      | _ :: ws => getopt fuel' [] ws
      | [] => []
      end
    end
  end.

Definition arg_fuel (argv : list (list ascii)) : nat := S (2 * length (mjoin argv) + length argv).

Definition parse_arg (argv : list (list ascii)) (c : config) : config :=
  foldl (fun c o => set_opt o.1 (atoi o.2) c) c (getopt (arg_fuel argv) [] argv).

(** ** Properties *)

(** A setting on the command line: its letter and its value, in two words. *)
Definition setting_words (s : ascii * Z) : list (list ascii) := [["-"%char; s.1]; dec s.2].

Definition apply_setting (c : config) (s : ascii * Z) : config := set_opt s.1 s.2 c.

Definition setting_ok (s : ascii * Z) : Prop := s.1 ∈ opts /\ -2147483648 <= s.2 <= INT_MAX.

Lemma opt_not_dash x : x ∈ opts -> x <> "-"%char.
Proof. intros H ->. by apply (bool_decide_unpack _) in H || (unfold opts in H; set_solver). Qed.

Lemma getopt_settings ss : forall fuel, Forall setting_ok ss -> (2 * length ss < fuel)%nat ->
  getopt fuel [] (mjoin (map setting_words ss)) = map (fun s => (s.1, dec s.2)) ss.
Proof.
  induction ss as [|[x v] ss IH]; intros fuel Hok Hf.
  - by destruct fuel.
  - apply Forall_cons in Hok as [[Hx Hv] Hok]. destruct fuel as [|[|fuel]]; [simpl in Hf; lia..|].
    cbn [map mjoin list_join setting_words fst snd app].
    change (getopt (S (S fuel)) [] (["-"%char; x] :: dec v :: mjoin (map setting_words ss)))
      with (if bool_decide (x = "-"%char) && bool_decide (@nil ascii = []) then []
            else getopt (S fuel) [x] (dec v :: mjoin (map setting_words ss))).
    rewrite (bool_decide_eq_false_2 (x = "-"%char)) by (by apply opt_not_dash). cbn [andb getopt].
    rewrite bool_decide_eq_true_2 by done. f_equal. apply IH; [done|]. simpl in Hf. lia.
Qed.

Lemma setting_words_length ss : length (mjoin (map setting_words ss)) = (2 * length ss)%nat.
Proof.
  induction ss as [|s ss IH]; [done|].
  change (mjoin (map setting_words (s :: ss))) with (setting_words s ++ mjoin (map setting_words ss)).
  rewrite length_app, IH. cbn [length setting_words]. lia.
Qed.

(** C34: the command line is read back: for any sequence of settings [-x N],
    printed in decimal, each for one of the eight letters and within the range
    of [int], [parse_arg] gives exactly the settings (the last one of a letter
    wins) and leaves the others at their defaults. *)
Theorem parse_arg_roundtrip ss c :
  Forall setting_ok ss -> parse_arg (mjoin (map setting_words ss)) c = foldl apply_setting c ss.
Proof.
  intros Hok. unfold parse_arg. rewrite getopt_settings; [|done|].
  - clear -Hok. revert c. induction ss as [|[x v] ss IH]; intros c; [done|].
    apply Forall_cons in Hok as [[_ Hv] Hok]. simpl. unfold apply_setting at 2. simpl.
    unfold atoi. unfold INT_MAX in Hv. simpl in Hv. rewrite strtol_dec_lemma by (unfold LONG_MAX; lia).
    rewrite to_int_id by (unfold INT_MAX; lia). by apply IH.
  - unfold arg_fuel. rewrite setting_words_length. lia.
Qed.

(** The two trigger modes of the configuration are not options: no command
    line changes them. *)
Theorem trigger_modes_not_options argv c :
  LISTENTrigmode (parse_arg argv c) = LISTENTrigmode c /\ CONNTrigmode (parse_arg argv c) = CONNTrigmode c.
Proof.
  unfold parse_arg. generalize (getopt (arg_fuel argv) [] argv). intros l. revert c.
  induction l as [|o l IH]; intros c; [done|]. simpl. destruct (IH (set_opt o.1 (atoi o.2) c)) as [-> ->].
  unfold set_opt. repeat case_bool_decide; done.
Qed.

Lemma parse_arg_roundtrip_witness :
  PORT (parse_arg (mjoin (map setting_words [("p"%char, 80); ("t"%char, 4)])) ctor) = 80.
Proof.
  rewrite parse_arg_roundtrip; [reflexivity|]. repeat constructor; simpl; try lia; apply (bool_decide_unpack _); done.
Defined.
End config.
