(* ===== verification/WebServer.v ===== *)
(** * WebServer: ocean_http/webserver.{h,cpp}, main.cpp and the class utils

    The server that ties the parts together: the tables of connections and
    timers indexed by descriptor, the event handlers and the main loop, as
    state passing over one record.  The kernel is the list of the calls made,
    and inputs: accepted descriptors, data of sockets, the clock. *)

From Stdlib Require Import Ascii String.
From S2P Require Import Prelude Locker BlockQueue LstTimer CStr HttpConn HttpRequest HttpResponse SqlPool.
From S2P Require Import HttpServe ThreadPool Log Config.

Definition MAX_FD : Z := 65536.
Definition MAX_EVENT_NUMBER : Z := 10000.
Definition TIMESLOT : Z := 5.
Definition EPOLLERR : Z := 8.
Definition SIGPIPE : Z := 13.
Definition SIGALRM : Z := 14.
Definition SIGTERM : Z := 15.

Record client_data := { address : Z; sockfd : Z; timer : option loc }.

Module webserver.
Section webserver.
Context {DB : Type}
  (mysql_query : option Z -> list ascii -> DB -> Z * DB)
  (stat : list ascii -> option file_stat)
  (mmap : list ascii -> Z -> faddr)
  (* the bytes of the array of connections before their first init *)
  (garbage : http_conn).

(** Members that nothing initialises are [option]s. *)
Record env := {
  m_port : option Z; m_root : list ascii; m_log_write : option Z; m_close_log : option Z;
  m_actormodel : option Z; m_pipefd : option (Z * Z); m_epollfd : option Z;
  m_user : list ascii; m_passwd : list ascii; m_dbname : list ascii; m_sql_num : option Z;
  m_thread_num : option Z; m_listenfd : option Z; m_OPT_LINGER : option Z; m_TRIGMode : option Z;
  m_LISTENTrigmode : option Z; m_COUNTrigmode : option Z; m_TIMESLOT : option Z;
  users : gmap Z http_conn;
  users_timer : gmap Z client_data;
  m_timer_lst : sort_timer_lst.sort_timer_lst;
  m_connPool : sql_connection_pool.pool;
  glob : globals DB;
  m_user_count : Z;
  calls : list syscall;
  socks : gmap Z socket;
  accepts : list (option (Z * Z))
}.
#[global] Instance env_settable : Settable env := fun e => {|
  m_port := m_port e; m_root := m_root e; m_log_write := m_log_write e; m_close_log := m_close_log e;
  m_actormodel := m_actormodel e; m_pipefd := m_pipefd e; m_epollfd := m_epollfd e; m_user := m_user e;
  m_passwd := m_passwd e; m_dbname := m_dbname e; m_sql_num := m_sql_num e; m_thread_num := m_thread_num e;
  m_listenfd := m_listenfd e; m_OPT_LINGER := m_OPT_LINGER e; m_TRIGMode := m_TRIGMode e;
  m_LISTENTrigmode := m_LISTENTrigmode e; m_COUNTrigmode := m_COUNTrigmode e; m_TIMESLOT := m_TIMESLOT e;
  users := users e; users_timer := users_timer e; m_timer_lst := m_timer_lst e;
  m_connPool := m_connPool e; glob := glob e; m_user_count := m_user_count e; calls := calls e;
  socks := socks e; accepts := accepts e |}.

Definition member (o : option Z) : ST env Z := lift (of_option Indeterminate o).
Definition call (k : syscall) : ST env unit := modify (fun e => e <| calls := calls e ++ [k] |>).
Definition sys {A} (m : ST (list syscall) A) : ST env A :=
  zoom calls (fun k e => e <| calls := k |>) m.

(** [users[fd]] and [users_timer[fd]]: arrays of [MAX_FD] objects. *)
Definition in_table (fd : Z) : bool := (0 <=? fd) && (fd <? MAX_FD).
Definition user_at (e : env) (fd : Z) : http_conn := default garbage (users e !! fd).

Definition server_of (fd : Z) (e : env) : server DB :=
  {| hs := {| conn := user_at e fd; HttpRequest.glob := glob e |};
     HttpServe.m_user_count := m_user_count e; HttpServe.calls := calls e |}.
Definition server_back (fd : Z) (s : server DB) (e : env) : env :=
  e <| users := <[fd := conn (hs s)]> (users e) |> <| glob := HttpRequest.glob (hs s) |>
    <| m_user_count := HttpServe.m_user_count s |> <| calls := HttpServe.calls s |>.

Definition on_user {A} (fd : Z) (m : ST (server DB) A) : ST env A :=
  if in_table fd then zoom (server_of fd) (server_back fd) m else throw OutOfBounds.

(** A member of [users[fd]] assigned. *)
Definition set_user (fd : Z) (f : http_conn -> http_conn) : ST env unit :=
  on_user fd (on_hconn (modify f)).

(** [users_timer[fd].timer]; an entry that was never assigned has no value. *)
Definition timer_of (fd : Z) : ST env (option loc) :=
  if in_table fd then
    e ← get; lift (of_option Indeterminate (timer <$> users_timer e !! fd))
  else throw OutOfBounds.

(** [users[fd].read_once()], with the data of the socket. *)
Definition read_user (fd : Z) : ST env bool :=
  if in_table fd then
    e ← get;
    let k := default {| pieces := []; after := Failed |} (socks e !! fd) in
    match read_once {| rconn := user_at e fd; rsock := k |} with
    | Ok (b, r) =>
      _ ← modify (fun e => e <| users := <[fd := rconn r]> (users e) |>
                             <| socks := <[fd := rsock r]> (socks e) |>);
      mret b
    | Halt h => throw h
    end
  else throw OutOfBounds.

(** The connections as the requests of the thread pool: a request is the index
    of its connection. *)
#[global] Instance conn_request : Request env := {|
  rq_state r e := m_state (user_at e r);
  rq_set_state r v e := e <| users := <[r := (user_at e r) <| m_state := v |>]> (users e) |>;
  rq_set_improv r v e := e <| users := <[r := (user_at e r) <| improv := v |>]> (users e) |>;
  rq_set_timer_flag r v e := e <| users := <[r := (user_at e r) <| timer_flag := v |>]> (users e) |>;
  rq_set_mysql r c e := e <| users := <[r := (user_at e r) <| mysql := c |>]> (users e) |>;
  rq_read_once r := read_user r;
  rq_write r := on_user r (on_hconn write);
  rq_process t r := on_user r (process mysql_query stat mmap t);
  rq_pool A m := zoom m_connPool (fun p e => e <| m_connPool := p |>) m
|}.

Definition state := threadpool.state env.
Definition on_env {A} (m : ST env A) : ST state A := threadpool.on_env m.

(** ** The class utils *)

Definition utils_init (timeslot : Z) : ST env unit := modify (fun e => e <| m_TIMESLOT := Some timeslot |>).

Definition utils_addfd (fd : Z) (one_shot : bool) (mode : Z) : ST env unit := sys (addfd fd one_shot mode).

(** [addsig]; [sigaction] succeeds for the signals that are used. *)
Definition addsig (sig : Z) (ignore restart : bool) : ST env unit := call (Sigaction sig ignore restart).

Definition show_error (connfd : Z) (info : string) : ST env unit :=
  _ ← call (SendText connfd info); call (Close connfd).

(** [cb_func(&users_timer[i])]. *)
Definition cb_func (i : Z) : ST env unit :=
  e ← get;
  d ← lift (of_option Indeterminate (users_timer e !! i));
  _ ← call (EpollDel (sockfd d));
  _ ← call (Close (sockfd d));
  modify (fun e => e <| m_user_count := m_user_count e - 1 |>).

Definition on_timers {A} (m : ST sort_timer_lst.sort_timer_lst A) : ST env A :=
  zoom m_timer_lst (fun l e => e <| m_timer_lst := l |>) m.

(** [timer_handler]: the list is ticked, the callbacks run on the server. *)
Definition timer_handler (now : Z) : ST env unit := fun e =>
  match sort_timer_lst.tick cb_func now (m_timer_lst e, e) with
  | Ok (_, (l, e')) =>
    (slot ← member (m_TIMESLOT e'); call (Alarm slot)) (e' <| m_timer_lst := l |>)
  | Halt h => Halt h
  end.

(** [sig_handler]: one byte with the number of the signal goes into the pipe. *)
Definition sig_handler (sig : Z) (pipe : list Z) : list Z := pipe ++ [sig].

(** ** Setting up *)

(** The constructor; [getcwd] fails when the path does not fit 200 bytes. *)
Definition ctor_root (cwd : option (list ascii)) : res (list ascii) :=
  match cwd with
  | Some p => if Z.of_nat (length p) <? 200 then Ok (p ++ lit "/root") else Halt Indeterminate
  | None => Halt Indeterminate
  end.

Definition ctor (cwd : option (list ascii)) (pool : sql_connection_pool.pool) (g : globals DB) : res env :=
  root ← ctor_root cwd;
  Ok {| m_port := None; m_root := root; m_log_write := None; m_close_log := None; m_actormodel := None;
        m_pipefd := None; m_epollfd := None; m_user := []; m_passwd := []; m_dbname := [];
        m_sql_num := None; m_thread_num := None; m_listenfd := None; m_OPT_LINGER := None;
        m_TRIGMode := None; m_LISTENTrigmode := None; m_COUNTrigmode := None; m_TIMESLOT := None;
        users := ∅; users_timer := ∅; m_timer_lst := sort_timer_lst.ctor ∅; m_connPool := pool; glob := g;
        m_user_count := 0; calls := []; socks := ∅; accepts := [] |}.

(** The body, which deletes the two arrays and the pool, then the member
    [_utils] with its list of timers. *)
Definition dtor : ST state unit :=
  _ ← on_env (
    e ← get;
    ep ← member (m_epollfd e);
    lf ← member (m_listenfd e);
    '(p0, p1) ← lift (of_option Indeterminate (m_pipefd e));
    _ ← call (Close ep); _ ← call (Close lf); _ ← call (Close p1); _ ← call (Close p0);
    modify (fun e => e <| users := ∅ |> <| users_timer := ∅ |>));
  _ ← threadpool.on_tp threadpool.dtor;
  on_env (on_timers sort_timer_lst.dtor).

Definition init (port : Z) (user passwd dbname : list ascii)
    (log_write opt_linger trigmode sql_num thread_num close_log actor_model : Z) : ST env unit :=
  modify (fun e => e <| m_port := Some port |> <| m_user := user |> <| m_passwd := passwd |>
    <| m_dbname := dbname |> <| m_sql_num := Some sql_num |> <| m_thread_num := Some thread_num |>
    <| m_log_write := Some log_write |> <| m_OPT_LINGER := Some opt_linger |>
    <| m_TRIGMode := Some trigmode |> <| m_close_log := Some close_log |>
    <| m_actormodel := Some actor_model |>).

(** [new threadpool<http_conn>(m_actormodel, m_connPool, m_thread_num)]; the
    fourth parameter has its default. *)
Definition thread_pool (ok : nat -> bool) : ST env threadpool.pool :=
  e ← get;
  model ← member (m_actormodel e);
  n ← member (m_thread_num e);
  lift (threadpool.ctor ok model n 10000).

Definition sql_pool (mysql_connect : nat -> option MYSQL)
    (mysql_store_result : option Z -> DB -> option (list row)) (t : tid) : ST env unit :=
  e ← get;
  n ← member (m_sql_num e);
  cl ← member (m_close_log e);
  _ ← zoom m_connPool (fun p e => e <| m_connPool := p |>)
        (sql_connection_pool.init mysql_connect "localhost" (string_of_list_ascii (m_user e))
           (string_of_list_ascii (m_passwd e)) (string_of_list_ascii (m_dbname e)) 3306 n cl);
  zoom (fun e => {| bpool := m_connPool e; bglob := glob e |})
       (fun b e => e <| m_connPool := bpool b |> <| glob := bglob b |>)
       (initmysql_result mysql_query mysql_store_result t false).

Definition log_write {Q} `{BoundedFifo Q (list ascii)} (fopen : list ascii -> bool) (now : clock)
    : ST (env * log.log Q) unit :=
  s ← get;
  let e := fst s in
  cl ← lift (of_option Indeterminate (m_close_log e));
  if cl =? 0 then
    lw ← lift (of_option Indeterminate (m_log_write e));
    _ ← zoom snd (fun g s => (fst s, g))
          (log.init fopen (lit "./serverlog") cl 2000 800000 (if lw =? 1 then 800 else 0) now);
    mret tt
  else mret tt.

(** The listening socket's mode and the connections' mode; another value sets
    neither. *)
Definition trig_mode : ST env unit :=
  e ← get;
  m ← member (m_TRIGMode e);
  let both a b := modify (fun e => e <| m_LISTENTrigmode := Some a |> <| m_COUNTrigmode := Some b |>) in
  if m =? 0 then both 0 0
  else if m =? 1 then both 0 1
  else if m =? 2 then both 1 0
  else if m =? 3 then both 1 1
  else mret tt.

(** [eventListen]; [lfd], [epfd] and [pipe] are what [socket], [epoll_create] and
    [socketpair] return. *)
Definition eventListen (lfd epfd : Z) (pipe : option (Z * Z)) : ST env unit :=
  _ ← modify (fun e => e <| m_listenfd := Some lfd |>);
  if lfd <? 0 then throw AssertFail
  else
    e ← get;
    ol ← member (m_OPT_LINGER e);
    _ ← (if ol =? 0 then call (SetLinger lfd 0)
         else if ol =? 1 then call (SetLinger lfd 1) else mret tt);
    _ ← member (m_port e);
    _ ← call (ReuseAddr lfd);
    _ ← utils_init TIMESLOT;
    _ ← modify (fun e => e <| m_epollfd := Some epfd |>);
    if epfd =? -1 then throw AssertFail
    else
      lm ← member (m_LISTENTrigmode e);
      _ ← utils_addfd lfd false lm;
      match pipe with
      | None => throw AssertFail
      | Some (p0, p1) =>
        _ ← modify (fun e => e <| m_pipefd := Some (p0, p1) |>);
        _ ← sys (setnonblocking p1);
        _ ← utils_addfd p0 false 0;
        _ ← addsig SIGPIPE true true;
        _ ← addsig SIGALRM false false;
        _ ← addsig SIGTERM false false;
        call (Alarm TIMESLOT)
      end.

(** ** Connections and their timers *)

(** [timer(connfd, client_address)]. *)
Definition add_client (connfd addr now : Z) : ST env unit :=
  e ← get;
  mode ← member (m_COUNTrigmode e);
  cl ← member (m_close_log e);
  _ ← on_user connfd (HttpServe.init connfd addr (m_root e) mode cl (m_user e) (m_passwd e) (m_dbname e));
  let l := fresh (dom (sort_timer_lst.heap (m_timer_lst e))) in
  _ ← modify (fun e => e <| users_timer :=
        <[connfd := {| address := addr; sockfd := connfd; timer := Some l |}]> (users_timer e) |>);
  on_timers (sort_timer_lst.new_timer l (now + 3 * TIMESLOT) connfd).

Definition adjust_timer (t : option loc) (now : Z) : ST env unit :=
  _ ← on_timers (sort_timer_lst.store t (fun n => n <| expire := now + 3 * TIMESLOT |>));
  on_timers (sort_timer_lst.adjust_timer t).

(** [deal_timer]: the callback is fetched through the timer before the test for
    null; the entry of the table keeps its pointer. *)
Definition deal_timer (t : option loc) (fd : Z) : ST env unit :=
  _ ← on_timers (sort_timer_lst.load t);
  _ ← cb_func fd;
  match t with
  | None => mret tt
  | Some _ => on_timers (sort_timer_lst.del_timer t)
  end.

(** ** Event handlers *)

(** [accept] takes the next pending connection. *)
Definition accept : ST env (option (Z * Z)) :=
  e ← get;
  match accepts e with
  | [] => mret None
  | a :: l => _ ← modify (fun e => e <| accepts := l |>); mret a
  end.

Fixpoint accept_all (fuel : nat) (now : Z) : ST env unit :=
  match fuel with
  | O => throw Diverges
  | S fuel' =>
    a ← accept;
    match a with
    | None => mret tt
    | Some (connfd, addr) =>
      e ← get;
      if MAX_FD <=? m_user_count e then show_error connfd "Internal server busy"
      else _ ← add_client connfd addr now; accept_all fuel' now
    end
  end.

Definition dealclientdata (now : Z) : ST env bool :=
  e ← get;
  lm ← member (m_LISTENTrigmode e);
  if lm =? 0 then
    a ← accept;
    match a with
    | None => mret false
    | Some (connfd, addr) =>
      e ← get;
      if MAX_FD <=? m_user_count e then _ ← show_error connfd "Internal server busy"; mret false
      else _ ← add_client connfd addr now; mret true
    end
  else
    _ ← accept_all (S (length (accepts e))) now;
    mret false.

(** The bytes read from the signal pipe; [None] is an error of [recv]. *)
Definition dealwithsignal (signals : option (list Z)) (timeout stop_server : bool) : bool * (bool * bool) :=
  match signals with
  | None | Some [] => (false, (timeout, stop_server))
  | Some l =>
    (true, foldl (fun '(tm, st) sig =>
      if sig =? SIGALRM then (true, st) else if sig =? SIGTERM then (tm, true) else (tm, st))
      (timeout, stop_server) l)
  end.

(** The reactor's wait for a worker: [others] is what the other threads do
    until the flag is seen. *)
Definition await_worker (others : ST state unit) (t : option loc) (fd : Z) : ST state unit :=
  _ ← others;
  s ← get;
  let u := user_at (threadpool.env s) fd in
  if improv u =? 1 then
    _ ← (if timer_flag u =? 1 then
           _ ← on_env (deal_timer t fd);
           on_env (set_user fd (fun c => c <| timer_flag := 0 |>))
         else mret tt);
    on_env (set_user fd (fun c => c <| improv := 0 |>))
  else throw Blocks.

Definition maybe_adjust (t : option loc) (now : Z) : ST env unit :=
  match t with Some _ => adjust_timer t now | None => mret tt end.

Definition dealwithread (others : ST state unit) (me : tid) (fd now : Z) : ST state unit :=
  t ← on_env (timer_of fd);
  s ← get;
  model ← on_env (member (m_actormodel (threadpool.env s)));
  if model =? 1 then
    _ ← on_env (maybe_adjust t now);
    _ ← threadpool.append me fd 0;
    await_worker others t fd
  else
    ok ← on_env (read_user fd);
    if ok : bool then
      _ ← threadpool.on_tp (threadpool.append_p me (Some fd));
      on_env (maybe_adjust t now)
    else on_env (deal_timer t fd).

Definition dealwithwrite (others : ST state unit) (me : tid) (fd now : Z) : ST state unit :=
  t ← on_env (timer_of fd);
  s ← get;
  model ← on_env (member (m_actormodel (threadpool.env s)));
  if model =? 1 then
    _ ← on_env (maybe_adjust t now);
    _ ← threadpool.append me fd 1;
    await_worker others t fd
  else
    ok ← on_env (on_user fd (on_hconn write));
    if ok : bool then on_env (maybe_adjust t now)
    else on_env (deal_timer t fd).

(** ** The main loop *)

Definition flag_set (events mask : Z) : bool := negb (Z.land events mask =? 0).

(** One event of a batch; [signals] is what the pipe has. *)
Definition handle_event (others : ST state unit) (me : tid) (now : Z) (signals : option (list Z))
    (flags : bool * bool) (ev : Z * Z) : ST state (bool * bool) :=
  let '(fd, events) := ev in
  s ← get;
  let e := threadpool.env s in
  lf ← on_env (member (m_listenfd e));
  if fd =? lf then _ ← on_env (dealclientdata now); mret flags
  else if flag_set events (Z.lor (Z.lor EPOLLRDHUP EPOLLHUP) EPOLLERR) then
    t ← on_env (timer_of fd);
    _ ← on_env (deal_timer t fd); mret flags
  else
    '(p0, _) ← lift (of_option Indeterminate (m_pipefd e));
    if (fd =? p0) && flag_set events EPOLLIN then
      let '(_, fl) := dealwithsignal signals (fst flags) (snd flags) in mret fl
    else if flag_set events EPOLLIN then _ ← dealwithread others me fd now; mret flags
    else if flag_set events EPOLLOUT then _ ← dealwithwrite others me fd now; mret flags
    else mret flags.

Fixpoint handle_events (others : ST state unit) (me : tid) (now : Z) (signals : option (list Z))
    (flags : bool * bool) (evs : list (Z * Z)) : ST state (bool * bool) :=
  match evs with
  | [] => mret flags
  | ev :: evs' =>
    fl ← handle_event others me now signals flags ev;
    handle_events others me now signals fl evs'
  end.

(** What one [epoll_wait] delivers: the events ([None] for a failure other than
    [EINTR]), the signals in the pipe, and the time. *)
Record batch := { b_events : option (list (Z * Z)); b_signals : option (list Z); b_now : Z }.

Fixpoint eventLoop (others : ST state unit) (me : tid) (timeout : bool) (bs : list batch) : ST state unit :=
  match bs with
  | [] => throw Blocks      (* epoll_wait has nothing *)
  | b :: bs' =>
    match b_events b with
    | None => mret tt
    | Some evs =>
      '(tm, stop) ← handle_events others me (b_now b) (b_signals b) (timeout, false) evs;
      _ ← (if tm : bool then on_env (timer_handler (b_now b)) else mret tt);
      if stop : bool then mret tt else eventLoop others me false bs'
    end
  end.

(** ** main.cpp, up to the event loop *)

Definition main_setup {Q} `{BoundedFifo Q (list ascii)} (argv : list (list ascii))
    (fopen : list ascii -> bool) (now : clock)
    (mysql_connect : nat -> option MYSQL) (mysql_store_result : option Z -> DB -> option (list row))
    (threads_ok : nat -> bool) (lfd epfd : Z) (pipe : option (Z * Z)) (t : tid)
    : ST (env * log.log Q) threadpool.pool :=
  let c := config.parse_arg argv config.ctor in
  let on_e {A} (m : ST env A) : ST (env * log.log Q) A := zoom fst (fun e s => (e, snd s)) m in
  _ ← on_e (init (config.PORT c) (lit "root") (lit "123456") (lit "oceanhttp") (config.LOGWrite c)
              (config.OPT_LINGER c) (config.TRIGMode c) (config.sql_num c) (config.thread_num c)
              (config.close_log c) (config.actor_model c));
  _ ← log_write fopen now;
  _ ← on_e (sql_pool mysql_connect mysql_store_result t);
  pool ← on_e (thread_pool threads_ok);
  _ ← on_e trig_mode;
  _ ← on_e (eventListen lfd epfd pipe);
  mret pool.
End webserver.
Arguments env : clear implicits.
Arguments state : clear implicits.
End webserver.
