(* ===== verification/ServerTable.v ===== *)
(** * ServerTable: the connections of webserver.cpp and their timers

    The table [users_timer], the timer list and [m_user_count] belong together:
    every live timer is the timer of one entry of the table.  The theorems say
    that the server's handlers keep this, that they succeed, and what they
    close; the other group says what happens when a connection is closed behind
    the table's back. *)

From Stdlib Require Import Ascii String.
From S2P Require Import Prelude Locker LstTimer CStr HttpConn HttpRequest HttpServe SqlPool ThreadPool WebServer.
From S2P Require HttpParse.

Section table.
Context {DB : Type} (garbage : http_conn).
Implicit Types (e : webserver.env DB) (es : list sort_timer_lst.entry) (fd : Z).
Import webserver sort_timer_lst.

(** ** The invariant *)

(** The timer of an entry belongs to the element of the table it points to. *)
Definition owned e (x : entry) : Prop :=
  in_table (e_data x) = true /\
  exists d, users_timer e !! e_data x = Some d /\ sockfd d = e_data x /\ timer d = Some (e_loc x).

(** The timers [es] are live, one per connection, and none is set further
    ahead than three slots from [now]. *)
Record table_inv (now : Z) e es : Prop := {
  ti_list : inv (m_timer_lst e) es;
  ti_nodup : NoDup (e_data <$> es);
  ti_owned : Forall (owned e) es;
  ti_ahead : Forall (fun x => e_expire x <= now + 3 * TIMESLOT) es
}.

(** The arrays of the credentials, which [init] copies into. *)
Definition creds_fit e fd : Prop :=
  let c := user_at garbage e fd in
  Z.of_nat (length (webserver.m_user e)) < Z.of_nat (length (sql_user c)) /\
  Z.of_nat (length (webserver.m_passwd e)) < Z.of_nat (length (sql_passwd c)) /\
  Z.of_nat (length (webserver.m_dbname e)) < Z.of_nat (length (sql_name c)).

Definition close_calls (fds : list Z) : list syscall := mjoin ((fun fd => [EpollDel fd; Close fd]) <$> fds).

(** The connections [fds] closed one after the other. *)
Definition closed (fds : list Z) e : env DB :=
  e <| webserver.calls := webserver.calls e ++ close_calls fds |>
    <| webserver.m_user_count := webserver.m_user_count e - Z.of_nat (length fds) |>.

Lemma closed_nil e : closed [] e = e.
Proof. unfold closed. destruct e; cbn. by rewrite app_nil_r, Z.sub_0_r. Qed.

Lemma closed_cons fd fds e : closed fds (closed [fd] e) = closed (fd :: fds) e.
Proof. destruct e. unfold closed, set; cbn. f_equal; [lia|by rewrite <- app_assoc].
 Qed.

Lemma cb_func_closes e i d : users_timer e !! i = Some d -> cb_func i e = Ok (tt, closed [sockfd d] e).
Proof.
  intros Hd. unfold cb_func. st_step reflexivity. rewrite Hd. st_step reflexivity.
  st_step reflexivity. st_step reflexivity. unfold closed, modify. destruct e; cbn.
  by rewrite <- app_assoc.
Qed.

Lemma callbacks_close es : forall e, Forall (owned e) es ->
  run_callbacks cb_func es e = Ok (tt, closed (e_data <$> es) e).
Proof.
  induction es as [|x es IH]; intros e Ho; simpl; [by rewrite closed_nil|].
  apply Forall_cons in Ho as [(_ & d & Hd & Hs & _) Ho].
  st_step (by apply cb_func_closes). rewrite Hs, IH by done. by rewrite closed_cons.
Qed.

Lemma expired_app cur es : es = expired cur es ++ unexpired cur es.
Proof. induction es as [|x es IH]; simpl; [done|]. case_match; simpl; congruence. Qed.

Lemma table_inv_sub now now' e e' es es' k :
  table_inv now e es -> es ≡ₚ es' ++ k -> inv (m_timer_lst e') es' ->
  users_timer e' = users_timer e -> now <= now' -> table_inv now' e' es'.
Proof.
  intros [Hl Hn Ho Ha] Hp Hl' Hu Hle. rewrite Hp in Hn, Ho, Ha.
  rewrite fmap_app, NoDup_app in Hn. apply Forall_app in Ho as [Ho _], Ha as [Ha _].
  split; [done|tauto| |].
  - unfold owned. rewrite Hu. exact Ho.
  - eapply Forall_impl; [exact Ha|]. simpl. lia.
Qed.

(** ** Ticks *)

Lemma tick_run now now' e es slot :
  table_inv now e es -> now <= now' -> m_TIMESLOT e = Some slot ->
  exists l, timer_handler now' e = Ok (tt,
      (closed (e_data <$> filter (fun x => e_expire x <= now') es) e) <| m_timer_lst := l |>
        <| webserver.calls ::= fun k => k ++ [Alarm slot] |>) /\
    inv l (filter (fun x => now' < e_expire x) es) /\
    es ≡ₚ filter (fun x => now' < e_expire x) es ++ filter (fun x => e_expire x <= now') es.
Proof.
  intros [Hl Hn Ho Ha] Hnow Hslot. pose proof Hl as (_ & Hsort & _).
  pose proof (expired_app now' es) as Hsplit.
  assert (Forall (owned e) (expired now' es)) as Hoe by (rewrite Hsplit in Ho; by apply Forall_app in Ho as [? _]).
  destruct (tick_inv cb_func (m_timer_lst e) es now' e _ Hl (callbacks_close _ _ Hoe)) as (l & Hrun & Hinv').
  rewrite <- expired_filter, <- unexpired_filter by done. exists l. split_and!; [|done|].
  - unfold timer_handler. rewrite Hrun.
    st_step (apply lift_ok; cbn; rewrite Hslot; reflexivity). reflexivity.
  - rewrite Hsplit at 1. apply Permutation_app_comm.
Qed.

(** ** New connections *)

Lemma strcpy_ok buf s : Z.of_nat (length s) < Z.of_nat (length buf) ->
  exists buf', strcpy buf 0 s = Ok buf' /\ length buf' = length buf.
Proof.
  intros Hs. unfold strcpy. rewrite blit_ok by (rewrite ?length_app; simpl; lia). eexists. split; [done|].
  eapply blit_length. apply blit_ok; rewrite ?length_app; simpl; lia.
Qed.

(** The connection after [init]: ready for a request on [fd]. *)
Definition fresh_conn (fd mode : Z) (c0 c : http_conn) : Prop :=
  m_sokcfd c = fd /\ HttpConn.m_TRIGMode c = mode /\ m_check_state c = CHECK_STATE_REQUESTLINE /\
  m_read_idx c = 0 /\ m_checked_idx c = 0 /\ m_write_idx c = 0 /\
  length (sql_user c) = length (sql_user c0) /\ length (sql_passwd c) = length (sql_passwd c0) /\
  length (sql_name c) = length (sql_name c0).

Lemma init_ok (s : server DB) fd addr root mode cl user pw name :
  let c0 := conn (hs s) in
  Z.of_nat (length user) < Z.of_nat (length (sql_user c0)) ->
  Z.of_nat (length pw) < Z.of_nat (length (sql_passwd c0)) ->
  Z.of_nat (length name) < Z.of_nat (length (sql_name c0)) ->
  exists c, HttpServe.init fd addr root mode cl user pw name s =
    Ok (tt, {| hs := {| conn := c; HttpRequest.glob := HttpRequest.glob (hs s) |};
               HttpServe.m_user_count := HttpServe.m_user_count s + 1;
               HttpServe.calls := HttpServe.calls s ++
                 [EpollAdd fd (add_events true (HttpConn.m_TRIGMode c0)); SetNonblock fd] |}) /\
    fresh_conn fd mode c0 c.
Proof.
  intros c0 Hu Hp Hn. destruct (strcpy_ok _ _ Hu) as (b1 & E1 & L1), (strcpy_ok _ _ Hp) as (b2 & E2 & L2),
    (strcpy_ok _ _ Hn) as (b3 & E3 & L3).
  eexists. split.
  { unfold HttpServe.init. st_step reflexivity. st_step reflexivity. st_step reflexivity. st_step reflexivity.
    st_step reflexivity. st_step reflexivity.
    st_step (apply lift_ok; exact E1). st_step (apply lift_ok; exact E2). st_step (apply lift_ok; exact E3).
    st_step reflexivity. unfold on_hconn, on_hs, on_conn, zoom, modify. cbn. rewrite <- app_assoc. reflexivity. }
  by split_and!.
Qed.

Lemma inv_loc_in (s : sort_timer_lst) es x : inv s es -> x ∈ es -> is_Some (heap s !! e_loc x).
Proof.
  intros (_ & _ & Hd) Hx. apply elem_of_dom. rewrite Hd. apply elem_of_list_to_set, list_elem_of_fmap. eauto.
Qed.

Lemma table_inv_insert now e e' es fd addr l :
  table_inv now e es -> in_table fd = true -> fd ∉ e_data <$> es ->
  inv (m_timer_lst e') (insert_entry {| e_loc := l; e_expire := now + 3 * TIMESLOT; e_data := fd |} es) ->
  users_timer e' = <[fd := {| address := addr; sockfd := fd; timer := Some l |}]> (users_timer e) ->
  table_inv now e' (insert_entry {| e_loc := l; e_expire := now + 3 * TIMESLOT; e_data := fd |} es).
Proof.
  intros [Hl Hn Ho Ha] Hfd Hnew Hl' Hu. split; [done|rewrite insert_entry_perm..].
  - by constructor.
  - constructor.
    + split; [done|]. rewrite Hu. cbn [e_data]. rewrite lookup_insert_eq. by eexists.
    + rewrite Forall_forall in Ho |- *. intros x Hx. destruct (Ho x Hx) as (Hin & d & Hd & Hs & Ht).
      split; [done|]. exists d. rewrite Hu, lookup_insert_ne; [done|].
      intros ->. apply Hnew, list_elem_of_fmap. eauto.
  - constructor; [cbn; lia|done].
Qed.

(** [timer()] for an accepted descriptor that no live timer belongs to: the
    connection is initialised, registered and counted, and the new timer stands
    in the table and, three slots ahead, in the sorted list. *)
Definition new_entry (l : loc) (now fd : Z) : entry :=
  {| e_loc := l; e_expire := now + 3 * TIMESLOT; e_data := fd |}.

(** [init] with the settings of [e], on the connection that [fd] had there. *)
Definition accepted e mode fd (c : http_conn) : Prop :=
  exists addr cl (s s' : server DB), conn (hs s) = user_at garbage e fd /\
    HttpServe.init fd addr (m_root e) mode cl (webserver.m_user e) (webserver.m_passwd e) (webserver.m_dbname e) s =
      Ok (tt, s') /\ c = conn (hs s').

Lemma add_client_run now e es fd addr mode cl :
  table_inv now e es -> in_table fd = true -> fd ∉ e_data <$> es -> creds_fit e fd ->
  m_COUNTrigmode e = Some mode -> webserver.m_close_log e = Some cl ->
  exists l c lst, let e' := e <| webserver.users := <[fd := c]> (webserver.users e) |>
        <| webserver.m_user_count := webserver.m_user_count e + 1 |>
        <| webserver.calls := webserver.calls e ++
             [EpollAdd fd (add_events true (HttpConn.m_TRIGMode (user_at garbage e fd))); SetNonblock fd] |>
        <| users_timer := <[fd := {| address := addr; sockfd := fd; timer := Some l |}]> (users_timer e) |>
        <| m_timer_lst := lst |> in
    add_client garbage fd addr now e = Ok (tt, e') /\
    table_inv now e' (insert_entry (new_entry l now fd) es) /\
    fresh_conn fd mode (user_at garbage e fd) c /\ accepted e mode fd c.
Proof.
  intros Hinv Hfd Hnew (Hu & Hp & Hn) Hmode Hcl.
  destruct (init_ok (server_of garbage fd e) fd addr (m_root e) mode cl (webserver.m_user e)
    (webserver.m_passwd e) (webserver.m_dbname e) Hu Hp Hn) as (c & Hinit & Hc).
  set (l := fresh (dom (heap (m_timer_lst e)))).
  destruct (new_timer_inv (m_timer_lst e) es l (now + 3 * TIMESLOT) fd (ti_list _ _ _ Hinv)) as (l' & Hrun & Hl').
  { apply not_elem_of_dom. apply is_fresh. }
  exists l, c, l'. cbv zeta. split_and!; [|by eapply table_inv_insert|done|exists addr, cl, (server_of garbage fd e); eexists; split; [reflexivity|split; [exact Hinit|done]]].
  unfold add_client. st_step reflexivity. st_step (apply lift_ok; rewrite Hmode; reflexivity).
  st_step (apply lift_ok; rewrite Hcl; reflexivity).
  st_step (unfold on_user; rewrite Hfd; apply zoom_ok; exact Hinit).
  cbv zeta. st_step reflexivity. unfold on_timers. erewrite zoom_ok; [|exact Hrun]. reflexivity.
Qed.

(** ** Traffic and hang-ups *)

Lemma owned_entry now e es fd d l :
  table_inv now e es -> fd ∈ e_data <$> es -> users_timer e !! fd = Some d -> timer d = Some l ->
  exists pre x post, es = pre ++ x :: post /\ e_loc x = l /\ e_data x = fd /\ sockfd d = fd.
Proof.
  intros [_ _ Ho _] Hin Hd Ht. apply list_elem_of_fmap in Hin as (x & -> & Hx).
  rewrite Forall_forall in Ho. destruct (Ho x Hx) as (_ & d' & Hd' & Hs & Ht').
  apply list_elem_of_split in Hx as (pre & post & ->). exists pre, x, post. split_and!; congruence.
Qed.

(** The timer that the handlers fetch for an open connection. *)
Lemma timer_of_open now e es x : table_inv now e es -> x ∈ es -> timer_of (e_data x) e = Ok (Some (e_loc x), e).
Proof.
  intros [_ _ Ho _] Hx. rewrite Forall_forall in Ho. destruct (Ho x Hx) as (Hin & d & Hd & _ & Ht).
  unfold timer_of. rewrite Hin. st_step reflexivity. unfold lift. by rewrite Hd; simpl; rewrite Ht.
Qed.

(** The invariant when only the timers are reordered or re-set. *)
Lemma table_inv_perm now e e' es es' :
  table_inv now e es -> inv (m_timer_lst e') es' -> users_timer e' = users_timer e ->
  (fun x => (e_loc x, e_data x)) <$> es' ≡ₚ (fun x => (e_loc x, e_data x)) <$> es ->
  Forall (fun x => e_expire x <= now + 3 * TIMESLOT) es' -> table_inv now e' es'.
Proof.
  intros [Hl Hn Ho Ha] Hl' Hu Hp Ha'. split; [done| | |done].
  - assert (forall k : list entry, e_data <$> k = snd <$> ((fun x => (e_loc x, e_data x)) <$> k)) as E.
    { intros k. by rewrite <- list_fmap_compose. }
    by rewrite E, Hp, <- E.
  - rewrite Forall_forall in Ho |- *. intros x Hx.
    assert ((e_loc x, e_data x) ∈ (fun x => (e_loc x, e_data x)) <$> es) as Hin.
    { rewrite <- Hp. apply list_elem_of_fmap. by exists x. }
    apply list_elem_of_fmap in Hin as (y & [= E1 E2] & Hy). destruct (Ho y Hy) as (? & d & ? & ? & ?).
    unfold owned. rewrite Hu, E1, E2. eauto.
Qed.

(** Traffic on an open connection moves its timer to three slots from now,
    behind the timers that expire no later; no other timer moves, and the
    table, the connections and the count are untouched. *)
Lemma traffic_run now now' e pre x post :
  table_inv now e (pre ++ x :: post) -> now <= now' ->
  exists e', (t ← timer_of (e_data x); maybe_adjust t now') e = Ok (tt, e') /\
    table_inv now' e' (pre ++ insert_entry (with_expire x (now' + 3 * TIMESLOT)) post) /\
    (exists l, e' = e <| m_timer_lst := l |>).
Proof.
  intros Hinv Hnow. pose proof Hinv as [Hl _ _ Ha].
  assert (e_expire x <= now' + 3 * TIMESLOT) as Hx.
  { apply Forall_app in Ha as [_ Ha]. apply Forall_cons in Ha as [? _]. lia. }
  destruct (delay_timer_inv _ pre x post (now' + 3 * TIMESLOT) Hl Hx) as (l' & Hrun & Hl').
  unfold delay_timer in Hrun. apply ST_bind_ok in Hrun as ([] & l1 & H1 & H2).
  exists (e <| m_timer_lst := l' |>). split; [|split; [|by eexists]].
  { st_step (eapply timer_of_open; [exact Hinv|]; apply elem_of_app; right; left).
    unfold maybe_adjust, adjust_timer. st_step (unfold on_timers; apply zoom_ok; exact H1).
    unfold on_timers, zoom. change (m_timer_lst (e <| m_timer_lst := l1 |>)) with l1. rewrite H2. done. }
  eapply (table_inv_perm now' e); [|exact Hl'|done| |].
  - eapply (table_inv_sub now now' e e _ _ []); [exact Hinv|by rewrite app_nil_r|done|done|done].
  - rewrite !fmap_app. apply Permutation_app_head. rewrite insert_entry_perm. done.
  - rewrite insert_entry_perm. 
    apply Forall_app in Ha as [Ha1 [_ Ha2]%Forall_cons]. apply Forall_app. split; [|constructor; [cbn; lia|]];
    (eapply Forall_impl; [eassumption|]); simpl; lia.
Qed.

(** A hang-up of an open connection, or a failed read of it, closes it: its
    descriptor is taken out of epoll and closed, it is counted out, and its
    timer is unlinked and freed, the others staying in their order.  (The
    element of the table keeps the pointer to the freed timer.) *)
Lemma hangup_run now e pre x post :
  table_inv now e (pre ++ x :: post) ->
  exists l e', (t ← timer_of (e_data x); deal_timer t (e_data x)) e = Ok (tt, e') /\
    e' = closed [e_data x] e <| m_timer_lst := l |> /\
    table_inv now e' (pre ++ post) /\
    timer_of (e_data x) e' = Ok (Some (e_loc x), e') /\ heap l !! e_loc x = None.
Proof.
  intros Hinv. pose proof Hinv as [Hl Hn Ho _].
  assert (x ∈ pre ++ x :: post) as Hx by (apply elem_of_app; right; left).
  destruct (inv_loc_in _ _ _ Hl Hx) as [o Hload].
  rewrite Forall_forall in Ho. destruct (Ho x Hx) as (Hin & d & Hd & Hs & Ht).
  destruct (del_timer_inv _ _ _ _ Hl) as (l & Hrun & Hl').
  exists l. eexists. split; [|split; [reflexivity|]].
  { st_step (by eapply timer_of_open). unfold deal_timer.
    st_step (unfold on_timers; apply zoom_ok, load_ok; exact Hload).
    st_step (apply cb_func_closes; exact Hd). rewrite Hs.
    unfold on_timers. erewrite zoom_ok; [|exact Hrun]. destruct e; reflexivity. }
  split_and!.
  - eapply (table_inv_sub now now e _ _ _ [x]); [exact Hinv| |exact Hl'|done|lia].
    rewrite <- Permutation_middle. apply Permutation_cons_append.
  - unfold timer_of. rewrite Hin. st_step reflexivity. cbn. unfold lift. rewrite Hd. simpl. by rewrite Ht.
  - apply not_elem_of_dom. destruct Hl' as (_ & _ & ->). rewrite elem_of_list_to_set.
    by apply (nodup_mid pre x post), Hl.
Qed.

(** ** Everything the timers see

    [setup] is what the configuration and the constructor leave behind. *)
Record setup (mode cl slot : Z) e : Prop := {
  su_mode : m_COUNTrigmode e = Some mode;
  su_log : webserver.m_close_log e = Some cl;
  su_slot : m_TIMESLOT e = Some slot;
  su_creds : forall fd, creds_fit e fd
}.

Lemma setup_add_client mode cl slot e fd c us n k ut lst :
  setup mode cl slot e -> fresh_conn fd mode (user_at garbage e fd) c -> us = <[fd := c]> (webserver.users e) ->
  setup mode cl slot (e <| webserver.users := us |> <| webserver.m_user_count := n |> <| webserver.calls := k |>
    <| users_timer := ut |> <| m_timer_lst := lst |>).
Proof.
  intros [Hm Hc Hs Hf] (_ & _ & _ & _ & _ & _ & L1 & L2 & L3) ->. split; [done..|]. intros fd'.
  unfold creds_fit, user_at in *. cbn in *. destruct (decide (fd' = fd)) as [->|Hne].
  - rewrite lookup_insert_eq. simpl. specialize (Hf fd). rewrite L1, L2, L3. exact Hf.
  - rewrite lookup_insert_ne by done. exact (Hf fd').
Qed.

(** A descriptor is open while a timer belongs to it. *)
Definition open_fd e fd : Prop := exists l o, heap (m_timer_lst e) !! l = Some o /\ user_data o = fd.

Lemma open_fd_spec now e es fd : table_inv now e es -> open_fd e fd <-> fd ∈ e_data <$> es.
Proof.
  intros [Hl _ _ _]. split.
  - intros (l & o & Ho & <-). destruct (inv_entry _ _ _ _ Hl Ho) as (pre & x & post & -> & <- & _).
    pose proof Hl as ((_ & Hs & _) & _). apply dseg_app in Hs as [_ [Hx _]]. rewrite Hx in Ho. simplify_eq/=.
    apply list_elem_of_fmap. exists x. split; [done|]. apply elem_of_app. right. left.
  - intros (x & -> & Hx)%list_elem_of_fmap. destruct (list_elem_of_split _ _ Hx) as (pre & post & ->).
    pose proof Hl as ((_ & Hs & _) & _). apply dseg_app in Hs as [_ [He _]]. by eexists _, _.
Qed.

(** The events that touch connections and timers, with the clock: an accepted
    descriptor (one that is not open), traffic on an open one, its hang-up or
    failed read, and the alarm. *)
Inductive event_step : Z * env DB -> Z * env DB -> Prop :=
| ev_connect now e e' fd addr :
    in_table fd = true -> ~ open_fd e fd -> add_client garbage fd addr now e = Ok (tt, e') ->
    event_step (now, e) (now, e')
| ev_traffic now now' e e' fd :
    open_fd e fd -> now <= now' -> (t ← timer_of fd; maybe_adjust t now') e = Ok (tt, e') ->
    event_step (now, e) (now', e')
| ev_hangup now e e' fd :
    open_fd e fd -> (t ← timer_of fd; deal_timer t fd) e = Ok (tt, e') -> event_step (now, e) (now, e')
| ev_alarm now now' e e' :
    now <= now' -> timer_handler now' e = Ok (tt, e') -> event_step (now, e) (now', e').

Definition served (mode cl slot : Z) (s : Z * env DB) : Prop :=
  setup mode cl slot s.2 /\
  exists es, table_inv s.1 s.2 es /\ webserver.m_user_count s.2 = Z.of_nat (length es).

Lemma open_split now e es fd : table_inv now e es -> open_fd e fd ->
  exists pre x post, es = pre ++ x :: post /\ e_data x = fd.
Proof.
  intros Hi Ho. apply (open_fd_spec now e es fd Hi) in Ho.
  apply list_elem_of_fmap in Ho as (x & -> & (pre & post & ->)%list_elem_of_split). eauto.
Qed.

(** Each event succeeds where [served] holds, and keeps it. *)
Lemma connect_served mode cl slot now e fd addr :
  served mode cl slot (now, e) -> in_table fd = true -> ~ open_fd e fd ->
  exists e', add_client garbage fd addr now e = Ok (tt, e') /\ served mode cl slot (now, e').
Proof.
  intros (Hs & es & Hi & Hn) Hfd Ho. pose proof Hs as [Hm Hc _ Hf]. cbn [fst snd] in *.
  rewrite (open_fd_spec now e es fd Hi) in Ho.
  destruct (add_client_run now e es fd addr mode cl Hi Hfd Ho (Hf fd) Hm Hc) as (l & c & lst & Hrun & Hi' & Hc' & _).
  eexists. split; [exact Hrun|]. split; [by eapply setup_add_client|]. eexists. split; [exact Hi'|].
  cbn. rewrite insert_entry_perm. simpl. lia.
Qed.

Lemma traffic_served mode cl slot now now' e fd :
  served mode cl slot (now, e) -> open_fd e fd -> now <= now' ->
  exists e', (t ← timer_of fd; maybe_adjust t now') e = Ok (tt, e') /\ served mode cl slot (now', e').
Proof.
  intros (Hs & es & Hi & Hn) Ho Hnow. cbn [fst snd] in *.
  destruct (open_split _ _ _ _ Hi Ho) as (pre & x & post & -> & <-).
  destruct (traffic_run now now' e pre x post Hi Hnow) as (e' & Hrun & Hi' & l & ->).
  eexists. split; [exact Hrun|]. split; [by destruct Hs|]. eexists. split; [exact Hi'|].
  cbn. rewrite Hn, insert_entry_perm, !length_app. done.
Qed.

Lemma hangup_served mode cl slot now e fd :
  served mode cl slot (now, e) -> open_fd e fd ->
  exists e', (t ← timer_of fd; deal_timer t fd) e = Ok (tt, e') /\ served mode cl slot (now, e').
Proof.
  intros (Hs & es & Hi & Hn) Ho. cbn [fst snd] in *.
  destruct (open_split _ _ _ _ Hi Ho) as (pre & x & post & -> & <-).
  destruct (hangup_run now e pre x post Hi) as (l & e' & Hrun & -> & Hi' & _).
  eexists. split; [exact Hrun|]. split; [by destruct Hs|]. eexists. split; [exact Hi'|].
  cbn. rewrite Hn, !length_app. simpl. lia.
Qed.

Lemma alarm_served mode cl slot now now' e :
  served mode cl slot (now, e) -> now <= now' ->
  exists e', timer_handler now' e = Ok (tt, e') /\ served mode cl slot (now', e').
Proof.
  intros (Hs & es & Hi & Hn) Hnow. cbn [fst snd] in *.
  destruct (tick_run now now' e es slot Hi Hnow (su_slot _ _ _ _ Hs)) as (l & Hrun & Hl & Hp).
  eexists. split; [exact Hrun|]. split; [by destruct Hs|]. eexists. split.
  - eapply (table_inv_sub now now' e); [exact Hi|exact Hp|exact Hl|done|done].
  - cbn. rewrite Hn. apply Permutation_length in Hp. rewrite Hp at 1. rewrite length_app, length_fmap. lia.
Qed.

Lemma event_step_served mode cl slot s s' : served mode cl slot s -> event_step s s' -> served mode cl slot s'.
Proof.
  intros Hs. destruct 1 as [now e e' fd addr Hfd Ho H|now now' e e' fd Ho Hn H|now e e' fd Ho H|now now' e e' Hn H].
  - destruct (connect_served _ _ _ _ _ fd addr Hs Hfd Ho) as (e1 & E & ?). rewrite E in H. by simplify_eq.
  - destruct (traffic_served _ _ _ _ now' _ fd Hs Ho Hn) as (e1 & E & ?). rewrite E in H. by simplify_eq.
  - destruct (hangup_served _ _ _ _ _ fd Hs Ho) as (e1 & E & ?). rewrite E in H. by simplify_eq.
  - destruct (alarm_served _ _ _ _ now' _ Hs Hn) as (e1 & E & ?). rewrite E in H. by simplify_eq.
Qed.

(** C2: from the start, in every state that accepted connections, traffic, hang-ups
    and alarms reach, each live timer is the timer of one connection of the
    table, no connection has two, the list is sorted, and [m_user_count] is the
    number of live timers; and the next event of each kind succeeds: no handler
    follows a null or freed timer and no loop of the list diverges. *)
Theorem server_reachable mode cl slot now0 now e0 e :
  setup mode cl slot e0 -> m_timer_lst e0 = sort_timer_lst.ctor ∅ -> webserver.m_user_count e0 = 0 ->
  rtc event_step (now0, e0) (now, e) ->
  (exists es, table_inv now e es /\ webserver.m_user_count e = Z.of_nat (length es)) /\
  (forall fd addr, in_table fd = true -> ~ open_fd e fd -> exists e', add_client garbage fd addr now e = Ok (tt, e')) /\
  (forall fd now', open_fd e fd -> now <= now' -> exists e', (t ← timer_of fd; maybe_adjust t now') e = Ok (tt, e')) /\
  (forall fd, open_fd e fd -> exists e', (t ← timer_of fd; deal_timer t fd) e = Ok (tt, e')) /\
  (forall now', now <= now' -> exists e', timer_handler now' e = Ok (tt, e')).
Proof.
  intros Hs Hl Hc Hr.
  assert (served mode cl slot (now0, e0)) as H0.
  { split; [done|]. exists []. split; [|done]. cbn [fst snd]. split; [rewrite Hl; apply inv_ctor|constructor..]. }
  assert (served mode cl slot (now, e)) as Hv.
  { clear -H0 Hr. induction Hr; eauto using event_step_served. }
  split_and!; [exact (proj2 Hv)|..].
  - intros fd addr Hfd Ho. destruct (connect_served _ _ _ _ _ fd addr Hv Hfd Ho) as (? & ? & _). eauto.
  - intros fd now' Ho Hn. destruct (traffic_served _ _ _ _ now' _ fd Hv Ho Hn) as (? & ? & _). eauto.
  - intros fd Ho. destruct (hangup_served _ _ _ _ _ fd Hv Ho) as (? & ? & _). eauto.
  - intros now' Hn. destruct (alarm_served _ _ _ _ now' _ Hv Hn) as (? & ? & _). eauto.
Qed.

(** C30: [timer_handler] at time [now] closes exactly the connections whose timer
    has expired, in the order of their expiry (each is taken out of epoll and
    then closed), counts them out of [m_user_count], frees their timers and
    keeps the others, and re-arms the alarm. *)
Theorem timer_handler_closes_expired now now' e es slot :
  table_inv now e es -> now <= now' -> m_TIMESLOT e = Some slot ->
  exists e', timer_handler now' e = Ok (tt, e') /\
    webserver.calls e' = webserver.calls e ++
      close_calls (e_data <$> filter (fun x => e_expire x <= now') es) ++ [Alarm slot] /\
    webserver.m_user_count e' =
      webserver.m_user_count e - Z.of_nat (length (filter (fun x => e_expire x <= now') es)) /\
    webserver.users e' = webserver.users e /\
    table_inv now' e' (filter (fun x => now' < e_expire x) es).
Proof.
  intros Hi Hnow Hslot. destruct (tick_run now now' e es slot Hi Hnow Hslot) as (l & Hrun & Hl & Hp).
  eexists. split; [exact Hrun|]. cbn. rewrite length_fmap, <- app_assoc. split_and!; [done..|].
  eapply (table_inv_sub now now' e); [exact Hi|exact Hp|exact Hl|done|done].
Qed.

(** ** Accepting *)

Lemma accept_run e a l : accepts e = a :: l -> webserver.accept e = Ok (a, e <| accepts := l |>).
Proof. intros Ha. unfold accept. st_step reflexivity. by rewrite Ha. Qed.

Lemma show_error_run e fd info : show_error fd info e =
  Ok (tt, e <| webserver.calls := webserver.calls e ++ [SendText fd info; Close fd] |>).
Proof. unfold show_error. st_step reflexivity. destruct e. unfold call, modify, set; cbn. by rewrite <- app_assoc. Qed.

(** What accepting the connections [cs] does to the environment. *)
Record all_accepted e (mode : Z) (cs : list (Z * Z)) e' : Prop := {
  aa_new fd : fd ∈ cs.*1 -> accepted e mode fd (user_at garbage e' fd);
  aa_others fd : fd ∉ cs.*1 -> user_at garbage e' fd = user_at garbage e fd;
  aa_calls : webserver.calls e' = webserver.calls e ++
    mjoin ((fun c => [EpollAdd c.1 (add_events true (HttpConn.m_TRIGMode (user_at garbage e c.1))); SetNonblock c.1]) <$> cs);
  aa_frame : exists us n k ut lst acc, e' = e <| webserver.users := us |> <| webserver.m_user_count := n |>
    <| webserver.calls := k |> <| users_timer := ut |> <| m_timer_lst := lst |> <| accepts := acc |>
}.

Lemma all_accepted_nil e mode l : all_accepted e mode [] (e <| accepts := l |>).
Proof.
  split; [by intros fd ?%not_elem_of_nil|done|by rewrite app_nil_r|]. 
  exists (webserver.users e), (webserver.m_user_count e), (webserver.calls e), (users_timer e), (m_timer_lst e), l.
  by destruct e.
Qed.

Lemma all_accepted_cons e mode fd addr cs acc c us n k ut lst e' :
  us = <[fd := c]> (webserver.users e) -> accepted e mode fd c -> fd ∉ cs.*1 ->
  k = webserver.calls e ++ [EpollAdd fd (add_events true (HttpConn.m_TRIGMode (user_at garbage e fd))); SetNonblock fd] ->
  all_accepted (e <| accepts := acc |> <| webserver.users := us |> <| webserver.m_user_count := n |>
    <| webserver.calls := k |> <| users_timer := ut |> <| m_timer_lst := lst |>) mode cs e' ->
  all_accepted e mode ((fd, addr) :: cs) e'.
Proof.
  intros -> Hacc Hnew -> [Hn Ho Hc (us' & n' & k' & ut' & lst' & acc' & ->)].
  set (e1 := e <| accepts := acc |> <| webserver.users := _ |> <| webserver.m_user_count := _ |>
    <| webserver.calls := _ |> <| users_timer := _ |> <| m_timer_lst := _ |>) in Hn, Ho, Hc.
  assert (forall fd', fd' <> fd -> user_at garbage e1 fd' = user_at garbage e fd') as Hne.
  { intros fd' H. unfold user_at. cbn. by rewrite lookup_insert_ne. }
  split.
  - intros fd' [->|Hin]%elem_of_cons.
    + rewrite Ho by done. unfold user_at at 1. cbn. by rewrite lookup_insert_eq.
    + destruct (Hn fd' Hin) as (a & cl & s & s' & E & H & Ec). exists a, cl, s, s'.
      rewrite <- Hne by (by intros ->). by split_and!.
  - intros fd' [H1 H2]%not_elem_of_cons. rewrite Ho by done. by apply Hne.
  - refine (eq_trans Hc _). unfold e1. cbn [webserver.calls set]. rewrite <- app_assoc. cbn. do 4 f_equal.
    apply Forall_fmap_ext_1, Forall_forall. intros c' Hc'. fold e1. rewrite Hne; [done|].
    intros E. apply Hnew, list_elem_of_fmap. by exists c'.
  - by exists us', n', k', ut', lst', acc'.
Qed.

Lemma accept_all_run mode cl slot now rest cs : forall e es fuel,
  table_inv now e es -> setup mode cl slot e -> accepts e = (Some <$> cs) ++ None :: rest ->
  NoDup (cs.*1) -> (forall c, c ∈ cs -> in_table c.1 = true /\ c.1 ∉ e_data <$> es) ->
  webserver.m_user_count e + Z.of_nat (length cs) <= MAX_FD -> (length cs < fuel)%nat ->
  exists e' es', accept_all garbage fuel now e = Ok (tt, e') /\ table_inv now e' es' /\
    setup mode cl slot e' /\ e_data <$> es' ≡ₚ (e_data <$> es) ++ cs.*1 /\
    webserver.m_user_count e' = webserver.m_user_count e + Z.of_nat (length cs) /\ accepts e' = rest /\
    all_accepted e mode cs e'.
Proof.
  induction cs as [|[fd addr] cs IH]; intros e es fuel Hi Hs Ha Hnd Hcs Hmax Hf;
    (destruct fuel as [|fuel]; [simpl in Hf; lia|]).
  - exists (e <| accepts := rest |>), es. split_and!; [|by destruct Hi|by destruct Hs| |cbn; lia|done|apply all_accepted_nil].
    + cbn [accept_all]. st_step (apply accept_run; exact Ha). done.
    + by rewrite app_nil_r.
  - pose (e1 := e <| accepts := (Some <$> cs) ++ None :: rest |>).
    assert (table_inv now e1 es) as Hi1 by by destruct Hi.
    assert (setup mode cl slot e1) as Hs1 by by destruct Hs.
    destruct (Hcs (fd, addr)) as [Hfd Hnew]; [by left|]. cbn [fst] in *.
    destruct (add_client_run now e1 es fd addr mode cl Hi1 Hfd Hnew (su_creds _ _ _ _ Hs1 fd)
      (su_mode _ _ _ _ Hs1) (su_log _ _ _ _ Hs1)) as (l & c & lst & Hrun & Hi2 & Hc & Hacc).
    rewrite fmap_cons in Hnd. apply NoDup_cons in Hnd as [Hfd' Hnd].
    destruct (IH _ _ fuel Hi2 (setup_add_client _ _ _ _ _ _ _ _ _ _ _ Hs1 Hc eq_refl) eq_refl Hnd)
      as (e' & es' & Hrun' & Hi' & Hs' & Hp & Hn & Hr & Hall).
    { intros c' Hc'. split; [apply Hcs; by right|]. rewrite insert_entry_perm, fmap_cons, not_elem_of_cons.
      split; [|apply Hcs; by right]. intros E. apply Hfd'. apply list_elem_of_fmap. by exists c'. }
    { cbn. cbn [length] in Hmax. lia. } { simpl in Hf. lia. }
    exists e', es'. split_and!; [|done|done| |rewrite Hn; cbn; lia|done|].
    + cbn [accept_all]. st_step (apply accept_run; exact Ha). cbn iota.
      st_step reflexivity. change (webserver.m_user_count (e <| accepts := _ |>)) with (webserver.m_user_count e).
      rewrite (proj2 (Z.leb_gt _ _)) by (cbn [length] in Hmax; lia).
      st_step (exact Hrun). exact Hrun'.
    + rewrite Hp, insert_entry_perm. cbn. by rewrite Permutation_middle.
    + by eapply all_accepted_cons; [| | | |exact Hall].
Qed.

(** with an edge-triggered listening socket [dealclientdata] accepts every
    pending connection until [accept] fails: each gets its own live timer and is
    counted, the ones that were open keep theirs. *)
Theorem edge_accepts_all mode cl slot now e es cs rest :
  table_inv now e es -> setup mode cl slot e -> m_LISTENTrigmode e = Some 1 ->
  accepts e = (Some <$> cs) ++ None :: rest -> NoDup (cs.*1) ->
  (forall c, c ∈ cs -> in_table c.1 = true /\ c.1 ∉ e_data <$> es) ->
  webserver.m_user_count e + Z.of_nat (length cs) <= MAX_FD ->
  exists e' es', dealclientdata garbage now e = Ok (false, e') /\ table_inv now e' es' /\
    e_data <$> es' ≡ₚ (e_data <$> es) ++ cs.*1 /\
    webserver.m_user_count e' = webserver.m_user_count e + Z.of_nat (length cs) /\ accepts e' = rest /\
    all_accepted e mode cs e'.
Proof.
  intros Hi Hs Hlm Ha Hnd Hcs Hmax.
  destruct (accept_all_run mode cl slot now rest cs e es (S (length (accepts e))) Hi Hs Ha Hnd Hcs Hmax)
    as (e' & es' & Hrun & Hi' & _ & Hrest).
  { rewrite Ha, length_app, length_fmap. simpl. lia. }
  exists e', es'. split; [|done]. unfold dealclientdata. st_step reflexivity.
  st_step (apply lift_ok; rewrite Hlm; reflexivity). cbn [Z.eqb]. st_step (exact Hrun). done.
Qed.

(** at [MAX_FD] connections a new one is told that the server is busy and
    closed, whatever the listening mode: it gets no timer and is not counted. *)
Theorem overload_refused now e lm fd addr rest :
  m_LISTENTrigmode e = Some lm -> accepts e = Some (fd, addr) :: rest -> MAX_FD <= webserver.m_user_count e ->
  dealclientdata garbage now e = Ok (false, e <| accepts := rest |>
    <| webserver.calls := webserver.calls e ++ [SendText fd "Internal server busy"; Close fd] |>).
Proof.
  intros Hlm Ha Hmax. unfold dealclientdata. st_step reflexivity.
  st_step (apply lift_ok; rewrite Hlm; reflexivity).
  assert (MAX_FD <=? webserver.m_user_count (e <| accepts := rest |>) = true) as Hbusy by by apply Z.leb_le.
  destruct (lm =? 0).
  - st_step (apply accept_run; exact Ha). cbn iota. st_step reflexivity. rewrite Hbusy.
    st_step (apply show_error_run). done.
  - rewrite Ha. cbn [length accept_all].
    st_step (st_step (apply accept_run; exact Ha); cbn iota; st_step reflexivity; rewrite Hbusy;
             apply show_error_run). done.
Qed.
End table.

(** ** Signals and the loop *)

Import webserver sort_timer_lst.

(** What the bytes of the pipe mean: a flag is set when its signal is among them. *)
Lemma dealwithsignal_flags l tm st : l <> [] ->
  dealwithsignal (Some l) tm st =
    (true, (tm || existsb (Z.eqb SIGALRM) l, st || existsb (Z.eqb SIGTERM) l)).
Proof.
  intros Hl. unfold dealwithsignal. destruct l as [|a l]; [done|]. clear Hl. f_equal.
  revert tm st. generalize (a :: l). clear a l. induction l as [|a l IH]; intros tm st; [by rewrite !orb_false_r|].
  cbn [foldl existsb]. rewrite (Z.eqb_sym SIGALRM a), (Z.eqb_sym SIGTERM a). destruct (Z.eqb_spec a SIGALRM) as [->|].
  - rewrite IH. by destruct tm.
  - destruct (Z.eqb_spec a SIGTERM) as [->|]; rewrite IH; by destruct tm, st.
Qed.

Section loop.
Context {DB : Type}
  (mysql_query : option Z -> list ascii -> DB -> Z * DB)
  (stat : list ascii -> option file_stat)
  (mmap : list ascii -> Z -> faddr) (garbage : http_conn)
  (others : ST (webserver.state DB) unit) (me : nat).
Notation loop := (eventLoop mysql_query stat mmap garbage others me).
Notation events := (handle_events mysql_query stat mmap garbage others me).
Notation event := (handle_event mysql_query stat mmap garbage others me).

Lemma pipe_event (s : webserver.state DB) lf p0 p1 now l flags :
  m_listenfd (threadpool.env s) = Some lf -> m_pipefd (threadpool.env s) = Some (p0, p1) -> p0 <> lf -> l <> [] ->
  event now (Some l) flags (p0, EPOLLIN) s =
    Ok ((flags.1 || existsb (Z.eqb SIGALRM) l, flags.2 || existsb (Z.eqb SIGTERM) l), s).
Proof.
  intros Hlf Hp Hne Hl. unfold handle_event. st_step reflexivity.
  st_step (unfold on_env, threadpool.on_env; apply zoom_ok, lift_ok; rewrite Hlf; reflexivity).
  rewrite (proj2 (Z.eqb_neq _ _) Hne). cbn [flag_set].
  st_step (apply lift_ok; rewrite Hp; reflexivity). cbv iota. rewrite Z.eqb_refl.
  cbn -[dealwithsignal existsb]. rewrite dealwithsignal_flags by done. destruct s. reflexivity.
Qed.

(** a batch with the signal pipe: [SIGALRM] runs the expired timers once,
    after the events of the batch, and [SIGTERM] ends the loop, after the timers;
    without [SIGTERM] the loop goes on with the next batch, the alarm's flag
    cleared. *)
Theorem signals_end_batch (s : webserver.state DB) lf p0 p1 l now bs :
  m_listenfd (threadpool.env s) = Some lf -> m_pipefd (threadpool.env s) = Some (p0, p1) -> p0 <> lf -> l <> [] ->
  loop false ({| b_events := Some [(p0, EPOLLIN)]; b_signals := Some l; b_now := now |} :: bs) s =
    (_ ← (if existsb (Z.eqb SIGALRM) l then webserver.on_env (timer_handler now) else mret tt);
     if existsb (Z.eqb SIGTERM) l then mret tt else loop false bs) s.
Proof.
  intros Hlf Hp Hne Hl. cbn [eventLoop b_events b_signals b_now].
  st_step (cbn [handle_events]; st_step (eapply pipe_event; eassumption); reflexivity). done.
Qed.

(** ** The proactor's read *)

(** A queue that takes a request: nobody holds its mutex and it is not full. *)
Definition takes (p : threadpool.pool) (max : Z) : Prop :=
  locker.m_mutex (threadpool.m_queuelocker p) = None /\ threadpool.m_max_requests p = Some max /\
  Z.of_nat (length (threadpool.m_workqueue p)) < to_u64 max /\ sem.m_sem (threadpool.m_queuestat p) < SEM_VALUE_MAX.

Definition queued (fd : Z) (p : threadpool.pool) : threadpool.pool :=
  p <| threadpool.m_workqueue := threadpool.m_workqueue p ++ [Some fd] |>
    <| threadpool.m_queuelocker := {| locker.m_mutex := None |} |>
    <| threadpool.m_queuestat := {| sem.m_sem := sem.m_sem (threadpool.m_queuestat p) + 1 |} |>.

Lemma append_p_run p max fd : takes p max -> threadpool.append_p me (Some fd) p = Ok (true, queued fd p).
Proof.
  destruct p as [tn mr th wq [mu] [sm] am]. unfold takes, queued. cbn. intros (-> & -> & Hl & Hsm).
  unfold threadpool.append_p, threadpool.lock_queue, threadpool.push_request, threadpool.post_request,
    threadpool.on_lock, threadpool.on_stat, locker.lock, locker.unlock, sem.post.
  st_step reflexivity. st_step (st_step reflexivity; st_step reflexivity; cbn;
    rewrite (proj2 (Z.leb_gt _ _)) by done; reflexivity). cbn iota.
  st_step (st_step (unfold zoom; cbn; rewrite (proj2 (Z.leb_gt _ _)) by done; reflexivity); reflexivity). done.
Qed.

Lemma read_user_frame (e e1 : env DB) fd b : read_user garbage fd e = Ok (b, e1) ->
  exists us ks, e1 = e <| webserver.users := us |> <| socks := ks |>.
Proof.
  unfold read_user. destruct (in_table fd); [|done]. intros H.
  apply ST_bind_ok in H as (e' & ? & [= <- <-] & H). cbv zeta in H. destruct (read_once _) as [[b' r]|]; [|done].
  apply ST_bind_ok in H as (? & e2 & [= <- <-] & H). injection H as <- <-. by eexists _, _.
Qed.

Lemma table_inv_frame now (e : env DB) es us ks :
  table_inv now e es -> table_inv now (e <| webserver.users := us |> <| socks := ks |>) es.
Proof. by destruct 1. Qed.

Lemma proactor_read (s : webserver.state DB) m max now now' pre x post e1 :
  m_actormodel (threadpool.env s) = Some m -> m <> 1 ->
  table_inv now (threadpool.env s) (pre ++ x :: post) -> now <= now' ->
  read_user garbage (e_data x) (threadpool.env s) = Ok (true, e1) -> takes (threadpool.tp s) max ->
  exists l, dealwithread mysql_query stat mmap garbage others me (e_data x) now' s =
      Ok (tt, {| threadpool.tp := queued (e_data x) (threadpool.tp s);
                 threadpool.env := e1 <| m_timer_lst := l |> |}) /\
    table_inv now' (e1 <| m_timer_lst := l |>)
      (pre ++ insert_entry (with_expire x (now' + 3 * TIMESLOT)) post).
Proof.
  intros Hm Hm1 Hi Hnow Hread Htp. destruct s as [p e]. cbn [threadpool.tp threadpool.env] in *.
  destruct (read_user_frame _ _ _ _ Hread) as (us & ks & He1).
  assert (x ∈ pre ++ x :: post) as Hx by (apply elem_of_app; right; left).
  pose proof (timer_of_open now e _ x Hi Hx) as Htm.
  assert (table_inv now e1 (pre ++ x :: post)) as Hi1 by (rewrite He1; by apply table_inv_frame).
  destruct (traffic_run now now' e1 pre x post Hi1 Hnow) as (e' & Hrun & Hi' & l & ->).
  rewrite (ST_bind_step _ _ _ _ _ (timer_of_open now e1 _ x Hi1 Hx)) in Hrun. exists l. split; [|done].
  unfold dealwithread. st_step (unfold on_env, threadpool.on_env; apply zoom_ok; exact Htm).
  st_step reflexivity. st_step (unfold on_env, threadpool.on_env; apply zoom_ok, lift_ok; cbn; rewrite Hm; reflexivity).
  rewrite (proj2 (Z.eqb_neq _ _) Hm1).
  st_step (unfold on_env, threadpool.on_env; apply zoom_ok; exact Hread). cbn iota.
  st_step (unfold threadpool.on_tp; apply zoom_ok, (append_p_run _ max); exact Htp).
  unfold on_env, threadpool.on_env. erewrite zoom_ok; [|exact Hrun]. reflexivity.
Qed.

Lemma filter_insert_entry (P : entry -> Prop) `{forall y, Decision (P y)} x es :
  ~ P x -> filter P (insert_entry x es) = filter P es.
Proof.
  intros Hx. induction es as [|y es IH]; simpl; [by rewrite filter_cons_False|].
  case_match; [by rewrite filter_cons_False|]. rewrite !filter_cons. case_decide; by rewrite IH.
Qed.

(** C31: a connection whose data arrives together with the alarm survives it, even
    when its timer had expired: the batch first queues the request and moves the
    timer, and the timers run after the batch, closing the other expired
    connections only. *)
Theorem active_survives_alarm (s : webserver.state DB) lf p0 p1 m max slot now now' pre x post e1 bs :
  let fd := e_data x in let e := threadpool.env s in
  m_listenfd e = Some lf -> m_pipefd e = Some (p0, p1) -> NoDup [lf; p0; fd] ->
  m_actormodel e = Some m -> m <> 1 -> m_TIMESLOT e = Some slot ->
  table_inv now e (pre ++ x :: post) -> now <= now' ->
  read_user garbage fd e = Ok (true, e1) -> takes (threadpool.tp s) max ->
  exists s' es', loop false ({| b_events := Some [(p0, EPOLLIN); (fd, EPOLLIN)];
                            b_signals := Some [SIGALRM]; b_now := now' |} :: bs) s = loop false bs s' /\
    threadpool.tp s' = queued fd (threadpool.tp s) /\
    webserver.calls (threadpool.env s') = webserver.calls e ++
      close_calls (e_data <$> filter (fun y => e_expire y <= now') (pre ++ post)) ++ [Alarm slot] /\
    table_inv now' (threadpool.env s') es' /\ fd ∈ e_data <$> es'.
Proof.
  intros fd e Hlf Hp Hnd Hm Hm1 Hslot Hi Hnow Hread Htp.
  rewrite !NoDup_cons, !not_elem_of_cons in Hnd. destruct Hnd as ((Hlp & Hlfd & _) & (Hpfd & _) & _).
  destruct (proactor_read s m max now now' pre x post e1 Hm Hm1 Hi Hnow Hread Htp) as (l & Hrun & Hi1).
  destruct (read_user_frame _ _ _ _ Hread) as (us & ks & He1).
  set (x' := with_expire x (now' + 3 * TIMESLOT)) in *.
  destruct (tick_run now' now' _ _ slot Hi1 (Z.le_refl _)) as (l' & Htick & Hl' & Hperm).
  { rewrite He1. exact Hslot. }
  eexists. exists (filter (fun y => now' < e_expire y) (pre ++ insert_entry x' post)).
  split; [|split; [|split; [|split]]].
  - cbn [eventLoop b_events b_signals b_now].
    st_step (cbn [handle_events]; st_step (eapply pipe_event; [done..|congruence|done]);
      st_step (unfold handle_event; st_step reflexivity;
        st_step (unfold on_env, threadpool.on_env; apply zoom_ok, lift_ok; fold e; rewrite Hlf; reflexivity);
        rewrite (proj2 (Z.eqb_neq _ _) (not_eq_sym Hlfd));
        cbn [flag_set]; st_step (apply lift_ok; cbn; fold e; rewrite Hp; reflexivity); cbv iota;
        rewrite (proj2 (Z.eqb_neq _ _) (not_eq_sym Hpfd)); cbn -[dealwithread];
        st_step (destruct s; exact Hrun); reflexivity); reflexivity).
    cbn iota. st_step (cbn -[timer_handler]; unfold on_env, threadpool.on_env; apply zoom_ok; exact Htick). reflexivity.
  - reflexivity.
  - rewrite He1. cbn. rewrite !filter_app, filter_insert_entry, <- app_assoc; [done|]. cbn. unfold TIMESLOT. lia.
  - eapply (table_inv_sub now' now' _ _ _ _ _ Hi1); [exact Hperm|exact Hl'|done|done].
  - apply list_elem_of_fmap. exists x'. split; [done|]. apply list_elem_of_filter. split; [cbn; unfold TIMESLOT; lia|].
    rewrite insert_entry_perm. apply elem_of_app. right. left.
Qed.
End loop.

(** ** Where the table is not the whole truth *)

Section stale.
Context {DB : Type} (garbage : http_conn).
Implicit Types (e : webserver.env DB).

(** [deal_timer] reads [timer->cb_func] before it tests [timer]. *)
Theorem deal_timer_null e fd : deal_timer None fd e = Halt NullDeref.
Proof. done. Qed.

(** The table keeps the pointer to a freed timer: another hang-up of the same
    descriptor follows it. *)
Theorem deal_timer_twice now e pre x post :
  table_inv now e (pre ++ x :: post) ->
  exists e', (t ← timer_of (e_data x); deal_timer t (e_data x)) e = Ok (tt, e') /\
    (t ← timer_of (e_data x); deal_timer t (e_data x)) e' = Halt Dangling.
Proof.
  intros Hi. destruct (hangup_run now e pre x post Hi) as (l & e' & Hrun & -> & _ & Ht & Hfree).
  eexists. split; [exact Hrun|]. rewrite (ST_bind_step _ _ _ _ _ Ht). unfold deal_timer.
  apply ST_bind_halt. unfold on_timers, zoom, load. cbn in *. by rewrite Hfree.
Qed.

(** Another value than 0..3 leaves the trigger modes as they were. *)
Theorem trig_mode_unset e m : m_TRIGMode e = Some m -> ~ 0 <= m <= 3 -> trig_mode e = Ok (tt, e).
Proof.
  intros Hm Hr. unfold trig_mode. st_step reflexivity. st_step (apply lift_ok; rewrite Hm; reflexivity).
  cbv zeta. rewrite !(proj2 (Z.eqb_neq _ _)) by lia. done.
Qed.

(** The calls of [eventListen]: the listening socket is put into epoll, but
    there is neither a [bind] nor a [listen] among them. *)
Theorem event_listen_calls e lfd epfd p0 p1 ol port lm :
  m_OPT_LINGER e = Some ol -> m_port e = Some port -> m_LISTENTrigmode e = Some lm ->
  (ol = 0 \/ ol = 1) -> 0 <= lfd -> epfd <> -1 ->
  exists e', eventListen lfd epfd (Some (p0, p1)) e = Ok (tt, e') /\
    webserver.calls e' = webserver.calls e ++
      [SetLinger lfd ol; ReuseAddr lfd; EpollAdd lfd (add_events false lm); SetNonblock lfd; SetNonblock p1;
       EpollAdd p0 (add_events false 0); SetNonblock p0; Sigaction SIGPIPE true true;
       Sigaction SIGALRM false false; Sigaction SIGTERM false false; Alarm TIMESLOT].
Proof.
  intros Hol Hport Hlm Ho Hl He. eexists. split.
  { unfold eventListen. st_step reflexivity. rewrite (proj2 (Z.ltb_ge _ _)) by done. st_step reflexivity.
    st_step (apply lift_ok; cbn; rewrite Hol; reflexivity).
    st_step (instantiate (1 := e <| m_listenfd := Some lfd |>
               <| webserver.calls := webserver.calls e ++ [SetLinger lfd ol] |>);
             instantiate (1 := tt); destruct Ho as [-> | ->]; reflexivity).
    st_step (apply lift_ok; cbn; rewrite Hport; reflexivity). st_step reflexivity. st_step reflexivity.
    st_step reflexivity. rewrite (proj2 (Z.eqb_neq _ _)) by done.
    st_step (apply lift_ok; cbn; rewrite Hlm; reflexivity). st_step reflexivity. st_step reflexivity.
    st_step reflexivity. st_step reflexivity. st_step reflexivity. st_step reflexivity. st_step reflexivity.
    reflexivity. }
  cbn. by rewrite <- !app_assoc.
Qed.

(** The thread pool of [main] is never built. *)
Theorem thread_pool_indeterminate e ok model n :
  m_actormodel e = Some model -> webserver.m_thread_num e = Some n -> 0 < n -> thread_pool ok e = Halt Indeterminate.
Proof.
  intros Hm Hn Hp. unfold thread_pool. st_step reflexivity.
  st_step (apply lift_ok; rewrite Hm; reflexivity). st_step (apply lift_ok; rewrite Hn; reflexivity).
  unfold lift. by rewrite threadpool.ctor_indeterminate by lia.
Qed.
End stale.

(** ** A concrete server: two connections, 7 and 8 *)

#[local] Ltac by_eval := HttpParse.by_eval.
#[local] Ltac by_decide := HttpParse.by_decide.

Definition sample_garbage : http_conn :=
  (HttpParse.sample_conn []) <| sql_user := replicate 100 NUL |> <| sql_passwd := replicate 100 NUL |>
    <| sql_name := replicate 100 NUL |>.

Definition timer7 : entry := {| e_loc := 1%positive; e_expire := 10; e_data := 7 |}.
Definition timer8 : entry := {| e_loc := 2%positive; e_expire := 20; e_data := 8 |}.

Definition idle_env : webserver.env unit := {|
  m_port := Some 9006; m_root := lit "/srv/root"; webserver.m_log_write := Some 0; webserver.m_close_log := Some 0;
  m_actormodel := Some 0; m_pipefd := Some (5, 6); m_epollfd := Some 4; webserver.m_user := lit "root";
  m_passwd := lit "123456"; m_dbname := lit "oceanhttp"; m_sql_num := Some 8; webserver.m_thread_num := Some 8;
  m_listenfd := Some 3; m_OPT_LINGER := Some 0; webserver.m_TRIGMode := Some 2; m_LISTENTrigmode := Some 1;
  m_COUNTrigmode := Some 0; m_TIMESLOT := Some 5; webserver.users := ∅; users_timer := ∅;
  m_timer_lst := sort_timer_lst.ctor ∅; m_connPool := sql_connection_pool.sample_pool;
  webserver.glob := HttpRequest.glob (HttpParse.sample_state []); webserver.m_user_count := 0; webserver.calls := [];
  socks := {[ 8 := {| pieces := [lit "GET / HTTP/1.1"]; after := WouldBlock |} ]};
  accepts := [Some (9, 1); Some (10, 2); None] |}.

Definition busy_env : webserver.env unit := idle_env
  <| users_timer := {[ 7 := {| address := 0; sockfd := 7; timer := Some 1%positive |};
                       8 := {| address := 0; sockfd := 8; timer := Some 2%positive |} ]} |>
  <| m_timer_lst := {| heap := {[ 1%positive := node timer7 None (Some 2%positive);
                                  2%positive := node timer8 (Some 1%positive) None ]};
                       head := Some 1%positive; tail := Some 2%positive |} |>
  <| webserver.users := {[ 8 := sample_garbage <| HttpConn.m_TRIGMode := 1 |> ]} |>
  <| webserver.m_user_count := 2 |>.

Lemma busy_table : table_inv 10 busy_env [timer7; timer8].
Proof.
  split.
  - split; [|split].
    + split_and!; [by_decide|repeat split|done|done].
    + unfold sorted. repeat constructor. simpl. lia.
    + by_decide.
  - by_decide.
  - repeat constructor; by eexists.
  - by_decide.
Qed.

Lemma idle_setup : setup sample_garbage 0 0 5 idle_env.
Proof. split; [done..|]. intros fd. unfold creds_fit, user_at. by_eval. Qed.

Lemma busy_setup : setup sample_garbage 0 0 5 busy_env.
Proof.
  split; [done..|]. intros fd. unfold creds_fit, user_at. change (webserver.users busy_env) with
    ({[ 8 := sample_garbage <| HttpConn.m_TRIGMode := 1 |> ]} : gmap Z http_conn).
  destruct (decide (fd = 8)) as [->|]; [by_eval|]. rewrite lookup_singleton_ne by done. by_eval.
Qed.

Lemma timer_handler_closes_expired_witness :
  exists e', timer_handler 12 busy_env = Ok (tt, e') /\
    webserver.calls e' = [EpollDel 7; Close 7; Alarm 5] /\ webserver.m_user_count e' = 1 /\
    table_inv 12 e' [timer8].
Proof.
  destruct (timer_handler_closes_expired 10 12 busy_env [timer7; timer8] 5 busy_table) as (e' & Hrun & Hc & Hn & _ & Hi);
    [done|reflexivity|].
  exists e'. split; [exact Hrun|]. split; [exact Hc|]. split; [exact Hn|exact Hi].
Defined.

Lemma edge_accepts_all_witness :
  exists e' es', dealclientdata sample_garbage 10 busy_env = Ok (false, e') /\ table_inv 10 e' es' /\
    e_data <$> es' ≡ₚ [7; 8; 9; 10] /\ webserver.m_user_count e' = 4.
Proof.
  destruct (edge_accepts_all sample_garbage 0 0 5 10 busy_env [timer7; timer8] [(9, 1); (10, 2)] [] busy_table busy_setup)
    as (e' & es' & Hrun & Hi & Hp & Hn & _).
  - reflexivity.
  - reflexivity.
  - by_decide.
  - apply Forall_forall. repeat constructor; by_decide.
  - by_eval.
  - exists e', es'. split; [exact Hrun|]. split; [exact Hi|]. split; [exact Hp|exact Hn].
Defined.

Lemma overload_refused_witness :
  exists e', dealclientdata sample_garbage 10 (busy_env <| webserver.m_user_count := 65536 |>) = Ok (false, e') /\
    webserver.calls e' = [SendText 9 "Internal server busy"; Close 9] /\ webserver.m_user_count e' = 65536.
Proof.
  eexists. split.
  - apply (overload_refused sample_garbage 10 (busy_env <| webserver.m_user_count := 65536 |>) 1 9 1 [Some (10, 2); None]);
      [reflexivity|reflexivity|by_eval].
  - split; reflexivity.
Defined.

Lemma signals_end_batch_witness :
  eventLoop HttpParse.sample_query HttpParse.sample_stat HttpParse.sample_mmap sample_garbage (mret tt) 0%nat false
    [{| b_events := Some [(5, EPOLLIN)]; b_signals := Some [SIGTERM]; b_now := 10 |}]
    {| threadpool.tp := threadpool.queue threadpool.sample_start; threadpool.env := busy_env |} =
  Ok (tt, {| threadpool.tp := threadpool.queue threadpool.sample_start; threadpool.env := busy_env |}).
Proof.
  rewrite (signals_end_batch HttpParse.sample_query HttpParse.sample_stat HttpParse.sample_mmap sample_garbage (mret tt) 0%nat
    {| threadpool.tp := threadpool.queue threadpool.sample_start; threadpool.env := busy_env |} 3 5 6); [|done..].
  reflexivity.
Defined.

Definition busy_server : webserver.state unit :=
  {| threadpool.tp := threadpool.queue threadpool.sample_start; threadpool.env := busy_env |}.

(** The state of [busy_env] after the data of descriptor 8 has been read. *)
Definition read_env : webserver.env unit :=
  match read_user sample_garbage 8 busy_env with Ok (_, e) => e | Halt _ => busy_env end.

Lemma active_survives_alarm_witness :
  exists s' es', eventLoop HttpParse.sample_query HttpParse.sample_stat HttpParse.sample_mmap sample_garbage
      (mret tt) 0%nat false
      [{| b_events := Some [(5, EPOLLIN); (8, EPOLLIN)]; b_signals := Some [SIGALRM]; b_now := 25 |}] busy_server =
    eventLoop HttpParse.sample_query HttpParse.sample_stat HttpParse.sample_mmap sample_garbage
      (mret tt) 0%nat false [] s' /\
    webserver.calls (threadpool.env s') = [EpollDel 7; Close 7; Alarm 5] /\
    table_inv 25 (threadpool.env s') es' /\ 8 ∈ e_data <$> es'.
Proof.
  destruct (active_survives_alarm HttpParse.sample_query HttpParse.sample_stat HttpParse.sample_mmap sample_garbage
    (mret tt) 0%nat busy_server 3 5 6 0 2 5 10 25 [timer7] timer8 [] read_env [])
    as (s' & es' & Hrun & _ & Hc & Hi & Hin).
  - reflexivity.
  - reflexivity.
  - by_decide.
  - reflexivity.
  - done.
  - reflexivity.
  - exact busy_table.
  - done.
  - vm_compute. reflexivity.
  - split_and!; by_eval.
  - exists s', es'. split; [exact Hrun|]. split; [exact Hc|]. split; [exact Hi|exact Hin].
Defined.

Lemma server_reachable_witness :
  exists e', add_client sample_garbage 9 1 10 idle_env = Ok (tt, e').
Proof.
  destruct (server_reachable sample_garbage 0 0 5 10 10 idle_env idle_env idle_setup eq_refl eq_refl (rtc_refl _ _))
    as (_ & H & _).
  apply H; [reflexivity|]. intros (l & o & Ho & _). discriminate Ho.
Defined.

(** A worker that fails to answer closes its connection and leaves the timer.
    When descriptor 7 is accepted again the old timer is still in the list, and
    its expiry closes the new connection, whose own timer lives on. *)
Theorem reused_descriptor_closed :
  match (_ ← add_client sample_garbage 7 1 8; timer_handler 12) busy_env with
  | Ok (_, e) =>
    webserver.calls e = [EpollAdd 7 (add_events true 0); SetNonblock 7; EpollDel 7; Close 7; Alarm 5] /\
    (expire <$> (heap (m_timer_lst e)) !! 3%positive) = Some 23 /\
    (user_data <$> (heap (m_timer_lst e)) !! 3%positive) = Some 7
  | Halt _ => False
  end.
Proof. vm_compute. repeat split. Qed.
