(* ===== verification/EndToEnd.v ===== *)
(** * EndToEnd: one request through the whole server

    The event loop, the request queue, a worker thread, the connection pool
    and the connection together: from the bytes on a socket to the answer in
    its buffers, in both of the server's models. *)

From Stdlib Require Import Ascii String.
From S2P Require Import Prelude Locker LstTimer CStr HttpConn HttpRequest HttpHandler HttpResponse HttpServe.
From S2P Require Import SqlPool ThreadPool WebServer ServerTable.
From S2P Require Import HttpParse.

(** ** A connection that waits for its first request *)

Record awaiting (c : http_conn) : Prop := {
  aw_prepared : prepared c;
  aw_buf : m_read_buf c = replicate (Z.to_nat READ_BUFFER_SIZE) NUL;
  aw_indices : m_read_idx c = 0 /\ m_checked_idx c = 0 /\ m_start_line c = 0;
  aw_state : m_check_state c = CHECK_STATE_REQUESTLINE;
  aw_request : m_content_length c = 0 /\ cgi c = 0 /\ m_linger c = false;
  aw_flags : improv c = 0 /\ timer_flag c = 0
}.

(** [init] makes one. *)
Lemma init_awaiting {DB} (s s' : server DB) fd addr root mode cl user pw name :
  length (m_iv (conn (hs s))) = 2%nat -> plain root -> Z.of_nat (length root) + 14 < FILENAME_LEN ->
  HttpServe.init fd addr root mode cl user pw name s = Ok (tt, s') ->
  awaiting (conn (hs s')) /\ m_sokcfd (conn (hs s')) = fd /\ HttpConn.m_TRIGMode (conn (hs s')) = mode /\
  doc_root (conn (hs s')) = root.
Proof.
  intros Hiv Hp Hl H. unfold HttpServe.init in H.
  apply ST_bind_ok in H as (? & s1 & [= <- <-] & H). apply ST_bind_ok in H as (? & ? & [= <- <-] & H).
  apply ST_bind_ok in H as (? & s2 & [= <- <-] & H). apply ST_bind_ok in H as (? & s3 & [= <- <-] & H).
  apply ST_bind_ok in H as (? & s4 & [= <- <-] & H). apply ST_bind_ok in H as (? & ? & [= <- <-] & H).
  do 3 (apply ST_bind_ok in H as (? & ? & Hb & H); apply lift_inv in Hb as [_ ->]).
  apply ST_bind_ok in H as (? & s5 & [= <- <-] & H). injection H as <-.
  split; [|done]. by split.
Qed.

Section end_to_end.
Context {DB : Type}
  (mysql_query : option Z -> list ascii -> DB -> Z * DB)
  (stat : list ascii -> option file_stat)
  (mmap : list ascii -> Z -> faddr)
  (garbage : http_conn) (me w : tid).
Implicit Types (e : webserver.env DB) (fd : Z).
Import webserver sort_timer_lst.

#[local] Instance requests : Request (webserver.env DB) := webserver.conn_request mysql_query stat mmap garbage.

(** A GET request for a readable, non-empty regular file below [root]. *)
Record gets_file (root : list ascii) (p : line_parts) (hs0 : list header)
    (st : file_stat) : Prop := {
  gf_line : line_ok p /\ eol_free (line_text p) /\ lp_post p = false;
  gf_headers : Forall header_line_ok hs0 /\ length_of 0 hs0 = 0;
  gf_target : exists a b, target_of (lp_path p) = a ++ "/"%char :: b /\ "/"%char ∉ b /\
              page_of (first_of b) = None;
  gf_file : stat (path_of root (target_of (lp_path p))) = Some st /\
            Z.land (st_mode st) S_IROTH <> 0 /\ S_ISDIR (st_mode st) = false /\ 0 < st_size st
}.

(** The head of the answer. *)
Definition answer_head (hs0 : list header) (st : file_stat) : list ascii :=
  head_text 200 ok_200_title (st_size st) (linger_of false hs0).

(** The connection holds the answer: the head in the write buffer, and the
    file as the second [iovec]. *)
Definition holds_answer (c : http_conn) (path : list ascii) (hs0 : list header) (st : file_stat) : Prop :=
  let head := answer_head hs0 st in
  holds c head /\ m_iv_count c = 2 /\
  m_iv c = [ {| iov_base := IovWriteBuf; iov_len := Z.of_nat (length head) |};
             {| iov_base := IovFile (mmap path (st_size st)); iov_len := st_size st |} ].

(** The connection has arrived in the buffer. *)
Definition with_request (c : http_conn) (data : list ascii) : http_conn :=
  arrived c [] data (m_read_buf c).

Lemma awaiting_size c : awaiting c -> Z.of_nat (length (m_read_buf c)) = READ_BUFFER_SIZE.
Proof. intros [_ -> _ _ _ _]. rewrite length_replicate. done. Qed.

Lemma awaiting_received c : awaiting c -> received c [] (m_read_buf c).
Proof. intros Haw. pose proof (awaiting_size c Haw). by destruct Haw as [_ _ (Hi & _) _ _ _]; split_and!. Qed.

(** A whole request is in the buffer, and no call of [process_read] has looked
    at it. *)
Record has_request (c : http_conn) (data : list ascii) : Prop := {
  hr_fresh : fresh c data (replicate (Z.to_nat READ_BUFFER_SIZE - length data) NUL);
  hr_prepared : prepared c;
  hr_request : cgi c = 0 /\ m_linger c = false;
  hr_room : Z.of_nat (length data) < READ_BUFFER_SIZE
}.

Lemma with_request_ready c data v1 v2 v3 : awaiting c -> Z.of_nat (length data) < READ_BUFFER_SIZE ->
  has_request ((with_request c data) <| m_state := v1 |> <| improv := v2 |> <| mysql := v3 |>) data.
Proof.
  intros Haw Hd. pose proof (awaiting_size c Haw) as Hl.
  destruct Haw as [[Hready Hfile Hroot] Hb (Hi & Hc & Hs) Hst (Hcl & Hcgi & Hlin) _].
  assert (drop (length data) (m_read_buf c) = replicate (Z.to_nat READ_BUFFER_SIZE - length data) NUL) as Er
    by (by rewrite Hb, drop_replicate).
  split; [|by split|done|done]. unfold with_request, arrived. split; cbn; try done; [|by rewrite Er|lia].
  unfold buf_wf. cbn. rewrite Hi, Hc, length_app, length_drop. unfold READ_BUFFER_SIZE in *. lia.
Qed.

(** The request [data], served with the MySQL connection [con] and with [g] as
    globals, is answered with the file [path] and leaves the globals [g']. *)
Definition answers (con : MYSQL) (root data path : list ascii) (g g' : globals DB) (hs0 : list header)
    (st : file_stat) : Prop :=
  forall sv : server DB, let c := conn (hs sv) in
  has_request c data -> doc_root c = root -> mysql c = Some con -> HttpRequest.glob (hs sv) = g ->
  exists s', process mysql_query stat mmap w sv = Ok (tt, s') /\
    HttpServe.calls s' = HttpServe.calls sv ++ [EpollMod (m_sokcfd c) (mod_events EPOLLOUT (HttpConn.m_TRIGMode c))] /\
    holds_answer (conn (hs s')) path hs0 st /\
    HttpRequest.glob (hs s') = g' /\ HttpServe.m_user_count s' = HttpServe.m_user_count sv /\
    improv (conn (hs s')) = improv c /\ timer_flag (conn (hs s')) = timer_flag c.

Lemma get_answers con root p hs0 st g : gets_file root p hs0 st ->
  answers con root (request_text p hs0) (path_of root (target_of (lp_path p))) g g hs0 st.
Proof.
  intros [(G1 & G2 & G3) (G4 & G5) (a & b & G6 & G7 & G8) (G9 & G10 & G11 & G12)] sv c [Hfr Hpr (Hc & Hl) _] <- _ <-.
  destruct (get_file_answer mysql_query stat mmap w sv p hs0 _ st a b Hfr Hpr)
    as (s' & Hrun & H1 & H2 & H3 & H4 & H5 & H6 & H7 & H8); try done.
  exists s'. by split_and!.
Qed.

(** A readable, non-empty regular file. *)
Definition readable (path : list ascii) (st : file_stat) : Prop :=
  stat path = Some st /\ Z.land (st_mode st) S_IROTH <> 0 /\ S_ISDIR (st_mode st) = false /\ 0 < st_size st.

(** The forms: the handler's result is served as a page. *)
Lemma form_answers con d root p hs0 name password st page g g' :
  posts_form d root p hs0 name password -> readable (root ++ lit page) st ->
  (forall c1 pre mid rest, submits c1 pre (lp_path p) mid name password rest -> mysql c1 = Some con ->
     let h1 := {| conn := c1; HttpRequest.glob := g |} in
     exists code h, do_request mysql_query stat mmap w h1 = Ok (code, h) /\ HttpRequest.glob h = g' /\
       answered stat mmap h1 h page code) ->
  answers con root (request_text p hs0 ++ form_text name password) (root ++ lit page) g g' hs0 st.
Proof.
  intros Hpl (S1 & S2 & S3 & S4) Hdo sv c [Hfr Hpr (Hc & Hl) Hroom] <- Hcon <-.
  set (body := form_text name password) in *. set (n := (Z.to_nat READ_BUFFER_SIZE - length (request_text p hs0 ++ body) - 1)%nat).
  assert (replicate (Z.to_nat READ_BUFFER_SIZE - length (request_text p hs0 ++ body)) NUL = NUL :: replicate n NUL) as Er.
  { set (k := (Z.to_nat READ_BUFFER_SIZE - length (request_text p hs0 ++ body))%nat) in *.
    assert (0 < k)%nat by (unfold k; unfold READ_BUFFER_SIZE in *; lia). unfold n. destruct k; [lia|].
    cbn [replicate Nat.sub]. by rewrite Nat.sub_0_r. }
  rewrite Er in Hfr. destruct Hfr as [F1 F2 F3 F4 F5 F6 F7]. rewrite length_app in F7.
  destruct (form_request_answer mysql_query stat mmap w sv d p hs0 name password NUL (replicate n NUL) st page g')
    as (s' & Hrun & H1 & H2 & H3 & H4 & H5 & H6 & H7 & H8); try done.
  - split; try done; [rewrite <- app_assoc in F6; exact F6|fold c; lia].
  - by left.
  - intros c1 pre mid Hsub Hmy. apply (Hdo c1 pre mid _ Hsub). by rewrite Hmy.
  - exists s'. by split_and!.
Qed.

(** The page that answers the login form. *)
Definition login_page (g : globals DB) (name password : list ascii) : string :=
  if bool_decide (HttpRequest.users g !! name = Some password) then "/welcome.html" else "/logError.html".

Lemma login_answers con root p hs0 name password st g :
  posts_form "2" root p hs0 name password -> readable (root ++ lit (login_page g name password)) st ->
  answers con root (request_text p hs0 ++ form_text name password) (root ++ lit (login_page g name password)) g g hs0 st.
Proof.
  intros Hpl Hst. apply (form_answers con "2" root p hs0 name password); try done.
  intros c1 pre mid rest Hsub _ h1. by apply (login_run mysql_query stat mmap w h1 pre (lp_path p) mid name password rest Hsub), Hpl.
Qed.

Lemma register_answers con root p hs0 name password st g :
  let eff := register_effect mysql_query (Some con) g name password in
  posts_form "3" root p hs0 name password -> readable (root ++ lit eff.2) st ->
  locker.m_mutex (m_lock g) = None -> (length name + length password < 152)%nat ->
  answers con root (request_text p hs0 ++ form_text name password) (root ++ lit eff.2) g eff.1 hs0 st.
Proof.
  intros eff Hpl Hst Hfree Hlen. apply (form_answers con "3" root p hs0 name password); try done.
  intros c1 pre mid rest Hsub Hmy h1. unfold eff. rewrite <- Hmy.
  by apply (register_effect_run mysql_query stat mmap w h1 pre (lp_path p) mid name password rest Hsub); [apply Hpl|..].
Qed.

(** The read of the whole request from the socket. *)
Lemma read_request e fd k data : in_table fd = true ->
  awaiting (user_at garbage e fd) -> HttpConn.m_TRIGMode (user_at garbage e fd) <> 0 ->
  socks e !! fd = Some k -> after k = WouldBlock -> nonempty k -> all_data k = data ->
  Z.of_nat (length data) < READ_BUFFER_SIZE ->
  exists k', read_user garbage fd e = Ok (true,
    e <| webserver.users := <[fd := with_request (user_at garbage e fd) data]> (webserver.users e) |>
      <| socks := <[fd := k']> (socks e) |>).
Proof.
  intros Hin Haw Hmode Hk Ha Hne Hd Hlen. pose proof (awaiting_received _ Haw) as Hrec.
  assert (length data < length (m_read_buf (user_at garbage e fd)))%nat as Hlt.
  { pose proof (awaiting_size _ Haw). lia. }
  destruct (read_edge_run {| rconn := user_at garbage e fd; rsock := k |} [] (m_read_buf (user_at garbage e fd)))
    as (k' & Hrun); try done.
  { intros E. rewrite E in Hlt. simpl in Hlt. lia. }
  exists k'. unfold read_user. rewrite Hin. st_step reflexivity. cbv zeta. rewrite Hk. cbn [default id].
  rewrite Hrun. cbn [rsock rconn]. rewrite Ha, Hd, bool_decide_eq_true_2 by done.
  rewrite (proj2 (Nat.ltb_lt _ _) Hlt), take_ge by lia. reflexivity.
Qed.

(** What the worker leaves behind: the connection, the MySQL connection back at
    the end of its pool, and the socket armed for [ev]. *)
Definition served_env (ev : Z) e fd (c' : http_conn) (g' : globals DB) (pool : list MYSQL) : webserver.env DB :=
  let c := user_at garbage e fd in
  e <| webserver.users := <[fd := c']> (webserver.users e) |>
    <| m_connPool := (m_connPool e) <| sql_connection_pool.connList := pool |> |>
    <| webserver.glob := g' |>
    <| webserver.calls := webserver.calls e ++
         [EpollMod (m_sokcfd c) (mod_events ev (HttpConn.m_TRIGMode c))] |>.

Definition answered_env := served_env EPOLLOUT.

Lemma served_user ev e fd c g' pool : user_at garbage (served_env ev e fd c g' pool) fd = c.
Proof. unfold user_at, served_env. cbn. by rewrite lookup_insert_eq. Qed.

Lemma served_others ev e fd fd' c g' pool : fd' <> fd ->
  user_at garbage (served_env ev e fd c g' pool) fd' = user_at garbage e fd'.
Proof. intros H. unfold user_at, served_env. cbn. by rewrite lookup_insert_ne. Qed.

(** The free connections of the pool. *)
Definition free_conns e (con : MYSQL) (l : list MYSQL) : Prop :=
  sql_connection_pool.connList (m_connPool e) = con :: l /\
  locker.m_mutex (sql_connection_pool.lock (m_connPool e)) = None /\
  0 < sem.m_sem (sql_connection_pool.reserve (m_connPool e)) <= SEM_VALUE_MAX.

(** The worker around [process]: the connection is lent a MySQL connection. *)
Definition lent e fd (con : MYSQL) : server DB :=
  {| hs := {| conn := (user_at garbage e fd) <| mysql := Some con |>; HttpRequest.glob := webserver.glob e |};
     HttpServe.m_user_count := webserver.m_user_count e; HttpServe.calls := webserver.calls e |}.

Lemma worker_process ev e fd con l (s' : server DB) : in_table fd = true -> free_conns e con l ->
  process mysql_query stat mmap w (lent e fd con) = Ok (tt, s') ->
  HttpServe.calls s' = webserver.calls e ++
    [EpollMod (m_sokcfd (user_at garbage e fd)) (mod_events ev (HttpConn.m_TRIGMode (user_at garbage e fd)))] ->
  HttpServe.m_user_count s' = webserver.m_user_count e ->
  threadpool.process_with_conn w false fd e =
    Ok (tt, served_env ev e fd (conn (hs s')) (HttpRequest.glob (hs s')) (l ++ [con])).
Proof.
  intros Hin (Hl & Hmu & Hsem) Hrun Hc Hn.
  destruct (sql_connection_pool.raii_balance w _ _ _ Hl Hmu Hsem) as (p1 & r & Hget & _ & Hput).
  set (e2 := e <| m_connPool := p1 |> <| webserver.users :=
    <[fd := (user_at garbage e fd) <| mysql := Some con |>]> (webserver.users e) |>).
  assert (rq_process w fd e2 = Ok (tt, server_back fd s' e2)) as Hproc.
  { change (on_user garbage fd (process mysql_query stat mmap w) e2 = Ok (tt, server_back fd s' e2)).
    unfold on_user. rewrite Hin. apply zoom_ok. rewrite <- Hrun. f_equal. unfold server_of, lent, user_at.
    cbn. by rewrite lookup_insert_eq. }
  unfold threadpool.process_with_conn. st_step (apply zoom_ok; exact Hget). cbv iota.
  st_step reflexivity. change (rq_set_mysql fd (Some con) _) with e2.
  st_step (exact Hproc). st_step (apply zoom_ok; exact Hput). unfold served_env.
  unfold server_back. rewrite Hc, Hn. change (users e2) with
    (<[fd := (user_at garbage e fd) <| mysql := Some con |>]> (webserver.users e)).
  rewrite insert_insert_eq. destruct e. reflexivity.
Qed.

Lemma worker_answers e fd data path g' hs0 st con l :
  let c := user_at garbage e fd in
  in_table fd = true -> has_request (c <| mysql := Some con |>) data ->
  answers con (doc_root c) data path (webserver.glob e) g' hs0 st -> free_conns e con l ->
  exists c', threadpool.process_with_conn w false fd e = Ok (tt, answered_env e fd c' g' (l ++ [con])) /\
    holds_answer c' path hs0 st /\ improv c' = improv c /\ timer_flag c' = timer_flag c.
Proof.
  intros c Hin Hreq Hans Hfree.
  destruct (Hans (lent e fd con) Hreq) as (s' & Hrun & H1 & H2 & H3 & H4 & H5 & H6); try done.
  exists (conn (hs s')). split; [|by split_and!]. unfold answered_env. rewrite <- H3. by apply worker_process.
Qed.

(** ** The queue between the event loop and a worker *)

(** Nothing is queued and nobody holds the mutex.  The bound and the model are
    values the pool is assumed to hold: its constructor sets neither
    ([ctor_indeterminate] in ThreadPool.v). *)
Record idle_queue (q : threadpool.pool) (max model : Z) : Prop := {
  iq_takes : takes q max;
  iq_empty : threadpool.m_workqueue q = [];
  iq_sem : sem.m_sem (threadpool.m_queuestat q) = 0;
  iq_model : threadpool.m_actor_model q = Some model
}.

(** A worker takes the one request of the queue and serves it. *)
Lemma run_round_takes q max model fd e e' : idle_queue q max model ->
  threadpool.serve w false model fd e = Ok (tt, e') ->
  threadpool.run_round w false false {| threadpool.tp := queued fd q; threadpool.env := e |} =
    Ok (tt, {| threadpool.tp := q; threadpool.env := e' |}).
Proof.
  intros [(Hmu & _) He Hs Hm] Hserve. destruct q as [tn mr th wq [mu] [sm] am]. cbn in Hmu, He, Hs, Hm. subst.
  unfold threadpool.run_round. st_step reflexivity. st_step reflexivity. st_step reflexivity. cbv iota.
  st_step reflexivity. st_step (apply lift_ok; reflexivity).
  unfold threadpool.on_env. erewrite zoom_ok; [|exact Hserve]. reflexivity.
Qed.

(** An open connection with a complete GET request in its socket: its timer is
    [x], its data arrives in any number of pieces. *)
Record request_arrives e (x : entry) (data : list ascii) : Prop := {
  ra_fresh : awaiting (user_at garbage e (e_data x));
  ra_fd : m_sokcfd (user_at garbage e (e_data x)) = e_data x;
  ra_mode : HttpConn.m_TRIGMode (user_at garbage e (e_data x)) <> 0;
  ra_data : exists k, socks e !! e_data x = Some k /\ after k = WouldBlock /\ nonempty k /\ all_data k = data;
  ra_length : Z.of_nat (length data) < READ_BUFFER_SIZE
}.

(** The answer, in the environment: nothing but the connection, the socket's
    data and the timers has changed, the MySQL connection is back, and the one
    system call arms the socket for writing. *)
Record request_answered e e' fd (path : list ascii) (g' : globals DB) (hs0 : list header) (st : file_stat)
    (pool : list MYSQL) : Prop := {
  an_answer : holds_answer (user_at garbage e' fd) path hs0 st;
  an_calls : webserver.calls e' = webserver.calls e ++
    [EpollMod fd (mod_events EPOLLOUT (HttpConn.m_TRIGMode (user_at garbage e fd)))];
  an_pool : m_connPool e' = (m_connPool e) <| sql_connection_pool.connList := pool |>;
  an_others : forall fd', fd' <> fd -> user_at garbage e' fd' = user_at garbage e fd';
  an_globals : webserver.glob e' = g' /\ webserver.m_user_count e' = webserver.m_user_count e /\
    users_timer e' = users_timer e /\ m_actormodel e' = m_actormodel e
}.

(** From the request in the buffer to the answer. *)
Lemma buffered_answered e e1 fd data path g' hs0 st con l us ks tl :
  let c := user_at garbage e fd in
  in_table fd = true -> awaiting c -> m_sokcfd c = fd ->
  Z.of_nat (length data) < READ_BUFFER_SIZE ->
  answers con (doc_root c) data path (webserver.glob e) g' hs0 st -> free_conns e con l ->
  e1 = e <| webserver.users := us |> <| socks := ks |> <| m_timer_lst := tl |> ->
  (exists v1 v2, user_at garbage e1 fd =
    (with_request c data) <| m_state := v1 |> <| improv := v2 |>) ->
  (forall fd', fd' <> fd -> user_at garbage e1 fd' = user_at garbage e fd') ->
  exists e2, threadpool.process_with_conn w false fd e1 = Ok (tt, e2) /\
    request_answered e e2 fd path g' hs0 st (l ++ [con]) /\
    m_timer_lst e2 = tl /\ improv (user_at garbage e2 fd) = improv (user_at garbage e1 fd) /\
    timer_flag (user_at garbage e2 fd) = 0.
Proof.
  intros c Hin Haw Hfd Hlen Hget Hfree He1 (v1 & v2 & Hc1) Hoth.
  destruct (worker_answers e1 fd data path g' hs0 st con l)
    as (c' & Hrun & Hans & Him & Htf); rewrite ?Hc1; try (by subst e1); [by apply with_request_ready|].
  eexists. split; [exact Hrun|]. unfold answered_env. rewrite !served_user.
  rewrite Hc1 in Htf, Him. split; [split|split_and!].
  - rewrite served_user. exact Hans.
  - unfold served_env. rewrite Hc1, He1. cbn [webserver.calls set m_sokcfd HttpConn.m_TRIGMode with_request arrived].
    by rewrite Hfd.
  - by rewrite He1.
  - intros fd' Hne. rewrite <- Hoth by done. by apply served_others.
  - by rewrite He1.
  - by rewrite He1.
  - exact Him.
  - rewrite Htf. apply Haw.
Qed.

Lemma arrives_in_table now e es x : table_inv now e es -> x ∈ es -> in_table (e_data x) = true.
Proof. intros [_ _ Ho _] Hx. rewrite Forall_forall in Ho. by destruct (Ho x Hx). Qed.

(** The table only depends on the timers. *)
Lemma table_inv_same now e e' es :
  users_timer e' = users_timer e -> m_timer_lst e' = m_timer_lst e -> table_inv now e es -> table_inv now e' es.
Proof. intros Hu Hl [? ? Ho ?]. split; rewrite ?Hl; try done. unfold owned in *. by rewrite Hu. Qed.

(** [write] has no return statement: the event that would send the answer. *)
Lemma write_event_undefined others e q m x es now now' :
  m_actormodel e = Some m -> m <> 1 -> table_inv now e es -> x ∈ es ->
  dealwithwrite mysql_query stat mmap garbage others me (e_data x) now'
    {| threadpool.tp := q; threadpool.env := e |} = Halt FlowOffEnd.
Proof.
  intros Hm Hm1 Hi Hx. unfold dealwithwrite.
  st_step (unfold on_env, threadpool.on_env; apply zoom_ok; by eapply timer_of_open).
  st_step reflexivity. st_step (unfold on_env, threadpool.on_env; apply zoom_ok, lift_ok; cbn; rewrite Hm; reflexivity).
  rewrite (proj2 (Z.eqb_neq _ _) Hm1). apply ST_bind_halt.
  unfold on_env, threadpool.on_env, zoom, on_user. cbn [threadpool.env set]. by rewrite (arrives_in_table now e es x).
Qed.

(** A request whose answer is known, through the proactor. *)
Lemma proactor_serves others (s : webserver.state DB) m max now now' pre x post data path g' hs0 st con l :
  let e := threadpool.env s in let c := user_at garbage e (e_data x) in
  m_actormodel e = Some m -> m <> 1 -> idle_queue (threadpool.tp s) max m ->
  table_inv now e (pre ++ x :: post) -> now <= now' ->
  request_arrives e x data -> answers con (doc_root c) data path (webserver.glob e) g' hs0 st -> free_conns e con l ->
  exists s1 s2,
    dealwithread mysql_query stat mmap garbage others me (e_data x) now' s = Ok (tt, s1) /\
    threadpool.tp s1 = queued (e_data x) (threadpool.tp s) /\
    threadpool.run_round w false false s1 = Ok (tt, s2) /\ threadpool.tp s2 = threadpool.tp s /\
    request_answered e (threadpool.env s2) (e_data x) path g' hs0 st (l ++ [con]) /\
    table_inv now' (threadpool.env s2) (pre ++ insert_entry (with_expire x (now' + 3 * TIMESLOT)) post) /\
    dealwithwrite mysql_query stat mmap garbage others me (e_data x) now' s2 = Halt FlowOffEnd.
Proof.
  intros e c Hm Hm1 Hq Hi Hnow [Haw Hfd Hmode (k & Hk & Ha & Hne & Hd) Hlen] Hget Hfree.
  assert (x ∈ pre ++ x :: post) as Hx by (apply elem_of_app; right; left).
  pose proof (arrives_in_table now _ _ x Hi Hx) as Hin.
  destruct (read_request e (e_data x) k _ Hin Haw Hmode Hk Ha Hne Hd Hlen) as (k' & Hread).
  destruct (proactor_read mysql_query stat mmap garbage others me s m max now now' pre x post _
    Hm Hm1 Hi Hnow Hread (iq_takes _ _ _ Hq)) as (tl & Hrun & Hi1).
  set (us := <[e_data x := with_request c (data)]> (webserver.users e)) in *.
  set (ks := <[e_data x := k']> (socks e)) in *.
  set (e1 := e <| webserver.users := us |> <| socks := ks |> <| m_timer_lst := tl |>) in *.
  destruct (buffered_answered e e1 (e_data x) data path g' hs0 st con l
    us ks tl) as (e2 & Hserve & Hans & Htl & _ & _); try done.
  { exists (m_state (with_request c data)), (improv (with_request c data)).
    unfold user_at, e1, us. cbn. rewrite lookup_insert_eq. reflexivity. }
  { intros fd' Hne'. unfold user_at, e1, us. cbn. by rewrite lookup_insert_ne. }
  destruct Hans as [A1 A2 A3 A4 (A5 & A6 & A7 & A8)].
  assert (table_inv now' e2 (pre ++ insert_entry (with_expire x (now' + 3 * TIMESLOT)) post)) as Hi2.
  { exact (table_inv_same now' e1 e2 _ A7 Htl Hi1). }
  eexists _, _. split; [exact Hrun|]. split; [done|]. split; [|split; [|split; [|split]]].
  - apply (run_round_takes _ max m); [done|]. unfold threadpool.serve. by rewrite (proj2 (Z.eqb_neq _ _) Hm1).
  - done.
  - by split.
  - exact Hi2.
  - change (e_data x) with (e_data (with_expire x (now' + 3 * TIMESLOT))).
    apply (write_event_undefined _ _ _ m _ _ now' now' (eq_trans A8 Hm) Hm1 Hi2).
    rewrite insert_entry_perm. apply elem_of_app. right. left.
Qed.

(** C4: a request through the proactor.  When a complete GET request for a
    readable file arrives on an open connection, in however many pieces, the
    event loop reads it, moves the connection's timer and queues it; the
    worker that takes it borrows a MySQL connection, parses the request,
    leaves the 200 answer and the mapped file in the connection's buffers,
    arms the socket for writing and gives the MySQL connection back; queue,
    counters, other connections and globals are as before.  The answer is
    never sent: the write event that follows runs into [write], which has no
    return statement. *)
Theorem proactor_serves_get others (s : webserver.state DB) m max now now' pre x post p hs0 st con l :
  let e := threadpool.env s in let c := user_at garbage e (e_data x) in
  m_actormodel e = Some m -> m <> 1 -> idle_queue (threadpool.tp s) max m ->
  table_inv now e (pre ++ x :: post) -> now <= now' ->
  request_arrives e x (request_text p hs0) -> gets_file (doc_root c) p hs0 st -> free_conns e con l ->
  exists s1 s2,
    dealwithread mysql_query stat mmap garbage others me (e_data x) now' s = Ok (tt, s1) /\
    threadpool.tp s1 = queued (e_data x) (threadpool.tp s) /\
    threadpool.run_round w false false s1 = Ok (tt, s2) /\ threadpool.tp s2 = threadpool.tp s /\
    request_answered e (threadpool.env s2) (e_data x)
      (path_of (doc_root c) (target_of (lp_path p))) (webserver.glob e) hs0 st (l ++ [con]) /\
    table_inv now' (threadpool.env s2) (pre ++ insert_entry (with_expire x (now' + 3 * TIMESLOT)) post) /\
    dealwithwrite mysql_query stat mmap garbage others me (e_data x) now' s2 = Halt FlowOffEnd.
Proof. intros. eapply proactor_serves; try done. by apply get_answers. Qed.

(** C7: a login through the server.  When the login form arrives on an open
    connection, the way of a GET request through event loop, queue, worker and
    MySQL pool leads to the welcome page if the table of users has that password
    for that name, and to the error page in every other case; the table does
    not change. *)
Theorem proactor_serves_login others (s : webserver.state DB) m max now now' pre x post p hs0 name password st con l :
  let e := threadpool.env s in let c := user_at garbage e (e_data x) in
  let path := doc_root c ++ lit (login_page (webserver.glob e) name password) in
  m_actormodel e = Some m -> m <> 1 -> idle_queue (threadpool.tp s) max m ->
  table_inv now e (pre ++ x :: post) -> now <= now' ->
  request_arrives e x (request_text p hs0 ++ form_text name password) ->
  posts_form "2" (doc_root c) p hs0 name password -> readable path st -> free_conns e con l ->
  exists s1 s2,
    dealwithread mysql_query stat mmap garbage others me (e_data x) now' s = Ok (tt, s1) /\
    threadpool.tp s1 = queued (e_data x) (threadpool.tp s) /\
    threadpool.run_round w false false s1 = Ok (tt, s2) /\ threadpool.tp s2 = threadpool.tp s /\
    request_answered e (threadpool.env s2) (e_data x) path (webserver.glob e) hs0 st (l ++ [con]) /\
    table_inv now' (threadpool.env s2) (pre ++ insert_entry (with_expire x (now' + 3 * TIMESLOT)) post) /\
    dealwithwrite mysql_query stat mmap garbage others me (e_data x) now' s2 = Halt FlowOffEnd.
Proof. intros. eapply proactor_serves; try done. by apply login_answers. Qed.

(** C8: a registration through the server.  When the registration form arrives
    on an open connection, the worker sends one INSERT statement over the MySQL
    connection that it borrowed, unless the name is known, and enters the name
    in the table of users under the lock; the page that is left in the buffers
    tells whether the statement succeeded, the lock is free, and the globals are
    those that [register_effect] says. *)
Theorem proactor_serves_register others (s : webserver.state DB) m max now now' pre x post p hs0 name password st con l :
  let e := threadpool.env s in let c := user_at garbage e (e_data x) in
  let eff := register_effect mysql_query (Some con) (webserver.glob e) name password in
  let path := doc_root c ++ lit eff.2 in
  m_actormodel e = Some m -> m <> 1 -> idle_queue (threadpool.tp s) max m ->
  table_inv now e (pre ++ x :: post) -> now <= now' ->
  request_arrives e x (request_text p hs0 ++ form_text name password) ->
  posts_form "3" (doc_root c) p hs0 name password -> readable path st ->
  locker.m_mutex (m_lock (webserver.glob e)) = None -> (length name + length password < 152)%nat -> free_conns e con l ->
  exists s1 s2,
    dealwithread mysql_query stat mmap garbage others me (e_data x) now' s = Ok (tt, s1) /\
    threadpool.tp s1 = queued (e_data x) (threadpool.tp s) /\
    threadpool.run_round w false false s1 = Ok (tt, s2) /\ threadpool.tp s2 = threadpool.tp s /\
    request_answered e (threadpool.env s2) (e_data x) path eff.1 hs0 st (l ++ [con]) /\
    table_inv now' (threadpool.env s2) (pre ++ insert_entry (with_expire x (now' + 3 * TIMESLOT)) post) /\
    dealwithwrite mysql_query stat mmap garbage others me (e_data x) now' s2 = Halt FlowOffEnd.
Proof. intros. eapply proactor_serves; try done. by apply register_answers. Qed.

(** ** The reactor *)

Lemma post_run q : sem.m_sem (threadpool.m_queuestat q) < SEM_VALUE_MAX ->
  threadpool.post_request q = Ok (tt, q <| threadpool.m_queuestat :=
    {| sem.m_sem := sem.m_sem (threadpool.m_queuestat q) + 1 |} |>).
Proof.
  intros H. unfold threadpool.post_request. st_step (unfold threadpool.on_stat; apply zoom_ok; unfold sem.post;
    rewrite (proj2 (Z.leb_gt _ _) H); reflexivity). reflexivity.
Qed.

Lemma append_run q e max fd st : takes q max ->
  threadpool.append me fd st {| threadpool.tp := q; threadpool.env := e |} =
    Ok (true, {| threadpool.tp := queued fd q; threadpool.env := rq_set_state fd st e |}).
Proof.
  destruct q as [tn mr th wq [mu] [sm] am]. unfold takes, queued. cbn. intros (-> & -> & Hl & Hsm).
  unfold threadpool.append. st_step reflexivity. st_step reflexivity. st_step reflexivity. cbv zeta.
  match goal with |- context [to_u64 max <=? ?n] => change n with (Z.of_nat (length wq)) end.
  rewrite (proj2 (Z.leb_gt _ _) Hl).
  st_step reflexivity. st_step reflexivity. st_step reflexivity.
  st_step (apply zoom_ok, post_run; exact Hsm). reflexivity.
Qed.

(** A full queue refuses a request of the reactor, whose result is not looked
    at: the event loop waits for a flag that nobody will set. *)
Theorem full_queue_hangs others q e max x es now now' :
  m_actormodel e = Some 1 -> table_inv now e es -> x ∈ es -> now <= now' ->
  locker.m_mutex (threadpool.m_queuelocker q) = None -> threadpool.m_max_requests q = Some max ->
  to_u64 max <= Z.of_nat (length (threadpool.m_workqueue q)) ->
  improv (user_at garbage e (e_data x)) = 0 ->
  (forall s s', others s = Ok (tt, s') ->
     improv (user_at garbage (threadpool.env s') (e_data x)) = improv (user_at garbage (threadpool.env s) (e_data x))) ->
  forall s', dealwithread mysql_query stat mmap garbage others me (e_data x) now'
    {| threadpool.tp := q; threadpool.env := e |} <> Ok (tt, s').
Proof.
  intros Hm Hi (pre & post & ->)%list_elem_of_split Hnow Hmu Hmax Hfull Him Hoth s' H.
  assert (x ∈ pre ++ x :: post) as Hx by (apply elem_of_app; right; left).
  pose proof (timer_of_open now e _ x Hi Hx) as Htm.
  destruct (traffic_run now now' e pre x post Hi Hnow) as (e1 & Hmove & _ & tl & ->).
  rewrite (ST_bind_step _ _ _ _ _ Htm) in Hmove.
  assert (threadpool.append me (e_data x) 0 {| threadpool.tp := q; threadpool.env := e <| m_timer_lst := tl |> |} =
    Ok (false, {| threadpool.tp := q; threadpool.env := e <| m_timer_lst := tl |> |})) as Happ.
  { destruct q as [tn mr th wq [mu] [sm] am]. cbn in Hmu, Hmax, Hfull. subst.
    unfold threadpool.append. st_step reflexivity. st_step reflexivity. st_step reflexivity. cbv zeta.
    match goal with |- context [to_u64 max <=? ?n] => change n with (Z.of_nat (length wq)) end.
    rewrite (proj2 (Z.leb_le _ _) Hfull). reflexivity. }
  revert H. unfold dealwithread.
  rewrite (ST_bind_step _ _ _ (Some (e_loc x)) {| threadpool.tp := q; threadpool.env := e |})
    by (unfold on_env, threadpool.on_env, zoom; cbn [threadpool.env]; by rewrite Htm).
  rewrite (ST_bind_step _ _ _ {| threadpool.tp := q; threadpool.env := e |} {| threadpool.tp := q; threadpool.env := e |})
    by reflexivity.
  rewrite (ST_bind_step _ _ _ 1 {| threadpool.tp := q; threadpool.env := e |})
    by (unfold on_env, threadpool.on_env, zoom, webserver.member, lift; cbn [threadpool.env]; by rewrite Hm).
  cbn [Z.eqb Pos.eqb].
  rewrite (ST_bind_step _ _ _ tt {| threadpool.tp := q; threadpool.env := e <| m_timer_lst := tl |> |})
    by (unfold on_env, threadpool.on_env, zoom; cbn [threadpool.env]; by rewrite Hmove).
  rewrite (ST_bind_step _ _ _ _ _ Happ). unfold await_worker. intros H.
  apply ST_bind_ok in H as ([] & s1 & H1 & H). apply Hoth in H1. cbn [threadpool.env] in H1.
  apply ST_bind_ok in H as (? & ? & [= <- <-] & H). cbv zeta in H. rewrite H1 in H.
  change (improv (user_at garbage (e <| m_timer_lst := tl |>) (e_data x))) with (improv (user_at garbage e (e_data x))) in H.
  rewrite Him in H. done.
Qed.

Lemma user_at_insert e fd c : user_at garbage (e <| webserver.users := <[fd := c]> (webserver.users e) |>) fd = c.
Proof. unfold user_at. cbn. by rewrite lookup_insert_eq. Qed.

Lemma user_at_insert_ne e fd fd' c : fd' <> fd ->
  user_at garbage (e <| webserver.users := <[fd := c]> (webserver.users e) |>) fd' = user_at garbage e fd'.
Proof. intros H. unfold user_at. cbn. by rewrite lookup_insert_ne. Qed.

(** The worker of the reactor reads the request itself, and tells that it has. *)
Lemma reactor_worker e e0 x data path g' hs0 st con l tl :
  let fd := e_data x in let c := user_at garbage e fd in
  in_table fd = true -> request_arrives e x data ->
  answers con (doc_root c) data path (webserver.glob e) g' hs0 st ->
  free_conns e con l -> e0 = rq_set_state fd 0 (e <| m_timer_lst := tl |>) ->
  exists e2, threadpool.serve w false 1 fd e0 = Ok (tt, e2) /\
    request_answered e e2 fd path g' hs0 st (l ++ [con]) /\
    m_timer_lst e2 = tl /\ improv (user_at garbage e2 fd) = 1 /\ timer_flag (user_at garbage e2 fd) = 0.
Proof.
  intros fd c Hin [Haw Hfd Hmode (k & Hk & Ha & Hne & Hd) Hlen] Hget Hfree He0.
  fold fd c in Haw, Hfd, Hmode, Hk.
  set (c0 := c <| m_state := 0 |>). assert (user_at garbage e0 fd = c0) as Hc0.
  { rewrite He0. apply (user_at_insert (e <| m_timer_lst := tl |>)). }
  assert (awaiting c0) as Haw0 by (by destruct Haw as [[] ? ? ? ? ?]).
  destruct (read_request e0 fd k data Hin) as (k' & Hread); rewrite ?Hc0; try done; [by rewrite He0|].
  rewrite Hc0 in Hread.
  set (c1 := with_request c0 data) in *.
  set (ea := e0 <| webserver.users := <[fd := c1]> (webserver.users e0) |>) in *.
  set (eb := ea <| socks := <[fd := k']> (socks e0) |>) in *.
  set (e1 := rq_set_improv fd 1 eb).
  assert (user_at garbage eb fd = c1) as Hc1 by apply (user_at_insert e0).
  assert (user_at garbage e1 fd = c1 <| improv := 1 |>) as Hce1.
  { unfold e1. cbn [rq_set_improv requests conn_request]. rewrite Hc1. apply user_at_insert. }
  destruct (buffered_answered e e1 fd data path g' hs0 st con l (webserver.users e1) (<[fd := k']> (socks e0)) tl)
    as (e2 & Hserve & Hans & Htl & Him & Htf); try done.
  - unfold e1, eb, ea. rewrite He0. destruct e. reflexivity.
  - exists 0, 1. rewrite Hce1. reflexivity.
  - intros fd' Hne'. unfold e1. cbn [rq_set_improv requests conn_request]. rewrite user_at_insert_ne by done.
    change (user_at garbage eb fd') with (user_at garbage ea fd'). unfold ea. rewrite user_at_insert_ne by done.
    rewrite He0. cbn [rq_set_state requests conn_request]. by rewrite user_at_insert_ne.
  - exists e2. split; [|rewrite Him, Hce1; split_and!; done].
    unfold threadpool.serve. cbn [Z.eqb Pos.eqb]. st_step reflexivity.
    change (rq_state fd e0) with (m_state (user_at garbage e0 fd)). rewrite Hc0. cbn [Z.eqb m_state c0 set].
    st_step (exact Hread). cbv iota. st_step reflexivity. exact Hserve.
Qed.

Lemma set_user_run e fd f : in_table fd = true ->
  set_user garbage fd f e =
    Ok (tt, e <| webserver.users := <[fd := f (user_at garbage e fd)]> (webserver.users e) |>).
Proof.
  intros Hin. unfold set_user, on_user. rewrite Hin. destruct e. reflexivity.
Qed.

(** The event loop of the reactor, when the worker that takes the connection is
    done with it and leaves it open. *)
Lemma reactor_waits_for (s : webserver.state DB) max now fd tm e1 e2 :
  let e := threadpool.env s in
  m_actormodel e = Some 1 -> idle_queue (threadpool.tp s) max 1 -> in_table fd = true ->
  timer_of fd e = Ok (tm, e) -> maybe_adjust tm now e = Ok (tt, e1) ->
  threadpool.serve w false 1 fd (rq_set_state fd 0 e1) = Ok (tt, e2) ->
  improv (user_at garbage e2 fd) = 1 -> timer_flag (user_at garbage e2 fd) = 0 ->
  dealwithread mysql_query stat mmap garbage (threadpool.run_round w false false) me fd now s =
    Ok (tt, {| threadpool.tp := threadpool.tp s; threadpool.env :=
      e2 <| webserver.users := <[fd := (user_at garbage e2 fd) <| improv := 0 |>]> (webserver.users e2) |> |}).
Proof.
  intros e Hm Hq Hin Htm Hmove Hserve Him Htf. unfold dealwithread. fold e.
  st_step (unfold on_env, threadpool.on_env; apply zoom_ok; exact Htm). st_step reflexivity.
  st_step (unfold on_env, threadpool.on_env; apply zoom_ok, lift_ok; cbn; fold e; rewrite Hm; reflexivity).
  cbn [Z.eqb Pos.eqb]. st_step (unfold on_env, threadpool.on_env; apply zoom_ok; exact Hmove).
  st_step (apply (append_run _ _ max); apply Hq).
  unfold await_worker. st_step (eapply run_round_takes; [exact Hq|exact Hserve]). st_step reflexivity.
  cbv zeta. cbn [threadpool.env]. rewrite Him, Htf. cbn [Z.eqb Pos.eqb]. st_step reflexivity.
  unfold on_env, threadpool.on_env. erewrite zoom_ok; [|apply set_user_run; exact Hin]. reflexivity.
Qed.

(** A request whose answer is known, through the reactor. *)
Lemma reactor_serves (s : webserver.state DB) max now now' pre x post data path g' hs0 st con l :
  let e := threadpool.env s in let c := user_at garbage e (e_data x) in
  m_actormodel e = Some 1 -> idle_queue (threadpool.tp s) max 1 ->
  table_inv now e (pre ++ x :: post) -> now <= now' ->
  request_arrives e x data -> answers con (doc_root c) data path (webserver.glob e) g' hs0 st -> free_conns e con l ->
  exists s',
    dealwithread mysql_query stat mmap garbage (threadpool.run_round w false false) me (e_data x) now' s = Ok (tt, s') /\
    threadpool.tp s' = threadpool.tp s /\
    request_answered e (threadpool.env s') (e_data x) path g' hs0 st (l ++ [con]) /\
    table_inv now' (threadpool.env s') (pre ++ insert_entry (with_expire x (now' + 3 * TIMESLOT)) post) /\
    improv (user_at garbage (threadpool.env s') (e_data x)) = 0 /\
    timer_flag (user_at garbage (threadpool.env s') (e_data x)) = 0.
Proof.
  intros e c Hm Hq Hi Hnow Harr Hget Hfree. set (fd := e_data x) in *.
  assert (x ∈ pre ++ x :: post) as Hx by (apply elem_of_app; right; left).
  pose proof (arrives_in_table now _ _ x Hi Hx) as Hin. fold fd in Hin.
  pose proof (timer_of_open now e _ x Hi Hx) as Htm.
  destruct (traffic_run now now' e pre x post Hi Hnow) as (e1 & Hmove & Hi1 & tl & ->).
  rewrite (ST_bind_step _ _ _ _ _ Htm) in Hmove.
  destruct (reactor_worker e _ x data path g' hs0 st con l tl Hin Harr Hget Hfree eq_refl)
    as (e2 & Hserve & [A1 A2 A3 A4 (A5 & A6 & A7 & A8)] & Htl & Him & Htf). fold fd in Hserve, A1, A2, A4, Him, Htf.
  set (e3 := e2 <| webserver.users := <[fd := (user_at garbage e2 fd) <| improv := 0 |>]> (webserver.users e2) |>).
  assert (user_at garbage e3 fd = (user_at garbage e2 fd) <| improv := 0 |>) as Hc3 by apply user_at_insert.
  exists {| threadpool.tp := threadpool.tp s; threadpool.env := e3 |}.
  cbn [threadpool.tp threadpool.env]. rewrite Hc3. split_and!; try done.
  - by eapply reactor_waits_for.
  - split; try done; [rewrite Hc3; exact A1|].
    intros fd' Hne. unfold e3. rewrite user_at_insert_ne by done. by apply A4.
  - eapply table_inv_same; [| |exact Hi1]; [exact A7|exact Htl].
Qed.

(** A request through the reactor.  With the worker's round as what the
    other threads do while the event loop waits, the loop queues the
    connection, the worker reads the request from the socket and answers it as
    in the proactor, the loop sees that the worker is done, and the flags, the
    queue and the timer are as they should be for the next event. *)
Theorem reactor_serves_get (s : webserver.state DB) max now now' pre x post p hs0 st con l :
  let e := threadpool.env s in let c := user_at garbage e (e_data x) in
  m_actormodel e = Some 1 -> idle_queue (threadpool.tp s) max 1 ->
  table_inv now e (pre ++ x :: post) -> now <= now' ->
  request_arrives e x (request_text p hs0) -> gets_file (doc_root c) p hs0 st -> free_conns e con l ->
  exists s',
    dealwithread mysql_query stat mmap garbage (threadpool.run_round w false false) me (e_data x) now' s = Ok (tt, s') /\
    threadpool.tp s' = threadpool.tp s /\
    request_answered e (threadpool.env s') (e_data x)
      (path_of (doc_root c) (target_of (lp_path p))) (webserver.glob e) hs0 st (l ++ [con]) /\
    table_inv now' (threadpool.env s') (pre ++ insert_entry (with_expire x (now' + 3 * TIMESLOT)) post) /\
    improv (user_at garbage (threadpool.env s') (e_data x)) = 0 /\
    timer_flag (user_at garbage (threadpool.env s') (e_data x)) = 0.
Proof. intros. eapply reactor_serves; try done. by apply get_answers. Qed.

End end_to_end.

(** ** The theorems at a server with two connections *)

(** [busy_env] with a request in the socket of descriptor 7, in two pieces. *)
Definition request_env (model : Z) : webserver.env unit := busy_env
  <| webserver.users := {[ 7 := (sample_conn []) <| HttpConn.m_TRIGMode := 1 |> ]} |>
  <| webserver.m_actormodel := Some model |>
  <| webserver.socks := {[ 7 := {| pieces := [take 9 sample_request; drop 9 sample_request];
                                   after := WouldBlock |} ]} |>.

Definition request_queue (model : Z) : threadpool.pool :=
  threadpool.sample_queue <| threadpool.m_actor_model := Some model |>.

Definition request_server (model : Z) : webserver.state unit :=
  {| threadpool.tp := request_queue model; threadpool.env := request_env model |}.

Lemma request_table model : table_inv 10 (request_env model) ([] ++ timer7 :: [timer8]).
Proof. eapply table_inv_same; [| |exact busy_table]; reflexivity. Qed.

Lemma sample_arrives model : request_arrives sample_garbage (request_env model) timer7 (request_text sample_line sample_headers).
Proof.
  split.
  - split; [split|..]; by_eval || (split; by_decide || by_eval).
  - by_eval.
  - by_eval.
  - eexists. split; [reflexivity|]. split; [reflexivity|]. split; by_decide || by_eval.
  - by_eval.
Qed.

Lemma sample_gets : gets_file sample_stat (lit "/srv/root") sample_line sample_headers {| st_mode := 33188; st_size := 12 |}.
Proof.
  split.
  - split_and!; by_decide || by_eval.
  - split; [|by_eval]. apply Forall_forall. intros h Hh. apply sample_header_ok. set_solver.
  - exists [], (lit "index.html"). split_and!; by_decide || by_eval.
  - split_and!; by_eval.
Qed.

Lemma sample_idle_queue model : idle_queue (request_queue model) 2 model.
Proof. split; [split_and!|..]; by_eval. Qed.

Lemma sample_free model : free_conns (request_env model) 11 [12].
Proof. split_and!; by_eval. Qed.

Lemma proactor_serves_get_witness :
  exists s1 s2,
    webserver.dealwithread sample_query sample_stat sample_mmap sample_garbage (mret tt) 0%nat 7 12 (request_server 0) =
      Ok (tt, s1) /\
    webserver.calls (threadpool.env s2) = [EpollMod 7 (mod_events EPOLLOUT 1)] /\
    webserver.dealwithwrite sample_query sample_stat sample_mmap sample_garbage (mret tt) 0%nat 7 12 s2 = Halt FlowOffEnd.
Proof.
  destruct (proactor_serves_get sample_query sample_stat sample_mmap sample_garbage 0%nat 1%nat (mret tt)
    (request_server 0) 0 2 10 12 [] timer7 [timer8] sample_line sample_headers {| st_mode := 33188; st_size := 12 |}
    11 [12]) as (s1 & s2 & Hread & _ & _ & _ & [_ Hcalls _ _ _] & _ & Hwrite).
  - reflexivity.
  - lia.
  - apply sample_idle_queue.
  - apply request_table.
  - lia.
  - apply sample_arrives.
  - apply sample_gets.
  - apply sample_free.
  - exists s1, s2. split; [exact Hread|]. split; [exact Hcalls|exact Hwrite].
Defined.

Lemma reactor_serves_get_witness :
  exists s',
    webserver.dealwithread sample_query sample_stat sample_mmap sample_garbage
      (@threadpool.run_round _ (requests sample_query sample_stat sample_mmap sample_garbage) 1%nat false false) 0%nat 7 12
      (request_server 1) = Ok (tt, s') /\
    webserver.calls (threadpool.env s') = [EpollMod 7 (mod_events EPOLLOUT 1)] /\
    improv (webserver.user_at sample_garbage (threadpool.env s') 7) = 0.
Proof.
  destruct (reactor_serves_get sample_query sample_stat sample_mmap sample_garbage 0%nat 1%nat
    (request_server 1) 2 10 12 [] timer7 [timer8] sample_line sample_headers {| st_mode := 33188; st_size := 12 |}
    11 [12]) as (s' & Hread & _ & [_ Hcalls _ _ _] & _ & Him & _).
  - reflexivity.
  - apply sample_idle_queue.
  - apply request_table.
  - lia.
  - apply sample_arrives.
  - apply sample_gets.
  - apply sample_free.
  - exists s'. split; [exact Hread|]. split; [exact Hcalls|exact Him].
Defined.

(** The login form of [ann], with her password in the table of users. *)
Definition login_env : webserver.env unit := (request_env 0)
  <| webserver.socks := {[ 7 := {| pieces := [request_text sample_form sample_form_headers ++ sample_body];
                                   after := WouldBlock |} ]} |>
  <| webserver.glob := HttpRequest.glob (sample_state []) |>.

Definition login_server : webserver.state unit :=
  {| threadpool.tp := request_queue 0; threadpool.env := login_env |}.

Lemma login_arrives : request_arrives sample_garbage login_env timer7
  (request_text sample_form sample_form_headers ++ form_text (lit "ann") (lit "pw")).
Proof.
  pose proof (sample_arrives 0) as [Haw Hfd Hmode _ _]. split; [exact Haw|exact Hfd|exact Hmode| |by_eval].
  eexists. split; [reflexivity|]. split; [reflexivity|]. split; by_decide || by_eval.
Qed.

Lemma sample_posts : posts_form "2" (lit "/srv/root") sample_form sample_form_headers (lit "ann") (lit "pw").
Proof.
  split.
  - split_and!; by_decide || by_eval.
  - split; [|by_eval]. apply Forall_forall. intros h Hh. apply sample_header_ok. set_solver.
  - split_and!; [by_eval|by_decide|simpl; lia|simpl; lia].
  - by_eval.
  - split_and!; [by_decide|by_decide|simpl; lia].
  - split; [by_decide|simpl; lia].
Qed.

Lemma proactor_serves_login_witness :
  exists s1 s2,
    webserver.dealwithread sample_query sample_stat sample_mmap sample_garbage (mret tt) 0%nat 7 12 login_server =
      Ok (tt, s1) /\
    @threadpool.run_round _ (requests sample_query sample_stat sample_mmap sample_garbage) 1%nat false false s1 = Ok (tt, s2) /\
    threadpool.tp s2 = request_queue 0 /\
    holds_answer sample_mmap (webserver.user_at sample_garbage (threadpool.env s2) 7) (lit "/srv/root/welcome.html")
      sample_form_headers {| st_mode := 33188; st_size := 12 |}.
Proof.
  destruct (proactor_serves_login sample_query sample_stat sample_mmap sample_garbage 0%nat 1%nat (mret tt)
    login_server 0 2 10 12 [] timer7 [timer8] sample_form sample_form_headers (lit "ann") (lit "pw")
    {| st_mode := 33188; st_size := 12 |} 11 [12]) as (s1 & s2 & Hread & _ & Hserve & Htp & [Hans _ _ _ _] & _).
  - reflexivity.
  - lia.
  - apply sample_idle_queue.
  - eapply table_inv_same; [| |exact (request_table 0)]; reflexivity.
  - lia.
  - apply login_arrives.
  - apply sample_posts.
  - split_and!; by_eval.
  - split_and!; by_eval.
  - exists s1, s2. split; [exact Hread|]. split; [exact Hserve|]. split; [exact Htp|exact Hans].
Defined.

Definition register_line : line_parts :=
  {| lp_post := true; lp_blank1 := [SP]; lp_origin := NoOrigin; lp_path := lit "3CGISQL.cgi"; lp_blank2 := [SP] |}.

Definition register_env : webserver.env unit := login_env
  <| webserver.socks := {[ 7 := {| pieces := [request_text register_line sample_form_headers ++ lit "user=bob&password=pw"];
                                   after := WouldBlock |} ]} |>.

Lemma register_arrives : request_arrives sample_garbage register_env timer7
  (request_text register_line sample_form_headers ++ form_text (lit "bob") (lit "pw")).
Proof.
  pose proof (sample_arrives 0) as [Haw Hfd Hmode _ _]. split; [exact Haw|exact Hfd|exact Hmode| |by_eval].
  eexists. split; [reflexivity|]. split; [reflexivity|]. split; by_decide || by_eval.
Qed.

Lemma sample_registers : posts_form "3" (lit "/srv/root") register_line sample_form_headers (lit "bob") (lit "pw").
Proof.
  split.
  - split_and!; by_decide || by_eval.
  - split; [|by_eval]. apply Forall_forall. intros h Hh. apply sample_header_ok. set_solver.
  - split_and!; [by_eval|by_decide|simpl; lia|simpl; lia].
  - by_eval.
  - split_and!; [by_decide|by_decide|simpl; lia].
  - split; [by_decide|simpl; lia].
Qed.

Lemma proactor_serves_register_witness :
  exists s1 s2,
    webserver.dealwithread sample_query sample_stat sample_mmap sample_garbage (mret tt) 0%nat 7 12
      {| threadpool.tp := request_queue 0; threadpool.env := register_env |} = Ok (tt, s1) /\
    @threadpool.run_round _ (requests sample_query sample_stat sample_mmap sample_garbage) 1%nat false false s1 = Ok (tt, s2) /\
    HttpRequest.users (webserver.glob (threadpool.env s2)) !! lit "bob" = Some (lit "pw") /\
    holds_answer sample_mmap (webserver.user_at sample_garbage (threadpool.env s2) 7) (lit "/srv/root/log.html")
      sample_form_headers {| st_mode := 33188; st_size := 12 |}.
Proof.
  destruct (proactor_serves_register sample_query sample_stat sample_mmap sample_garbage 0%nat 1%nat (mret tt)
    {| threadpool.tp := request_queue 0; threadpool.env := register_env |} 0 2 10 12 [] timer7 [timer8]
    register_line sample_form_headers (lit "bob") (lit "pw")
    {| st_mode := 33188; st_size := 12 |} 11 [12]) as (s1 & s2 & Hread & _ & Hserve & _ & [Hans _ _ _ (Hg & _)] & _).
  - reflexivity.
  - lia.
  - apply sample_idle_queue.
  - eapply table_inv_same; [| |exact (request_table 0)]; reflexivity.
  - lia.
  - apply register_arrives.
  - apply sample_registers.
  - split_and!; by_eval.
  - by_eval.
  - simpl. lia.
  - split_and!; by_eval.
  - exists s1, s2. split; [exact Hread|]. split; [exact Hserve|]. split; [by rewrite Hg|exact Hans].
Defined.
