(* ===== verification/Service.v ===== *)
(** * Service: what the clients of the web server see

    The specification of the server that Delivery.v implements: an atomic
    service over the table of users and the database.  Requests come in pieces;
    the last piece of a request executes it, with the MySQL connection whose turn
    it is, and decides which file is the answer.  Connections, buffers, queue,
    timers and threads are not seen. *)

From Stdlib Require Import Ascii String.
From S2P Require Import Prelude Locker CStr HttpConn HttpRequest HttpHandler HttpResponse HttpServe.
From S2P Require Import SqlPool WebServer HttpParse EndToEnd.

(** ** Pieces of data *)

(** Data for a socket: the descriptor, the time of the event, and what comes. *)
Record piece := { p_fd : Z; p_time : Z; p_sock : socket }.
Definition p_data (p : piece) : list ascii := all_data (p_sock p).

(** The socket gives some data and is then empty, the edge of the next event. *)
Definition gives (p : piece) : Prop := after (p_sock p) = WouldBlock /\ nonempty (p_sock p) /\ p_data p <> [].

(** What has come for [fd]. *)
Definition data_of (fd : Z) (ps : list piece) : list ascii :=
  concat (map p_data (filter (fun p => p_fd p = fd) ps)).

Lemma data_of_app fd ps1 ps2 : data_of fd (ps1 ++ ps2) = data_of fd ps1 ++ data_of fd ps2.
Proof. unfold data_of. by rewrite filter_app, map_app, concat_app. Qed.

Lemma data_of_one fd p : data_of fd [p] = if decide (p_fd p = fd) then p_data p else [].
Proof. unfold data_of. rewrite filter_cons. case_decide; [|done]. cbn. by rewrite app_nil_r. Qed.

Lemma data_of_snoc fd ps p : data_of fd (ps ++ [p]) = data_of fd ps ++ if decide (p_fd p = fd) then p_data p else [].
Proof. by rewrite data_of_app, data_of_one. Qed.

(** The time of the last event. *)
Definition last_time (now : Z) (ps : list piece) : Z := foldl (fun _ p => p_time p) now ps.

(** One use of the first MySQL connection: it goes to the back of the list. *)
Definition turn (l : list MYSQL) : list MYSQL :=
  match l with [] => [] | c :: l => l ++ [c] end.

(** ** Requests *)

(** What a client asks for: a file, a login or a registration. *)
Inductive request := GetFile | Login (name password : list ascii) | Register (name password : list ascii).

Record order := { o_line : line_parts; o_headers : list header; o_request : request }.

Definition o_head (r : order) : list ascii := request_text (o_line r) (o_headers r).
Definition o_body (r : order) : list ascii :=
  match o_request r with
  | GetFile => []
  | Login name password | Register name password => form_text name password
  end.
Definition o_text (r : order) : list ascii := o_head r ++ o_body r.

(** The part [d] of a request: all of it, or less than its head.  The head may be
    cut anywhere; the body comes with the end of the head. *)
Definition fine_part (r : order) (d : list ascii) : Prop :=
  d = o_text r \/ exists d', d' <> [] /\ d ++ d' = o_head r.

Definition fine_partb (r : order) (d : list ascii) : bool :=
  bool_decide (d = o_text r) || (bool_decide (d `prefix_of` o_head r) && bool_decide (d <> o_head r)).

Lemma fine_partb_spec r d : fine_partb r d = true -> fine_part r d.
Proof.
  intros [H|[H Hne]%andb_prop]%orb_prop; [left; by apply bool_decide_eq_true in H|].
  apply bool_decide_eq_true in H as [d' E], Hne. right. exists d'. split; [|done]. intros ->. by rewrite app_nil_r in E.
Qed.

Definition well_cut (fd : Z) (r : order) (ps : list piece) : Prop :=
  forall ps1 ps2, ps = ps1 ++ ps2 -> fine_part r (data_of fd ps1).

Lemma well_cut_check fd r ps :
  forallb (fun n => fine_partb r (data_of fd (take n ps))) (seq 0 (S (length ps))) = true -> well_cut fd r ps.
Proof.
  rewrite forallb_forall. intros H ps1 ps2 ->. apply fine_partb_spec. specialize (H (length ps1)).
  rewrite take_app_length in H. apply H, in_seq. rewrite length_app. lia.
Qed.

Lemma well_cut_take fd r ps n : well_cut fd r ps -> well_cut fd r (take n ps).
Proof. intros H ps1 ps2 E. apply (H ps1 (ps2 ++ drop n ps)). by rewrite app_assoc, <- E, take_drop. Qed.

Lemma o_text_head r d : length (o_text r) = (length (o_head r) + length (o_body r))%nat /\
  (d <> [] -> o_text r ++ d <> o_text r /\ forall d', o_text r ++ d ++ d' <> o_head r).
Proof.
  unfold o_text. rewrite length_app. split; [done|]. intros Hd. assert (0 < length d)%nat by (destruct d; [done|simpl; lia]).
  split; [intros E|intros d' E]; apply (f_equal length) in E; rewrite !length_app in E; lia.
Qed.

Lemma fine_part_room r d : fine_part r d -> Z.of_nat (length (o_text r)) < READ_BUFFER_SIZE -> Z.of_nat (length d) < READ_BUFFER_SIZE.
Proof.
  intros [->|(d' & _ & E)] Hr; [done|]. apply (f_equal length) in E. rewrite length_app in E.
  pose proof (proj1 (o_text_head r [])). lia.
Qed.

(** A request without a body may be cut anywhere. *)
Lemma file_well_cut fd r ps d : o_request r = GetFile -> data_of fd ps ++ d = o_text r -> well_cut fd r ps.
Proof.
  intros Hr E ps1 ps2 ->. rewrite data_of_app, <- app_assoc in E.
  destruct (decide (data_of fd ps2 ++ d = [])) as [E'|Hne]; [left; by rewrite E', app_nil_r in E|].
  right. eexists. split; [exact Hne|]. rewrite E. unfold o_text, o_body. by rewrite Hr, app_nil_r.
Qed.

Section service.
Context {DB : Type}
  (mysql_query : option Z -> list ascii -> DB -> Z * DB)
  (stat : list ascii -> option file_stat).

(** A request that the server can serve, below [root]. *)
Definition pages_readable (root : list ascii) (pages : list string) : Prop :=
  forall page, page ∈ pages -> exists st, readable stat (root ++ lit page) st.

Definition asks (root : list ascii) (r : order) : Prop :=
  match o_request r with
  | GetFile => exists st, gets_file stat root (o_line r) (o_headers r) st
  | Login name password =>
      posts_form "2" root (o_line r) (o_headers r) name password /\
      pages_readable root ["/welcome.html"; "/logError.html"]%string
  | Register name password =>
      posts_form "3" root (o_line r) (o_headers r) name password /\
      pages_readable root ["/log.html"; "/registerError.html"]%string /\ (length name + length password < 152)%nat
  end.

(** Its effect on the globals, and the file that answers it. *)
Definition outcome (root : list ascii) (con : MYSQL) (g : globals DB) (r : order) : list ascii * globals DB :=
  match o_request r with
  | GetFile => (path_of root (target_of (lp_path (o_line r))), g)
  | Login name password => (root ++ lit (login_page g name password), g)
  | Register name password =>
      let eff := register_effect mysql_query (Some con) g name password in (root ++ lit eff.2, eff.1)
  end.

Lemma asks_head root r : asks root r ->
  line_ok (o_line r) /\ eol_free (line_text (o_line r)) /\ Forall header_line_ok (o_headers r).
Proof.
  unfold asks. destruct (o_request r).
  - by intros (st & [(? & ? & _) [? _] _ _]).
  - by intros [[(? & ? & _) [? _] _ _ _ _] _].
  - by intros [[(? & ? & _) [? _] _ _ _ _] _].
Qed.

Lemma outcome_lock root con g r : m_lock (outcome root con g r).2 = m_lock g.
Proof.
  unfold outcome, register_effect. destruct (o_request r) as [|name password|name password]; [done..|].
  destruct (mysql_query _ _ _). by case_bool_decide.
Qed.

(** The code of the handler does that. *)
Lemma order_answers mmap (w : tid) con root r g : asks root r -> locker.m_mutex (m_lock g) = None ->
  let o := outcome root con g r in
  exists st, stat o.1 = Some st /\ answers mysql_query stat mmap w con root (o_text r) o.1 g o.2 (o_headers r) st.
Proof.
  unfold asks, outcome, o_text, o_head, o_body. destruct (o_request r) as [|name password|name password]; intros Ha Hlock.
  - destruct Ha as [st Hst]. exists st. split; [apply Hst|]. rewrite app_nil_r. by apply get_answers.
  - destruct Ha as [Hp Hpages]. destruct (Hpages (login_page g name password)) as [st Hst].
    { unfold login_page. case_bool_decide; [left|right; left]. }
    exists st. split; [apply Hst|by apply login_answers].
  - destruct Ha as (Hp & Hpages & Hlen).
    destruct (Hpages (register_effect mysql_query (Some con) g name password).2) as [st Hst].
    { unfold register_effect. destruct (mysql_query _ _ _). case_bool_decide; [right; left|]. cbn. destruct (_ =? 0); [left|right; left]. }
    exists st. split; [apply Hst|by apply register_answers].
Qed.

(** ** The service

    It remembers the pieces, executes a request when it is complete, and arms
    the descriptor for what it waits for: the rest of the request, or the room
    to send the answer. *)

Context (root : Z -> list ascii) (mode : Z -> Z) (pool : list MYSQL) (orders : gmap Z order).

Record service := {
  s_pieces : list piece;
  s_glob : globals DB;
  s_answers : gmap Z (list ascii);
  s_calls : list syscall
}.

#[export] Instance service_settable : Settable service := fun s =>
  Build_service (s_pieces s) (s_glob s) (s_answers s) (s_calls s).

(** The MySQL connection whose turn it is. *)
Definition lender (s : service) : MYSQL := hd 0 (Nat.iter (length (s_pieces s)) turn pool).

Definition arms (fd ev : Z) (s : service) : service := s <| s_calls := s_calls s ++ [EpollMod fd (mod_events ev (mode fd))] |>.

Definition execute (fd : Z) (r : order) (s : service) : service :=
  let '(path, g) := outcome (root fd) (lender s) (s_glob s) r in
  s <| s_glob := g |> <| s_answers := <[fd := path]> (s_answers s) |>.

Definition takes_piece (s : service) (p : piece) : service :=
  let fd := p_fd p in
  let add s := s <| s_pieces := s_pieces s ++ [p] |> in
  match orders !! fd with
  | None => add s
  | Some r =>
    if bool_decide (data_of fd (s_pieces s ++ [p]) = o_text r) then add (arms fd EPOLLOUT (execute fd r s))
    else add (arms fd EPOLLIN s)
  end.

Definition service_start (g : globals DB) : service := {| s_pieces := []; s_glob := g; s_answers := ∅; s_calls := [] |}.
Definition service_after (g : globals DB) (ps : list piece) : service := foldl takes_piece (service_start g) ps.

Lemma service_after_snoc g ps p : service_after g (ps ++ [p]) = takes_piece (service_after g ps) p.
Proof. apply foldl_snoc. Qed.

Lemma takes_piece_pieces s p : s_pieces (takes_piece s p) = s_pieces s ++ [p].
Proof. unfold takes_piece, execute. destruct (orders !! p_fd p); [|done]. case_bool_decide; [|done]. by destruct (outcome _ _ _ _). Qed.

Lemma service_pieces g ps : s_pieces (service_after g ps) = ps.
Proof. induction ps as [|p ps IH] using rev_ind; [done|]. by rewrite service_after_snoc, takes_piece_pieces, IH. Qed.

Lemma takes_piece_lock s p : m_lock (s_glob (takes_piece s p)) = m_lock (s_glob s).
Proof.
  unfold takes_piece, execute. destruct (orders !! p_fd p) as [r|]; [|done]. case_bool_decide; [|done].
  pose proof (outcome_lock (root (p_fd p)) (lender s) (s_glob s) r) as Hlock. destruct (outcome _ _ _ _). exact Hlock.
Qed.

Lemma service_lock g ps : m_lock (s_glob (service_after g ps)) = m_lock g.
Proof. induction ps as [|p ps IH] using rev_ind; [done|]. by rewrite service_after_snoc, takes_piece_lock. Qed.

(** The piece [p] of the request [r]. *)
Lemma service_step g ps p r : orders !! p_fd p = Some r ->
  let s := service_after g ps in let o := outcome (root (p_fd p)) (lender s) (s_glob s) r in
  let whole := bool_decide (data_of (p_fd p) (ps ++ [p]) = o_text r) in
  let s' := service_after g (ps ++ [p]) in
  s_glob s' = (if whole then o.2 else s_glob s) /\
  s_answers s' = (if whole then <[p_fd p := o.1]> (s_answers s) else s_answers s) /\
  s_calls s' = s_calls s ++ [EpollMod (p_fd p) (mod_events (if whole then EPOLLOUT else EPOLLIN) (mode (p_fd p)))].
Proof.
  intros Hr s o whole s'. unfold s'. rewrite service_after_snoc. fold s. unfold takes_piece. rewrite Hr.
  replace (s_pieces s) with ps by (by unfold s; rewrite service_pieces). unfold whole. case_bool_decide; [|done].
  unfold execute. fold o. by destruct o.
Qed.

Lemma takes_piece_others s p fd : fd <> p_fd p -> s_answers (takes_piece s p) !! fd = s_answers s !! fd.
Proof.
  intros Hne. unfold takes_piece, execute. destruct (orders !! p_fd p) as [r|]; [|done]. case_bool_decide; [|done].
  destruct (outcome _ _ _ _). cbn. by rewrite lookup_insert_ne.
Qed.
End service.

(** The service only depends on the root and the mode of its clients. *)
Lemma service_after_ext {DB} mysql_query root root' mode mode' pool (orders : gmap Z order) (g : globals DB) ps :
  (forall fd, is_Some (orders !! fd) -> root fd = root' fd /\ mode fd = mode' fd) ->
  service_after mysql_query root mode pool orders g ps = service_after mysql_query root' mode' pool orders g ps.
Proof.
  intros H. induction ps as [|p ps IH] using rev_ind; [done|]. rewrite !service_after_snoc, IH. unfold takes_piece, execute, arms.
  destruct (orders !! p_fd p) as [r|] eqn:Er; [|done]. by destruct (H (p_fd p)) as [-> ->]; [rewrite Er|].
Qed.
