(* ===== verification/Delivery.v ===== *)
(** * Delivery: the server implements the service of Service.v

    Each piece of a request that arrives on an open connection is one round of
    the event loop ([dealwithread] in src/ocean_http/webserver.cpp), of the
    request queue and of a worker ([run] in
    src/ocean_http/threadpool/threadpool.h): the worker finds the request
    incomplete and re-arms the socket, until the last piece is there.  The
    rounds of many connections may be mixed in any order.  What a round does is
    the class [EventModel], with the proactor and the reactor as instances. *)

From Stdlib Require Import Ascii String Sorted.
From S2P Require Import Prelude Locker LstTimer CStr HttpConn HttpRequest HttpHandler HttpResponse HttpServe.
From S2P Require Import SqlPool ThreadPool WebServer ServerTable.
From S2P Require Import HttpParse HttpTerm HttpResume HttpPieces EndToEnd Service.

Lemma turns_cons n : forall c l, exists c' l', Nat.iter n turn (c :: l) = c' :: l'.
Proof.
  induction n as [|n IH]; intros c l; [by eexists _, _|]. rewrite Nat.iter_succ.
  destruct (IH c l) as (c' & l' & ->). simpl. destruct l'; by eexists _, _.
Qed.

Section delivery.
Context {DB : Type}
  (mysql_query : option Z -> list ascii -> DB -> Z * DB)
  (stat : list ascii -> option file_stat)
  (mmap : list ascii -> Z -> faddr)
  (garbage : http_conn) (others : ST (webserver.state DB) unit) (me w : tid).
Implicit Types (e : webserver.env DB) (fd : Z) (s : webserver.state DB).
Import webserver sort_timer_lst.

#[local] Instance requests : Request (webserver.env DB) := webserver.conn_request mysql_query stat mmap garbage.

(** ** Rounds *)

(** The network brings the data to the socket. *)
Definition brings (p : piece) : ST (webserver.state DB) unit :=
  modify (fun s => s <| threadpool.env := (threadpool.env s)
    <| socks := <[p_fd p := p_sock p]> (socks (threadpool.env s)) |> |>).

(** In the proactor the event loop reads the data and queues the connection,
    and a worker takes it. *)
Definition proactor_round (p : piece) : ST (webserver.state DB) unit :=
  _ ← brings p;
  _ ← dealwithread mysql_query stat mmap garbage others me (p_fd p) (p_time p);
  threadpool.run_round w false false.

(** In the reactor a worker takes the connection and reads while the event loop
    waits for it. *)
Definition reactor_round (p : piece) : ST (webserver.state DB) unit :=
  _ ← brings p;
  dealwithread mysql_query stat mmap garbage (threadpool.run_round w false false) me (p_fd p) (p_time p).

Fixpoint event_rounds (round : piece -> ST (webserver.state DB) unit) (ps : list piece) : ST (webserver.state DB) unit :=
  match ps with
  | [] => mret tt
  | p :: ps => _ ← round p; event_rounds round ps
  end.

(** The flags between the event loop and the workers, when neither waits. *)
Definition quiet (c : http_conn) : Prop := improv c = 0 /\ timer_flag c = 0.
Definition settled (c : http_conn) : http_conn := c <| improv := 0 |>.

Lemma settled_id c : improv c = 0 -> settled c = c.
Proof. destruct c. cbn. by intros ->. Qed.

(** The environment in which the worker serves the connection: its data has
    been read, with the flags [v], and its timer has moved. *)
Definition read_env e (p : piece) (v : flags) (ks : gmap Z socket) (tl : sort_timer_lst) : webserver.env DB :=
  e <| webserver.users := <[p_fd p := put_flags v (ext (p_data p) (user_at garbage e (p_fd p)))]> (webserver.users e) |>
    <| socks := ks |> <| m_timer_lst := tl |>.

Lemma read_user_at e p v ks tl :
  user_at garbage (read_env e p v ks tl) (p_fd p) = put_flags v (ext (p_data p) (user_at garbage e (p_fd p))).
Proof. unfold user_at at 1. cbn. by rewrite lookup_insert_eq. Qed.

Lemma read_others e p v ks tl fd : fd <> p_fd p -> user_at garbage (read_env e p v ks tl) fd = user_at garbage e fd.
Proof. intros H. unfold user_at. cbn. by rewrite lookup_insert_ne. Qed.

(** What a round of the event model [m] promises: it reads the data and moves
    the timer, and its result is that of the worker on the connection as it was
    read, with the flags settled and the queue as before. *)
Class EventModel (m : Z) (round : piece -> ST (webserver.state DB) unit) : Prop := {
  round_serves s max now es p :
    let e := threadpool.env s in let fd := p_fd p in let c := user_at garbage e fd in
    m_actormodel e = Some m -> idle_queue (threadpool.tp s) max m ->
    table_inv now e es -> fd ∈ e_data <$> es -> now <= p_time p ->
    typed c -> quiet c -> HttpConn.m_TRIGMode c <> 0 -> gives p ->
    m_read_idx c + Z.of_nat (length (p_data p)) < READ_BUFFER_SIZE ->
    exists v ks tl es', let e1 := read_env e p v ks tl in
      f_timer_flag v = 0 /\ table_inv (p_time p) e1 es' /\ e_data <$> es' ≡ₚ e_data <$> es /\
      forall ev c' g pool,
        threadpool.process_with_conn w false fd e1 = Ok (tt, served_env garbage ev e1 fd c' g pool) ->
        improv c' = f_improv v -> timer_flag c' = f_timer_flag v ->
        round p s = Ok (tt, {| threadpool.tp := threadpool.tp s;
                               threadpool.env := served_env garbage ev e1 fd (settled c') g pool |})
}.

(** ** The read *)

Lemma read_piece e fd k : in_table fd = true -> typed (user_at garbage e fd) ->
  HttpConn.m_TRIGMode (user_at garbage e fd) <> 0 -> after k = WouldBlock -> nonempty k ->
  m_read_idx (user_at garbage e fd) + Z.of_nat (length (all_data k)) < READ_BUFFER_SIZE ->
  exists k', read_user garbage fd (e <| socks := <[fd := k]> (socks e) |>) = Ok (true,
    e <| socks := <[fd := k]> (socks e) |>
      <| webserver.users := <[fd := ext (all_data k) (user_at garbage e fd)]> (webserver.users e) |>
      <| socks := <[fd := k']> (<[fd := k]> (socks e)) |>).
Proof.
  intros Hin Ht Hmode Ha Hne Hroom.
  destruct (read_once_extends (user_at garbage e fd) k Ht Hne Hmode Ha Hroom) as (k' & Hrun).
  exists k'. unfold read_user. rewrite Hin. st_step reflexivity. cbv zeta.
  cbn [socks set]. rewrite lookup_insert_eq. cbn [default id].
  change (user_at garbage (e <| socks := _ |>) fd) with (user_at garbage e fd). rewrite Hrun. reflexivity.
Qed.

(** The connection of a timer of the table. *)
Lemma timer_entry now e es fd : table_inv now e es -> fd ∈ e_data <$> es ->
  exists pre x post, es = pre ++ x :: post /\ e_data x = fd /\ in_table fd = true.
Proof.
  intros Hi (x & -> & Hx)%list_elem_of_fmap. pose proof (arrives_in_table now e es x Hi Hx) as Hin.
  apply list_elem_of_split in Hx as (pre & post & ->). by exists pre, x, post.
Qed.

Lemma moved_entries pre x post t : e_data <$> pre ++ insert_entry (with_expire x t) post ≡ₚ e_data <$> pre ++ x :: post.
Proof. by rewrite insert_entry_perm, !fmap_app. Qed.

#[global] Instance proactor_model m : m <> 1 -> EventModel m proactor_round.
Proof.
  intros Hm1. split. intros s max now es p e fd c Hm Hq Hi Hall Hnow Ht [Him Htf] Hmode (Hk & Hne & _) Hroom.
  destruct (timer_entry now e es fd Hi Hall) as (pre & x & post & -> & Ex & Hin).
  destruct (read_piece e fd (p_sock p) Hin Ht Hmode Hk Hne Hroom) as (k' & Hread). fold c in Hread.
  set (s0 := {| threadpool.tp := threadpool.tp s; threadpool.env := e <| socks := <[p_fd p := p_sock p]> (socks e) |> |}).
  pose proof (fun e1 => proactor_read mysql_query stat mmap garbage others me s0 m max now (p_time p) pre x post e1 Hm Hm1
    (table_inv_frame now e _ (webserver.users e) _ Hi) Hnow) as Hpr. rewrite Ex in Hpr.
  destruct (Hpr _ Hread (iq_takes _ _ _ Hq)) as (tl & Hrun & Hi1).
  assert (put_flags (flags_of c) (ext (p_data p) c) = ext (p_data p) c) as Ev by (by destruct c).
  exists (flags_of c), (<[fd := k']> (<[fd := p_sock p]> (socks e))), tl, (pre ++ insert_entry (with_expire x (p_time p + 3 * TIMESLOT)) post).
  cbv zeta. unfold read_env. fold fd c. rewrite Ev. split; [exact Htf|]. split; [exact Hi1|]. split; [apply moved_entries|].
  intros ev c' g pool Hserve Him' _. unfold proactor_round, brings. st_step reflexivity. fold e fd.
  change (s <| threadpool.env := _ |>) with s0. st_step (exact Hrun).
  assert (improv c' = 0) as Hq0 by (by rewrite Him'). rewrite (settled_id c' Hq0).
  apply (run_round_takes mysql_query stat mmap garbage w _ max m); [done|]. unfold threadpool.serve.
  rewrite (proj2 (Z.eqb_neq _ _) Hm1). exact Hserve.
Qed.

(** The worker of the reactor reads the data, and tells that it has. *)
Lemma reactor_reads e fd (k : socket) : in_table fd = true -> let c := user_at garbage e fd in
  typed c -> HttpConn.m_TRIGMode c <> 0 -> after k = WouldBlock -> nonempty k ->
  m_read_idx c + Z.of_nat (length (all_data k)) < READ_BUFFER_SIZE -> socks e !! fd = Some k ->
  let v := {| f_mysql := mysql c; f_state := 0; f_improv := 1; f_timer_flag := timer_flag c |} in
  exists k', let e1 := e <| webserver.users := <[fd := put_flags v (ext (all_data k) c)]> (webserver.users e) |>
      <| socks := <[fd := k']> (socks e) |> in
    forall e2, threadpool.process_with_conn w false fd e1 = Ok (tt, e2) ->
      threadpool.serve w false 1 fd (rq_set_state fd 0 e) = Ok (tt, e2).
Proof.
  intros Hin c Ht Hmode Ha Hne Hroom Hk v. set (c0 := c <| m_state := 0 |>).
  assert (user_at garbage (rq_set_state fd 0 e) fd = c0) as Hc0 by apply user_at_insert.
  assert (typed c0) as Ht0 by (by destruct Ht).
  assert ((rq_set_state fd 0 e) <| socks := <[fd := k]> (socks e) |> = rq_set_state fd 0 e) as Es.
  { rewrite insert_id by done. by destruct e. }
  destruct (read_piece (rq_set_state fd 0 e) fd k Hin) as (k' & Hread); rewrite ?Hc0; try done.
  change (socks (rq_set_state fd 0 e)) with (socks e) in Hread. rewrite Hc0, Es, (insert_id (socks e)) in Hread by done.
  exists k'. intros e1 e2 Hserve. unfold threadpool.serve. cbn [Z.eqb Pos.eqb]. st_step reflexivity.
  change (rq_state fd (rq_set_state fd 0 e)) with (m_state (user_at garbage (rq_set_state fd 0 e) fd)).
  rewrite Hc0. cbn [Z.eqb m_state c0 set]. st_step (exact Hread). cbv iota. st_step reflexivity.
  rewrite <- Hserve. f_equal. unfold e1. cbn [rq_set_improv requests conn_request]. unfold user_at at 1. cbn.
  rewrite lookup_insert_eq, !insert_insert_eq. reflexivity.
Qed.

#[global] Instance reactor_model : EventModel 1 reactor_round.
Proof.
  split. intros s max now es p e fd c Hm Hq Hi Hall Hnow Ht [Him Htf] Hmode (Hk & Hne & _) Hroom.
  destruct (timer_entry now e es fd Hi Hall) as (pre & x & post & -> & Ex & Hin).
  set (ek := e <| socks := <[fd := p_sock p]> (socks e) |>).
  pose proof (table_inv_frame now e _ (webserver.users e) (<[fd := p_sock p]> (socks e)) Hi) as Hik. change (table_inv now ek (pre ++ x :: post)) in Hik.
  pose proof (timer_of_open now ek _ x Hik ltac:(apply elem_of_app; right; left)) as Htm.
  destruct (traffic_run now (p_time p) ek pre x post Hik Hnow) as (et & Hmove & Hit & tl & ->).
  rewrite (ST_bind_step _ _ _ _ _ Htm) in Hmove. rewrite Ex in Htm.
  set (et := ek <| m_timer_lst := tl |>) in *.
  destruct (reactor_reads et fd (p_sock p)) as (k' & Hread); try done.
  { unfold et, ek. cbn. by rewrite lookup_insert_eq. }
  change (user_at garbage et fd) with c in Hread. set (v := {| f_mysql := _ |}) in Hread.
  exists v, (<[fd := k']> (socks et)), tl, (pre ++ insert_entry (with_expire x (p_time p + 3 * TIMESLOT)) post). cbv zeta.
  split; [exact Htf|]. split; [by eapply table_inv_same; [| |exact Hit]|]. split; [apply moved_entries|].
  intros ev c' g pool Hserve Him' Htf'. fold fd in Hserve. apply Hread in Hserve.
  unfold reactor_round, brings. st_step reflexivity. fold e fd.
  set (s0 := s <| threadpool.env := _ |>).
  refine (eq_trans (reactor_waits_for mysql_query stat mmap garbage me w s0 max (p_time p) fd _ et _ Hm Hq Hin Htm Hmove
    Hserve _ _) _); rewrite served_user; [by rewrite Him'|by rewrite Htf'|].
  unfold served_env. cbn. by rewrite insert_insert_eq.
Qed.

(** ** The work of the worker *)

(** What the loan of [con], the event loop and the data do to the connection, as
    an event of HttpResume. *)
Definition loan e (v : flags) (con : MYSQL) (data : list ascii) : event DB :=
  {| ev_flags := {| f_mysql := Some con; f_state := f_state v; f_improv := f_improv v; f_timer_flag := f_timer_flag v |};
     ev_glob := webserver.glob e; ev_data := data |}.

Lemma lent_event e e1 fd v con data :
  user_at garbage e1 fd = put_flags v (ext data (user_at garbage e fd)) -> webserver.glob e1 = webserver.glob e ->
  hs (lent garbage e1 fd con) =
    after_event (loan e v con data) {| conn := user_at garbage e fd; HttpRequest.glob := webserver.glob e |}.
Proof. intros Hc Hg. unfold lent, after_event. cbn [hs]. by rewrite Hc, Hg. Qed.

Notation run := (process_read mysql_query stat mmap w).

(** An incomplete request: the socket is armed for more data. *)
Lemma worker_waits e fd con l (h : hstate DB) : in_table fd = true -> free_conns e con l ->
  run (hs (lent garbage e fd con)) = Ok (NO_REQUEST, h) -> HttpRequest.glob h = webserver.glob e ->
  m_sokcfd (conn h) = m_sokcfd (user_at garbage e fd) ->
  HttpConn.m_TRIGMode (conn h) = HttpConn.m_TRIGMode (user_at garbage e fd) ->
  threadpool.process_with_conn w false fd e = Ok (tt, served_env garbage EPOLLIN e fd (conn h) (webserver.glob e) (l ++ [con])).
Proof.
  intros Hin Hfree Hrun Hg Hfd Hmode. rewrite <- Hg.
  apply (worker_process mysql_query stat mmap garbage w EPOLLIN e fd con l
    {| hs := h; HttpServe.m_user_count := webserver.m_user_count e; HttpServe.calls := webserver.calls e ++
      [EpollMod (m_sokcfd (user_at garbage e fd)) (mod_events EPOLLIN (HttpConn.m_TRIGMode (user_at garbage e fd)))] |});
    try done.
  unfold process. st_step (unfold on_hs; apply zoom_ok; exact Hrun). rewrite bool_decide_eq_true_2 by done.
  st_step reflexivity. unfold sys, modfd. cbn [hs set]. rewrite Hfd, Hmode. reflexivity.
Qed.

(** [process] only sees what [process_read] makes of the connection. *)
Lemma process_same_read (sv : server DB) h :
  run (hs sv) = run h ->
  process mysql_query stat mmap w sv = process mysql_query stat mmap w (sv <| hs := h |>).
Proof.
  intros H. unfold process. set (k := fun read_ret : HTTP_CODE => _).
  unfold mbind, ST_bind. unfold on_hs at 1 2, zoom. cbn [hs set]. rewrite H.
  destruct (run h) as [[]|]; [|done]. by destruct sv.
Qed.

(** A request that is complete, in a connection that [process_read] does not
    tell from [h]. *)
Lemma worker_answers_as e fd data path g' hs0 st con l (h : hstate DB) :
  let c := user_at garbage e fd in
  in_table fd = true -> free_conns e con l -> run (hs (lent garbage e fd con)) = run h ->
  has_request (conn h) data -> mysql (conn h) = Some con -> HttpRequest.glob h = webserver.glob e ->
  m_sokcfd (conn h) = m_sokcfd c -> HttpConn.m_TRIGMode (conn h) = HttpConn.m_TRIGMode c ->
  answers mysql_query stat mmap w con (doc_root (conn h)) data path (webserver.glob e) g' hs0 st ->
  exists c', threadpool.process_with_conn w false fd e = Ok (tt, served_env garbage EPOLLOUT e fd c' g' (l ++ [con])) /\
    holds_answer mmap c' path hs0 st /\ improv c' = improv (conn h) /\ timer_flag c' = timer_flag (conn h).
Proof.
  intros c Hin Hfree Hsame Hreq Hmy Hg Hfd Hmode Hans.
  set (sv := lent garbage e fd con) in *. pose (sv' := sv <| hs := h |>). destruct (Hans sv' Hreq eq_refl Hmy Hg)
    as (s' & Hrun & H1 & H2 & H3 & H4 & H5 & H6).
  unfold sv' in Hrun. rewrite <- (process_same_read _ _ Hsame) in Hrun. cbn [sv' hs set conn] in H1. rewrite Hfd, Hmode in H1.
  exists (conn (hs s')). split; [|by split_and!]. rewrite <- H3. by apply worker_process.
Qed.

Lemma delivered_request data (e : event DB) (s : hstate DB) : awaiting (conn s) -> Z.of_nat (length data) < READ_BUFFER_SIZE ->
  has_request (conn (delivered data e s)) data.
Proof.
  intros Haw Hd. assert (ext data (conn s) = with_request (conn s) data) as E.
  { destruct Haw as [_ _ (Hi & _) _ _ _]. unfold ext, with_request. by rewrite Hi. }
  change (conn (delivered data e s)) with (put_flags (ev_flags e) (ext data (conn s))). rewrite E.
  destruct (with_request_ready (conn s) data (f_state (ev_flags e)) (f_improv (ev_flags e)) (f_mysql (ev_flags e)) Haw Hd)
    as [[] [] ? ?]. by split.
Qed.

(** ** Many connections at once *)

Lemma awaiting_typed c : awaiting c -> typed c.
Proof.
  intros Haw. pose proof (awaiting_size _ Haw). destruct Haw as [[Hready Hfile _] Hb (H1 & H2 & H3) _ _ _].
  destruct Hready as (R1 & R2 & R3). split; try done; rewrite ?R1, ?R2, ?Hfile, ?length_replicate;
    unfold READ_BUFFER_SIZE, WRITE_BUFFER_SIZE, FILENAME_LEN in *; lia.
Qed.

Lemma awaiting_arrived c : awaiting c -> has_arrived c [].
Proof.
  intros Haw. pose proof (awaiting_size _ Haw) as Hb. pose proof (awaiting_typed _ Haw) as Hty.
  destruct Haw as [_ _ (Hi & Hc & Hs) Hst (Hl & _) _]. split; [exact Hty| |by rewrite Hi].
  split; cbn [drop length]; try done; [|lia]. unfold buf_wf. unfold READ_BUFFER_SIZE in *. lia.
Qed.

Section requests.
Context (round : piece -> ST (webserver.state DB) unit) (e0 : webserver.env DB) (q : threadpool.pool) (m max : Z) (con0 : MYSQL) (l0 : list MYSQL)
  (orders : gmap Z order).
Notation start fd := {| conn := user_at garbage e0 fd; HttpRequest.glob := webserver.glob e0 |}.
Notation mode fd := (HttpConn.m_TRIGMode (user_at garbage e0 fd)).

(** An open connection that waits for the request of its client. *)
Record expects (fd : Z) (r : order) : Prop := {
  ex_awaiting : awaiting (user_at garbage e0 fd);
  ex_fd : m_sokcfd (user_at garbage e0 fd) = fd;
  ex_mode : mode fd <> 0;
  ex_asks : asks stat (doc_root (user_at garbage e0 fd)) r;
  ex_length : Z.of_nat (length (o_text r)) < READ_BUFFER_SIZE
}.

(** The service after the pieces [ps]. *)
Definition served (ps : list piece) : service (DB := DB) :=
  service_after mysql_query (fun fd => doc_root (user_at garbage e0 fd)) (fun fd => mode fd)
    (sql_connection_pool.connList (m_connPool e0)) orders (webserver.glob e0) ps.

(** The answer [path] is in the buffers. *)
Definition has_answer (r : order) (path : list ascii) (c : http_conn) : Prop :=
  exists st, stat path = Some st /\ holds_answer mmap c path (o_headers r) st.

(** The connection after the pieces [ps]. *)
Definition conn_after (ps : list piece) (fd : Z) (r : order) (c : http_conn) : Prop :=
  quiet c /\
  match s_answers (served ps) !! fd with
  | Some path => has_answer r path c
  | None => pending mysql_query stat mmap w (start fd) (data_of fd ps) {| conn := c; HttpRequest.glob := webserver.glob e0 |}
  end.

(** The server after the pieces [ps]. *)
Record serving (ps : list piece) (now : Z) s : Prop := {
  sv_conns : forall fd r, orders !! fd = Some r -> conn_after ps fd r (user_at garbage (threadpool.env s) fd);
  sv_whole : forall fd r, orders !! fd = Some r -> is_Some (s_answers (served ps) !! fd) <-> data_of fd ps = o_text r;
  sv_others : forall fd, orders !! fd = None -> user_at garbage (threadpool.env s) fd = user_at garbage e0 fd;
  sv_queue : threadpool.tp s = q;
  sv_table : exists es, table_inv now (threadpool.env s) es /\
    forall fd, is_Some (orders !! fd) -> fd ∈ e_data <$> es;
  sv_calls : webserver.calls (threadpool.env s) = webserver.calls e0 ++ s_calls (served ps);
  sv_pool : m_connPool (threadpool.env s) = (m_connPool e0) <| sql_connection_pool.connList :=
    Nat.iter (length ps) turn (sql_connection_pool.connList (m_connPool e0)) |>;
  sv_globals : webserver.glob (threadpool.env s) = s_glob (served ps) /\
    webserver.m_user_count (threadpool.env s) = webserver.m_user_count e0 /\
    m_actormodel (threadpool.env s) = Some m
}.

Context `{!EventModel m round} (Hq : idle_queue q max m) (Hfree0 : free_conns e0 con0 l0)
  (Hlock0 : locker.m_mutex (m_lock (webserver.glob e0)) = None)
  (Hex : forall fd r, orders !! fd = Some r -> expects fd r).

(** The parser leaves the fields of the server alone. *)
Lemma pending_fields fd d c (g : globals DB) :
  pending mysql_query stat mmap w (start fd) d {| conn := c; HttpRequest.glob := g |} ->
  m_sokcfd c = m_sokcfd (user_at garbage e0 fd) /\ HttpConn.m_TRIGMode c = mode fd.
Proof. intros [_ (v & Hf) _ _]. cbn [conn] in Hf. unfold only_parse in Hf. rewrite Hf. by split. Qed.

Lemma pending_glob g' fd d c g :
  pending mysql_query stat mmap w (start fd) d {| conn := c; HttpRequest.glob := g |} ->
  pending mysql_query stat mmap w (start fd) d {| conn := c; HttpRequest.glob := g' |}.
Proof. intros Hp%(pending_touch _ _ _ _ (flags_of c) g'). by destruct c. Qed.

Lemma serving_free ps now s : serving ps now s ->
  exists con l, free_conns (threadpool.env s) con l /\ con = lender (sql_connection_pool.connList (m_connPool e0)) (served ps) /\
    l ++ [con] = Nat.iter (S (length ps)) turn (sql_connection_pool.connList (m_connPool e0)).
Proof.
  intros Hs. pose proof (sv_pool _ _ _ Hs) as Hp. destruct Hfree0 as (Hl & Hmu & Hsem). unfold free_conns, lender.
  unfold served. rewrite service_pieces, Hp, Hl.
  destruct (turns_cons (length ps) con0 l0) as (con & l & E). exists con, l.
  rewrite Nat.iter_succ, E. cbn [sql_connection_pool.connList set]. done.
Qed.

(** The round of one piece touches its own connection only. *)
Lemma serving_after ps now s p r v ks tl con l c' es' :
  let e := threadpool.env s in let fd := p_fd p in let e1 := read_env e p v ks tl in
  serving ps now s -> orders !! fd = Some r ->
  l ++ [con] = Nat.iter (S (length ps)) turn (sql_connection_pool.connList (m_connPool e0)) ->
  m_sokcfd (user_at garbage e fd) = fd -> HttpConn.m_TRIGMode (user_at garbage e fd) = mode fd ->
  table_inv (p_time p) e1 es' -> (forall fd, is_Some (orders !! fd) -> fd ∈ e_data <$> es') ->
  let whole := bool_decide (data_of fd (ps ++ [p]) = o_text r) in
  data_of fd ps <> o_text r -> conn_after (ps ++ [p]) fd r c' ->
  serving (ps ++ [p]) (p_time p) {| threadpool.tp := q; threadpool.env :=
    served_env garbage (if whole then EPOLLOUT else EPOLLIN) e1 fd c' (s_glob (served (ps ++ [p]))) (l ++ [con]) |}.
Proof.
  intros e fd e1 [Hconns Hwhole Hoth Htp Htab Hcalls Hpool (Hg & Hn & Hm)] Hr Hl Hcfd Hcm Hi Hall whole Hpart Hc'.
  pose proof (read_user_at e p v ks tl) as Hu1. fold fd e1 in Hu1.
  assert (forall fd', fd' <> fd -> user_at garbage e1 fd' = user_at garbage e fd') as Hu1' by apply read_others.
  assert (forall fd', fd' <> fd -> data_of fd' (ps ++ [p]) = data_of fd' ps /\
    s_answers (served (ps ++ [p])) !! fd' = s_answers (served ps) !! fd') as Hne'.
  { intros fd' Hne. rewrite data_of_snoc, decide_False, app_nil_r by done. split; [done|].
    unfold served. rewrite service_after_snoc. by apply takes_piece_others. }
  destruct (service_step mysql_query (fun fd => doc_root (user_at garbage e0 fd)) (fun fd => mode fd)
    (sql_connection_pool.connList (m_connPool e0)) orders (webserver.glob e0) ps p r Hr) as (_ & Sa & Sc).
  fold (served ps) (served (ps ++ [p])) fd whole in Sa, Sc.
  split; cbn [threadpool.env threadpool.tp]; try done.
  - intros fd' r' Hr'. destruct (decide (fd' = fd)) as [->|Hne].
    + rewrite served_user. by simplify_eq.
    + rewrite served_others, Hu1' by done. unfold conn_after. destruct (Hne' fd' Hne) as [-> ->]. by apply Hconns.
  - intros fd' r' Hr'. destruct (decide (fd' = fd)) as [->|Hne].
    + assert (r' = r) as -> by congruence. rewrite Sa. unfold whole. case_bool_decide as Ew; [by rewrite lookup_insert_eq|].
      by rewrite (Hwhole _ _ Hr').
    + destruct (Hne' fd' Hne) as [-> ->]. by apply Hwhole.
  - intros fd' Hr'. assert (fd' <> fd) by congruence. rewrite served_others, Hu1' by done. by apply Hoth.
  - exists es'. split; [|exact Hall]. by eapply table_inv_same; [| |exact Hi].
  - rewrite Sc. unfold served_env. cbn [webserver.calls set]. rewrite Hu1. unfold put_flags, ext, arrived.
    cbn [m_sokcfd HttpConn.m_TRIGMode set]. rewrite Hcfd, Hcm. unfold e1, read_env. cbn [webserver.calls set].
    fold e in Hcalls. by rewrite Hcalls, app_assoc.
  - unfold served_env. cbn [m_connPool set]. rewrite Hl. unfold e1, read_env. cbn [m_connPool set]. fold e in Hpool.
    rewrite Hpool, length_app, Nat.add_1_r. done.
Qed.

(** What the worker makes of the data, complete or not. *)
Lemma piece_served fd r d v data e e1 con l :
  orders !! fd = Some r -> let c := user_at garbage e fd in
  pending mysql_query stat mmap w (start fd) d {| conn := c; HttpRequest.glob := webserver.glob e |} ->
  fine_part r (d ++ data) -> in_table fd = true ->
  user_at garbage e1 fd = put_flags v (ext data c) -> f_timer_flag v = 0 ->
  webserver.glob e1 = webserver.glob e -> locker.m_mutex (m_lock (webserver.glob e)) = None -> free_conns e1 con l ->
  let o := outcome mysql_query (doc_root (user_at garbage e0 fd)) con (webserver.glob e) r in
  let whole := bool_decide (d ++ data = o_text r) in
  exists c', quiet (settled c') /\ improv c' = f_improv v /\ timer_flag c' = f_timer_flag v /\
    (if whole then has_answer r o.1 (settled c')
     else pending mysql_query stat mmap w (start fd) (d ++ data)
       {| conn := settled c'; HttpRequest.glob := webserver.glob e0 |}) /\
    threadpool.process_with_conn w false fd e1 =
      Ok (tt, served_env garbage (if whole then EPOLLOUT else EPOLLIN) e1 fd c'
        (if whole then o.2 else webserver.glob e) (l ++ [con])).
Proof.
  intros Hr c Hpend Hfine Hin Hu1 Htf Hg1 Hlock Hfree o whole.
  destruct (Hex fd r Hr) as [Haw Hfd Hmode Hasks Hlen]. pose proof (awaiting_arrived _ Haw) as Hbase.
  destruct (pending_fields _ _ _ _ Hpend) as (Hcfd & Hcm).
  assert (m_sokcfd (user_at garbage e1 fd) = fd /\ HttpConn.m_TRIGMode (user_at garbage e1 fd) = mode fd) as [Hf1 Hm1'].
  { rewrite Hu1. unfold put_flags, ext, arrived. cbn [m_sokcfd HttpConn.m_TRIGMode set]. by rewrite Hcfd, Hcm. }
  pose proof (lent_event e e1 fd v con data Hu1 Hg1) as Hlent. fold c in Hlent.
  assert (forall c', timer_flag c' = f_timer_flag v -> quiet (settled c')) as Hquiet by (intros c' E; by rewrite Htf in E).
  unfold whole. case_bool_decide as Eall.
  - destruct (order_answers mysql_query stat mmap w con _ r (webserver.glob e) Hasks Hlock) as (st & Hst & Hans). fold o in Hst, Hans.
    destruct Hpend as [Hres _ _ _]. specialize (Hres (loan e v con data)).
    cbn [ev_data loan] in Hres. rewrite Eall in Hres. specialize (Hres ltac:(lia)). rewrite <- Hlent in Hres.
    pose proof (delivered_request (o_text r) (loan e v con data) (start fd) Haw Hlen) as Hreq.
    set (h := delivered (o_text r) _ (start fd)) in *. rewrite <- Hg1 in Hans.
    destruct (worker_answers_as e1 fd (o_text r) o.1 o.2 (o_headers r) st con l h Hin Hfree Hres Hreq)
      as (c' & Hserve & Hhas & Him & Htf'); try done; [by rewrite Hf1|].
    exists c'. split_and!; [by apply Hquiet|done..|by exists st|done].
  - destruct Hfine as [|(d' & Hne & E)]; [done|]. destruct (asks_head _ _ _ Hasks) as (G1 & G2 & G3).
    pose proof (proj1 (o_text_head r [])) as Hle.
    destruct (pending_step mysql_query stat mmap w (start fd) (o_line r) (o_headers r) d d' _ (loan e v con data)
      Hbase Hpend G1 G2 G3 ltac:(unfold o_head in Hle; lia) E Hne) as ([ch gh] & Hrun & Hp1 & Hgh & [= _ _ Him Htf']).
    cbn [HttpRequest.glob ev_glob ev_data loan] in Hgh, Hp1. subst gh. rewrite <- Hlent in Hrun.
    destruct (pending_fields _ _ _ _ Hp1) as (Hhfd & Hhm). exists ch. split_and!; [by apply Hquiet|done..| |].
    + apply (pending_glob (webserver.glob e0)) in Hp1.
      exact (pending_touch mysql_query stat mmap w
        {| f_mysql := mysql ch; f_state := m_state ch; f_improv := 0; f_timer_flag := timer_flag ch |} _ _ _ _ Hp1).
    + rewrite <- Hg1 in Hrun |- *.
      apply (worker_waits e1 fd con l _ Hin Hfree Hrun); cbn [conn HttpRequest.glob]; [done|..].
      * by rewrite Hf1, Hhfd.
      * by rewrite Hm1', Hhm.
Qed.

Lemma serving_step ps now s p r : serving ps now s -> orders !! p_fd p = Some r -> gives p -> now <= p_time p ->
  well_cut (p_fd p) r (ps ++ [p]) ->
  exists s', round p s = Ok (tt, s') /\ serving (ps ++ [p]) (p_time p) s'.
Proof.
  intros Hs Hr Hp Hnow Hcut. pose proof Hp as (_ & _ & Hne). set (fd := p_fd p) in *. set (e := threadpool.env s).
  assert (data_of fd (ps ++ [p]) = data_of fd ps ++ p_data p) as Ed by (by rewrite data_of_snoc, decide_True).
  assert (fine_part r (data_of fd ps ++ p_data p)) as Hfine.
  { rewrite <- Ed. apply (Hcut _ []). by rewrite app_nil_r. }
  destruct (proj2 (o_text_head r (p_data p)) Hne) as [Hover1 Hover2].
  assert (data_of fd ps <> o_text r) as Hpart.
  { intros E. rewrite E in Hfine. destruct Hfine as [E'|(d' & _ & E')]; [by apply Hover1|].
    rewrite <- app_assoc in E'. by apply (Hover2 d'). }
  destruct (serving_free ps now s Hs) as (con & l & Hfree & Hcon & Hl). fold e in Hfree.
  pose proof Hs as [Hconns Hwhole _ Htp (es & Hi & Hall) _ _ (Hg & _ & Hm)].
  assert (pending mysql_query stat mmap w (start fd) (data_of fd ps)
    {| conn := user_at garbage e fd; HttpRequest.glob := webserver.glob e |}) as Hpend.
  { destruct (Hconns fd r Hr) as [_ Hc]. destruct (s_answers (served ps) !! fd) eqn:Ea; [|by eapply pending_glob].
    exfalso. by apply Hpart, (Hwhole fd r Hr). }
  assert (locker.m_mutex (m_lock (webserver.glob e)) = None) as Hlock.
  { unfold e. rewrite Hg. unfold served. by rewrite service_lock. }
  destruct (pending_fields _ _ _ _ Hpend) as (Hcfd & Hcm). destruct (Hex fd r Hr) as [Haw Hfd Hmode _ Hlen].
  destruct (timer_entry now e es fd Hi (Hall fd (mk_is_Some _ _ Hr))) as (_ & _ & _ & _ & _ & Hin).
  pose proof Hpend as [_ _ Ht Hrd]. cbn [conn] in Ht, Hrd.
  destruct (round_serves s max now es p)
    as (v & ks & tl & es' & Htf & Hi1 & Hperm & Hround); try done.
  { by rewrite Htp. }
  { by apply Hall. }
  { by apply (Hconns fd r). }
  { fold fd e. by rewrite Hcm. }
  { fold fd e. rewrite Hrd, <- Nat2Z.inj_add, <- length_app. by apply (fine_part_room r). }
  fold fd e in Hi1, Hround. set (e1 := read_env e p v ks tl) in *.
  destruct (piece_served fd r (data_of fd ps) v (p_data p) e e1 con l) as (c' & Hquiet & Him' & Htf' & Hc' & Hserve); try done.
  { apply read_user_at. }
  eexists. split; [exact (Hround _ _ _ _ Hserve Him' Htf')|]. rewrite Htp.
  destruct (service_step mysql_query (fun fd => doc_root (user_at garbage e0 fd)) (fun fd => mode fd)
    (sql_connection_pool.connList (m_connPool e0)) orders (webserver.glob e0) ps p r Hr) as (Sg & Sa & _).
  fold (served ps) (served (ps ++ [p])) fd in Sg, Sa. rewrite <- Hcon, Ed in Sg, Sa. fold e in Hg. rewrite <- Hg in Sg, Sa.
  rewrite <- Sg, <- Ed. eapply (serving_after ps now s p r v ks tl con l _ es'); try done.
  - fold fd e. by rewrite Hcfd.
  - intros fd' Hfd'. rewrite Hperm. by apply Hall.
  - fold fd. split; [exact Hquiet|]. rewrite Sa, Ed. case_bool_decide; [by rewrite lookup_insert_eq|].
    destruct (s_answers (served ps) !! fd) eqn:Ea; [|done]. exfalso. by apply Hpart, (Hwhole fd r Hr).
Qed.

Lemma serving_rounds rest : forall ps now s, serving ps now s ->
  Sorted Z.le (now :: map p_time rest) -> Forall (fun p => gives p /\ is_Some (orders !! p_fd p)) rest ->
  (forall fd r, orders !! fd = Some r -> well_cut fd r (ps ++ rest)) ->
  exists s', event_rounds round rest s = Ok (tt, s') /\ serving (ps ++ rest) (last_time now rest) s'.
Proof.
  induction rest as [|p rest IH]; intros ps now s Hs Hsort Hgive Hall.
  { exists s. rewrite app_nil_r. by split. }
  apply Sorted_inv in Hsort as [Hsort Hle]. apply HdRel_inv in Hle.
  apply Forall_cons in Hgive as [[Hp [r Hr]] Hgive].
  replace (ps ++ p :: rest) with ((ps ++ [p]) ++ rest) in * by (by rewrite <- app_assoc).
  destruct (serving_step ps now s p r Hs Hr Hp Hle) as (s1 & Hrun & Hs1).
  { intros ps1 ps2 E. apply (Hall _ _ Hr ps1 (ps2 ++ rest)). by rewrite E, app_assoc. }
  destruct (IH (ps ++ [p]) (p_time p) s1 Hs1 Hsort Hgive Hall) as (s' & Hruns & Hs').
  exists s'. split; [|exact Hs']. cbn [event_rounds]. by st_step (exact Hrun).
Qed.
End requests.

Lemma serving_start s m orders now es :
  let e := threadpool.env s in
  m_actormodel e = Some m -> table_inv now e es -> (forall fd r, orders !! fd = Some r -> expects e fd r) ->
  (forall fd, is_Some (orders !! fd) -> fd ∈ e_data <$> es) -> serving e (threadpool.tp s) m orders [] now s.
Proof.
  intros e Hm Hi Hex Hall. split; try done.
  - intros fd r Hr. destruct (Hex fd r Hr) as [Haw _ _ _ _]. split; [apply Haw|]. by apply pending_start, awaiting_arrived.
  - intros fd r Hr. split; [by intros []|]. intros E%(f_equal length). exfalso.
    rewrite (proj1 (o_text_head r [])) in E. unfold o_head, request_text in E. rewrite !length_app in E. simpl in E. lia.
  - by exists es.
  - cbn. by rewrite app_nil_r.
  - fold e. by destruct (m_connPool e).
Qed.

(** The server implements the service: after the pieces [ps] every request that
    the service has answered is answered with the same file, every other one is
    waited for, the globals and the system calls are those of the service, and
    nothing else has changed but the timers and the order of the MySQL
    connections. *)
Record implements s s' (orders : gmap Z order) (ps : list piece) (now : Z) : Prop := {
  im_conns fd r : orders !! fd = Some r ->
    conn_after (threadpool.env s) orders ps fd r (user_at garbage (threadpool.env s') fd);
  im_whole fd r : orders !! fd = Some r ->
    is_Some (s_answers (served (threadpool.env s) orders ps) !! fd) <-> data_of fd ps = o_text r;
  im_globals : webserver.glob (threadpool.env s') = s_glob (served (threadpool.env s) orders ps);
  im_calls : webserver.calls (threadpool.env s') =
    webserver.calls (threadpool.env s) ++ s_calls (served (threadpool.env s) orders ps);
  im_others fd : orders !! fd = None ->
    user_at garbage (threadpool.env s') fd = user_at garbage (threadpool.env s) fd;
  im_queue : threadpool.tp s' = threadpool.tp s;
  im_pool : m_connPool (threadpool.env s') = (m_connPool (threadpool.env s))
    <| sql_connection_pool.connList :=
         Nat.iter (length ps) turn (sql_connection_pool.connList (m_connPool (threadpool.env s))) |>;
  im_count : webserver.m_user_count (threadpool.env s') = webserver.m_user_count (threadpool.env s);
  im_table : exists es, table_inv (last_time now ps) (threadpool.env s') es /\
    forall fd, is_Some (orders !! fd) -> fd ∈ e_data <$> es
}.

(** In every event model. *)
Lemma serves_interleaved `{!EventModel m round} s max now es con l orders ps :
  let e := threadpool.env s in
  m_actormodel e = Some m -> idle_queue (threadpool.tp s) max m -> table_inv now e es -> free_conns e con l ->
  locker.m_mutex (m_lock (webserver.glob e)) = None ->
  (forall fd r, orders !! fd = Some r -> expects e fd r /\ fd ∈ e_data <$> es /\ well_cut fd r ps) ->
  Sorted Z.le (now :: map p_time ps) -> Forall (fun p => gives p /\ is_Some (orders !! p_fd p)) ps ->
  exists s', event_rounds round ps s = Ok (tt, s') /\ implements s s' orders ps now.
Proof.
  intros e Hm Hq Hi Hfree Hlock Hord Hsort Hgive.
  assert (forall fd r, orders !! fd = Some r -> expects e fd r) as Hex by (intros fd r Hr; by apply Hord).
  assert (forall fd, is_Some (orders !! fd) -> fd ∈ e_data <$> es) as Hall by (intros fd [r Hr]; by apply (Hord fd r)).
  destruct (serving_rounds round e (threadpool.tp s) m max con l orders Hq Hfree Hlock Hex ps [] now s)
    as (s' & Hrun & [Hc Hw Ho Htp Htab Hcalls Hpool (Hg & Hn & _)]); try done.
  - by eapply serving_start.
  - intros fd r Hr. by apply (Hord fd r).
  - exists s'. by split.
Qed.



End delivery.

(** ** The theorems at a server with two connections *)

Definition two_env (model : Z) : webserver.env unit := (request_env model)
  <| webserver.users := {[ 7 := (sample_conn []) <| HttpConn.m_TRIGMode := 1 |>;
                           8 := (sample_conn []) <| HttpConn.m_TRIGMode := 1 |> <| m_sokcfd := 8 |> ]} |>.
Definition two_server (model : Z) : webserver.state unit :=
  {| threadpool.tp := request_queue model; threadpool.env := two_env model |}.

(** The client at 7 registers, the one at 8 logs in under the new name. *)
Definition register_order : order :=
  {| o_line := register_line; o_headers := sample_form_headers; o_request := Register (lit "bob") (lit "pw") |}.
Definition login_order : order :=
  {| o_line := sample_form; o_headers := sample_form_headers; o_request := Login (lit "bob") (lit "pw") |}.
Definition sample_orders : gmap Z order := {[ 7 := register_order; 8 := login_order ]}.

Definition part (fd now : Z) (r : order) (from till : nat) : piece :=
  {| p_fd := fd; p_time := now; p_sock := {| after := WouldBlock;
       pieces := [take (till - from) (drop from (o_text r))] |} |}.

(** The two requests in turn, cut inside lines; the registration is the first to
    be complete. *)
Definition sample_pieces : list piece :=
  [part 7 12 register_order 0 30; part 8 12 login_order 0 3; part 8 13 login_order 3 31;
   part 7 14 register_order 30 2048; part 8 14 login_order 31 2048].

Lemma order_cases fd r : sample_orders !! fd = Some r -> (fd = 7 /\ r = register_order) \/ (fd = 8 /\ r = login_order).
Proof.
  unfold sample_orders. intros [[<- <-]|[_ [<- <-]%lookup_singleton_Some]]%lookup_insert_Some; [by left|by right].
Qed.

Lemma sample_pages pages : pages_readable sample_stat (lit "/srv/root") pages.
Proof.
  intros page _. exists {| st_mode := 33188; st_size := 12 |}. split_and!; by_eval.
Qed.

Lemma bob_logs_in : posts_form "2" (lit "/srv/root") sample_form sample_form_headers (lit "bob") (lit "pw").
Proof. destruct sample_posts as [? ? ? ? ? ?]. split; try done; split_and!; by_decide || by_eval. Qed.

Lemma sample_asks fd r : sample_orders !! fd = Some r -> asks sample_stat (lit "/srv/root") r.
Proof.
  intros [[-> ->]|[-> ->]]%order_cases; unfold asks; cbn.
  - split; [apply sample_registers|]. split; [apply sample_pages|lia].
  - split; [apply bob_logs_in|apply sample_pages].
Qed.

Lemma sample_expects model fd r : sample_orders !! fd = Some r -> expects sample_stat sample_garbage (two_env model) fd r.
Proof.
  intros Hr. pose proof (sample_asks fd r Hr) as Ha.
  apply order_cases in Hr as [[-> ->]|[-> ->]].
  - split; [split; [split|..]|..]; try exact Ha; by_eval || (split_and!; by_decide || by_eval).
  - split; [split; [split|..]|..]; try exact Ha; by_eval || (split_and!; by_decide || by_eval).
Qed.

Lemma sample_cut fd r : sample_orders !! fd = Some r -> well_cut fd r sample_pieces.
Proof. intros [[-> ->]|[-> ->]]%order_cases; apply well_cut_check; by_eval. Qed.

Lemma sample_clients model n fd r : sample_orders !! fd = Some r ->
  expects sample_stat sample_garbage (two_env model) fd r /\ fd ∈ sort_timer_lst.e_data <$> [timer7; timer8] /\
  well_cut fd r (take n sample_pieces).
Proof.
  intros Hr. split; [by apply sample_expects|]. split; [|by apply well_cut_take, sample_cut].
  apply order_cases in Hr as [[-> _]|[-> _]]; [by left|right; by left].
Qed.

Lemma sample_pieces_give : Forall (fun p => gives p /\ is_Some (sample_orders !! p_fd p)) sample_pieces.
Proof. repeat constructor; by_decide || by_eval || (eexists; by_eval). Qed.

Lemma two_table model : table_inv 10 (two_env model) [timer7; timer8].
Proof. eapply table_inv_same; [| |exact (request_table model)]; reflexivity. Qed.


