(* ===== verification/Clients.v ===== *)
(** * Clients: from the connection to the answer

    [dealclientdata] (src/ocean_http/webserver.cpp) accepts the clients that are
    pending on an edge-triggered listening socket; their requests then come in
    pieces, as in Delivery.v, under either event model. *)

From Stdlib Require Import Ascii String Sorted.
From S2P Require Import Prelude Locker LstTimer CStr HttpConn HttpRequest HttpHandler HttpResponse HttpServe.
From S2P Require Import SqlPool ThreadPool WebServer ServerTable.
From S2P Require Import HttpParse HttpTerm HttpResume HttpPieces EndToEnd Service Delivery.

Section clients.
Context {DB : Type}
  (mysql_query : option Z -> list ascii -> DB -> Z * DB)
  (stat : list ascii -> option file_stat)
  (mmap : list ascii -> Z -> faddr)
  (garbage : http_conn) (w : tid).
Implicit Types (e : webserver.env DB) (fd : Z) (s : webserver.state DB).
Import webserver sort_timer_lst.

(** What the constructor of the server leaves behind: a short root directory,
    and two [iovec]s in each connection of the array. *)
Record server_ready (mode cl slot : Z) e : Prop := {
  sr_setup : setup garbage mode cl slot e;
  sr_root : plain (m_root e) /\ Z.of_nat (length (m_root e)) + 14 < FILENAME_LEN;
  sr_iv : forall fd, length (m_iv (user_at garbage e fd)) = 2%nat
}.

(** A request that the server can serve below [root] and that fits in the buffer. *)
Definition may_order (root : list ascii) (r : order) : Prop :=
  asks stat root r /\ Z.of_nat (length (o_text r)) < READ_BUFFER_SIZE.

Lemma accepted_expects mode cl slot e e' cs fd r :
  server_ready mode cl slot e -> mode <> 0 -> all_accepted garbage e mode cs e' -> fd ∈ cs.*1 -> may_order (m_root e) r ->
  expects stat garbage e' fd r /\ doc_root (user_at garbage e' fd) = m_root e /\
  HttpConn.m_TRIGMode (user_at garbage e' fd) = mode.
Proof.
  intros [_ [Hp Hl] Hiv] Hmode Hacc Hfd [Hasks Hlen].
  destruct (aa_new _ _ _ _ _ Hacc fd Hfd) as (addr & cl' & sv & sv' & Ec & Hinit & Eu).
  destruct (init_awaiting sv sv' _ _ _ _ _ _ _ _ ltac:(rewrite Ec; apply Hiv) Hp Hl Hinit) as (Haw & Hf & Hm & Hr).
  split; [split|split]; rewrite ?Eu, ?Hf, ?Hm, ?Hr; done.
Qed.

End clients.

(** ** The theorem at a server with two pending clients *)

(** Three clients are pending: the two of Delivery.v, and one that gets a file. *)
Definition pending_env (model : Z) : webserver.env unit := idle_env
  <| webserver.m_actormodel := Some model |> <| webserver.m_COUNTrigmode := Some 1 |>
  <| webserver.accepts := [Some (7, 1); Some (8, 2); Some (9, 3); None] |>.

Definition pending_server (model : Z) : webserver.state unit :=
  {| threadpool.tp := request_queue model; threadpool.env := pending_env model |}.

Definition file_order : order :=
  {| o_line := sample_line; o_headers := sample_headers; o_request := GetFile |}.
Definition three_orders : gmap Z order := <[9 := file_order]> sample_orders.
Definition three_pieces : list piece :=
  part 9 12 file_order 0 12 :: sample_pieces ++ [part 9 15 file_order 12 2048].

Lemma pending_ready model : server_ready sample_garbage 1 0 5 (pending_env model).
Proof.
  split.
  - split; [done..|]. intros fd. unfold creds_fit, webserver.user_at. by_eval.
  - split; [by_decide|by_eval].
  - intros fd. by_eval.
Qed.

Lemma pending_table model : table_inv 10 (pending_env model) [].
Proof. split; [apply sort_timer_lst.inv_ctor|constructor..]. Qed.

Lemma three_cases fd r : three_orders !! fd = Some r ->
  (fd = 9 /\ r = file_order) \/ (fd = 7 /\ r = register_order) \/ (fd = 8 /\ r = login_order).
Proof. unfold three_orders. intros [[<- <-]|[_ Hr]]%lookup_insert_Some; [by left|right; by apply order_cases]. Qed.

Lemma three_clients fd r : three_orders !! fd = Some r ->
  fd ∈ [7; 8; 9] /\ may_order sample_stat (lit "/srv/root") r /\ well_cut fd r three_pieces.
Proof.
  intros [[-> ->]|[[-> ->]|[-> ->]]]%three_cases; (split; [by_decide|]; split; [split; [|by_eval]|apply well_cut_check; by_eval]).
  - exists {| st_mode := 33188; st_size := 12 |}. apply sample_gets.
  - by apply (sample_asks 7).
  - by apply (sample_asks 8).
Qed.

