(* ===== verification/ConsistentHash.v ===== *)
(** * ConsistentHash: the ring of ocean_im/oceanim/util/consistent_hash.h

    The [std::map] from hashes to virtual nodes is its list of pairs in the
    order of the keys.  The checksum [crc32c] of butil is a parameter.  The
    [assert] of [find] is compiled or not: [ndebug] is the macro of the build. *)

From Stdlib Require Import Ascii String.
From stdpp Require Import sorting.
From S2P Require Import Prelude CStr.

Record vnode_t := { node_id : Z; vnode_id : Z }.
#[export] Instance vnode_eq_dec : EqDecision vnode_t.
Proof. solve_decision. Defined.

Definition vnode0 : vnode_t := {| node_id := 0; vnode_id := 0 |}.

(** The bytes of an [int], and of the object: two of them. *)
Definition le32 (z : Z) : list Z :=
  (fun k => Z.land (Z.shiftr (to_u32 z) (8 * k)) 255) <$> [0; 1; 2; 3].
Definition vnode_bytes (v : vnode_t) : list Z := le32 (node_id v) ++ le32 (vnode_id v).

Definition SIZEOF_POINTER : Z := 8.

Section ring.
Context (crc32c : list Z -> Z).

(** [std::hash<vnode_t>]: as many bytes as a pointer has, which is the size of
    the object. *)
Definition hash (v : vnode_t) : Z := to_u32 (crc32c (take (Z.to_nat SIZEOF_POINTER) (vnode_bytes v))).

Definition ConsistentHash : Type := list (Z * vnode_t).
Implicit Types (r : ConsistentHash).

Definition ring0 : ConsistentHash := [].

(** An iterator is the key it stands at, or the end. *)
Definition iterator : Type := option Z.

Definition size r : Z := Z.of_nat (length r).
Definition empty r : bool := bool_decide (r = []).
Definition begin r : iterator := fst <$> head r.
Definition end_ r : iterator := None.
Definition rbegin r : iterator := fst <$> last r.
Definition rend r : iterator := None.

(** [emplace], [erase] and [lower_bound] of the map. *)
Fixpoint emplace (k : Z) (v : vnode_t) r : ConsistentHash * bool :=
  match r with
  | [] => ([(k, v)], true)
  | (k', v') :: r' =>
    if k <? k' then ((k, v) :: r, true)
    else if k =? k' then (r, false)
    else let '(r1, b) := emplace k v r' in ((k', v') :: r1, b)
  end.

Fixpoint erase_key (k : Z) r : ConsistentHash * Z :=
  match r with
  | [] => ([], 0)
  | (k', v') :: r' =>
    if k =? k' then (r', 1) else let '(r1, n) := erase_key k r' in ((k', v') :: r1, n)
  end.

Fixpoint lower_bound (h : Z) r : option (Z * vnode_t) :=
  match r with
  | [] => None
  | (k, v) :: r' => if k <? h then lower_bound h r' else Some (k, v)
  end.

Definition insert (v : vnode_t) r : (iterator * bool) * ConsistentHash :=
  let '(r', b) := emplace (hash v) v r in ((Some (hash v), b), r').

(** The iterator must be dereferenceable. *)
Definition earse_at (it : iterator) r : res ConsistentHash :=
  match it with
  | Some k => if bool_decide (k ∈ r.*1) then Ok (fst (erase_key k r)) else Halt Dangling
  | None => Halt Dangling
  end.

Definition earse (v : vnode_t) r : Z * ConsistentHash :=
  let '(r', n) := erase_key (hash v) r in (n, r').

Definition find (ndebug : bool) (h : Z) r : res Z :=
  if negb ndebug && negb (empty r) then Halt AssertFail
  else
    match lower_bound h r with
    | Some (_, v) => Ok (node_id v)
    | None => match head r with
              | Some (_, v) => Ok (node_id v)
              | None => Halt EmptyContainer
              end
    end.

(** ** [Describe] *)

Definition max_node_id r : Z := foldl (fun m kv => Z.max m (node_id (snd kv))) (-1) r.

(** [sums[i] += n] of an [int64_t] and a [size_t]. *)
Definition add_sum (i n : Z) (sums : list Z) : res (list Z) :=
  x ← rd sums i;
  wr sums i (to_long (to_u64 x + n)).

Fixpoint describe_loop (priv : Z) r (sums : list Z) : res (list Z) :=
  match r with
  | [] => Ok sums
  | (cur, v) :: r' =>
    sums ← add_sum (node_id v) (to_u32 (cur - priv)) sums;
    describe_loop cur r' sums
  end.

Definition node_text (i s : Z) : list ascii :=
  lit "node=" ++ dec i ++ lit "contains=" ++ dec s ++ lit " ".

Definition describe_sums r : res (list Z) :=
  if INT_MAX <? max_node_id r + 1 then Halt SignedOverflow
  else
    let sums := replicate (Z.to_nat (max_node_id r + 1)) 0 in
    match r, last r with
    | (first, v) :: r', Some (final, _) =>
      sums ← add_sum (node_id v) (to_u32 (UINT32_MAX - final + first)) sums;
      describe_loop first r' sums
    | _, _ => Halt EmptyContainer
    end.

Definition Describe r (os : list ascii) : res (list ascii) :=
  sums ← describe_sums r;
  Ok (os ++ mjoin (imap (fun i s => node_text (Z.of_nat i) s) sums) ++ [LF]).

(** [operator<<]. *)
Definition print_ring (os : list ascii) r : res (list ascii) := Describe r os.

(** ** The ring as a sorted list *)

Definition ring_wf r : Prop := StronglySorted (fun a b => fst a < fst b) r /\ Forall (fun kv => 0 <= fst kv <= UINT32_MAX) r.

(** The owner of a hash: the first virtual node at or behind it, around the ring. *)
Definition owner (h : Z) r : option (Z * vnode_t) :=
  match lower_bound h r with Some kv => Some kv | None => head r end.

Lemma hash_range v : 0 <= hash v <= UINT32_MAX.
Proof. pose proof (wrap_u_range 32 (crc32c (take (Z.to_nat SIZEOF_POINTER) (vnode_bytes v))) ltac:(lia)).
  unfold hash, to_u32, UINT32_MAX in *. lia. Qed.

Lemma emplace_spec k v r : StronglySorted (fun a b => fst a < fst b) r ->
  StronglySorted (fun a b => fst a < fst b) (fst (emplace k v r)) /\
  (forall kv, kv ∈ fst (emplace k v r) <-> kv ∈ r \/ (kv = (k, v) /\ k ∉ r.*1)) /\
  snd (emplace k v r) = bool_decide (k ∉ r.*1).
Proof.
  induction 1 as [|[k' v'] r Hs IH Hf]; cbn [emplace fst snd].
  - split_and!; [repeat constructor| |done]. intros kv. rewrite list_elem_of_singleton.
    split; [intros ->; right; split; [done|apply not_elem_of_nil]|by intros [?%elem_of_nil|[-> _]]].
  - pose proof Hf as Hf'. rewrite Forall_forall in Hf'. cbn [fst] in Hf'.
    destruct (Z.ltb_spec k k').
    + assert (k ∉ ((k', v') :: r).*1) as Hk.
      { rewrite fmap_cons, not_elem_of_cons. split; [simpl; lia|].
        intros (kv & -> & Hkv)%list_elem_of_fmap. apply Hf' in Hkv. lia. }
      cbn [fst snd]. split_and!.
      * constructor; [by constructor|]. constructor; [simpl; lia|].
        eapply Forall_impl; [exact Hf|]. simpl. lia.
      * intros kv. rewrite elem_of_cons. tauto.
      * by rewrite bool_decide_eq_true_2.
    + destruct (Z.eqb_spec k k') as [->|Hne].
      * cbn [fst snd]. split_and!; [by constructor| |].
        -- intros kv. split; [by left|]. intros [?|[-> []]]; [done|]. rewrite fmap_cons. by left.
        -- rewrite bool_decide_eq_false_2; [done|]. intros []. rewrite fmap_cons. by left.
      * destruct (emplace k v r) as [r1 b]. cbn [fst snd] in *. destruct IH as (IH1 & IH2 & IH3).
        assert (k ∉ ((k', v') :: r).*1 <-> k ∉ r.*1) as Hiff.
        { rewrite fmap_cons, not_elem_of_cons. cbn [fst]. tauto. }
        split_and!.
        -- constructor; [done|]. rewrite Forall_forall. intros kv [Hkv|[-> _]]%IH2; [by apply Hf'|simpl; lia].
        -- intros kv. rewrite !elem_of_cons, IH2, Hiff. tauto.
        -- rewrite IH3. by apply bool_decide_ext.
Qed.

Lemma erase_spec k r : StronglySorted (fun a b => fst a < fst b) r ->
  StronglySorted (fun a b => fst a < fst b) (fst (erase_key k r)) /\
  (forall kv, kv ∈ fst (erase_key k r) <-> kv ∈ r /\ kv.1 <> k) /\
  snd (erase_key k r) = (if bool_decide (k ∈ r.*1) then 1 else 0).
Proof.
  induction 1 as [|[k' v'] r Hs IH Hf]; cbn [erase_key].
  - split_and!; [constructor| |done]. intros kv. cbn [fst]. rewrite elem_of_nil. tauto.
  - pose proof Hf as Hf'. rewrite Forall_forall in Hf'. cbn [fst] in Hf'. rewrite fmap_cons.
    destruct (Z.eqb_spec k k') as [->|Hne]; cbn [fst snd].
    + split_and!; [done| |by rewrite bool_decide_eq_true_2 by left].
      intros kv. rewrite elem_of_cons. split.
      * intros Hkv. split; [by right|]. apply Hf' in Hkv. lia.
      * intros [[->|?] ?]; done.
    + destruct (erase_key k r) as [r1 n]. cbn [fst snd] in *. destruct IH as (IH1 & IH2 & IH3). split_and!.
      * constructor; [done|]. rewrite Forall_forall. intros kv [Hkv _]%IH2. by apply Hf'.
      * intros kv. rewrite !elem_of_cons, IH2. split; [|tauto]. intros [->|?]; [|tauto]. split; [by left|done].
      * rewrite IH3. rewrite (bool_decide_ext (k ∈ k' :: r.*1) (k ∈ r.*1)); [done|].
        rewrite elem_of_cons. tauto.
Qed.

(** [kv] owns the hash [h]: it is the nearest key at or above [h], or, when no
    key is that large, the smallest one. *)
Definition owns r (h : Z) (kv : Z * vnode_t) : Prop :=
  kv ∈ r /\
  ((h <= kv.1 /\ forall kv', kv' ∈ r -> h <= kv'.1 -> kv.1 <= kv'.1) \/
   ((forall kv', kv' ∈ r -> kv'.1 < h) /\ forall kv', kv' ∈ r -> kv.1 <= kv'.1)).

Lemma lower_bound_spec h r : StronglySorted (fun a b => fst a < fst b) r ->
  match lower_bound h r with
  | Some kv => kv ∈ r /\ h <= kv.1 /\ forall kv', kv' ∈ r -> h <= kv'.1 -> kv.1 <= kv'.1
  | None => forall kv', kv' ∈ r -> kv'.1 < h
  end.
Proof.
  induction 1 as [|[k v] r Hs IH Hf]; cbn [lower_bound]; [by intros kv' ?%elem_of_nil|].
  rewrite Forall_forall in Hf. cbn [fst] in Hf. destruct (Z.ltb_spec k h).
  - destruct (lower_bound h r) as [kv|].
    + destruct IH as (Hin & Hle & Hmin). split_and!; [by right|done|].
      intros kv' [->|?]%elem_of_cons Hh; [simpl in Hh; lia|by apply Hmin].
    + intros kv' [->|?]%elem_of_cons; [done|by apply IH].
  - split_and!; [by left|done|]. intros kv' [->|Hin]%elem_of_cons Hh; [done|]. apply Hf in Hin. simpl. lia.
Qed.

Lemma head_min r kv : StronglySorted (fun a b => fst a < fst b) r -> head r = Some kv ->
  kv ∈ r /\ forall kv', kv' ∈ r -> kv.1 <= kv'.1.
Proof.
  intros Hs Hh. destruct r as [|x r]; [done|]. injection Hh as ->. inversion Hs as [|? ? _ Hf]; subst.
  rewrite Forall_forall in Hf. split; [by left|]. intros kv' [->|Hin]%elem_of_cons; [done|]. apply Hf in Hin. lia.
Qed.

Lemma key_inj r kv kv' : StronglySorted (fun a b => fst a < fst b) r -> kv ∈ r -> kv' ∈ r -> kv.1 = kv'.1 -> kv = kv'.
Proof.
  induction 1 as [|x r Hs IH Hf]; [by intros ?%elem_of_nil|]. rewrite Forall_forall in Hf.
  intros [->|H1]%elem_of_cons [->|H2]%elem_of_cons E; try done.
  - apply Hf in H2. lia.
  - apply Hf in H1. lia.
  - by apply IH.
Qed.

Lemma owner_spec h r kv : StronglySorted (fun a b => fst a < fst b) r -> owner h r = Some kv <-> owns r h kv.
Proof.
  intros Hs. pose proof (lower_bound_spec h r Hs) as Hl. unfold owner, owns.
  destruct (lower_bound h r) as [kv0|].
  - destruct Hl as (Hin & Hle & Hmin). split.
    + intros [= <-]. split; [done|]. by left.
    + intros (Hkv & [[Hh Hm]|[Hall _]]).
      * f_equal. apply (key_inj r); try done. specialize (Hmin kv Hkv Hh). specialize (Hm kv0 Hin Hle). lia.
      * specialize (Hall kv0 Hin). lia.
  - split.
    + intros Hh. destruct (head_min r kv Hs Hh) as [? ?]. split; [done|]. by right.
    + intros (Hkv & [[Hh _]|[_ Hm]]); [specialize (Hl kv Hkv); lia|].
      destruct (head r) as [kv0|] eqn:E; [|destruct r; [by apply elem_of_nil in Hkv|done]].
      destruct (head_min r kv0 Hs E) as [Hin Hmin]. f_equal. apply (key_inj r); try done.
      specialize (Hmin kv Hkv). specialize (Hm kv0 Hin). lia.
Qed.

Lemma owner_some h r : r <> [] -> is_Some (owner h r).
Proof. intros Hr. unfold owner. destruct (lower_bound h r); [done|]. by destruct r. Qed.

Lemma owns_sub r r' h kv : (forall x, x ∈ r -> x ∈ r') -> kv ∈ r -> owns r' h kv -> owns r h kv.
Proof. intros Hsub Hkv (_ & [[H1 H2]|[H1 H2]]); (split; [done|]); [left|right]; auto. Qed.

(** ** Properties *)

(** C35: without the assertion [find] is the consistent hash: it returns the node
    of the one virtual node that owns the hash, the nearest at or above it,
    around the ring; and with the assertion it never returns for a ring that
    has a node. *)
Theorem find_owner h r :
  ring_wf r -> r <> [] ->
  (exists kv, find true h r = Ok (node_id kv.2) /\ owns r h kv /\ forall kv', owns r h kv' -> kv' = kv) /\
  find false h r = Halt AssertFail.
Proof.
  intros [Hs _] Hr. split.
  - destruct (owner_some h r Hr) as [kv Ho]. exists kv. split_and!.
    + unfold find, owner in *. cbn [negb andb]. destruct (lower_bound h r) as [[k v]|]; [by simplify_eq|].
      rewrite Ho. by destruct kv.
    + by apply owner_spec.
    + intros kv' Ho'%owner_spec; [|done]. congruence.
  - unfold find, empty. by rewrite bool_decide_eq_false_2.
Qed.

(** C36: inserting a virtual node keeps the ring ordered and moves hashes only to
    it: every hash keeps its owner or is owned by the new virtual node. *)
Theorem insert_moves_only_to_new v r it b r' h :
  ring_wf r -> r <> [] -> insert v r = ((it, b), r') ->
  ring_wf r' /\ b = bool_decide (hash v ∉ r.*1) /\
  (owner h r' = owner h r \/ owner h r' = Some (hash v, v)).
Proof.
  intros [Hs Hk] Hr Hins. destruct (emplace_spec (hash v) v r Hs) as (Hs' & Hin & Hb).
  unfold insert in Hins. destruct (emplace (hash v) v r) as [r1 b1]. simplify_eq. cbn [fst snd] in *.
  split_and!; [split; [done|]|done|].
  - rewrite Forall_forall in Hk |- *. intros kv [?|[-> _]]%Hin; [by apply Hk|]. apply hash_range.
  - assert (r' <> []) as Hr'.
    { intros ->. destruct r as [|x r]; [done|]. apply (not_elem_of_nil x), Hin. left. by left. }
    destruct (owner_some h r' Hr') as [kv Ho]. rewrite Ho. pose proof (proj1 (owner_spec h r' kv Hs') Ho) as Hkv.
    destruct (proj1 (Hin kv) (proj1 Hkv)) as [Hold|[-> _]]; [left|by right].
    symmetry. apply owner_spec; [done|]. eapply owns_sub; [|done|exact Hkv]. intros x Hx. apply Hin. by left.
Qed.

(** C37: removing a virtual node moves only its own hashes: the owner of every
    other hash stays; and removing what was just inserted restores the ring. *)
Theorem earse_moves_only_its_own v r n r' :
  ring_wf r -> earse v r = (n, r') ->
  ring_wf r' /\ n = (if bool_decide (hash v ∈ r.*1) then 1 else 0) /\
  (forall h kv, owner h r = Some kv -> kv.1 <> hash v -> owner h r' = Some kv) /\
  (hash v ∉ r.*1 -> earse v (snd (insert v r)) = (1, r)).
Proof.
  intros [Hs Hk] He. destruct (erase_spec (hash v) r Hs) as (Hs' & Hin & Hn).
  unfold earse in He. destruct (erase_key (hash v) r) as [r1 n1] eqn:Er. simplify_eq. cbn [fst snd] in *.
  split_and!; [split; [done|]|done| |].
  - rewrite Forall_forall in Hk |- *. intros kv [? _]%Hin. by apply Hk.
  - intros h kv Ho Hne. apply owner_spec in Ho; [|done]. apply owner_spec; [done|].
    assert (kv ∈ r') as Hkv by (apply Hin; split; [apply Ho|done]).
    eapply owns_sub; [|exact Hkv|exact Ho]. intros x [? _]%Hin. done.
  - intros Hv. unfold earse, insert. cbn [snd]. clear -Hv Hs. destruct (emplace (hash v) v r) as [r1 b] eqn:E.
    cbn [snd]. assert (erase_key (hash v) r1 = (r, 1)) as ->; [|done].
    revert r1 b E. induction r as [|[k w] r IH]; intros r1 b E; cbn [emplace] in E.
    + simplify_eq. simpl. by rewrite Z.eqb_refl.
    + rewrite fmap_cons, not_elem_of_cons in Hv. destruct Hv as [Hne Hv]. cbn [fst] in Hne.
      destruct (Z.ltb_spec (hash v) k).
      * simplify_eq. simpl. by rewrite Z.eqb_refl.
      * destruct (Z.eqb_spec (hash v) k); [done|]. destruct (emplace (hash v) v r) as [r2 b2] eqn:E2. simplify_eq.
        simpl. rewrite (proj2 (Z.eqb_neq _ _)) by done. inversion Hs; subst. by erewrite IH.
Qed.

(** ** The sums of [Describe] *)

(** The arcs of a ring in order, the first one closing it: [Describe] counts
    one hash less there than it has. *)
Fixpoint arcs_from (priv : Z) r : list (Z * Z) :=
  match r with [] => [] | (k, v) :: r' => (node_id v, k - priv) :: arcs_from k r' end.
Definition arcs r : list (Z * Z) :=
  match r, last r with
  | (k, v) :: r', Some (final, _) => (node_id v, UINT32_MAX - final + k) :: arcs_from k r'
  | _, _ => []
  end.

Definition share (i : Z) (l : list (Z * Z)) : Z := foldr (fun a s => if a.1 =? i then a.2 + s else s) 0 l.
Definition total (l : list (Z * Z)) : Z := foldr (fun a s => a.2 + s) 0 l.

Lemma arcs_from_total r : forall priv, total (arcs_from priv r) = match last r with Some (k, _) => k - priv | None => 0 end.
Proof.
  induction r as [|[k v] r IH]; intros priv; [done|]. cbn [arcs_from total foldr]. fold (total (arcs_from k r)).
  rewrite IH, last_cons. destruct (last r) as [[k' v']|]; simpl; lia.
Qed.

Lemma arcs_total r : r <> [] -> total (arcs r) = UINT32_MAX.
Proof.
  intros Hr. destruct r as [|[k v] r]; [done|]. unfold arcs. rewrite last_cons.
  pose proof (arcs_from_total r k) as Ht. destruct (last r) as [[k' v']|]; simpl; fold (total (arcs_from k r)); lia.
Qed.

Lemma max_node_id_spec r : forall m, foldl (fun m kv => Z.max m (node_id (snd kv))) m r >= m /\
  forall kv, kv ∈ r -> node_id kv.2 <= foldl (fun m kv => Z.max m (node_id (snd kv))) m r.
Proof.
  induction r as [|x r IH]; intros m; simpl; [split; [lia|by intros ? ?%elem_of_nil]|].
  destruct (IH (Z.max m (node_id x.2))) as [H1 H2]. split; [lia|].
  intros kv [->|?]%elem_of_cons; [lia|by apply H2].
Qed.

Lemma add_sum_ok i n sums x : 0 <= i -> sums !! Z.to_nat i = Some x -> 0 <= x -> 0 <= n -> x + n <= UINT32_MAX ->
  add_sum i n sums = Ok (<[Z.to_nat i := x + n]> sums).
Proof.
  intros Hi Hx H0 Hn Hmax. unfold add_sum. rewrite (proj2 (rd_lookup sums i x)) by done.
  cbn [mbind res_bind]. apply lookup_lt_Some in Hx. rewrite wr_ok by lia. do 2 f_equal.
  unfold to_long, to_u64, UINT32_MAX in *. rewrite wrap_u_id by lia. rewrite wrap_s_id by lia. done.
Qed.

(** What the sums are worth before the arcs [l] are added. *)
Definition sums_fit (sums : list Z) (l : list (Z * Z)) : Prop :=
  Forall (fun x => 0 <= x /\ x + total l <= UINT32_MAX) sums.

Lemma sums_fit_step sums i n l x : sums_fit sums ((i, n) :: l) -> sums !! Z.to_nat i = Some x -> 0 <= n -> 0 <= total l ->
  0 <= x /\ x + n <= UINT32_MAX /\ sums_fit (<[Z.to_nat i := x + n]> sums) l.
Proof.
  unfold sums_fit. cbn [total foldr snd]. fold (total l). intros Hf Hx Hn Hl.
  pose proof (Forall_lookup_1 _ _ _ _ Hf Hx) as Hx'. cbv beta in Hx'. split_and!; [lia|lia|].
  apply Forall_insert; [|lia]. eapply Forall_impl; [exact Hf|]. simpl. lia.
Qed.

Lemma arcs_from_total_nonneg r : forall priv, Sorted (fun a b => a < b) (priv :: r.*1) -> 0 <= total (arcs_from priv r).
Proof.
  induction r as [|[k v] r IH]; intros priv Hs; [done|]. cbn [arcs_from total foldr]. fold (total (arcs_from k r)).
  inversion Hs as [|? ? Hs' Hh]; subst. specialize (IH k Hs'). inversion Hh; subst. simpl in *. lia.
Qed.

Lemma describe_loop_spec r : forall priv sums,
  Sorted (fun a b => a < b) (priv :: r.*1) -> 0 <= priv -> Forall (fun kv => kv.1 <= UINT32_MAX) r ->
  Forall (fun kv => 0 <= node_id kv.2 < Z.of_nat (length sums)) r -> sums_fit sums (arcs_from priv r) ->
  exists sums', describe_loop priv r sums = Ok sums' /\ length sums' = length sums /\
    forall i : nat, sums' !! i = (fun x => x + share (Z.of_nat i) (arcs_from priv r)) <$> sums !! i.
Proof.
  induction r as [|[k v] r IH]; intros priv sums Hs Hp Hk Hn Hf.
  - exists sums. split_and!; [done..|]. intros i. cbn. destruct (sums !! i); simpl; [f_equal; lia|done].
  - inversion Hs as [|? ? Hs' Hh]; subst. inversion Hh as [|? ? Hlt]; subst. cbn [fst] in *.
    apply Forall_cons in Hk as [Hk1 Hk]. apply Forall_cons in Hn as [Hn1 Hn]. cbn [fst snd] in *.
    destruct (lookup_lt_is_Some_2 sums (Z.to_nat (node_id v))) as [x Hx]; [lia|].
    destruct (sums_fit_step _ _ _ _ x Hf Hx) as (H0 & Hmax & Hf'); [lia|by apply arcs_from_total_nonneg|].
    destruct (IH k (<[Z.to_nat (node_id v) := x + (k - priv)]> sums)) as (sums' & Hrun & Hlen & Hl); try done.
    { lia. } { by rewrite length_insert. }
    exists sums'. split_and!.
    + cbn [describe_loop]. rewrite to_u32_id by lia. rewrite (add_sum_ok _ _ _ x) by (done || lia). exact Hrun.
    + by rewrite Hlen, length_insert.
    + intros i. rewrite Hl. cbn [arcs_from share foldr fst snd]. fold (share (Z.of_nat i) (arcs_from k r)).
      destruct (decide (i = Z.to_nat (node_id v))) as [->|Hne].
      * rewrite list_lookup_insert_eq by (by eapply lookup_lt_Some). rewrite Hx. simpl.
        rewrite Z2Nat.id by lia. rewrite Z.eqb_refl. f_equal. lia.
      * rewrite list_lookup_insert_ne by done. rewrite (proj2 (Z.eqb_neq _ _)) by lia. done.
Qed.

Lemma max_node_id_range r : r <> [] -> Forall (fun kv => 0 <= node_id kv.2 < INT_MAX) r ->
  0 <= max_node_id r + 1 <= INT_MAX /\ Forall (fun kv => 0 <= node_id kv.2 < max_node_id r + 1) r.
Proof.
  intros Hr Hid. destruct (max_node_id_spec r (-1)) as [H1 H2]. fold (max_node_id r) in H1, H2.
  assert (max_node_id r < INT_MAX) as H3.
  { assert (forall m, m < INT_MAX -> foldl (fun m kv => Z.max m (node_id (snd kv))) m r < INT_MAX) as H.
    { clear -Hid. induction Hid as [|x l Hx Hl IH]; intros m Hm; [done|]. simpl. apply IH. lia. }
    apply H. unfold INT_MAX. lia. }
  split; [lia|]. rewrite Forall_forall in Hid |- *. intros kv Hkv. specialize (H2 kv Hkv). specialize (Hid kv Hkv). lia.
Qed.

Lemma ring_ends k v r final w : ring_wf ((k, v) :: r) -> last ((k, v) :: r) = Some (final, w) ->
  0 <= k <= final /\ final <= UINT32_MAX /\ Sorted (fun a b => a < b) (k :: r.*1).
Proof.
  intros [Hs Hk] El.
  assert ((final, w) ∈ (k, v) :: r) as Hw by (apply last_Some in El as (l' & ->); apply elem_of_app; right; left).
  destruct (head_min _ (k, v) Hs eq_refl) as [Hin0 Hmin]. specialize (Hmin _ Hw).
  rewrite Forall_forall in Hk. pose proof (Hk _ Hw). pose proof (Hk _ Hin0). cbn [fst] in *.
  split_and!; [lia..|]. apply StronglySorted_Sorted. clear -Hs. change (k :: r.*1) with (((k, v) :: r).*1).
  induction Hs as [|x l Hs IH Hf]; constructor; [done|]. by apply Forall_fmap.
Qed.

Lemma describe_sums_ok k v r final w :
  ring_wf ((k, v) :: r) -> last ((k, v) :: r) = Some (final, w) ->
  Forall (fun kv => 0 <= node_id kv.2 < INT_MAX) ((k, v) :: r) ->
  exists sums, describe_sums ((k, v) :: r) = Ok sums /\ Z.of_nat (length sums) = max_node_id ((k, v) :: r) + 1 /\
    forall i : nat, (i < length sums)%nat -> sums !! i = Some (share (Z.of_nat i) (arcs ((k, v) :: r))).
Proof.
  intros Hwf El Hid. destruct (ring_ends _ _ _ _ _ Hwf El) as (Hkf & Hfm & Hsort).
  destruct (max_node_id_range ((k, v) :: r)) as [Hmax Hin]; [done|done|]. set (len := Z.to_nat (max_node_id ((k, v) :: r) + 1)).
  assert (Z.of_nat len = max_node_id ((k, v) :: r) + 1) as Hlen by (unfold len; lia). rewrite <- Hlen in Hin.
  apply Forall_cons in Hin as [Hv Hin]. apply Forall_cons in Hid as [_ _]. cbn [snd] in Hv.
  assert (arcs ((k, v) :: r) = (node_id v, UINT32_MAX - final + k) :: arcs_from k r) as Harcs by (unfold arcs; by rewrite El).
  assert (replicate len 0 !! Z.to_nat (node_id v) = Some 0) as Hz by (apply lookup_replicate_2; lia).
  assert (sums_fit (replicate len 0) (arcs ((k, v) :: r))) as Hfit.
  { unfold sums_fit. rewrite arcs_total by done. apply Forall_replicate. lia. }
  rewrite Harcs in Hfit |- *.
  destruct (sums_fit_step _ _ _ _ 0 Hfit Hz) as (_ & Hm & Hfit'); [lia|by apply arcs_from_total_nonneg|].
  destruct (describe_loop_spec r k (<[Z.to_nat (node_id v) := 0 + (UINT32_MAX - final + k)]> (replicate len 0)) Hsort)
    as (sums & Hrun & Hls & Hl); [lia| |by rewrite length_insert, length_replicate|done|].
  { destruct Hwf as [_ Hk]. apply Forall_cons in Hk as [_ Hk]. eapply Forall_impl; [exact Hk|]. simpl. lia. }
  rewrite length_insert, length_replicate in Hls. exists sums. split_and!; [|by rewrite Hls|].
  - unfold describe_sums. rewrite (proj2 (Z.ltb_ge _ _)) by lia. rewrite El. fold len.
    rewrite to_u32_id by lia. rewrite (add_sum_ok _ _ _ 0) by (done || lia). exact Hrun.
  - intros i Hi. rewrite Hl. cbn [share foldr fst snd]. fold (share (Z.of_nat i) (arcs_from k r)).
    destruct (decide (i = Z.to_nat (node_id v))) as [->|Hne].
    + rewrite list_lookup_insert_eq by (rewrite length_replicate; lia). simpl.
      rewrite Z2Nat.id by lia. rewrite Z.eqb_refl. f_equal; lia.
    + rewrite list_lookup_insert_ne by done. rewrite lookup_replicate_2 by lia.
      rewrite (proj2 (Z.eqb_neq _ _)) by lia. done.
Qed.

(** [Describe] of a ring that has a node adds up, for every node, the arcs of
    its virtual nodes, without a store outside the array or an overflow; the
    shares of all nodes together are [UINT32_MAX], one less than the hashes. *)
Theorem describe_counts_arcs r os :
  ring_wf r -> r <> [] -> Forall (fun kv => 0 <= node_id kv.2 < INT_MAX) r ->
  exists sums, Z.of_nat (length sums) = max_node_id r + 1 /\
    (forall i : nat, (i < length sums)%nat -> sums !! i = Some (share (Z.of_nat i) (arcs r))) /\
    total (arcs r) = UINT32_MAX /\
    Describe r os = Ok (os ++ mjoin (imap (fun i s => node_text (Z.of_nat i) s) sums) ++ [LF]).
Proof.
  intros Hwf Hr Hid. pose proof (arcs_total r Hr) as Ht. destruct r as [|[k v] r]; [done|].
  destruct (last ((k, v) :: r)) as [[final w]|] eqn:El; [|by apply last_None in El].
  destruct (describe_sums_ok _ _ _ _ _ Hwf El Hid) as (sums & Hrun & Hlen & Hl).
  exists sums. split_and!; [done..|]. unfold Describe. by rewrite Hrun.
Qed.

(** An empty ring cannot be described: the first and the last of its entries
    are read. *)
Theorem describe_empty os : Describe [] os = Halt EmptyContainer.
Proof. done. Qed.
End ring.

(** ** A concrete ring, with the checksum that is the sum of the bytes *)

Definition sum_crc (bs : list Z) : Z := foldr Z.add 0 bs * 1000003.
Definition sample_ring : ConsistentHash := Eval vm_compute in
  snd (insert sum_crc {| node_id := 1; vnode_id := 5 |} (snd (insert sum_crc {| node_id := 0; vnode_id := 2 |} []))).

Lemma sample_ring_wf : ring_wf sample_ring.
Proof. split; [repeat constructor|apply (bool_decide_unpack _); vm_compute; exact I]. Qed.

Lemma find_owner_witness : exists kv : Z * vnode_t, find true 2500000 sample_ring = Ok (node_id kv.2) /\ node_id kv.2 = 1.
Proof.
  destruct (find_owner 2500000 sample_ring sample_ring_wf) as [(kv & Hf & Ho & _) _]; [done|].
  exists kv. split; [exact Hf|]. revert Hf. vm_compute. intros [= <-]. done.
Defined.

Definition node2 : vnode_t := {| node_id := 2; vnode_id := 1 |}.
Definition bigger_ring : ConsistentHash := Eval vm_compute in snd (insert sum_crc node2 sample_ring).
Definition smaller_ring : ConsistentHash := Eval vm_compute in
  snd (earse sum_crc {| node_id := 1; vnode_id := 5 |} sample_ring).

Lemma insert_moves_only_to_new_witness :
  ring_wf bigger_ring /\ owner 2500000 bigger_ring = Some (3000009, node2).
Proof.
  destruct (insert_moves_only_to_new sum_crc node2 sample_ring (Some 3000009) true bigger_ring 2500000 sample_ring_wf)
    as (Hwf & _ & _); [done|reflexivity|].
  split; [exact Hwf|reflexivity].
Defined.

Lemma earse_moves_only_its_own_witness :
  ring_wf smaller_ring /\ smaller_ring = [(2000006, {| node_id := 0; vnode_id := 2 |})].
Proof.
  destruct (earse_moves_only_its_own sum_crc {| node_id := 1; vnode_id := 5 |} sample_ring 1 smaller_ring sample_ring_wf)
    as (Hwf & _); [reflexivity|].
  split; [exact Hwf|reflexivity].
Defined.

Lemma describe_counts_arcs_witness : exists out, Describe sample_ring [] = Ok out /\ total (arcs sample_ring) = UINT32_MAX.
Proof.
  destruct (describe_counts_arcs sample_ring [] sample_ring_wf) as (sums & _ & _ & Ht & Hd); [done| |].
  - apply (bool_decide_unpack _); vm_compute; exact I.
  - eexists. split; [exact Hd|exact Ht].
Defined.
