(* ===== verification/NetLog.v ===== *)
(** * NetLog: the log of ocean_net/src/log.{h,cpp}

    Levels, events, the parser of the pattern, the format items, the appenders
    and the loggers.  The appenders are shared by pointers, so they live in a
    store; a formatter never changes after it was made and is a value.  The
    YAML library is a parameter, like the time functions and what a stream
    prints for a pointer. *)

From Stdlib Require Import Ascii String.
From S2P Require Import Prelude CStr.

Module oceanserver.

(** ** Levels and events *)

Inductive Level : Set := UNKNOWN | DEBUG | INFO | WARN | ERROR | FATAL.
#[export] Instance Level_eq_dec : EqDecision Level.
Proof. solve_decision. Defined.

Definition level_num (l : Level) : Z :=
  match l with UNKNOWN => 0 | DEBUG => 1 | INFO => 2 | WARN => 3 | ERROR => 4 | FATAL => 5 end.

Definition ToString (l : Level) : list ascii :=
  match l with
  | DEBUG => lit "DEBUG" | INFO => lit "INFO" | WARN => lit "WARN" | ERROR => lit "ERROR"
  | FATAL => lit "FATAL" | UNKNOWN => lit "UNKNOWN"
  end.

(** [m_content] is set by nothing; a logger is the address of its object. *)
Record LogEvent := {
  m_file : option (list ascii); m_line : Z; m_elapse : Z; m_threadId : Z; m_fiberId : Z; m_time : Z;
  m_threadName : list ascii; m_logger : option positive; m_event_level : Level; m_content : list ascii
}.

Definition new_event (logger : option positive) (level : Level) (file : option (list ascii))
    (line elapse thread_id fiber_id time : Z) (thread_name : list ascii) : LogEvent :=
  {| m_file := file; m_line := line; m_elapse := elapse; m_threadId := thread_id; m_fiberId := fiber_id;
     m_time := time; m_threadName := thread_name; m_logger := logger; m_event_level := level; m_content := [] |}.

(** ** The pattern *)

(** [s.substr(pos, n)]; the difference of two [size_t] wraps, and a length
    beyond the end means the rest. *)
Definition substr (s : list ascii) (pos n : Z) : res (list ascii) :=
  if Z.of_nat (length s) <? pos then Halt Thrown
  else Ok (take (Z.to_nat (Z.min (to_u64 n) (Z.of_nat (length s)))) (drop (Z.to_nat pos) s)).

(** A parsed piece: text or type, format, and 0 for text, 1 for an item. *)
Definition piece : Type := list ascii * list ascii * Z.

(** The inner [while]; nothing but the branch for ['{'] moves [n]. *)
Record scan := { s_n : Z; s_status : Z; s_begin : Z; s_str : list ascii; s_fmt : list ascii }.

Fixpoint scan_loop (fuel : nat) (p : list ascii) (i : Z) (s : scan) : res scan :=
  match fuel with
  | O => Halt Diverges
  | S fuel' =>
    if Z.of_nat (length p) <=? s_n s then Ok s
    else
      c ← rd p (s_n s);
      if isspace c then Ok s
      else if (s_status s =? 0) && bool_decide (c = "{"%char) then
        str ← substr p (i + 1) (s_n s - i);
        scan_loop fuel' p i {| s_n := s_n s + 1; s_status := 1; s_begin := s_n s + 1; s_str := str; s_fmt := s_fmt s |}
      else if (s_status s =? 1) && bool_decide (c = "}"%char) then
        fmt ← substr p (s_begin s + 1) (s_n s - s_begin s - 1);
        Ok {| s_n := s_n s; s_status := 2; s_begin := s_begin s; s_str := s_str s; s_fmt := fmt |}
      else scan_loop fuel' p i s
  end.

Definition scan_fuel (p : list ascii) : nat := S (S (length p)).

(** The text collected so far, as a piece if there is any. *)
Definition text_piece (vstr : list ascii) : list piece :=
  if bool_decide (vstr = []) then [] else [(vstr, [], 0)].

(** The [for]: at [i] with [vstr] collected and [vec] parsed. *)
Fixpoint init_loop (fuel : nat) (p : list ascii) (i : Z) (vstr : list ascii) (vec : list piece)
    : res (list piece) :=
  match fuel with
  | O => Halt Diverges
  | S fuel' =>
    if Z.of_nat (length p) <=? i then Ok (vec ++ text_piece vstr)
    else
      c ← rd p i;
      if bool_decide (c <> "%"%char) then init_loop fuel' p (i + 1) (vstr ++ [c]) vec
      else
        esc ← (if i + 1 <? Z.of_nat (length p) then c' ← rd p (i + 1); Ok (bool_decide (c' = "%"%char)) else Ok false);
        if esc : bool then init_loop fuel' p (i + 1) (vstr ++ ["%"%char]) vec
        else
          s ← scan_loop (scan_fuel p) p i {| s_n := i + 1; s_status := 0; s_begin := 0; s_str := []; s_fmt := [] |};
          if s_status s =? 0 then
            str ← substr p (i + 1) (s_n s - i - 1);
            init_loop fuel' p (s_n s + 1) vstr (vec ++ text_piece vstr ++ [(str, s_fmt s, 1)])
          else if s_status s =? 1 then
            _ ← substr p i (2 ^ 64 - 1);
            init_loop fuel' p (i + 1) vstr (vec ++ [(lit "<<pattern_error>>", s_fmt s, 0)])
          else if s_status s =? 2 then
            init_loop fuel' p (s_n s + 1) vstr (vec ++ text_piece vstr ++ [(s_str s, s_fmt s, 1)])
          else init_loop fuel' p (i + 1) vstr vec
  end.

(** [init()] builds the pieces and drops them: [m_items] stays as it was. *)
Definition init_pieces (p : list ascii) : res (list piece) := init_loop (S (length p)) p 0 [] [].

(** *** The pattern without indices

    What [init] makes of the text behind the position: it never gets past a
    percent sign that is followed by the letter of an item. *)
Definition error_piece : piece := (lit "<<pattern_error>>", [], 0).

Fixpoint pieces (vstr : list ascii) (vec : list piece) (l : list ascii) : res (list piece) :=
  match l with
  | [] => Ok (vec ++ text_piece vstr)
  | c :: r =>
    if bool_decide (c <> "%"%char) then pieces (vstr ++ [c]) vec r
    else
      match r with
      | [] => Ok ((vec ++ text_piece vstr ++ [([], [], 1)]) ++ text_piece vstr)
      | c1 :: r1 =>
        if bool_decide (c1 = "%"%char) then pieces (vstr ++ ["%"%char]) vec r
        else if isspace c1 then pieces vstr (vec ++ text_piece vstr ++ [([], [], 1)]) r1
        else if bool_decide (c1 = "{"%char) then
          match r1 with
          | [] => pieces vstr (vec ++ [error_piece]) r
          | c2 :: r2 =>
            if isspace c2 then pieces vstr (vec ++ [error_piece]) r
            else if bool_decide (c2 = "}"%char) then
              pieces vstr (vec ++ text_piece vstr ++ [(["{"%char], r2, 1)]) r2
            else Halt Diverges
          end
        else Halt Diverges
      end
  end.

Lemma substr_ok s a b pos n : s = a ++ b -> pos = Z.of_nat (length a) -> Z.of_nat (length s) < 2 ^ 63 -> 0 <= n < 2 ^ 64 ->
  substr s pos n = Ok (take (Z.to_nat n) b).
Proof.
  intros -> -> Hs Hn. unfold substr. rewrite length_app in *. rewrite (proj2 (Z.ltb_ge _ _)) by lia.
  rewrite Nat2Z.id, drop_app_length. unfold to_u64. rewrite wrap_u_id by done. f_equal.
  destruct (Z.min_spec n (Z.of_nat (length a + length b))) as [[_ ->]|[? ->]]; [done|].
  rewrite !take_ge; [done|lia..].
Qed.

(** A length of [size_t(-1)] means the rest. *)
Lemma substr_rest s a b pos : s = a ++ b -> pos = Z.of_nat (length a) -> Z.of_nat (length s) < 2 ^ 63 ->
  substr s pos (-1) = Ok b.
Proof.
  intros -> -> Hs. unfold substr. rewrite length_app in *. rewrite (proj2 (Z.ltb_ge _ _)) by lia.
  rewrite Nat2Z.id, drop_app_length. change (to_u64 (-1)) with (2 ^ 64 - 1). rewrite Z.min_r by lia.
  by rewrite take_ge by lia.
Qed.

(** A character that the scan cannot move past stops it for good. *)
Definition stuck (status : Z) (c : ascii) : bool :=
  negb (isspace c) && negb ((status =? 0) && bool_decide (c = "{"%char)) &&
  negb ((status =? 1) && bool_decide (c = "}"%char)).

Lemma scan_stuck p i s c : rd p (s_n s) = Ok c -> s_n s < Z.of_nat (length p) -> stuck (s_status s) c = true ->
  forall fuel, scan_loop fuel p i s = Halt Diverges.
Proof.
  intros Hc Hn Hs fuel. induction fuel as [|fuel IH]; [done|]. cbn [scan_loop].
  rewrite (proj2 (Z.leb_gt _ _)) by done. rewrite Hc. cbn [mbind res_bind].
  unfold stuck in Hs. apply andb_prop in Hs as [[H1 H2]%andb_prop H3].
  apply negb_true_iff in H1, H2, H3. by rewrite H1, H2, H3.
Qed.

Lemma scan_step fuel p i s c : rd p (s_n s) = Ok c -> s_n s < Z.of_nat (length p) ->
  scan_loop (S fuel) p i s =
    (if isspace c then Ok s
     else if (s_status s =? 0) && bool_decide (c = "{"%char) then
       str ← substr p (i + 1) (s_n s - i);
       scan_loop fuel p i {| s_n := s_n s + 1; s_status := 1; s_begin := s_n s + 1; s_str := str; s_fmt := s_fmt s |}
     else if (s_status s =? 1) && bool_decide (c = "}"%char) then
       fmt ← substr p (s_begin s + 1) (s_n s - s_begin s - 1);
       Ok {| s_n := s_n s; s_status := 2; s_begin := s_begin s; s_str := s_str s; s_fmt := fmt |}
     else scan_loop fuel p i s).
Proof.
  intros Hc Hn. cbn [scan_loop]. rewrite (proj2 (Z.leb_gt _ _)) by done. by rewrite Hc.
Qed.

Lemma scan_end fuel p i s : Z.of_nat (length p) <= s_n s -> scan_loop (S fuel) p i s = Ok s.
Proof. intros Hn. cbn [scan_loop]. by rewrite (proj2 (Z.leb_le _ _)) by done. Qed.

Definition scan0 (n : Z) : scan := {| s_n := n; s_status := 0; s_begin := 0; s_str := []; s_fmt := [] |}.

(** The scan behind a percent sign at [i], on the text [r] behind it. *)
Lemma scan_spec fuel pre r i :
  i = Z.of_nat (length pre) -> Z.of_nat (length (pre ++ "%"%char :: r)) < 2 ^ 63 -> head r <> Some "%"%char ->
  scan_loop (S (S fuel)) (pre ++ "%"%char :: r) i (scan0 (i + 1)) =
  match r with
  | [] => Ok (scan0 (i + 1))
  | c1 :: r1 =>
    if isspace c1 then Ok (scan0 (i + 1))
    else if bool_decide (c1 = "{"%char) then
      match r1 with
      | c2 :: r2 =>
        if isspace c2 then Ok {| s_n := i + 2; s_status := 1; s_begin := i + 2; s_str := ["{"%char]; s_fmt := [] |}
        else if bool_decide (c2 = "}"%char) then
          Ok {| s_n := i + 2; s_status := 2; s_begin := i + 2; s_str := ["{"%char]; s_fmt := r2 |}
        else Halt Diverges
      | [] => Ok {| s_n := i + 2; s_status := 1; s_begin := i + 2; s_str := ["{"%char]; s_fmt := [] |}
      end
    else Halt Diverges
  end.
Proof.
  intros -> Hlen Hhead. set (n := Z.of_nat (length pre)) in *. rewrite length_app in Hlen. cbn [length] in Hlen.
  destruct r as [|c1 r1]; [by apply scan_end; rewrite length_app; simpl; lia|].
  set (p := pre ++ "%"%char :: c1 :: r1). cbn [length] in Hlen.
  assert (Z.of_nat (length p) = n + 2 + Z.of_nat (length r1)) as Hp by (unfold p, n; rewrite length_app; simpl; lia).
  assert (rd p (n + 1) = Ok c1) as Hc1.
  { unfold p. rewrite app_snoc. apply rd_app. rewrite length_app. simpl. lia. }
  assert (forall pos m b a, p = a ++ b -> pos = Z.of_nat (length a) -> 0 <= m < 2 ^ 64 ->
    substr p pos m = Ok (take (Z.to_nat m) b)) as Hsub by (intros; eapply substr_ok; [done|done|lia|done]).
  rewrite (scan_step _ _ _ _ c1) by (done || (cbn; lia)). destruct (isspace c1) eqn:Es; [done|].
  cbn [s_status s_n scan0 Z.eqb andb]. case_bool_decide as Eb.
  2: { apply (scan_stuck p n (scan0 (n + 1)) c1); [done|cbn; lia|]. unfold stuck. rewrite Es. cbn.
       by rewrite bool_decide_eq_false_2. }
  rewrite (Hsub (n + 1) (n + 1 - n) (c1 :: r1) (pre ++ ["%"%char]));
    [|unfold p; by rewrite <- app_assoc|rewrite length_app; simpl; lia|lia].
  replace (Z.to_nat (n + 1 - n)) with 1%nat by lia. cbn [mbind res_bind take]. subst c1.
  replace (n + 1 + 1) with (n + 2) by lia. destruct r1 as [|c2 r2]; [apply scan_end; cbn [s_n length] in *; lia|].
  cbn [length] in Hlen, Hp.
  assert (rd p (n + 2) = Ok c2) as Hc2.
  { unfold p. change (pre ++ "%"%char :: "{"%char :: c2 :: r2) with (pre ++ ["%"%char; "{"%char] ++ c2 :: r2).
    rewrite app_assoc. apply rd_app. rewrite length_app. simpl. lia. }
  rewrite (scan_step _ _ _ _ c2) by (done || (cbn in *; lia)). destruct (isspace c2) eqn:Es2; [done|].
  cbn [s_status s_n s_begin s_str Z.eqb andb]. case_bool_decide as Eb2.
  2: { apply (scan_stuck p n _ c2); [done|cbn in *; lia|]. unfold stuck. rewrite Es2. cbn.
       by rewrite bool_decide_eq_false_2. }
  replace (n + 2 - (n + 2) - 1) with (-1) by lia.
  subst c2. rewrite (substr_rest p (pre ++ ["%"; "{"; "}"]%char) r2); [done| |rewrite length_app; cbn [length]; lia|lia].
  unfold p. by rewrite <- app_assoc.
Qed.

(** A percent sign, when the rest of the text is parsed as [pieces] says. *)
Lemma init_loop_percent fuel pre r vstr vec :
  Z.of_nat (length (pre ++ "%"%char :: r)) < 2 ^ 63 -> (length r < fuel)%nat ->
  (forall a r' v w, "%"%char :: r = a ++ r' -> (0 < length a)%nat ->
     init_loop fuel (pre ++ "%"%char :: r) (Z.of_nat (length pre) + Z.of_nat (length a)) v w = pieces v w r') ->
  init_loop (S fuel) (pre ++ "%"%char :: r) (Z.of_nat (length pre)) vstr vec = pieces vstr vec ("%"%char :: r).
Proof.
  intros Hlen Hf Hgo. pose proof Hlen as Hlen'. rewrite length_app in Hlen'. cbn [length] in Hlen'.
  cbn [init_loop]. rewrite (proj2 (Z.leb_gt _ _)) by (rewrite length_app; simpl; lia).
  rewrite (rd_app pre _ r _ eq_refl). cbn [mbind res_bind pieces]. rewrite bool_decide_eq_false_2 by (intros H; by apply H).
  set (n := Z.of_nat (length pre)) in *.
  assert (forall v w, init_loop fuel (pre ++ "%"%char :: r) (n + 1) v w = pieces v w r) as Hgo1
    by (intros; apply (Hgo ["%"%char] r); [done|simpl; lia]).
  assert ((if n + 1 <? Z.of_nat (length (pre ++ "%"%char :: r)) then c' ← rd (pre ++ "%"%char :: r) (n + 1);
            Ok (bool_decide (c' = "%"%char)) else Ok false) = Ok (bool_decide (head r = Some "%"%char))) as ->.
  { rewrite length_app. cbn [length]. destruct r as [|c1 r1]; cbn [length head].
    - rewrite (proj2 (Z.ltb_ge _ _)) by lia. done.
    - rewrite (proj2 (Z.ltb_lt _ _)) by lia. rewrite app_snoc, rd_app by (rewrite length_app; simpl; lia).
      cbn [mbind res_bind]. f_equal. apply bool_decide_ext. naive_solver. }
  cbn [mbind res_bind]. case_bool_decide as Eh.
  { destruct r as [|c1 r1]; [done|]. injection Eh as ->. rewrite Hgo1. by rewrite bool_decide_eq_true_2. }
  unfold scan_fuel. fold (scan0 (n + 1)). rewrite scan_spec by done.
  set (p := pre ++ "%"%char :: r) in *.
  assert (substr p (n + 1) (n + 1 - n - 1) = Ok []) as Hempty.
  { rewrite (substr_ok p (pre ++ ["%"%char]) r); [|unfold p; by rewrite <- app_assoc|
      rewrite length_app; simpl; lia|done|lia]. by replace (Z.to_nat (n + 1 - n - 1)) with 0%nat by lia. }
  assert (substr p n (2 ^ 64 - 1) = Ok ("%"%char :: r)) as Hrest by (by apply (substr_rest p pre)).
  destruct r as [|c1 r1]; cbn [mbind res_bind s_status s_n s_fmt scan0 Z.eqb].
  { rewrite Hempty. cbn [mbind res_bind]. destruct fuel as [|fuel]; [simpl in Hf; lia|]. cbn [init_loop].
    rewrite (proj2 (Z.leb_le _ _)); [done|]. unfold p. rewrite length_app. simpl. lia. }
  rewrite (bool_decide_eq_false_2 (c1 = "%"%char)) by (intros ->; by apply Eh).
  assert (forall v w, init_loop fuel p (n + 1 + 1) v w = pieces v w r1) as Hgo2.
  { intros v w. rewrite <- Z.add_assoc. by apply (Hgo ["%"%char; c1]); [|simpl; lia]. }
  destruct (isspace c1); cbn [mbind res_bind s_status s_n s_fmt scan0 Z.eqb].
  { rewrite Hempty. cbn [mbind res_bind]. apply Hgo2. }
  case_bool_decide as Eb; [|done]. destruct r1 as [|c2 r2]; cbn [mbind res_bind s_status s_n s_fmt Z.eqb Pos.eqb].
  { rewrite Hrest. cbn [mbind res_bind]. apply Hgo1. }
  destruct (isspace c2); cbn [mbind res_bind s_status s_n s_fmt Z.eqb Pos.eqb].
  { rewrite Hrest. cbn [mbind res_bind]. apply Hgo1. }
  case_bool_decide as Eb2; [|done]. cbn [mbind res_bind s_status s_n s_fmt s_str Z.eqb Pos.eqb].
  rewrite <- Z.add_assoc. by apply (Hgo ["%"%char; c1; c2]); [|simpl; lia].
Qed.

Lemma init_loop_pieces l : forall fuel pre i vstr vec,
  i = Z.of_nat (length pre) -> Z.of_nat (length (pre ++ l)) < 2 ^ 63 -> (length l < fuel)%nat ->
  init_loop fuel (pre ++ l) i vstr vec = pieces vstr vec l.
Proof.
  induction l as [l IH] using (induction_ltof1 _ (@length ascii)); unfold ltof in IH.
  intros fuel pre i vstr vec -> Hlen Hf. destruct fuel as [|fuel]; [lia|].
  pose proof Hlen as Hlen'. rewrite length_app in Hlen'. destruct l as [|c r].
  { cbn [init_loop pieces]. rewrite (proj2 (Z.leb_le _ _)); [done|]. rewrite length_app. simpl. lia. }
  cbn [length] in Hf, Hlen'.
  assert (forall a r' v w, c :: r = a ++ r' -> (0 < length a)%nat ->
    init_loop fuel (pre ++ c :: r) (Z.of_nat (length pre) + Z.of_nat (length a)) v w = pieces v w r') as Hgo.
  { intros a r' v w E Ha. rewrite E, app_assoc in *. apply IH; [|rewrite length_app; lia|done|].
    - rewrite length_app. lia.
    - apply (f_equal length) in E. rewrite length_app in E. cbn [length] in E. lia. }
  destruct (decide (c = "%"%char)) as [->|Hc]; [by apply init_loop_percent; [|lia|]|].
  cbn [init_loop]. rewrite (proj2 (Z.leb_gt _ _)) by (rewrite length_app; simpl; lia).
  rewrite (rd_app pre c r _ eq_refl). cbn [mbind res_bind pieces]. rewrite bool_decide_eq_true_2 by done.
  apply (Hgo [c]); [done|simpl; lia].
Qed.

(** ** Format items *)

Inductive FormatItem : Type :=
| MessageFormatItem | LevelFormatItem | ElapseFormatItem | NameFormatItem | ThreadIdFormatItem
| FiberIdFormatItem | NewLineFormatItem | DateTimeFormatItem (fmt : list ascii) | FilenameFormatItem
| LineFormatItem | TabFormatItem | ThreadNameFormatItem | StringFormatItem (s : list ascii).

Definition default_time : list ascii := lit "%Y-%m-%d %H:%M:%S.%e".

(** The constructors, with the argument they take. *)
Definition new_DateTimeFormatItem (fmt : list ascii) : FormatItem :=
  DateTimeFormatItem (if bool_decide (fmt = []) then default_time else fmt).

Section log.
Context
  (strftime : list ascii -> Z -> option (list ascii))   (* None: the text does not fit 64 bytes *)
  (show_pointer : option positive -> list ascii)
  (fopen : list ascii -> bool).

(** What an item prints.  Printing a null [const char *] is undefined, and the
    contents of the buffer are unspecified when [strftime] fails. *)
Definition item_format (it : FormatItem) (level : Level) (ev : LogEvent) : res (list ascii) :=
  match it with
  | MessageFormatItem => Ok (m_content ev)
  | LevelFormatItem => Ok (ToString level)
  | ElapseFormatItem => Ok (dec (m_elapse ev))
  | NameFormatItem => Ok (show_pointer (m_logger ev))
  | ThreadIdFormatItem => Ok (dec (m_threadId ev))
  | FiberIdFormatItem => Ok (dec (m_fiberId ev))
  | NewLineFormatItem => Ok [LF]
  | DateTimeFormatItem fmt => of_option Indeterminate (strftime fmt (m_time ev))
  | FilenameFormatItem => of_option NullDeref (m_file ev)
  | LineFormatItem => Ok (dec (m_line ev))
  | TabFormatItem => Ok [LF]
  | ThreadNameFormatItem => Ok (m_threadName ev)
  | StringFormatItem s => Ok s
  end.

Record LogFormatter := { m_pattern : list ascii; m_items : list FormatItem; m_error : bool }.

Definition new_LogFormatter (pattern : list ascii) : LogFormatter :=
  {| m_pattern := pattern; m_items := []; m_error := false |}.

Definition init (f : LogFormatter) : res LogFormatter := _ ← init_pieces (m_pattern f); Ok f.

(** The items are printed into a stream that is not returned. *)
Fixpoint print_items (its : list FormatItem) (level : Level) (ev : LogEvent) (ss : list ascii) : res (list ascii) :=
  match its with
  | [] => Ok ss
  | it :: its' => t ← item_format it level ev; print_items its' level ev (ss ++ t)
  end.

Definition format (f : LogFormatter) (level : Level) (ev : LogEvent) : res (list ascii) :=
  _ ← print_items (m_items f) level ev [];
  Ok [].

(** ** Appenders *)

(** [std::ofstream]: the file it has open, and whether a state bit is set. *)
Record ofstream := { f_open : option (list ascii); f_fail : bool }.

Inductive sink : Type :=
| Stdout
| File (m_filename : list ascii) (m_filestream : ofstream).

Record LogAppender := {
  m_level : Level; m_formatter : option LogFormatter; m_hasFormatter : bool; m_sink : sink
}.
#[global] Instance appender_settable : Settable LogAppender := fun a => {|
  m_level := m_level a; m_formatter := m_formatter a; m_hasFormatter := m_hasFormatter a; m_sink := m_sink a |}.

Definition new_appender (k : sink) : LogAppender :=
  {| m_level := DEBUG; m_formatter := None; m_hasFormatter := false; m_sink := k |}.
Definition new_StdoutLogAppender : LogAppender := new_appender Stdout.
Definition new_FileLogAppender (filename : list ascii) : LogAppender :=
  new_appender (File filename {| f_open := None; f_fail := false |}).

(** The members of [LogAppender] for its users. *)
Definition appender_setLogFormatter (v : option LogFormatter) (a : LogAppender) : LogAppender :=
  a <| m_formatter := v |>.
Definition appender_setLevel (v : Level) (a : LogAppender) : LogAppender := a <| m_level := v |>.

(** A logger; [Logger(name)] has an empty body. *)
Record Logger := {
  m_name : list ascii; m_log_level : option Level; m_appenders : list (option positive);
  m_log_formatter : option LogFormatter
}.
#[global] Instance logger_settable : Settable Logger := fun g => {|
  m_name := m_name g; m_log_level := m_log_level g; m_appenders := m_appenders g;
  m_log_formatter := m_log_formatter g |}.

Definition new_Logger (name : list ascii) : Logger :=
  {| m_name := []; m_log_level := None; m_appenders := []; m_log_formatter := None |}.

(** One logger, the store of the appenders, and what was printed. *)
Record world := {
  logger : Logger; store : gmap positive LogAppender; cout : list ascii; files : gmap (list ascii) (list ascii)
}.
#[global] Instance world_settable : Settable world := fun w => {|
  logger := logger w; store := store w; cout := cout w; files := files w |}.

Definition load (p : option positive) : ST world LogAppender := fun w =>
  match p with
  | None => Halt NullDeref
  | Some l => match store w !! l with Some a => Ok (a, w) | None => Halt Dangling end
  end.
Definition update (p : option positive) (a : LogAppender) : ST world unit := fun w =>
  match p with
  | None => Halt NullDeref
  | Some l => Ok (tt, w <| store := <[l := a]> (store w) |>)
  end.

(** [close()] of a stream that is not open fails; [open()] of one that is open
    fails, and one that succeeds clears the state and truncates the file. *)
Definition stream_close (s : ofstream) : ofstream :=
  match f_open s with
  | None => {| f_open := None; f_fail := true |}
  | Some _ => {| f_open := None; f_fail := f_fail s |}
  end.
Definition stream_open (name : list ascii) (s : ofstream) : ofstream :=
  match f_open s with
  | Some f => {| f_open := Some f; f_fail := true |}
  | None => if fopen name then {| f_open := Some name; f_fail := false |} else {| f_open := None; f_fail := true |}
  end.

(** [FileLogAppender::reopen]. *)
Definition reopen (p : option positive) : ST world bool :=
  a ← load p;
  match m_sink a with
  | Stdout => throw Dangling
  | File name s =>
    let s1 := if negb (f_fail s) then stream_close s else s in
    let s2 := stream_open name s1 in
    _ ← update p (a <| m_sink := File name s2 |>);
    _ ← (match f_open s1, f_open s2 with
         | None, Some f => modify (fun w => w <| files := <[f := []]> (files w) |>)
         | _, _ => mret tt
         end);
    mret (negb (f_fail s2))
  end.

(** [m_filestream << text]; an empty text leaves the stream alone. *)
Definition file_write (p : option positive) (text : list ascii) : ST world unit :=
  a ← load p;
  match m_sink a with
  | Stdout => throw Dangling
  | File name s =>
    if f_fail s || bool_decide (text = []) then mret tt
    else match f_open s with
         | Some f => modify (fun w => w <| files := <[f := default [] (files w !! f) ++ text]> (files w) |>)
         | None => update p (a <| m_sink := File name {| f_open := None; f_fail := true |} |>)
         end
  end.

(** [StdoutLogAppender::log] and [FileLogAppender::log]. *)
Definition appender_log (p : option positive) (level : Level) (ev : LogEvent) : ST world unit :=
  a ← load p;
  if level_num (m_level a) <=? level_num level then
    f ← lift (of_option NullDeref (m_formatter a));
    text ← lift (format f level ev);
    match m_sink a with
    | Stdout => modify (fun w => w <| cout := cout w ++ text |>)
    | File _ _ => file_write p text
    end
  else mret tt.

(** ** Loggers *)

Definition addAppender (p : option positive) : ST world unit :=
  a ← load p;
  w ← get;
  _ ← (match m_formatter a with
       | None => update p (a <| m_formatter := m_log_formatter (logger w) |>)
       | Some _ => mret tt
       end);
  modify (fun w => w <| logger := (logger w) <| m_appenders := m_appenders (logger w) ++ [p] |> |>).

(** [delAppender]: the first occurrence of the pointer. *)
Fixpoint remove_first (p : option positive) (l : list (option positive)) : list (option positive) :=
  match l with
  | [] => []
  | x :: l' => if bool_decide (x = p) then l' else x :: remove_first p l'
  end.
Definition delAppender (p : option positive) : ST world unit :=
  modify (fun w => w <| logger := (logger w) <| m_appenders := remove_first p (m_appenders (logger w)) |> |>).

Fixpoint give_formatter (f : option LogFormatter) (ps : list (option positive)) : ST world unit :=
  match ps with
  | [] => mret tt
  | p :: ps' =>
    a ← load p;
    _ ← (if m_hasFormatter a then mret tt else update p (a <| m_formatter := f |>));
    give_formatter f ps'
  end.

Definition setLogFormatter (f : option LogFormatter) : ST world unit :=
  _ ← modify (fun w => w <| logger := (logger w) <| m_log_formatter := f |> |>);
  w ← get;
  give_formatter f (m_appenders (logger w)).

Definition setLogPattern (val : list ascii) : ST world unit :=
  _ ← modify (fun w => w <| cout := cout w ++ lit "---" ++ val ++ [LF] |>);
  let new_val := new_LogFormatter val in
  if m_error new_val then
    modify (fun w => w <| cout := cout w ++ lit "Logger setFormatter name=" ++ m_name (logger w) ++
                          lit "value=" ++ val ++ lit "invalid formatter" ++ [LF] |>)
  else setLogFormatter (Some new_val).

Definition getLogFormatter : ST world (option LogFormatter) := gets (fun w => m_log_formatter (logger w)).

Definition setLogLevel (v : Level) : ST world unit :=
  modify (fun w => w <| logger := (logger w) <| m_log_level := Some v |> |>).

Fixpoint log_all (ps : list (option positive)) (level : Level) (ev : LogEvent) : ST world unit :=
  match ps with
  | [] => mret tt
  | p :: ps' => _ ← appender_log p level ev; log_all ps' level ev
  end.

Definition log (level : Level) (ev : LogEvent) : ST world unit :=
  w ← get;
  ml ← lift (of_option Indeterminate (m_log_level (logger w)));
  if level_num ml <=? level_num level then log_all (m_appenders (logger w)) level ev else mret tt.

Definition debug := log DEBUG.
Definition info := log INFO.
Definition warn := log WARN.
Definition error := log ERROR.
Definition fatal := log FATAL.

(** [toYamlString]; the library and the appenders' own texts are parameters. *)
Section yaml.
Context {Node : Type} (yaml_load : list ascii -> Node) (appender_yaml : LogAppender -> list ascii)
  (yaml_dump : list ascii -> option (list ascii) -> option (list ascii) -> list Node -> list ascii).

Fixpoint appender_nodes (ps : list (option positive)) : ST world (list Node) :=
  match ps with
  | [] => mret []
  | p :: ps' => a ← load p; ns ← appender_nodes ps'; mret (yaml_load (appender_yaml a) :: ns)
  end.

Definition toYamlString : ST world (list ascii) :=
  w ← get;
  ml ← lift (of_option Indeterminate (m_log_level (logger w)));
  ns ← appender_nodes (m_appenders (logger w));
  mret (yaml_dump (m_name (logger w)) (if bool_decide (ml = UNKNOWN) then None else Some (ToString ml))
          (m_pattern <$> m_log_formatter (logger w)) ns).
End yaml.

(** ** Lemmas *)

Lemma format_empty f level ev t : format f level ev = Ok t -> t = [].
Proof. unfold format. destruct (print_items _ _ _ _); [|done]. by intros [= <-]. Qed.

Lemma appender_log_same p level ev w w' : appender_log p level ev w = Ok (tt, w') -> w' = w.
Proof.
  unfold appender_log. intros H. apply ST_bind_ok in H as (a & w1 & Hl & H).
  assert (w1 = w) as ->.
  { unfold load in Hl. destruct p as [l|]; [|done]. destruct (store w !! l); by simplify_eq. }
  destruct (level_num (m_level a) <=? level_num level); [|by injection H].
  apply ST_bind_ok in H as (f & w2 & [_ ->]%lift_inv & H).
  apply ST_bind_ok in H as (text & w3 & [->%format_empty ->]%lift_inv & H).
  destruct (m_sink a) as [|name s] eqn:Es.
  - unfold modify in H. injection H as <-. destruct w. cbn. by rewrite app_nil_r.
  - unfold file_write in H. rewrite (ST_bind_step _ _ _ _ _ Hl), Es in H.
    rewrite (bool_decide_eq_true_2 ([] = [])), orb_true_r in H by done. by injection H.
Qed.

Lemma log_all_same ps level ev : forall w w', log_all ps level ev w = Ok (tt, w') -> w' = w.
Proof.
  induction ps as [|p ps IH]; intros w w' H; [by injection H|]. cbn [log_all] in H.
  apply ST_bind_ok in H as ([] & w1 & ->%appender_log_same & H). by apply IH.
Qed.

(** The appender at [p] is there and takes the formatter of its logger. *)
Definition takes_formatter (w : world) (p : option positive) : Prop :=
  exists l a, p = Some l /\ store w !! l = Some a /\ m_hasFormatter a = false.

Definition set_formatter (f : option LogFormatter) (a : LogAppender) : LogAppender := a <| m_formatter := f |>.

Lemma give_formatter_spec f ps : forall w, Forall (takes_formatter w) ps ->
  exists st, give_formatter f ps w = Ok (tt, w <| store := st |>) /\
    forall l, st !! l = (if bool_decide (Some l ∈ ps) then set_formatter f <$> store w !! l else store w !! l).
Proof.
  induction ps as [|p ps IH]; intros w Hps.
  - exists (store w). split; [by destruct w|]. intros l. by rewrite bool_decide_eq_false_2 by apply not_elem_of_nil.
  - apply Forall_cons in Hps as [(l & a & -> & Ha & Hf) Hps].
    set (w1 := w <| store := <[l := set_formatter f a]> (store w) |>).
    assert (Forall (takes_formatter w1) ps) as Hps1.
    { eapply Forall_impl; [exact Hps|]. intros p (l' & a' & -> & Ha' & Hf'). cbn.
      destruct (decide (l' = l)) as [->|Hne].
      - simplify_eq. exists l, (set_formatter f a). split_and!; [done| |done]. cbn. by rewrite lookup_insert_eq.
      - exists l', a'. cbn. by rewrite lookup_insert_ne. }
    destruct (IH w1 Hps1) as (st & Hrun & Hst). exists st. split.
    + cbn [give_formatter]. st_step (unfold load; rewrite Ha; reflexivity). rewrite Hf.
      st_step reflexivity. etransitivity; [exact Hrun|]. done.
    + intros l'. rewrite Hst. cbn [store set w1].
      destruct (decide (l' = l)) as [->|Hne].
      * rewrite lookup_insert_eq, (bool_decide_eq_true_2 (Some l ∈ Some l :: ps)) by left. rewrite Ha.
        by case_bool_decide.
      * rewrite lookup_insert_ne by done.
        rewrite (bool_decide_ext (Some l' ∈ Some l :: ps) (Some l' ∈ ps)); [done|].
        rewrite elem_of_cons. naive_solver.
Qed.

Lemma remove_first_snoc p l : p ∉ l -> remove_first p (l ++ [p]) = l.
Proof.
  induction l as [|x l IH]; simpl; [by rewrite bool_decide_eq_true_2|].
  rewrite not_elem_of_cons. intros [Hne Hl]. rewrite bool_decide_eq_false_2 by congruence. by rewrite IH.
Qed.

(** ** Properties *)

(** setting a formatter on a logger gives it to the logger and to every one
    of its appenders, shared or not, replacing the one an appender had of its
    own (nothing ever sets [m_hasFormatter]); other appenders, the levels, the
    files and the console are untouched. *)
Theorem set_formatter_reaches_all f w :
  Forall (takes_formatter w) (m_appenders (logger w)) ->
  exists w', setLogFormatter f w = Ok (tt, w') /\ getLogFormatter w' = Ok (f, w') /\
    m_appenders (logger w') = m_appenders (logger w) /\ m_log_level (logger w') = m_log_level (logger w) /\
    (forall l, Some l ∈ m_appenders (logger w) -> exists a, store w !! l = Some a /\
       store w' !! l = Some (set_formatter f a)) /\
    (forall l, Some l ∉ m_appenders (logger w) -> store w' !! l = store w !! l) /\
    cout w' = cout w /\ files w' = files w.
Proof.
  intros Hps. set (w1 := w <| logger := (logger w) <| m_log_formatter := f |> |>).
  destruct (give_formatter_spec f (m_appenders (logger w)) w1) as (st & Hrun & Hst); [exact Hps|].
  exists (w1 <| store := st |>). split.
  { unfold setLogFormatter. st_step reflexivity. st_step reflexivity. exact Hrun. }
  split_and!; try done.
  - intros l Hl. rewrite Forall_forall in Hps. destruct (Hps _ Hl) as (l' & a & [= <-] & Ha & _).
    exists a. split; [done|]. cbn [store set]. rewrite Hst, bool_decide_eq_true_2 by done. cbn. by rewrite Ha.
  - intros l Hl. cbn [store set]. by rewrite Hst, bool_decide_eq_false_2.
Qed.

(** An appender that has no formatter takes the logger's when it is added; and
    removing it again leaves the appenders as they were. *)
Theorem add_del_appender w l a :
  store w !! l = Some a -> Some l ∉ m_appenders (logger w) ->
  exists w1 w2, addAppender (Some l) w = Ok (tt, w1) /\ delAppender (Some l) w1 = Ok (tt, w2) /\
    m_appenders (logger w1) = m_appenders (logger w) ++ [Some l] /\
    (exists a', store w1 !! l = Some a' /\
       m_formatter a' = match m_formatter a with Some f => Some f | None => m_log_formatter (logger w) end) /\
    logger w2 = logger w.
Proof.
  intros Ha Hl. destruct (m_formatter a) as [f|] eqn:Ef.
  - eexists _, _. split; [|split; [reflexivity|]].
    { unfold addAppender. st_step (unfold load; rewrite Ha; reflexivity). st_step reflexivity. rewrite Ef.
      st_step reflexivity. reflexivity. }
    cbn. rewrite remove_first_snoc by done. split_and!; [done|by exists a|by destruct (logger w)].
  - eexists _, _. split; [|split; [reflexivity|]].
    { unfold addAppender. st_step (unfold load; rewrite Ha; reflexivity). st_step reflexivity. rewrite Ef.
      st_step reflexivity. reflexivity. }
    cbn. rewrite remove_first_snoc by done. split_and!; [done| |by destruct (logger w)].
    eexists. split; [apply lookup_insert_eq|done].
Qed.

(** A call of [log] that returns has printed nothing, neither on the console
    nor into a file: [format] returns an empty string. *)
Theorem log_prints_nothing level ev w w' : log level ev w = Ok (tt, w') -> w' = w.
Proof.
  unfold log. intros H. apply ST_bind_ok in H as (? & ? & [= <- <-] & H).
  apply ST_bind_ok in H as (ml & ? & [_ ->]%lift_inv & H).
  destruct (level_num ml <=? level_num level); [by apply log_all_same in H|by injection H].
Qed.

(** A logger as it is constructed has no level to compare with. *)
Theorem log_before_level name level ev w : logger w = new_Logger name -> log level ev w = Halt Indeterminate.
Proof. intros Hw. unfold log. st_step reflexivity. by rewrite Hw. Qed.

(** [reopen] of a stream without an error reports whether the file could be
    opened, and truncates it; a failed stream that is still open stays failed. *)
Theorem reopen_result w l a name s :
  store w !! l = Some a -> m_sink a = File name s ->
  exists w', reopen (Some l) w = Ok (if f_fail s && bool_decide (is_Some (f_open s)) then false else fopen name, w') /\
    files w' = (if negb (f_fail s && bool_decide (is_Some (f_open s))) && fopen name
                then <[name := []]> (files w) else files w).
Proof.
  intros Ha Hs. unfold reopen. destruct s as [o b].
  rewrite (ST_bind_step _ _ w a w) by (unfold load; by rewrite Ha). rewrite Hs. cbn [f_fail f_open].
  destruct b, o as [g|]; cbn [negb stream_close f_open f_fail stream_open andb];
    rewrite ?(bool_decide_eq_true_2 (is_Some (Some g))) by done;
    rewrite ?(bool_decide_eq_false_2 (is_Some None)) by (by intros [? ?]);
    try destruct (fopen name) eqn:Ef; eexists; (split; [reflexivity|reflexivity]).
Qed.

(** C40: the parser of the pattern, with its indices and its two loops, computes
    [pieces]: text is collected, a percent sign followed by a percent sign, a
    space or a brace is treated as [pieces] says, and the pattern of any item
    makes it loop for ever. *)
Theorem init_pieces_equiv p :
  Z.of_nat (length p) < 2 ^ 63 -> init_pieces p = pieces [] [] p.
Proof. intros Hp. apply (init_loop_pieces p _ []); [done|done|lia]. Qed.
End log.

(** A percent sign with the letter of an item: the inner loop never ends,
    whatever its fuel. *)
Theorem item_scan_diverges fuel pre c post :
  isspace c = false -> c <> "{"%char -> 
  scan_loop fuel (pre ++ "%"%char :: c :: post) (Z.of_nat (length pre)) (scan0 (Z.of_nat (length pre) + 1)) =
    Halt Diverges.
Proof.
  intros Hc Hb. apply (scan_stuck _ _ _ c).
  - rewrite app_snoc. apply rd_app. rewrite length_app. simpl. lia.
  - rewrite length_app. simpl. lia.
  - unfold stuck. rewrite Hc. cbn. by rewrite bool_decide_eq_false_2.
Qed.

Lemma init_pieces_equiv_witness : init_pieces (lit "100 % done %{} %m") = Halt Diverges /\
  init_pieces (lit "done %{}!") = Ok [(lit "done ", [], 0); (lit "{", lit "!", 1); (lit "done !", [], 0)].
Proof. split; rewrite init_pieces_equiv by done; vm_compute; reflexivity. Defined.

Definition sample_world : world := {|
  logger := {| m_name := []; m_log_level := Some INFO; m_appenders := [Some 1%positive]; m_log_formatter := None |};
  store := {[ 1%positive := new_StdoutLogAppender ]}; cout := []; files := ∅ |}.

Lemma set_formatter_reaches_all_witness :
  exists w', setLogFormatter (Some (new_LogFormatter (lit "%m"))) sample_world = Ok (tt, w') /\
    getLogFormatter w' = Ok (Some (new_LogFormatter (lit "%m")), w').
Proof.
  destruct (set_formatter_reaches_all (Some (new_LogFormatter (lit "%m"))) sample_world) as (w' & Hrun & Hget & _).
  - apply Forall_singleton. exists 1%positive, new_StdoutLogAppender. split_and!; reflexivity.
  - exists w'. split; [exact Hrun|exact Hget].
Defined.
End oceanserver.
