(* ===== verification/Dbproxy.v ===== *)
(** * Dbproxy: ocean_im/oceanim/server/dbproxy/dbproxy_service.{h,cpp}

    The handlers of the database proxy: what they ask of redis and of the SQL
    database, and what they answer.  The two clients (brpc and soci) are third
    parties: interfaces, with their documented behaviour as laws.  A handler's
    [ClosureGuard] runs the caller's closure when the handler ends. *)

From Stdlib Require Import Ascii String.
From S2P Require Import Prelude CStr.

Definition EINVAL : Z := 22.
Definition kConnectNumEachDb : nat := 10.

(** ** The interfaces *)

(** An argument of a format. *)
Inductive fmt_arg : Type := ALong (z : Z) | AStr (s : list ascii).

Inductive reply : Type :=
| RString (s : list ascii)      (* a string or a status *)
| RArray (l : list reply)
| RInteger (z : Z)
| RNil
| RError (s : list ascii).

Definition is_string (r : reply) : bool := match r with RString _ => true | _ => false end.
Definition is_array (r : reply) : bool := match r with RArray _ => true | _ => false end.

(** [RedisReply::size()], as its header documents it. *)
Definition reply_size (r : reply) : Z :=
  match r with RArray l => Z.of_nat (length l) | RString s => Z.of_nat (length s) | _ => 0 end.

(** [reply[i]]: nil when there is no such element. *)
Definition reply_at (r : reply) (i : nat) : reply :=
  match r with RArray l => default RNil (l !! i) | _ => RNil end.

(** A request is a command by its words, or empty when the command could not
    be formatted.  A call fails with a code and a text, or has a reply. *)
Definition command : Type := option (list (list ascii)).
Class Redis (R : Type) := {
  AddCommand : list ascii -> list fmt_arg -> command;
  CallMethod : command -> R -> ((Z * list ascii) + reply) * R
}.

(** Values bound to a statement, columns of a row, and exceptions. *)
Inductive value : Type := VInt (z : Z) | VStr (s : list ascii).
Inductive cell : Type := CInt (z : Z) | CStr (s : list ascii) | CNull.
Inductive exn : Set := SociError | OtherException.

(** What a query of three columns leaves in the variables it was given: the
    indicator of the first (none when it was not set) and their values. *)
Record into3 := { i_ind : option bool; i_msg_id : Z; i_client_time : Z; i_msg_time : Z }.

Inductive pool_id : Set := MessagePool | GroupMembersPool.
#[export] Instance pool_id_eq_dec : EqDecision pool_id.
Proof. solve_decision. Defined.

Class Soci (D : Type) := {
  sql_exec : pool_id -> list ascii -> list value -> D -> option exn * D;
  sql_rows : pool_id -> list ascii -> list value -> D -> (exn + list (list cell)) * D;
  sql_into : pool_id -> list ascii -> list value -> D -> (exn + into3) * D
}.

(** [row.get<long long>(i)], [row.get<std::string>(i)]: a null is a soci error,
    another type or a missing column another exception. *)
Definition get_int (r : list cell) (i : nat) : exn + Z :=
  match r !! i with Some (CInt z) => inr z | Some CNull => inl SociError | _ => inl OtherException end.
Definition get_str (r : list cell) (i : nat) : exn + list ascii :=
  match r !! i with Some (CStr s) => inr s | Some CNull => inl SociError | _ => inl OtherException end.

(** ** Messages *)

Record NewPrivateMsg := {
  p_sender : Z; p_sender_msg_id : Z; p_receiver : Z; p_receiver_msg_id : Z; p_message : list ascii;
  p_msg_time : Z; p_client_time : Z
}.
Record NewGroupMsg := {
  g_group_id : Z; g_user_and_msgids : list (Z * Z); g_sender_user_id : Z; g_sender_msg_id : Z;
  g_message : list ascii; g_msg_time : Z; g_client_time : Z
}.
Record UserLastSendData := { l_user_id : Z; l_msg_id : Z; l_client_time : Z; l_msg_time : Z }.
Record Session := { has_session : bool; s_user_id : Z; s_addr : list ascii }.
Record Msg := {
  m_user_id : Z; m_msg_id : Z; m_sender : Z; m_receiver : Z; m_message : list ascii; m_group_id : Z;
  m_client_time : Z; m_msg_time : Z
}.
(** [UserInfo] and [GroupInfo] alike. *)
Definition Info : Type := Z * list ascii.

(** ** [sscanf(s, "[%ld,%d,%d]", ...)] *)

Fixpoint span_digits (s : list ascii) : list ascii * list ascii :=
  match s with
  | c :: s' => if isdigit c then let '(d, r) := span_digits s' in (c :: d, r) else ([], s)
  | [] => ([], [])
  end.

(** A number at the beginning, after white space, and what follows it. *)
Definition scan_int (s : list ascii) : option (Z * list ascii) :=
  let '(neg, s1) := match skip_space s with
                    | c :: s' => if bool_decide (c = "-"%char) then (true, s')
                                 else if bool_decide (c = "+"%char) then (false, s') else (false, c :: s')
                    | [] => (false, [])
                    end in
  let '(d, r) := span_digits s1 in
  if bool_decide (d = []) then None
  else
    let v := digits_val 0 d in
    Some (Z.max (- LONG_MAX - 1) (Z.min LONG_MAX (if neg : bool then - v else v)), r).

Definition scan_char (c : ascii) (s : list ascii) : option (list ascii) :=
  match s with x :: s' => if bool_decide (x = c) then Some s' else None | [] => None end.

(** The three variables keep their values from where the input stops matching. *)
Definition scan_last (s : list ascii) (v : Z * Z * Z) : Z * Z * Z :=
  let '(a, b, c) := v in
  match scan_char "["%char s ≫= scan_int with
  | None => (a, b, c)
  | Some (a, s) =>
    match scan_char ","%char s ≫= scan_int with
    | None => (a, b, c)
    | Some (b, s) =>
      match scan_char ","%char s ≫= scan_int with
      | None => (a, to_int b, c)
      | Some (c, _) => (a, to_int b, to_int c)
      end
    end
  end.

(** ** Lemmas on the scan *)

Lemma span_digits_app d c r : Forall (fun x => isdigit x = true) d -> isdigit c = false ->
  span_digits (d ++ c :: r) = (d, c :: r).
Proof.
  intros Hd Hc. induction Hd as [|x d Hx _ IH]; cbn [app span_digits]; [by rewrite Hc|]. by rewrite Hx, IH.
Qed.

Lemma scan_int_dec n c r : - LONG_MAX - 1 <= n <= LONG_MAX -> isdigit c = false ->
  scan_int (dec n ++ c :: r) = Some (n, c :: r).
Proof.
  intros Hn Hc. unfold scan_int, dec. destruct (Z.ltb_spec n 0) as [Hneg|Hpos].
  - destruct (dec_nonneg_spec (- n)) as (HF & Hv & Hne); [lia|]. cbn [app skip_space].
    change (isspace "-"%char) with false. cbv iota. rewrite bool_decide_eq_true_2 by done. rewrite span_digits_app by done.
    rewrite bool_decide_eq_false_2 by done. rewrite Hv. do 2 f_equal. lia.
  - destruct (dec_nonneg_spec n Hpos) as (HF & Hv & Hne).
    destruct (dec_nonneg n) as [|x d] eqn:E; [done|]. pose proof HF as [Hx _]%Forall_cons.
    destruct (digit_not_special x Hx) as (Hsp & Hm & Hp & _). cbn [app skip_space]. rewrite Hsp.
    rewrite !bool_decide_eq_false_2 by done. change (x :: d ++ c :: r) with ((x :: d) ++ c :: r).
    rewrite span_digits_app by done. rewrite bool_decide_eq_false_2 by done. rewrite Hv. do 2 f_equal. lia.
Qed.

(** The text the scan is written for. *)
Definition last_text (a b c : Z) : list ascii :=
  "["%char :: dec a ++ ","%char :: dec b ++ ","%char :: dec c ++ ["]"%char].

Lemma scan_last_text a b c v :
  - LONG_MAX - 1 <= a <= LONG_MAX -> -2147483648 <= b <= INT_MAX -> -2147483648 <= c <= INT_MAX ->
  scan_last (last_text a b c) v = (a, b, c).
Proof.
  intros Ha Hb Hc. destruct v as [[x y] z]. unfold scan_last, last_text, INT_MAX, LONG_MAX in *.
  cbn [scan_char]. rewrite bool_decide_eq_true_2 by done. cbn [mbind option_bind].
  rewrite scan_int_dec by (done || (unfold LONG_MAX; lia)). cbn [scan_char]. rewrite bool_decide_eq_true_2 by done.
  cbn [mbind option_bind]. rewrite scan_int_dec by (done || (unfold LONG_MAX; lia)). cbn [scan_char].
  rewrite bool_decide_eq_true_2 by done. cbn [mbind option_bind].
  rewrite scan_int_dec by (done || (unfold LONG_MAX; lia)). by rewrite !to_int_id by (unfold INT_MAX; lia).
Qed.

(** What the script would store is a list of JSON strings: the scan stops at
    the first quotation mark. *)
Theorem json_strings_not_scanned s v : scan_last ("["%char :: ascii_of_N 34 :: s) v = v.
Proof. by destruct v as [[x y] z]. Qed.

Module DbproxyServiceImpl.
Section handlers.
Context {R D : Type} `{Redis R} `{Soci D}.

(** The service's servers, the caller's controller, and how often the closure ran. *)
Record proxy := { redis : R; db : D; failed : option (Z * list ascii); done_runs : nat }.
#[global] Instance proxy_settable : Settable proxy := fun s => {|
  redis := redis s; db := db s; failed := failed s; done_runs := done_runs s |}.

Definition SetFailed (code : Z) (text : list ascii) : ST proxy unit :=
  modify (fun s => s <| failed := Some (code, text) |>).

Definition with_guard {A} (m : ST proxy A) : ST proxy A :=
  r ← m; _ ← modify (fun s => s <| done_runs := S (done_runs s) |>); mret r.

Definition call_redis (fmt : list ascii) (args : list fmt_arg) : ST proxy ((Z * list ascii) + reply) :=
  s ← get;
  let '(r, st) := CallMethod (AddCommand fmt args) (redis s) in
  _ ← modify (fun s => s <| redis := st |>);
  mret r.

Definition exec_sql (p : pool_id) (stmt : list ascii) (vs : list value) : ST proxy (option exn) :=
  s ← get;
  let '(r, d) := sql_exec p stmt vs (db s) in
  _ ← modify (fun s => s <| db := d |>);
  mret r.

Definition ChooseDatabase (user_id : Z) : pool_id := MessagePool.

(** The constructor: the sessions it opens, in order; [channel_ok] is the
    result of the channel's [Init]. *)
Definition ctor (db_name db_info group_name group_info : list ascii) (channel_ok : bool)
    : res (list (pool_id * nat * list ascii * list ascii)) :=
  let opened := ((fun i => (MessagePool, i, db_name, db_info)) <$> seq 0 kConnectNumEachDb) ++
                ((fun i => (GroupMembersPool, i, group_name, group_info)) <$> seq 0 kConnectNumEachDb) in
  if channel_ok then Ok opened else Halt ExitCall.

Definition Test : ST proxy unit := with_guard (mret tt).

(** ** Sessions *)

Definition AuthAndSaveSession (user_id : Z) (access_addr : list ascii) : ST proxy unit :=
  with_guard (
    r ← call_redis (lit "SET {%ld}a %s EX 3600") [ALong user_id; AStr access_addr];
    match r with inl (code, text) => SetFailed code text | inr _ => mret tt end).

Definition ClearSession (user_id : Z) : ST proxy unit :=
  with_guard (
    r ← call_redis (lit "DEL {%ld}a") [ALong user_id];
    match r with inl (code, text) => SetFailed code text | inr _ => mret tt end).

(** One key after the other, with nothing between them. *)
Definition mget_text (user_ids : list Z) : list ascii :=
  lit "MGET " ++ mjoin ((fun u => lit "{" ++ dec u ++ lit "}a") <$> user_ids).

Definition session_of (u : Z) (r : reply) : Session :=
  match r with
  | RString addr => {| has_session := true; s_user_id := u; s_addr := addr |}
  | _ => {| has_session := false; s_user_id := u; s_addr := [] |}
  end.

(** The loop over the replies; the user of reply [i] is read from the request. *)
Fixpoint add_sessions (user_ids : list Z) (i : nat) (rs : list reply) : res (list Session) :=
  match rs with
  | [] => Ok []
  | r :: rs' =>
    u ← of_option OutOfBounds (user_ids !! i);
    ss ← add_sessions user_ids (S i) rs';
    Ok (session_of u r :: ss)
  end.

(** [CHECK_EQ] ends the process. *)
Definition GetSessions (user_ids : list Z) : ST proxy (list Session) :=
  with_guard (
    r ← call_redis (mget_text user_ids) [];
    match r with
    | inl (code, text) => _ ← SetFailed code text; mret []
    | inr rep =>
      if negb (reply_size rep =? Z.of_nat (length user_ids)) then throw AssertFail
      else match rep with
           | RArray l => lift (add_sessions user_ids 0 l)
           | _ => mret []
           end
    end).

(** ** The last message a user sent *)

Definition last_script : list ascii :=
  lit "eval " ++ [ascii_of_N 34] ++ lit "local a = redis.call('GET,KEYS[1])" ++
  lit " if (a == false or tonumber(cjson.decode(a)[2]) < tonumber(ARGC[2])) then" ++
  lit " redis.call('SETEX',KEYS[1],3600, cjson.encode({ARGV[1],ARGV[2],ARGV[3]}))" ++
  lit "return 1" ++ lit " else" ++ lit "return 0" ++ lit " end" ++ [ascii_of_N 34] ++ lit " ".

Definition last_command (d : UserLastSendData) : list ascii :=
  last_script ++ dec 1 ++ lit " " ++ lit "{" ++ dec (l_user_id d) ++ lit "}" ++ lit "u " ++
  dec (l_msg_id d) ++ lit " " ++ dec (l_client_time d) ++ lit " " ++ dec (l_msg_time d).

Definition SetUserLastSendData_ (d : UserLastSendData) : ST proxy unit :=
  r ← call_redis (last_command d) [];
  match r with
  | inl _ => SetFailed EINVAL (lit "fail to set user last send data")
  | inr _ => mret tt
  end.

Definition SetUserLastSendData (d : UserLastSendData) : ST proxy unit := with_guard (SetUserLastSendData_ d).

Definition last_query : list ascii :=
  lit "SELECT msg_id,UNIX_TIMESTAMP(client_time),UNIX_TIMESTAMP(msg_time) " ++ lit "FROM messages " ++
  lit "WHERE user_id=:user_id and sender = :sender " ++
  lit "AND client_time = (SELECT MAX(client_time) FROM messages WHERE user_id= :user_id2 AND sender=:sender2);".

(** The answer: message, client time and message time; [None] when it was not
    filled in. *)
Definition GetUserLastSendData (user_id : Z) : ST proxy (option (Z * Z * Z)) :=
  with_guard (
    r ← call_redis (lit "GET {%ld}u") [ALong user_id];
    match r with
    | inl _ => _ ← SetFailed EINVAL (lit "Fail to get data from redis."); mret None
    | inr (RString text) => mret (Some (scan_last text (0, 0, 0)))
    | inr _ =>
      s ← get;
      let '(q, d) := sql_into (ChooseDatabase user_id) last_query
                       [VInt user_id; VInt user_id; VInt user_id; VInt user_id] (db s) in
      _ ← modify (fun s => s <| db := d |>);
      match q with
      | inl _ => _ ← SetFailed EINVAL (lit "Fail to select from messages. "); mret None
      | inr v =>
        ok ← lift (of_option Indeterminate (i_ind v));
        mret (Some (if ok : bool then (i_msg_id v, i_client_time v, i_msg_time v) else (0, 0, 0)))
      end
    end).

(** ** Saving messages *)

Definition insert_head : list ascii :=
  lit "INSERT INTO messages(user_id, sender, receiver, msg_id, group_id, message, client_time, msg_time) ".

Definition insert_pair : list ascii :=
  insert_head ++
  lit "VALUES (:user_id, :sender, :receiver, :msg_id, :group_id, :message, FROM_UNIXTIME(:client_time), FROM_UNIXTIME(:msg_time)), " ++
  lit "(:receiver2, :sender2, :receiver2, :receiver_msg_id2, :group_id2, :message2, FROM_UNIXTIME(:client_time2), FROM_UNIXTIME(:msg_time2));".

Definition insert_own : list ascii :=
  lit "INSERT INTO messages(user_id, sender,receiver,msg_id,group_id,message,client_time,msg_time) " ++
  lit "VALUES (:user_id,:sender,:receiver,:msg_id,:group_id,:message, FROM_UNIXTIME(:client_time), FROM_UNIXTIME(:msg_time));".

Definition insert_peer : list ascii :=
  insert_head ++
  lit "VALUES (:user_id, :sender, :receiver, :receiver_msg_id, :group_id, :message, FROM_UNIXTIME(:client_send), FROM_UNIXTIME(:msg_time));".

Definition insert_group : list ascii :=
  lit "INSERT INTO messages(user_id, sender,receiver,msg_id,group_id,message,client_time, msg_time) " ++
  lit "VALUES (:user_id,:sender,:receiver,:msg_id,:group_id,:message,FROM_UNIXTIME(:client_time),FROM_UNIXTIME(:msg_time)) ".

(** The values of one row of [messages]. *)
Definition row_values (user sender receiver msg_id group : Z) (text : list ascii) (client_time msg_time : Z) : list value :=
  [VInt user; VInt sender; VInt receiver; VInt msg_id; VInt group; VStr text; VInt client_time; VInt msg_time].

Definition sender_row (m : NewPrivateMsg) : list value :=
  row_values (p_sender m) (p_sender m) (p_receiver m) (p_sender_msg_id m) 0 (p_message m) (p_client_time m) (p_msg_time m).
Definition receiver_row (m : NewPrivateMsg) : list value :=
  row_values (p_receiver m) (p_sender m) (p_receiver m) (p_receiver_msg_id m) 0 (p_message m) (p_client_time m) (p_msg_time m).

Definition private_last (m : NewPrivateMsg) : UserLastSendData :=
  {| l_user_id := p_sender m; l_msg_id := p_sender_msg_id m; l_client_time := p_client_time m; l_msg_time := p_msg_time m |}.

(** The [try] of [SavePrivateMsg]. *)
Definition insert_private (m : NewPrivateMsg) : ST proxy (option exn) :=
  let pool := ChooseDatabase (p_sender m) in
  let peer_pool := ChooseDatabase (p_receiver m) in
  if bool_decide (pool = peer_pool) then exec_sql pool insert_pair (sender_row m ++ receiver_row m)
  else
    e ← exec_sql pool insert_own (sender_row m);
    match e with
    | Some x => mret (Some x)
    | None => exec_sql peer_pool insert_peer (receiver_row m)
    end.

Definition SavePrivateMsg (m : NewPrivateMsg) : ST proxy unit :=
  with_guard (
    e ← insert_private m;
    match e with
    | Some SociError => SetFailed EINVAL (lit "Fail to insert to message.")
    | Some OtherException => throw Thrown
    | None => SetUserLastSendData_ (private_last m)
    end).

(** One insert per member, until one fails. *)
Fixpoint insert_members (m : NewGroupMsg) (us : list (Z * Z)) : ST proxy (option exn) :=
  match us with
  | [] => mret None
  | (u, id) :: us' =>
    e ← exec_sql (ChooseDatabase u) insert_group
          (row_values u (g_sender_user_id m) (g_group_id m) id (g_group_id m) (g_message m) (g_client_time m) (g_msg_time m));
    match e with
    | Some x => mret (Some x)
    | None => insert_members m us'
    end
  end.

Definition group_last (m : NewGroupMsg) : UserLastSendData :=
  {| l_user_id := g_sender_user_id m; l_msg_id := g_sender_msg_id m; l_client_time := g_client_time m;
     l_msg_time := g_msg_time m |}.

Definition SaveGroupMsg (m : NewGroupMsg) : ST proxy unit :=
  with_guard (
    e ← insert_members m (g_user_and_msgids m);
    match e with
    | Some _ => SetFailed EINVAL (lit "fail to insert into messgaes.")
    | None => SetUserLastSendData_ (group_last m)
    end).

(** ** Queries of many rows *)

(** The rows are added to the answer one by one; an exception ends the loop.  A
    message is in the answer before its columns are read: the one that fails
    stays there, incomplete. *)
Fixpoint add_rows {A} (of_row : list cell -> A * option exn) (rows : list (list cell)) : list A * option exn :=
  match rows with
  | [] => ([], None)
  | r :: rows' =>
    match of_row r with
    | (a, Some x) => ([a], Some x)
    | (a, None) => let '(l, e) := add_rows of_row rows' in (a :: l, e)
    end
  end.

Definition query_rows {A} (pool : pool_id) (stmt : list ascii) (vs : list value)
    (of_row : list cell -> A * option exn) (what : list ascii) : ST proxy (list A) :=
  s ← get;
  let '(q, d) := sql_rows pool stmt vs (db s) in
  _ ← modify (fun s => s <| db := d |>);
  let '(l, e) := match q with inl x => ([], Some x) | inr rows => add_rows of_row rows end in
  match e with
  | None => mret l
  | Some SociError => _ ← SetFailed EINVAL what; mret l
  | Some OtherException => throw Thrown
  end.

Definition msg0 (u : Z) : Msg :=
  {| m_user_id := u; m_msg_id := 0; m_sender := 0; m_receiver := 0; m_message := []; m_group_id := 0;
     m_client_time := 0; m_msg_time := 0 |}.
#[global] Instance msg_settable : Settable Msg := fun m => {|
  m_user_id := m_user_id m; m_msg_id := m_msg_id m; m_sender := m_sender m; m_receiver := m_receiver m;
  m_message := m_message m; m_group_id := m_group_id m; m_client_time := m_client_time m; m_msg_time := m_msg_time m |}.

(** One setter after the other, each with its column. *)
Definition set_col {A B} (x : exn + B) (f : B -> A -> A) (k : A -> A * option exn) (a : A) : A * option exn :=
  match x with inl e => (a, Some e) | inr b => k (f b a) end.

Definition msg_of_row (u : Z) (r : list cell) : Msg * option exn :=
  (set_col (get_int r 0) (fun v m => m <| m_sender := v |>)
  (set_col (get_int r 1) (fun v m => m <| m_receiver := v |>)
  (set_col (get_int r 2) (fun v m => m <| m_msg_id := v |>)
  (set_col (get_int r 3) (fun v m => m <| m_group_id := v |>)
  (set_col (get_str r 4) (fun v m => m <| m_message := v |>)
  (set_col (get_int r 5) (fun v m => m <| m_client_time := to_int v |>)
  (set_col (get_int r 6) (fun v m => m <| m_msg_time := to_int v |>)
  (fun m => (m, None))))))))) (msg0 u).

Definition info_of_row (r : list cell) : Info * option exn :=
  (set_col (get_int r 0) (fun v a => (v, snd a))
  (set_col (get_str r 1) (fun v a => (fst a, v))
  (fun a => (a, None)))) (0, []).

Definition msgs_query : list ascii :=
  lit "SELECT sender, receiver, msg_id,group_id,message, " ++ lit "UNIX_TIMESTAMP(client_time),UNIX_TIMESTAMP(msg_time)" ++
  lit "FROM messages " ++
  lit "WHERE user_id=:user_id AND msg_id BETWEEN :start_msg_id AND :end_msg_id AND deleted =0".
Definition friends_query : list ascii :=
  lit "SELECT peer_id,peer_name" ++ lit "FROM friends" ++ lit "WHERE user_id=:user_id AND deleted=0".
Definition groups_query : list ascii :=
  lit "SELECT group_id,group_name" ++ lit "FROM group_members" ++ lit "WHERE user_id=:user_id".
Definition members_query : list ascii :=
  lit "SELECT user_id,user_name " ++ lit "FROM group_members " ++ lit "WHERE group_id =:group_id".

Definition GetMsgs (user_id start_msg_id end_msg_id : Z) : ST proxy (list Msg) :=
  with_guard (query_rows (ChooseDatabase user_id) msgs_query [VInt user_id; VInt start_msg_id; VInt end_msg_id]
    (msg_of_row user_id) (lit "fail to select from messages. ")).

Definition GetFriends (user_id : Z) : ST proxy (list Info) :=
  with_guard (query_rows (ChooseDatabase user_id) friends_query [VInt user_id] info_of_row
    (lit "fail to select from friends.")).

Definition GetGroups (user_id : Z) : ST proxy (list Info) :=
  with_guard (query_rows (ChooseDatabase user_id) groups_query [VInt user_id] info_of_row
    (lit "fail to select from group_members.")).

Definition GetGroupMembers (group_id : Z) : ST proxy (list Info) :=
  with_guard (query_rows (ChooseDatabase group_id) members_query [VInt group_id] info_of_row
    (lit "Fail to select from group_members.")).

(** ** A redis server that answers

    The documented behaviour of the commands that are used, and of the
    formatting of a command: its words, by the blanks of the format. *)

Definition SP : ascii := ascii_of_N 32.

Fixpoint words_from (w : list ascii) (s : list ascii) : list (list ascii) :=
  match s with
  | [] => if bool_decide (w = []) then [] else [w]
  | c :: s' =>
    if bool_decide (c = SP) then (if bool_decide (w = []) then [] else [w]) ++ words_from [] s'
    else words_from (w ++ [c]) s'
  end.
Definition words (s : list ascii) : list (list ascii) := words_from [] s.

Definition session_key (u : Z) : list ascii := lit "{" ++ dec u ++ lit "}a".
Definition last_key (u : Z) : list ascii := lit "{" ++ dec u ++ lit "}u".

Definition bulk (o : option (list ascii)) : reply := match o with Some v => RString v | None => RNil end.

Class RedisLaws := {
  kv : R -> gmap (list ascii) (list ascii);
  add_set u addr : AddCommand (lit "SET {%ld}a %s EX 3600") [ALong u; AStr addr] =
    Some [lit "SET"; session_key u; addr; lit "EX"; lit "3600"];
  add_del u : AddCommand (lit "DEL {%ld}a") [ALong u] = Some [lit "DEL"; session_key u];
  add_text t : "%"%char ∉ t -> AddCommand t [] = Some (words t);
  call_set k v st : exists st', CallMethod (Some [lit "SET"; k; v; lit "EX"; lit "3600"]) st =
    (inr (RString (lit "OK")), st') /\ kv st' = <[k := v]> (kv st);
  call_del k st : exists n st', CallMethod (Some [lit "DEL"; k]) st = (inr (RInteger n), st') /\
    kv st' = delete k (kv st);
  call_mget ks st : ks <> [] ->
    CallMethod (Some (lit "MGET" :: ks)) st = (inr (RArray ((fun k => bulk (kv st !! k)) <$> ks)), st)
}.

Lemma words_plain w s : SP ∉ s -> words_from w s = if bool_decide (w ++ s = []) then [] else [w ++ s].
Proof.
  revert w. induction s as [|c s IH]; intros w Hs; [by rewrite app_nil_r|].
  apply not_elem_of_cons in Hs as [Hc Hs]. cbn [words_from]. rewrite bool_decide_eq_false_2 by done.
  rewrite IH by done. by rewrite <- app_assoc.
Qed.

Lemma words_cons w s t : SP ∉ s -> w ++ s <> [] -> words_from w (s ++ SP :: t) = (w ++ s) :: words_from [] t.
Proof.
  revert w. induction s as [|c s IH]; intros w Hs Hne; cbn [app words_from].
  - rewrite app_nil_r in *. rewrite bool_decide_eq_true_2, bool_decide_eq_false_2 by done. done.
  - apply not_elem_of_cons in Hs as [Hc Hs]. rewrite bool_decide_eq_false_2 by done.
    rewrite IH by (done || by destruct w). by rewrite <- app_assoc.
Qed.

(** The characters of a number. *)
Lemma dec_chars n : Forall (fun c => isdigit c = true \/ c = "-"%char) (dec n).
Proof.
  assert (forall m, 0 <= m -> Forall (fun c => isdigit c = true \/ c = "-"%char) (dec_nonneg m)) as Hm.
  { intros m Hm. destruct (dec_nonneg_spec m Hm) as [HF _]. eapply Forall_impl; [exact HF|]. auto. }
  unfold dec. destruct (Z.ltb_spec n 0); [|auto]. constructor; [by right|]. apply Hm. lia.
Qed.

Lemma dec_without n c : isdigit c = false -> c <> "-"%char -> c ∉ dec n.
Proof. intros Hc Hm Hin. apply (proj1 (Forall_forall _ _) (dec_chars n)) in Hin as [?|?]; congruence. Qed.

Lemma key_without u c : isdigit c = false -> c ∉ ["-"; "{"; "}"; "a"]%char -> c ∉ session_key u.
Proof.
  rewrite !not_elem_of_cons. intros Hd (Hm & H1 & H2 & H3 & _). unfold session_key.
  change (lit "{") with ["{"%char]. change (lit "}a") with ["}"; "a"]%char.
  rewrite !not_elem_of_app, !not_elem_of_cons.
  split_and!; [done|apply not_elem_of_nil|by apply dec_without|done|done|apply not_elem_of_nil].
Qed.

Lemma keys_without us c : isdigit c = false -> c ∉ ["-"; "{"; "}"; "a"]%char ->
  c ∉ mjoin (session_key <$> us).
Proof.
  intros Hd Hc. induction us as [|u us IH]; [apply not_elem_of_nil|].
  rewrite fmap_cons. cbn [mjoin list_join]. rewrite not_elem_of_app. split; [by apply key_without|done].
Qed.

(** All the keys arrive as one word. *)
Lemma mget_words us : us <> [] -> words (mget_text us) = [lit "MGET"; mjoin (session_key <$> us)].
Proof.
  intros Hus. unfold words, mget_text. change (lit "MGET ") with (lit "MGET" ++ [SP]). rewrite <- app_assoc.
  cbn [app]. rewrite (words_cons [] (lit "MGET")); [|by apply (bool_decide_unpack _); vm_compute|done].
  rewrite words_plain; [|apply keys_without; [done|by apply (bool_decide_unpack _); vm_compute]].
  rewrite bool_decide_eq_false_2; [done|]. destruct us; [done|]. by cbn.
Qed.

Lemma mget_no_percent us : "%"%char ∉ mget_text us.
Proof.
  unfold mget_text. rewrite not_elem_of_app. split; [by apply (bool_decide_unpack _); vm_compute|].
  apply keys_without; [done|by apply (bool_decide_unpack _); vm_compute].
Qed.

Lemma call_redis_run fmt args c r st s :
  AddCommand fmt args = c -> CallMethod c (redis s) = (r, st) ->
  call_redis fmt args s = Ok (r, s <| redis := st |>).
Proof. intros Hc Hr. unfold call_redis. st_step reflexivity. rewrite Hc, Hr. done. Qed.

Lemma with_guard_run {A} (m : ST proxy A) s a s' : m s = Ok (a, s') ->
  with_guard m s = Ok (a, s' <| done_runs := S (done_runs s') |>).
Proof. intros Hm. unfold with_guard. st_step (exact Hm). st_step reflexivity. done. Qed.

Section sessions.
Context `{!RedisLaws}.

Lemma get_sessions_run us s : us <> [] ->
  GetSessions us s =
    match us with
    | [u] => Ok ([session_of u (bulk (kv (redis s) !! session_key u))], s <| done_runs := S (done_runs s) |>)
    | _ => Halt AssertFail
    end.
Proof.
  intros Hus.
  assert (call_redis (mget_text us) [] s =
    Ok (inr (RArray [bulk (kv (redis s) !! mjoin (session_key <$> us))]), s)) as Hcall.
  { erewrite call_redis_run; [|apply add_text, mget_no_percent|rewrite mget_words by done; by apply call_mget].
    by destruct s. }
  unfold GetSessions, with_guard. destruct us as [|u [|u' us]]; [done| |].
  - st_step (st_step (exact Hcall); reflexivity). st_step reflexivity. cbn. unfold mret, ST_ret.
    by rewrite app_nil_r.
  - apply ST_bind_halt. rewrite (ST_bind_step _ _ _ _ _ Hcall). cbn [reply_size length].
    rewrite (proj2 (Z.eqb_neq _ _)) by lia. done.
Qed.

Lemma auth_run u addr s : exists s', AuthAndSaveSession u addr s = Ok (tt, s') /\
  kv (redis s') = <[session_key u := addr]> (kv (redis s)) /\ failed s' = failed s /\ db s' = db s /\
  done_runs s' = S (done_runs s).
Proof.
  destruct (call_set (session_key u) addr (redis s)) as (st & Hcall & Hkv).
  eexists. split.
  { unfold AuthAndSaveSession. apply with_guard_run. st_step (apply (call_redis_run _ _ _ _ _ _ (add_set u addr) Hcall)).
    reflexivity. }
  by split_and!.
Qed.

Lemma clear_run u s : exists s', ClearSession u s = Ok (tt, s') /\
  kv (redis s') = delete (session_key u) (kv (redis s)) /\ failed s' = failed s /\ db s' = db s /\
  done_runs s' = S (done_runs s).
Proof.
  destruct (call_del (session_key u) (redis s)) as (n & st & Hcall & Hkv).
  eexists. split.
  { unfold ClearSession. apply with_guard_run. st_step (apply (call_redis_run _ _ _ _ _ _ (add_del u) Hcall)).
    reflexivity. }
  by split_and!.
Qed.

Lemma session_key_inj u u' : - LONG_MAX - 1 <= u <= LONG_MAX -> - LONG_MAX - 1 <= u' <= LONG_MAX ->
  session_key u = session_key u' -> u = u'.
Proof.
  intros Hu Hu' E. unfold session_key in E. apply List.app_inv_head, List.app_inv_tail in E.
  rewrite <- (strtol_dec_lemma u), <- (strtol_dec_lemma u') by done. by rewrite E.
Qed.


End sessions.

(** ** Saving messages *)

(** The redis part, with its answer. *)
Lemma last_run d s r st : CallMethod (AddCommand (last_command d) []) (redis s) = (r, st) ->
  SetUserLastSendData_ d s = Ok (tt, s <| redis := st |>
    <| failed := match r with inl _ => Some (EINVAL, lit "fail to set user last send data") | inr _ => failed s end |>).
Proof.
  intros Hr. unfold SetUserLastSendData_. st_step (by apply (call_redis_run (last_command d) [] _ r st s eq_refl)).
  destruct r; [done|]. by destruct s.
Qed.

Lemma exec_sql_run p stmt vs s e d : sql_exec p stmt vs (db s) = (e, d) ->
  exec_sql p stmt vs s = Ok (e, s <| db := d |>).
Proof. intros Hd. unfold exec_sql. st_step reflexivity. by rewrite Hd. Qed.

(** [SavePrivateMsg] makes one insert with the sender's and the receiver's
    row; when it succeeds the sender's last message is handed to redis, whose
    failure marks the call as failed; when soci fails the call is marked as
    failed and redis is not asked.  The closure runs once in each case. *)
Theorem save_private_outcome m s e d r st :
  sql_exec MessagePool insert_pair (sender_row m ++ receiver_row m) (db s) = (e, d) -> e <> Some OtherException ->
  CallMethod (AddCommand (last_command (private_last m)) []) (redis s) = (r, st) ->
  SavePrivateMsg m s = Ok (tt, {|
    redis := match e with None => st | Some _ => redis s end;
    db := d;
    failed := match e, r with
              | Some _, _ => Some (EINVAL, lit "Fail to insert to message.")
              | None, inl _ => Some (EINVAL, lit "fail to set user last send data")
              | None, inr _ => failed s
              end;
    done_runs := S (done_runs s) |}).
Proof.
  intros He Hne Hr. unfold SavePrivateMsg.
  assert (insert_private m s = Ok (e, s <| db := d |>)) as Hins.
  { unfold insert_private, ChooseDatabase. cbv zeta. rewrite bool_decide_eq_true_2 by done. by apply exec_sql_run. }
  destruct e as [[]|]; [|done|].
  - erewrite with_guard_run; [|st_step (exact Hins); reflexivity]. by destruct s.
  - erewrite with_guard_run; [|st_step (exact Hins); by apply last_run]. by destruct r, s.
Qed.

(** The inserts of a group message as a list of statements, run until one fails. *)
Fixpoint exec_all (qs : list (pool_id * list ascii * list value)) (d : D) : option exn * D :=
  match qs with
  | [] => (None, d)
  | (p, q, vs) :: qs' =>
    match sql_exec p q vs d with
    | (Some x, d') => (Some x, d')
    | (None, d') => exec_all qs' d'
    end
  end.

Definition member_insert (m : NewGroupMsg) (u : Z * Z) : pool_id * list ascii * list value :=
  (MessagePool, insert_group,
   row_values u.1 (g_sender_user_id m) (g_group_id m) u.2 (g_group_id m) (g_message m) (g_client_time m) (g_msg_time m)).

Lemma insert_members_run m us : forall s, insert_members m us s =
  Ok ((exec_all (member_insert m <$> us) (db s)).1, s <| db := (exec_all (member_insert m <$> us) (db s)).2 |>).
Proof.
  induction us as [|[u id] us IH]; intros s; [by destruct s|].
  rewrite fmap_cons. cbn [insert_members exec_all member_insert fst snd].
  destruct (sql_exec _ _ _ (db s)) as [e d'] eqn:E. st_step (by apply exec_sql_run).
  destruct e; [done|]. rewrite IH. by destruct s.
Qed.

(** [SaveGroupMsg] inserts one row per member in the order of the request.
    When all succeed the sender's last message is handed to redis; when one
    fails the later ones are not made, the rows before it stay, and redis is
    not asked: the message is saved for a part of the group. *)
Theorem save_group_outcome m s e d r st :
  exec_all (member_insert m <$> g_user_and_msgids m) (db s) = (e, d) ->
  CallMethod (AddCommand (last_command (group_last m)) []) (redis s) = (r, st) ->
  SaveGroupMsg m s = Ok (tt, {|
    redis := match e with None => st | Some _ => redis s end;
    db := d;
    failed := match e, r with
              | Some _, _ => Some (EINVAL, lit "fail to insert into messgaes.")
              | None, inl _ => Some (EINVAL, lit "fail to set user last send data")
              | None, inr _ => failed s
              end;
    done_runs := S (done_runs s) |}).
Proof.
  intros He Hr. unfold SaveGroupMsg. pose proof (insert_members_run m (g_user_and_msgids m) s) as Hins.
  rewrite He in Hins. cbn [fst snd] in Hins.
  destruct e.
  - erewrite with_guard_run; [|st_step (exact Hins); reflexivity]. by destruct s.
  - erewrite with_guard_run; [|st_step (exact Hins); by apply last_run]. by destruct r, s.
Qed.

(** A member whose insert fails keeps the later ones from theirs. *)
Lemma exec_all_app qs1 q qs2 d d1 x d2 :
  exec_all qs1 d = (None, d1) -> sql_exec q.1.1 q.1.2 q.2 d1 = (Some x, d2) ->
  exec_all (qs1 ++ q :: qs2) d = (Some x, d2).
Proof.
  revert d. induction qs1 as [|[[p t] vs] qs1 IH]; intros d H1 H2; cbn [app exec_all] in *.
  - simplify_eq. destruct q as [[p t] vs]. cbn [fst snd] in H2. by rewrite H2.
  - destruct (sql_exec p t vs d) as [[x'|] d']; [done|]. by apply IH.
Qed.

(** ** Rows *)

(** A row of [messages] as the query returns it. *)
Definition msg_row (m : Msg) : list cell :=
  [CInt (m_sender m); CInt (m_receiver m); CInt (m_msg_id m); CInt (m_group_id m); CStr (m_message m);
   CInt (m_client_time m); CInt (m_msg_time m)].
Definition msg_ok (u : Z) (m : Msg) : Prop :=
  m_user_id m = u /\ -2147483648 <= m_client_time m <= INT_MAX /\ -2147483648 <= m_msg_time m <= INT_MAX.

Lemma msg_of_row_ok u m : msg_ok u m -> msg_of_row u (msg_row m) = (m, None).
Proof.
  intros (Hu & Hc & Ht). destruct m. unfold msg_of_row, msg_row. cbn in *. by rewrite !to_int_id, Hu by done.
Qed.

Lemma add_rows_prefix {A} (of_row : list cell -> A * option exn) (f : A -> list cell) xs r a e rest :
  Forall (fun x => of_row (f x) = (x, None)) xs -> of_row r = (a, Some e) ->
  add_rows of_row (map f xs) = (xs, None) /\ add_rows of_row (map f xs ++ r :: rest) = (xs ++ [a], Some e).
Proof.
  intros Hxs Hr. induction Hxs as [|x xs Hx _ [IH1 IH2]]; cbn [map app add_rows]; [by rewrite Hr|].
  by rewrite Hx, IH1, IH2.
Qed.

(** [GetMsgs] answers the rows of the query as messages, in their order and
    with every column in its field; a null in a row ends it with the messages
    so far, the incomplete one last, and the call marked as failed. *)
Theorem get_msgs_rows u a b s d ms r bad rest :
  Forall (msg_ok u) ms -> msg_of_row u r = (bad, Some SociError) ->
  (sql_rows MessagePool msgs_query [VInt u; VInt a; VInt b] (db s) = (inr (map msg_row ms), d) ->
   GetMsgs u a b s = Ok (ms, s <| db := d |> <| done_runs := S (done_runs s) |>)) /\
  (sql_rows MessagePool msgs_query [VInt u; VInt a; VInt b] (db s) = (inr (map msg_row ms ++ r :: rest), d) ->
   GetMsgs u a b s = Ok (ms ++ [bad], s <| db := d |>
     <| failed := Some (EINVAL, lit "fail to select from messages. ") |> <| done_runs := S (done_runs s) |>)).
Proof.
  intros Hms Hr. destruct (add_rows_prefix (msg_of_row u) msg_row ms r bad SociError rest) as [H1 H2]; [|done|].
  { eapply Forall_impl; [exact Hms|]. intros m Hm. by apply msg_of_row_ok. }
  split; intros Hq; unfold GetMsgs, ChooseDatabase.
  - rewrite (with_guard_run _ s ms (s <| db := d |>)); [done|].
    unfold query_rows. st_step reflexivity. rewrite Hq. st_step reflexivity. by rewrite H1.
  - rewrite (with_guard_run _ s (ms ++ [bad]) (s <| db := d |>
      <| failed := Some (EINVAL, lit "fail to select from messages. ") |>)); [done|]. unfold query_rows. st_step reflexivity. rewrite Hq.
    st_step reflexivity. rewrite H2. st_step reflexivity. done.
Qed.

(** [GetUserLastSendData] answers what redis holds, read from the text
    [[msg_id,client_time,msg_time]]; without it the row of the database, or
    zeros when its first column is null; a failure of either marks the call as
    failed. *)
Theorem last_data_answer u s st rep :
  CallMethod (AddCommand (lit "GET {%ld}u") [ALong u]) (redis s) = (rep, st) ->
  match rep with
  | inl _ => GetUserLastSendData u s = Ok (None, s <| redis := st |>
               <| failed := Some (EINVAL, lit "Fail to get data from redis.") |> <| done_runs := S (done_runs s) |>)
  | inr (RString text) => forall a b c, text = last_text a b c ->
      - LONG_MAX - 1 <= a <= LONG_MAX -> -2147483648 <= b <= INT_MAX -> -2147483648 <= c <= INT_MAX ->
      GetUserLastSendData u s = Ok (Some (a, b, c), s <| redis := st |> <| done_runs := S (done_runs s) |>)
  | inr _ => forall q d, sql_into MessagePool last_query [VInt u; VInt u; VInt u; VInt u] (db s) = (q, d) ->
      match q with
      | inl _ => GetUserLastSendData u s = Ok (None, s <| redis := st |> <| db := d |>
                   <| failed := Some (EINVAL, lit "Fail to select from messages. ") |>
                   <| done_runs := S (done_runs s) |>)
      | inr v => forall ok, i_ind v = Some ok ->
          GetUserLastSendData u s =
            Ok (Some (if ok : bool then (i_msg_id v, i_client_time v, i_msg_time v) else (0, 0, 0)),
                s <| redis := st |> <| db := d |> <| done_runs := S (done_runs s) |>)
      end
  end.
Proof.
  intros Hr. pose proof (call_redis_run _ _ _ _ _ s eq_refl Hr) as Hcall.
  assert (forall q d, (forall t, rep <> inr (RString t)) -> (forall x, rep <> inl x) ->
    sql_into MessagePool last_query [VInt u; VInt u; VInt u; VInt u] (db s) = (q, d) ->
    match q with
    | inl _ => GetUserLastSendData u s = Ok (None, s <| redis := st |> <| db := d |>
                 <| failed := Some (EINVAL, lit "Fail to select from messages. ") |> <| done_runs := S (done_runs s) |>)
    | inr v => forall ok, i_ind v = Some ok -> GetUserLastSendData u s =
        Ok (Some (if ok : bool then (i_msg_id v, i_client_time v, i_msg_time v) else (0, 0, 0)),
            s <| redis := st |> <| db := d |> <| done_runs := S (done_runs s) |>)
    end) as Hsql.
  { intros q d Hs Hl Hq. unfold GetUserLastSendData, with_guard. destruct rep as [x|[]]; try congruence;
      (destruct q as [x|v]; [|intros ok Hok]; st_step (st_step (exact Hcall); st_step reflexivity; cbn [db set];
        unfold ChooseDatabase; rewrite Hq; st_step reflexivity; rewrite ?Hok; reflexivity); reflexivity). }
  destruct rep as [x|[text| | | |]]; try (intros q d Hq; by apply Hsql).
  - unfold GetUserLastSendData, with_guard. st_step (st_step (exact Hcall); reflexivity). done.
  - intros a b c -> Ha Hb Hc. unfold GetUserLastSendData, with_guard. st_step (st_step (exact Hcall); reflexivity).
    st_step reflexivity. by rewrite scan_last_text.
Qed.
End handlers.
Arguments proxy : clear implicits.

(** The script in [last_command] has an odd number of single quotes: the name
    of its first command is not closed. *)
Theorem last_script_unbalanced : Nat.odd (length (filter (fun c => c = ascii_of_N 39) last_script)) = true.
Proof. vm_compute. reflexivity. Qed.

(** The pieces of two queries are put together without a blank: FROM is not a
    word of them. *)
Theorem queries_without_from : lit "FROM" ∉ words friends_query /\ lit "FROM" ∉ words groups_query.
Proof. split; apply (bool_decide_unpack _); vm_compute; exact I. Qed.

(** ** A small redis and a small database *)

#[global] Instance arg_eq_dec : EqDecision fmt_arg.
Proof. solve_decision. Defined.

Definition store : Type := gmap (list ascii) (list ascii).

Definition store_command (fmt : list ascii) (args : list fmt_arg) : command :=
  match args with
  | [] => if bool_decide ("%"%char ∈ fmt) then None else Some (words fmt)
  | [ALong u] =>
    if bool_decide (fmt = lit "DEL {%ld}a") then Some [lit "DEL"; session_key u]
    else if bool_decide (fmt = lit "GET {%ld}u") then Some [lit "GET"; last_key u] else None
  | [ALong u; AStr a] =>
    if bool_decide (fmt = lit "SET {%ld}a %s EX 3600") then Some [lit "SET"; session_key u; a; lit "EX"; lit "3600"]
    else None
  | _ => None
  end.

Definition store_call (c : command) (m : store) : ((Z * list ascii) + reply) * store :=
  match c with
  | Some (w :: k :: args) =>
    if bool_decide (w = lit "SET") then
      match args with v :: _ => (inr (RString (lit "OK")), <[k := v]> m) | [] => (inr (RError []), m) end
    else if bool_decide (w = lit "DEL") then (inr (RInteger (if m !! k then 1 else 0)), delete k m)
    else if bool_decide (w = lit "GET") then (inr (bulk (m !! k)), m)
    else if bool_decide (w = lit "MGET") then (inr (RArray ((fun k => bulk (m !! k)) <$> (k :: args))), m)
    else (inr (RError []), m)
  | _ => (inl (22, []), m)
  end.

#[global] Instance store_redis : Redis store := {| AddCommand := store_command; CallMethod := store_call |}.

#[global] Instance store_laws : RedisLaws (R := store).
Proof.
  refine {| kv := fun m => m |}.
  - done.
  - done.
  - intros t Ht. cbn. by rewrite bool_decide_eq_false_2.
  - intros k v st. by eexists.
  - intros k st. by eexists _, _.
  - intros ks st Hks. by destruct ks.
Defined.

(** A database that keeps the values of every insert, and has one row. *)
#[global] Instance log_soci : Soci (list (list value)) := {|
  sql_exec p q vs d := if bool_decide (length d = 2%nat) then (Some SociError, d) else (None, d ++ [vs]);
  sql_rows p q vs d := (inr [[CInt 1; CInt 2; CInt 3; CInt 0; CStr (lit "hi"); CInt 10; CInt 11]; [CInt 1; CNull]], d);
  sql_into p q vs d := (inr {| i_ind := Some true; i_msg_id := 4; i_client_time := 5; i_msg_time := 6 |}, d) |}.

Definition sample_proxy : proxy store (list (list value)) :=
  {| redis := {[ last_key 9 := last_text 7 8 9 ]}; db := []; failed := None; done_runs := 0 |}.



Definition sample_msg : NewPrivateMsg :=
  {| p_sender := 1; p_sender_msg_id := 3; p_receiver := 2; p_receiver_msg_id := 4; p_message := lit "hi";
     p_msg_time := 11; p_client_time := 10 |}.

Lemma save_private_outcome_witness :
  exists s', SavePrivateMsg sample_msg sample_proxy = Ok (tt, s') /\
    db s' = [sender_row sample_msg ++ receiver_row sample_msg] /\ done_runs s' = 1%nat.
Proof.
  eexists. split; [|split].
  - eapply (save_private_outcome sample_msg sample_proxy None); [reflexivity|done|apply surjective_pairing].
  - reflexivity.
  - reflexivity.
Defined.

Definition sample_group_msg : NewGroupMsg :=
  {| g_group_id := 5; g_user_and_msgids := [(1, 3); (2, 4); (6, 8)]; g_sender_user_id := 1; g_sender_msg_id := 3;
     g_message := lit "hi"; g_msg_time := 11; g_client_time := 10 |}.

Lemma save_group_outcome_witness :
  exists s', SaveGroupMsg sample_group_msg sample_proxy = Ok (tt, s') /\
    length (db s') = 2%nat /\ failed s' = Some (EINVAL, lit "fail to insert into messgaes.").
Proof.
  eexists. split; [|split].
  - eapply (save_group_outcome sample_group_msg sample_proxy); [vm_compute; reflexivity|apply surjective_pairing].
  - reflexivity.
  - reflexivity.
Defined.

Definition sample_row : Msg :=
  {| m_user_id := 1; m_msg_id := 3; m_sender := 1; m_receiver := 2; m_message := lit "hi"; m_group_id := 0;
     m_client_time := 10; m_msg_time := 11 |}.

Lemma get_msgs_rows_witness :
  exists s', GetMsgs 1 0 9 sample_proxy = Ok ([sample_row; (msg0 1) <| m_sender := 1 |>], s') /\
    failed s' = Some (EINVAL, lit "fail to select from messages. ").
Proof.
  destruct (get_msgs_rows 1 0 9 sample_proxy [] [sample_row] [CInt 1; CNull] ((msg0 1) <| m_sender := 1 |>) [])
    as [_ H].
  - apply Forall_singleton. split; [done|]. unfold INT_MAX. simpl. lia.
  - reflexivity.
  - eexists. split; [apply H; reflexivity|reflexivity].
Defined.

Lemma last_data_answer_witness :
  exists s', GetUserLastSendData 9 sample_proxy = Ok (Some (7, 8, 9), s').
Proof.
  pose proof (last_data_answer 9 sample_proxy (redis sample_proxy) (inr (RString (last_text 7 8 9)))) as H.
  eexists. apply H with (a := 7) (b := 8) (c := 9).
  - vm_compute. reflexivity.
  - reflexivity.
  - unfold LONG_MAX. lia.
  - unfold INT_MAX. lia.
  - unfold INT_MAX. lia.
Defined.
End DbproxyServiceImpl.
