(* ===== verification/Logic.v ===== *)
(** * Logic: ocean_im's logic service (logic_service.cpp) and dbproxy.cpp

    The service is mostly not written yet: what its handlers do to the call
    they were given is all there is to model, that is whether the caller's
    closure runs.  A closure that does not run leaves the caller waiting. *)

From S2P Require Import Prelude Dbproxy.

Module LogicServiceImpl.

(** The service's channels, and how often the closure of the call has run. *)
Record call := { id_channel_ : positive; db_channel_ : positive; closure_runs : nat }.
#[global] Instance call_settable : Settable call := fun c => {|
  id_channel_ := id_channel_ c; db_channel_ := db_channel_ c; closure_runs := closure_runs c |}.

Definition ctor (id_channel db_channel : positive) : call :=
  {| id_channel_ := id_channel; db_channel_ := db_channel; closure_runs := 0 |}.

Definition done_guard : ST call unit := modify (fun c => c <| closure_runs := S (closure_runs c) |>).

(** The body of [SendMsg] is a line in the log. *)
Definition Test : ST call unit := done_guard.
Definition SendMsg : ST call unit := done_guard.

(** Empty bodies, without a guard. *)
Definition PullData : ST call unit := mret tt.
Definition GetMsgs : ST call unit := mret tt.
Definition GetFriends : ST call unit := mret tt.
Definition GetGroups : ST call unit := mret tt.
Definition GetGroupMembers : ST call unit := mret tt.
Definition SendtoPeers (args : Z) : ST call Z := throw FlowOffEnd.

(** [SendToAccessClosure]: [Run] deletes the closure, whose destructor deletes
    the controller and the answer. *)
Record SendToAccessClosure := { self : positive; cntl_ : positive; pong_ : positive }.

Definition delete_object (p : positive) : ST (gset positive) unit := fun live =>
  if bool_decide (p ∈ live) then Ok (tt, live ∖ {[ p ]}) else Halt Dangling.

Definition Run (c : SendToAccessClosure) : ST (gset positive) unit :=
  _ ← delete_object (cntl_ c);
  _ ← delete_object (pong_ c);
  delete_object (self c).

(** A run of the closure frees its three objects and nothing else; a second run
    is an access to a deleted object. *)
Theorem closure_runs_once c live :
  NoDup [self c; cntl_ c; pong_ c] -> self c ∈ live -> cntl_ c ∈ live -> pong_ c ∈ live ->
  Run c live = Ok (tt, live ∖ {[ cntl_ c ]} ∖ {[ pong_ c ]} ∖ {[ self c ]}) /\
  (_ ← Run c; Run c) live = Halt Dangling.
Proof.
  rewrite !NoDup_cons, !not_elem_of_cons. intros ((H1 & H2 & _) & (H3 & _) & _) Hs Hc Hp.
  assert (Run c live = Ok (tt, live ∖ {[ cntl_ c ]} ∖ {[ pong_ c ]} ∖ {[ self c ]})) as Hrun.
  { unfold Run, delete_object. st_step (rewrite bool_decide_eq_true_2 by done; reflexivity).
    st_step (rewrite bool_decide_eq_true_2 by set_solver; reflexivity).
    rewrite bool_decide_eq_true_2 by set_solver. done. }
  split; [done|]. rewrite (ST_bind_step _ _ _ _ _ Hrun). unfold Run. apply ST_bind_halt.
  unfold delete_object. rewrite bool_decide_eq_false_2 by set_solver. done.
Qed.

(** The handlers that are not written never complete their call. *)
Theorem unwritten_handlers_never_answer c :
  Forall (fun m : ST call unit => forall c', m c = Ok (tt, c') -> closure_runs c' = closure_runs c)
    [PullData; GetMsgs; GetFriends; GetGroups; GetGroupMembers].
Proof. repeat constructor; intros c' [= <-]; done. Qed.

End LogicServiceImpl.

(** The [main] of the database proxy, with the results of the constructor and of
    brpc's [AddService] and [Start]; it returns when the server was asked to
    quit. *)
Definition dbproxy_main {A} (service : res A) (add_service start : Z) : res Z :=
  _ ← service;
  if negb (add_service =? 0) then Ok (-1)
  else if negb (start =? 0) then Ok (-1)
  else Ok 0.
